(** * The simulation core of the lane-racing game (src/backup.ts)

    A shallow embedding of the game engine: the entity classes
    ([GameObject], [Player], [NPC], [Coin], [Powerup], [Hazard],
    [Particle]) and the [GameManager] frame update, followed by the
    properties of the specification that concern them.

    Conventions of the embedding.
    - A JavaScript number is a rational ([Q]).  The classes compute in
      exact rationals; the computations in which the rounding of binary64
      arithmetic decides a comparison -- the timer and the speed
      progression, the decay of power, the lane change, the speeds of the
      constructors -- are embedded a second time with every operation
      rounded as the engine rounds it ([Binary64], [Rounded], [Clock]).
      [NaN] and the infinities are not represented.  Lane indices, the
      score and counters are integers ([Z]).
    - An object is a record; a method that mutates [this] is a function
      returning the new record.  A subclass holds the record of its
      superclass in the field [obj].
    - Whatever the engine reads from the browser ([Math.random],
      [Date.now], [Math.sin], [Math.cos], the viewport height) or writes
      to it (console, sound, DOM panels) goes through the record [World]
      and the state monad [M] over it. *)

From Stdlib Require Import ZArith QArith Qminmax Qabs Qround Qpower.
From Stdlib Require Import List Bool String Lia Lqa.
Import ListNotations.

Local Open Scope Q_scope.

(** ** JavaScript numbers *)

Module JS.

(** [a < b] *)
Definition lt (a b : Q) : bool := negb (Qle_bool b a).
(** [a > b] *)
Definition gt (a b : Q) : bool := lt b a.
(** [a <= b] *)
Definition le (a b : Q) : bool := Qle_bool a b.
(** [a >= b] *)
Definition ge (a b : Q) : bool := Qle_bool b a.

Definition Math_max (a b : Q) : Q := Qmax a b.
Definition Math_min (a b : Q) : Q := Qmin a b.
Definition Math_abs (a : Q) : Q := Qabs a.
Definition Math_floor (a : Q) : Z := Qfloor a.

(** [Math.PI]: the binary64 constant, which is this rational. *)
Definition Math_PI : Q := 884279719003555 # 281474976710656.

End JS.

(** ** The browser: oracles and effects *)

(** What the engine does to its collaborators, in the order it does it. *)
Inductive Effect : Type :=
| ConsoleLog (message : string)
| PlaySound (frequency duration : Q)
| ShowPointsSnackbar (points : Z)
| ShowNarrowEscapeSnackbar
| ShowLoadingScreen
| HideAllScreens
| ShowFloatingScore
| HideFloatingScore
| ShowGameOverScreen (finalScore : Z).

(** [random_stream n] is the result of the [n]-th call of [Math.random()],
    [clock_stream n] the result of the [n]-th call of [Date.now()];
    [sin_impl] and [cos_impl] are the host's [Math.sin] and [Math.cos]
    (implementation-approximated, hence left open). *)
Record World : Type := mkWorld {
  CANVAS_HEIGHT : Q;
  sin_impl : Q -> Q;
  cos_impl : Q -> Q;
  random_stream : nat -> Q;
  clock_stream : nat -> Q;
  random_calls : nat;
  clock_calls : nat;
  effects : list Effect
}.

Definition M (A : Type) : Type := World -> A * World.

Definition ret {A} (a : A) : M A := fun w => (a, w).

Definition bind {A B} (m : M A) (k : A -> M B) : M B :=
  fun w => let (a, w') := m w in k a w'.

Declare Scope js_scope.
Delimit Scope js_scope with js.
Notation "x <- m ;; k" := (bind m (fun x => k))
  (at level 61, m at next level, right associativity) : js_scope.
Notation "' p <- m ;; k" := (bind m (fun p => k))
  (at level 61, p pattern, m at next level, right associativity) : js_scope.
Notation "m ;;; k" := (bind m (fun _ => k))
  (at level 61, right associativity) : js_scope.
Local Open Scope js_scope.

Definition Math_random : M Q := fun w =>
  (random_stream w (random_calls w),
   mkWorld (CANVAS_HEIGHT w) (sin_impl w) (cos_impl w) (random_stream w)
           (clock_stream w) (S (random_calls w)) (clock_calls w) (effects w)).

Definition Date_now : M Q := fun w =>
  (clock_stream w (clock_calls w),
   mkWorld (CANVAS_HEIGHT w) (sin_impl w) (cos_impl w) (random_stream w)
           (clock_stream w) (random_calls w) (S (clock_calls w)) (effects w)).

Definition Math_sin (a : Q) : M Q := fun w => (sin_impl w a, w).
Definition Math_cos (a : Q) : M Q := fun w => (cos_impl w a, w).
Definition canvasHeight : M Q := fun w => (CANVAS_HEIGHT w, w).

Definition emit (e : Effect) : M unit := fun w =>
  (tt,
   mkWorld (CANVAS_HEIGHT w) (sin_impl w) (cos_impl w) (random_stream w)
           (clock_stream w) (random_calls w) (clock_calls w) (effects w ++ [e])).

(** [if (c) { body }] around an effectful body. *)
Definition when {A} (c : bool) (body : A -> M A) (a : A) : M A :=
  if c then body a else ret a.

(** [list.forEach(x => x.method(...))] for a method that mutates [x]. *)
Fixpoint mapM {A B} (f : A -> M B) (l : list A) : M (list B) :=
  match l with
  | [] => ret []
  | a :: l' => b <- f a ;; bs <- mapM f l' ;; ret (b :: bs)
  end.

(** [list.forEach(x => ...)] for a body that mutates both the element and
    the enclosing object ([S]). *)
Fixpoint forEach {A S} (f : A -> S -> M (A * S)) (l : list A) (s : S)
  : M (list A * S) :=
  match l with
  | [] => ret ([], s)
  | a :: l' =>
      '(a', s') <- f a s ;;
      '(l'', s'') <- forEach f l' s' ;;
      ret (a' :: l'', s'')
  end.

(** ** Game configuration *)

Module GAME_CONFIG.

Definition CANVAS_WIDTH : Q := 400.
Definition GAME_DURATION : Q := 60000.
Definition LANES : list Q := [100; 200; 300].

Definition BASE_NPC_SPEED : Q := 200.
Definition SPEED_INCREASE_20S : Q := 11 # 10.
Definition SPEED_INCREASE_40S : Q := 12 # 10.

Definition PLAYER_WIDTH : Q := 80.
Definition PLAYER_HEIGHT : Q := 120.
Definition LANE_CHANGE_DURATION : Q := 150.

Definition NPC_SPEED : Q := 200.
Definition NPC_SPAWN_INTERVAL : Q := 2000.
Definition MAX_NPCS : nat := 8.

Definition COIN_SIZE : Q := 25.
Definition COIN_SPAWN_CHANCE : Q := 35 # 100.
Definition COIN_SPAWN_INTERVAL : Q := 600.
Definition MAX_COINS : nat := 20.
Definition COIN_BURST_PARTICLES : nat := 20.

Definition MAX_POWER : Q := 120.
Definition POWER_DECAY_RATE : Q := 1.

Definition POWERUP_SPAWN_CHANCE : Q := 8 # 100.
Definition MAX_POWERUPS : nat := 6.
Definition SHIELD_DURATION : Q := 8000.

Definition HAZARD_SPAWN_CHANCE : Q := 8 # 100.
Definition MAX_HAZARDS : nat := 8.

Definition GRAVITY : Q := 3 # 10.

(** [GAME_CONFIG.LANES[i]].  Outside 0..2 JavaScript yields [undefined];
    the engine only indexes with lanes in range, the default stands for
    that case. *)
Definition lane (i : Z) : Q :=
  if ((0 <=? i) && (i <? 3))%Z then nth (Z.to_nat i) LANES 0 else 0.

End GAME_CONFIG.

Inductive GAME_STATE : Type :=
| SPLASH | LOADING | PLAYING | PAUSED | GAME_OVER | LEAD_FORM.

Definition GAME_STATE_eqb (a b : GAME_STATE) : bool :=
  match a, b with
  | SPLASH, SPLASH | LOADING, LOADING | PLAYING, PLAYING
  | PAUSED, PAUSED | GAME_OVER, GAME_OVER | LEAD_FORM, LEAD_FORM => true
  | _, _ => false
  end.

(** ** class GameObject *)

Module GameObject.

Record t : Type := mk {
  x : Q;
  y : Q;
  width : Q;
  height : Q;
  velocityX : Q;
  velocityY : Q;
  active : bool
}.

(** [constructor(x, y, width, height)] *)
Definition new (x y width height : Q) : t := mk x y width height 0 0 true.

Definition set_x (v : Q) (o : t) : t :=
  mk v (y o) (width o) (height o) (velocityX o) (velocityY o) (active o).
Definition set_y (v : Q) (o : t) : t :=
  mk (x o) v (width o) (height o) (velocityX o) (velocityY o) (active o).
Definition set_velocityY (v : Q) (o : t) : t :=
  mk (x o) (y o) (width o) (height o) (velocityX o) v (active o).
Definition set_active (v : bool) (o : t) : t :=
  mk (x o) (y o) (width o) (height o) (velocityX o) (velocityY o) v.

(** [update(dt)] *)
Definition update (dt : Q) (o : t) : t :=
  let o := set_x (x o + velocityX o * (dt / 1000)) o in
  set_y (y o + velocityY o * (dt / 1000)) o.

Record Bounds : Type := mkBounds { left : Q; right : Q; top : Q; bottom : Q }.

Definition getBounds (o : t) : Bounds :=
  mkBounds (x o - width o / 2) (x o + width o / 2)
           (y o - height o / 2) (y o + height o / 2).

Definition collidesWith (o other : t) : bool :=
  let bounds1 := getBounds o in
  let bounds2 := getBounds other in
  JS.lt (left bounds1) (right bounds2) &&
  JS.gt (right bounds1) (left bounds2) &&
  JS.lt (top bounds1) (bottom bounds2) &&
  JS.gt (bottom bounds1) (top bounds2).

End GameObject.

(** ** class Player extends GameObject *)

Module Player.

Record t : Type := mk {
  obj : GameObject.t;
  targetLane : Z;
  currentLane : Z;
  laneChangeProgress : Q;
  power : Q;
  maxPower : Q;
  shieldActive : bool;
  shieldEndTime : Q;
  score : Z
}.

Definition set_obj (v : GameObject.t) (p : t) : t :=
  mk v (targetLane p) (currentLane p) (laneChangeProgress p) (power p)
     (maxPower p) (shieldActive p) (shieldEndTime p) (score p).
Definition set_targetLane (v : Z) (p : t) : t :=
  mk (obj p) v (currentLane p) (laneChangeProgress p) (power p)
     (maxPower p) (shieldActive p) (shieldEndTime p) (score p).
Definition set_currentLane (v : Z) (p : t) : t :=
  mk (obj p) (targetLane p) v (laneChangeProgress p) (power p)
     (maxPower p) (shieldActive p) (shieldEndTime p) (score p).
Definition set_laneChangeProgress (v : Q) (p : t) : t :=
  mk (obj p) (targetLane p) (currentLane p) v (power p)
     (maxPower p) (shieldActive p) (shieldEndTime p) (score p).
Definition set_power (v : Q) (p : t) : t :=
  mk (obj p) (targetLane p) (currentLane p) (laneChangeProgress p) v
     (maxPower p) (shieldActive p) (shieldEndTime p) (score p).
Definition set_shieldActive (v : bool) (p : t) : t :=
  mk (obj p) (targetLane p) (currentLane p) (laneChangeProgress p) (power p)
     (maxPower p) v (shieldEndTime p) (score p).
Definition set_shieldEndTime (v : Q) (p : t) : t :=
  mk (obj p) (targetLane p) (currentLane p) (laneChangeProgress p) (power p)
     (maxPower p) (shieldActive p) v (score p).
Definition set_score (v : Z) (p : t) : t :=
  mk (obj p) (targetLane p) (currentLane p) (laneChangeProgress p) (power p)
     (maxPower p) (shieldActive p) (shieldEndTime p) v.

(** [constructor()] *)
Definition new : M t :=
  h <- canvasHeight ;;
  ret (mk (GameObject.new (GAME_CONFIG.CANVAS_WIDTH / 2) (h - 100)
                          GAME_CONFIG.PLAYER_WIDTH GAME_CONFIG.PLAYER_HEIGHT)
          1 1 0 100 GAME_CONFIG.MAX_POWER false 0 0).

(** The lane changing animation of [update]. *)
Definition animateLaneChange (dt : Q) (p : t) : t :=
  if JS.lt (laneChangeProgress p) 1 then
    let p := set_laneChangeProgress
               (laneChangeProgress p + dt / GAME_CONFIG.LANE_CHANGE_DURATION) p in
    if JS.ge (laneChangeProgress p) 1 then
      let p := set_laneChangeProgress 1 p in
      set_currentLane (targetLane p) p
    else p
  else p.

(** [update(dt)] *)
Definition update (dt : Q) (p : t) : M t :=
  let p := set_obj (GameObject.update dt (obj p)) p in
  let p := animateLaneChange dt p in
  let startX := GAME_CONFIG.lane (currentLane p) in
  let endX := GAME_CONFIG.lane (targetLane p) in
  let p := set_obj (GameObject.set_x
                      (startX + (endX - startX) * laneChangeProgress p) (obj p)) p in
  h <- canvasHeight ;;
  let p := set_obj (GameObject.set_y (h - 100) (obj p)) p in
  let p := set_power
             (JS.Math_max 0 (power p - GAME_CONFIG.POWER_DECAY_RATE * dt / 1000)) p in
  if shieldActive p then
    now <- Date_now ;;
    if JS.gt now (shieldEndTime p) then ret (set_shieldActive false p) else ret p
  else ret p.

(** [changeLane(direction)] *)
Definition changeLane (direction : Z) (p : t) : t :=
  if JS.lt (laneChangeProgress p) 1 then p
  else
    let newLane := Z.max 0 (Z.min 2 (targetLane p + direction)) in
    if negb (newLane =? targetLane p)%Z then
      let p := set_targetLane newLane p in
      set_laneChangeProgress 0 p
    else p.

(** [activateShield()] *)
Definition activateShield (p : t) : M t :=
  let p := set_shieldActive true p in
  now <- Date_now ;;
  ret (set_shieldEndTime (now + GAME_CONFIG.SHIELD_DURATION) p).

(** [takeDamage(amount)] *)
Definition takeDamage (amount : Q) (p : t) : t :=
  if negb (shieldActive p) then
    set_power (JS.Math_max 0 (power p - amount)) p
  else p.

End Player.

(** ** class NPC extends GameObject *)

Module NPC.

Inductive CarType : Type :=
| saloon | suv | hatchback | sports | truck | compact.

Record CarSpec : Type := mkCar {
  car_type : CarType;
  car_width : Q;
  car_height : Q;
  car_color : string
}.

Definition carTypes : list CarSpec :=
  [ mkCar saloon 85 125 "#3498db";
    mkCar suv 95 140 "#e74c3c";
    mkCar hatchback 75 110 "#2ecc71";
    mkCar sports 80 120 "#f39c12";
    mkCar truck 100 150 "#9b59b6";
    mkCar compact 70 100 "#1abc9c" ].

Record t : Type := mk {
  obj : GameObject.t;
  lane : Z;
  wobbleOffset : Q;
  wobbleSpeed : Q;
  originalX : Q;
  carType : CarType;
  carColor : string;
  carWidth : Q;
  carHeight : Q;
  forwardMovement : bool;
  forwardSpeed : Q;
  forwardDirection : Q;
  forwardTimer : Q;
  forwardDuration : Q;
  laneChangeTimer : Q;
  laneChangeInterval : Q;
  targetLane : Z;
  laneChangeProgress : Q;
  laneChangeSpeed : Q;
  avoidanceDirection : Q;
  avoidanceSpeed : Q;
  maxAvoidanceSpeed : Q;
  avoidanceDistance : Q;
  isAvoiding : bool;
  avoidanceOffset : Q
}.

Definition set_obj (v : GameObject.t) (n : t) : t :=
  mk v (lane n) (wobbleOffset n) (wobbleSpeed n) (originalX n) (carType n)
     (carColor n) (carWidth n) (carHeight n) (forwardMovement n) (forwardSpeed n)
     (forwardDirection n) (forwardTimer n) (forwardDuration n) (laneChangeTimer n)
     (laneChangeInterval n) (targetLane n) (laneChangeProgress n)
     (laneChangeSpeed n) (avoidanceDirection n) (avoidanceSpeed n)
     (maxAvoidanceSpeed n) (avoidanceDistance n) (isAvoiding n)
     (avoidanceOffset n).
Definition set_lane (v : Z) (n : t) : t :=
  mk (obj n) v (wobbleOffset n) (wobbleSpeed n) (originalX n) (carType n)
     (carColor n) (carWidth n) (carHeight n) (forwardMovement n) (forwardSpeed n)
     (forwardDirection n) (forwardTimer n) (forwardDuration n) (laneChangeTimer n)
     (laneChangeInterval n) (targetLane n) (laneChangeProgress n)
     (laneChangeSpeed n) (avoidanceDirection n) (avoidanceSpeed n)
     (maxAvoidanceSpeed n) (avoidanceDistance n) (isAvoiding n)
     (avoidanceOffset n).
Definition set_wobbleOffset (v : Q) (n : t) : t :=
  mk (obj n) (lane n) v (wobbleSpeed n) (originalX n) (carType n) (carColor n)
     (carWidth n) (carHeight n) (forwardMovement n) (forwardSpeed n)
     (forwardDirection n) (forwardTimer n) (forwardDuration n) (laneChangeTimer n)
     (laneChangeInterval n) (targetLane n) (laneChangeProgress n)
     (laneChangeSpeed n) (avoidanceDirection n) (avoidanceSpeed n)
     (maxAvoidanceSpeed n) (avoidanceDistance n) (isAvoiding n)
     (avoidanceOffset n).
Definition set_originalX (v : Q) (n : t) : t :=
  mk (obj n) (lane n) (wobbleOffset n) (wobbleSpeed n) v (carType n) (carColor n)
     (carWidth n) (carHeight n) (forwardMovement n) (forwardSpeed n)
     (forwardDirection n) (forwardTimer n) (forwardDuration n) (laneChangeTimer n)
     (laneChangeInterval n) (targetLane n) (laneChangeProgress n)
     (laneChangeSpeed n) (avoidanceDirection n) (avoidanceSpeed n)
     (maxAvoidanceSpeed n) (avoidanceDistance n) (isAvoiding n)
     (avoidanceOffset n).
Definition set_forwardMovement (v : bool) (n : t) : t :=
  mk (obj n) (lane n) (wobbleOffset n) (wobbleSpeed n) (originalX n) (carType n)
     (carColor n) (carWidth n) (carHeight n) v (forwardSpeed n)
     (forwardDirection n) (forwardTimer n) (forwardDuration n) (laneChangeTimer n)
     (laneChangeInterval n) (targetLane n) (laneChangeProgress n)
     (laneChangeSpeed n) (avoidanceDirection n) (avoidanceSpeed n)
     (maxAvoidanceSpeed n) (avoidanceDistance n) (isAvoiding n)
     (avoidanceOffset n).
Definition set_forwardDirection (v : Q) (n : t) : t :=
  mk (obj n) (lane n) (wobbleOffset n) (wobbleSpeed n) (originalX n) (carType n)
     (carColor n) (carWidth n) (carHeight n) (forwardMovement n) (forwardSpeed n)
     v (forwardTimer n) (forwardDuration n) (laneChangeTimer n)
     (laneChangeInterval n) (targetLane n) (laneChangeProgress n)
     (laneChangeSpeed n) (avoidanceDirection n) (avoidanceSpeed n)
     (maxAvoidanceSpeed n) (avoidanceDistance n) (isAvoiding n)
     (avoidanceOffset n).
Definition set_forwardTimer (v : Q) (n : t) : t :=
  mk (obj n) (lane n) (wobbleOffset n) (wobbleSpeed n) (originalX n) (carType n)
     (carColor n) (carWidth n) (carHeight n) (forwardMovement n) (forwardSpeed n)
     (forwardDirection n) v (forwardDuration n) (laneChangeTimer n)
     (laneChangeInterval n) (targetLane n) (laneChangeProgress n)
     (laneChangeSpeed n) (avoidanceDirection n) (avoidanceSpeed n)
     (maxAvoidanceSpeed n) (avoidanceDistance n) (isAvoiding n)
     (avoidanceOffset n).
Definition set_forwardDuration (v : Q) (n : t) : t :=
  mk (obj n) (lane n) (wobbleOffset n) (wobbleSpeed n) (originalX n) (carType n)
     (carColor n) (carWidth n) (carHeight n) (forwardMovement n) (forwardSpeed n)
     (forwardDirection n) (forwardTimer n) v (laneChangeTimer n)
     (laneChangeInterval n) (targetLane n) (laneChangeProgress n)
     (laneChangeSpeed n) (avoidanceDirection n) (avoidanceSpeed n)
     (maxAvoidanceSpeed n) (avoidanceDistance n) (isAvoiding n)
     (avoidanceOffset n).
Definition set_laneChangeTimer (v : Q) (n : t) : t :=
  mk (obj n) (lane n) (wobbleOffset n) (wobbleSpeed n) (originalX n) (carType n)
     (carColor n) (carWidth n) (carHeight n) (forwardMovement n) (forwardSpeed n)
     (forwardDirection n) (forwardTimer n) (forwardDuration n) v
     (laneChangeInterval n) (targetLane n) (laneChangeProgress n)
     (laneChangeSpeed n) (avoidanceDirection n) (avoidanceSpeed n)
     (maxAvoidanceSpeed n) (avoidanceDistance n) (isAvoiding n)
     (avoidanceOffset n).
Definition set_laneChangeInterval (v : Q) (n : t) : t :=
  mk (obj n) (lane n) (wobbleOffset n) (wobbleSpeed n) (originalX n) (carType n)
     (carColor n) (carWidth n) (carHeight n) (forwardMovement n) (forwardSpeed n)
     (forwardDirection n) (forwardTimer n) (forwardDuration n) (laneChangeTimer n)
     v (targetLane n) (laneChangeProgress n) (laneChangeSpeed n)
     (avoidanceDirection n) (avoidanceSpeed n) (maxAvoidanceSpeed n)
     (avoidanceDistance n) (isAvoiding n) (avoidanceOffset n).
Definition set_targetLane (v : Z) (n : t) : t :=
  mk (obj n) (lane n) (wobbleOffset n) (wobbleSpeed n) (originalX n) (carType n)
     (carColor n) (carWidth n) (carHeight n) (forwardMovement n) (forwardSpeed n)
     (forwardDirection n) (forwardTimer n) (forwardDuration n) (laneChangeTimer n)
     (laneChangeInterval n) v (laneChangeProgress n) (laneChangeSpeed n)
     (avoidanceDirection n) (avoidanceSpeed n) (maxAvoidanceSpeed n)
     (avoidanceDistance n) (isAvoiding n) (avoidanceOffset n).
Definition set_laneChangeProgress (v : Q) (n : t) : t :=
  mk (obj n) (lane n) (wobbleOffset n) (wobbleSpeed n) (originalX n) (carType n)
     (carColor n) (carWidth n) (carHeight n) (forwardMovement n) (forwardSpeed n)
     (forwardDirection n) (forwardTimer n) (forwardDuration n) (laneChangeTimer n)
     (laneChangeInterval n) (targetLane n) v (laneChangeSpeed n)
     (avoidanceDirection n) (avoidanceSpeed n) (maxAvoidanceSpeed n)
     (avoidanceDistance n) (isAvoiding n) (avoidanceOffset n).
Definition set_avoidanceDirection (v : Q) (n : t) : t :=
  mk (obj n) (lane n) (wobbleOffset n) (wobbleSpeed n) (originalX n) (carType n)
     (carColor n) (carWidth n) (carHeight n) (forwardMovement n) (forwardSpeed n)
     (forwardDirection n) (forwardTimer n) (forwardDuration n) (laneChangeTimer n)
     (laneChangeInterval n) (targetLane n) (laneChangeProgress n)
     (laneChangeSpeed n) v (avoidanceSpeed n) (maxAvoidanceSpeed n)
     (avoidanceDistance n) (isAvoiding n) (avoidanceOffset n).
Definition set_avoidanceSpeed (v : Q) (n : t) : t :=
  mk (obj n) (lane n) (wobbleOffset n) (wobbleSpeed n) (originalX n) (carType n)
     (carColor n) (carWidth n) (carHeight n) (forwardMovement n) (forwardSpeed n)
     (forwardDirection n) (forwardTimer n) (forwardDuration n) (laneChangeTimer n)
     (laneChangeInterval n) (targetLane n) (laneChangeProgress n)
     (laneChangeSpeed n) (avoidanceDirection n) v (maxAvoidanceSpeed n)
     (avoidanceDistance n) (isAvoiding n) (avoidanceOffset n).
Definition set_isAvoiding (v : bool) (n : t) : t :=
  mk (obj n) (lane n) (wobbleOffset n) (wobbleSpeed n) (originalX n) (carType n)
     (carColor n) (carWidth n) (carHeight n) (forwardMovement n) (forwardSpeed n)
     (forwardDirection n) (forwardTimer n) (forwardDuration n) (laneChangeTimer n)
     (laneChangeInterval n) (targetLane n) (laneChangeProgress n)
     (laneChangeSpeed n) (avoidanceDirection n) (avoidanceSpeed n)
     (maxAvoidanceSpeed n) (avoidanceDistance n) v (avoidanceOffset n).
Definition set_avoidanceOffset (v : Q) (n : t) : t :=
  mk (obj n) (lane n) (wobbleOffset n) (wobbleSpeed n) (originalX n) (carType n)
     (carColor n) (carWidth n) (carHeight n) (forwardMovement n) (forwardSpeed n)
     (forwardDirection n) (forwardTimer n) (forwardDuration n) (laneChangeTimer n)
     (laneChangeInterval n) (targetLane n) (laneChangeProgress n)
     (laneChangeSpeed n) (avoidanceDirection n) (avoidanceSpeed n)
     (maxAvoidanceSpeed n) (avoidanceDistance n) (isAvoiding n) v.

(** [carTypes[Math.floor(Math.random() * carTypes.length)]]; [Math.random]
    produces values in [0, 1), for which the index is in range (the
    default of [nth] stands for [undefined]). *)
Definition selectCar (r : Q) : CarSpec :=
  nth (Z.to_nat (JS.Math_floor (r * inject_Z (Z.of_nat (List.length carTypes)))))
      carTypes (mkCar saloon 85 125 "#3498db").

(** [constructor(lane)] *)
Definition new (lane : Z) : M t :=
  r <- Math_random ;;
  let selectedCar := selectCar r in
  let o := GameObject.new (GAME_CONFIG.lane lane) (-100)
                          (car_width selectedCar) (car_height selectedCar) in
  r <- Math_random ;;
  let o := GameObject.set_velocityY (GAME_CONFIG.NPC_SPEED + (r - 0.5) * 50) o in
  r <- Math_random ;;
  let wobbleOffset := r * JS.Math_PI * 2 in
  r <- Math_random ;;
  let wobbleSpeed := 0.02 + r * 0.03 in
  r <- Math_random ;;
  let forwardMovement := JS.gt r 0.9 in
  r <- Math_random ;;
  let forwardSpeed := 15 + r * 25 in
  r <- Math_random ;;
  let forwardDirection := if JS.gt r 0.5 then 1 else -1 in
  r <- Math_random ;;
  let forwardDuration := 1500 + r * 2000 in
  r <- Math_random ;;
  let laneChangeInterval := 8000 + r * 12000 in
  r <- Math_random ;;
  let laneChangeSpeed := 0.002 + r * 0.003 in
  r <- Math_random ;;
  let avoidanceDirection := if JS.gt r 0.5 then 1 else -1 in
  ret (mk o lane wobbleOffset wobbleSpeed (GAME_CONFIG.lane lane)
          (car_type selectedCar) (car_color selectedCar)
          (car_width selectedCar) (car_height selectedCar)
          forwardMovement forwardSpeed forwardDirection 0 forwardDuration
          0 laneChangeInterval lane 0 laneChangeSpeed
          avoidanceDirection 0 100 150 false 0).

(** [updateForwardMovement(dt)] *)
Definition updateForwardMovement (dt : Q) (n : t) : M t :=
  if forwardMovement n then
    let n := set_forwardTimer (forwardTimer n + dt) n in
    if JS.gt (forwardTimer n) (forwardDuration n) then
      r <- Math_random ;;
      let n := set_forwardMovement (JS.gt r 0.9) n in
      let n := set_forwardTimer 0 n in
      r <- Math_random ;;
      let n := set_forwardDuration (1500 + r * 2000) n in
      r <- Math_random ;;
      ret (set_forwardDirection (if JS.gt r 0.5 then 1 else -1) n)
    else ret n
  else ret n.

(** [[0, 1, 2].filter(l => l !== this.lane)] *)
Definition availableLanes (n : t) : list Z :=
  filter (fun l => negb (l =? lane n)%Z) [0; 1; 2]%Z.

(** [updateLaneChanging(dt)] *)
Definition updateLaneChanging (dt : Q) (n : t) : M t :=
  let n := set_laneChangeTimer (laneChangeTimer n + dt) n in
  n <- (if JS.gt (laneChangeTimer n) (laneChangeInterval n) then
          let available := availableLanes n in
          if (0 <? List.length available)%nat then
            r <- Math_random ;;
            let i := JS.Math_floor (r * inject_Z (Z.of_nat (List.length available))) in
            let n := set_targetLane (nth (Z.to_nat i) available 0%Z) n in
            let n := set_laneChangeProgress 0 n in
            let n := set_laneChangeTimer 0 n in
            r <- Math_random ;;
            ret (set_laneChangeInterval (8000 + r * 12000) n)
          else ret n
        else ret n) ;;
  if JS.lt (laneChangeProgress n) 1 then
    let n := set_laneChangeProgress
               (laneChangeProgress n + laneChangeSpeed n * (dt / 16.67)) n in
    if JS.ge (laneChangeProgress n) 1 then
      let n := set_laneChangeProgress 1 n in
      let n := set_lane (targetLane n) n in
      ret (set_originalX (GAME_CONFIG.lane (lane n)) n)
    else ret n
  else ret n.

(** [getLaneChangeOffset()] *)
Definition getLaneChangeOffset (n : t) : Q :=
  if JS.lt (laneChangeProgress n) 1 then
    let startX := GAME_CONFIG.lane (lane n) in
    let endX := GAME_CONFIG.lane (targetLane n) in
    (endX - startX) * laneChangeProgress n
  else 0.

(** The avoidance condition of [update]: the player is within the
    longitudinal and lateral window of the car. *)
Definition avoidanceTriggered (n : t) (player : Player.t) : bool :=
  let distanceToPlayer :=
    JS.Math_abs (GameObject.y (obj n) - GameObject.y (Player.obj player)) in
  let horizontalDistance :=
    JS.Math_abs (GameObject.x (obj n) - GameObject.x (Player.obj player)) in
  JS.lt distanceToPlayer (avoidanceDistance n) && JS.lt horizontalDistance 80.

(** The [if (player) { ... }] block of [update]. *)
Definition avoid (dt : Q) (player : Player.t) (n : t) : t :=
  let distanceToPlayer :=
    JS.Math_abs (GameObject.y (obj n) - GameObject.y (Player.obj player)) in
  if avoidanceTriggered n player then
    let n := set_isAvoiding true n in
    let avoidanceForce :=
      JS.Math_max 0 ((avoidanceDistance n - distanceToPlayer) / avoidanceDistance n) in
    let n := set_avoidanceSpeed (maxAvoidanceSpeed n * avoidanceForce) n in
    let n := if JS.lt (GameObject.x (Player.obj player)) (GameObject.x (obj n))
             then set_avoidanceDirection 1 n
             else set_avoidanceDirection (-1) n in
    let n := set_avoidanceOffset
               (avoidanceOffset n
                + avoidanceDirection n * avoidanceSpeed n * (dt / 1000)) n in
    set_avoidanceOffset
      (JS.Math_max (-60) (JS.Math_min 60 (avoidanceOffset n))) n
  else
    let n := set_isAvoiding false n in
    set_avoidanceOffset (avoidanceOffset n * 0.9) n.

(** [update(dt, player)] *)
Definition update (dt : Q) (player : option Player.t) (n : t) : M t :=
  let n := set_obj (GameObject.update dt (obj n)) n in
  n <- updateForwardMovement dt n ;;
  n <- updateLaneChanging dt n ;;
  let n := match player with
           | Some p => avoid dt p n
           | None => n
           end in
  s <- Math_sin (wobbleOffset n) ;;
  let wobble := s * 3 in
  let laneChangeOffset := getLaneChangeOffset n in
  let n := set_obj (GameObject.set_x
                      (originalX n + wobble + avoidanceOffset n + laneChangeOffset)
                      (obj n)) n in
  let n := set_wobbleOffset (wobbleOffset n + wobbleSpeed n * (dt / 16.67)) n in
  h <- canvasHeight ;;
  if JS.gt (GameObject.y (obj n)) (h + 100)
  then ret (set_obj (GameObject.set_active false (obj n)) n)
  else ret n.

End NPC.

(** ** class Coin extends GameObject *)

Module Coin.

Record t : Type := mk {
  obj : GameObject.t;
  lane : Z;
  collected : bool;
  collectTime : Q;
  bobOffset : Q;
  bobSpeed : Q;
  originalX : Q
}.

Definition set_obj (v : GameObject.t) (c : t) : t :=
  mk v (lane c) (collected c) (collectTime c) (bobOffset c) (bobSpeed c)
     (originalX c).
Definition set_collected (v : bool) (c : t) : t :=
  mk (obj c) (lane c) v (collectTime c) (bobOffset c) (bobSpeed c) (originalX c).
Definition set_bobOffset (v : Q) (c : t) : t :=
  mk (obj c) (lane c) (collected c) (collectTime c) v (bobSpeed c) (originalX c).

(** [constructor(lane)] *)
Definition new (lane : Z) : M t :=
  let o := GameObject.new (GAME_CONFIG.lane lane) (-50)
                          GAME_CONFIG.COIN_SIZE GAME_CONFIG.COIN_SIZE in
  r <- Math_random ;;
  let o := GameObject.set_velocityY (GAME_CONFIG.NPC_SPEED + (r - 0.5) * 30) o in
  r <- Math_random ;;
  let bobOffset := r * JS.Math_PI * 2 in
  r <- Math_random ;;
  let bobSpeed := 0.03 + r * 0.02 in
  ret (mk o lane false 0 bobOffset bobSpeed (GAME_CONFIG.lane lane)).

(** [update(dt)] *)
Definition update (dt : Q) (c : t) : M t :=
  let c := set_obj (GameObject.update dt (obj c)) c in
  s <- Math_sin (bobOffset c) ;;
  let bob := s * 2 in
  let c := set_obj (GameObject.set_x (originalX c + bob) (obj c)) c in
  let c := set_bobOffset (bobOffset c + bobSpeed c * (dt / 16.67)) c in
  h <- canvasHeight ;;
  let c := if JS.gt (GameObject.y (obj c)) (h + 100)
           then set_obj (GameObject.set_active false (obj c)) c
           else c in
  if collected c then
    now <- Date_now ;;
    if JS.gt now (collectTime c) then ret (set_collected false c) else ret c
  else ret c.

(** [collect()]: the result and the coin after the call. *)
Definition collect (c : t) : bool * t :=
  if negb (collected c) then
    let c := set_collected true c in
    (true, set_obj (GameObject.set_active false (obj c)) c)
  else (false, c).

End Coin.

(** ** class Powerup extends GameObject *)

Module Powerup.

Inductive PowerupType : Type := shield.

Record t : Type := mk {
  obj : GameObject.t;
  lane : Z;
  type : PowerupType;
  collected : bool
}.

Definition set_obj (v : GameObject.t) (p : t) : t :=
  mk v (lane p) (type p) (collected p).

(** [constructor(lane)] *)
Definition new (lane : Z) : t :=
  let o := GameObject.new (GAME_CONFIG.lane lane) (-50) 30 30 in
  let o := GameObject.set_velocityY GAME_CONFIG.NPC_SPEED o in
  mk o lane shield false.

(** [update(dt)] *)
Definition update (dt : Q) (p : t) : M t :=
  let p := set_obj (GameObject.update dt (obj p)) p in
  h <- canvasHeight ;;
  if JS.gt (GameObject.y (obj p)) (h + 100)
  then ret (set_obj (GameObject.set_active false (obj p)) p)
  else ret p.

End Powerup.

(** ** class Hazard extends GameObject *)

Module Hazard.

Inductive HazardType : Type := hazard_light | road_work | camel_crossing.

Record t : Type := mk {
  obj : GameObject.t;
  lane : Z;
  type : HazardType;
  blinkState : Z
}.

Definition set_obj (v : GameObject.t) (h : t) : t :=
  mk v (lane h) (type h) (blinkState h).
Definition set_blinkState (v : Z) (h : t) : t :=
  mk (obj h) (lane h) (type h) v.

(** [constructor(lane, type)] *)
Definition new (lane : Z) (type : HazardType) : t :=
  let o := GameObject.new (GAME_CONFIG.lane lane) (-50) 30 24 in
  let o := GameObject.set_velocityY GAME_CONFIG.NPC_SPEED o in
  mk o lane type 0.

(** [update(dt)] *)
Definition update (dt : Q) (h : t) : M t :=
  let h := set_obj (GameObject.update dt (obj h)) h in
  H <- canvasHeight ;;
  let h := if JS.gt (GameObject.y (obj h)) (H + 100)
           then set_obj (GameObject.set_active false (obj h)) h
           else h in
  match type h with
  | hazard_light => ret (set_blinkState (Z.rem (blinkState h + 1) 60) h)
  | _ => ret h
  end.

End Hazard.

(** ** class Particle *)

Module Particle.

Record t : Type := mk {
  x : Q;
  y : Q;
  velocityX : Q;
  velocityY : Q;
  life : Q;
  maxLife : Q;
  color : string;
  size : Q;
  active : bool
}.

(** [constructor(x, y, velocityX, velocityY, life, color, size)] *)
Definition new (x y velocityX velocityY life : Q) (color : string) (size : Q) : t :=
  mk x y velocityX velocityY life life color size true.

(** [update(dt)] *)
Definition update (dt : Q) (p : t) : t :=
  let x' := x p + velocityX p * (dt / 1000) in
  let y' := y p + velocityY p * (dt / 1000) in
  let velocityY' := velocityY p + GAME_CONFIG.GRAVITY * (dt / 1000) in
  let life' := life p - dt in
  mk x' y' (velocityX p) velocityY' life' (maxLife p) (color p) (size p)
     (if JS.le life' 0 then false else active p).

(** [getAlpha()] *)
Definition getAlpha (p : t) : Q := life p / maxLife p.

End Particle.

(** ** class GameManager

    The simulation fields and methods; canvas, images, audio nodes and
    rendering are left to the collaborators and appear only as [Effect]s. *)

Module GameManager.

Record t : Type := mk {
  gameState : GAME_STATE;
  isGameLoopRunning : bool;
  player : Player.t;
  npcs : list NPC.t;
  coins : list Coin.t;
  powerups : list Powerup.t;
  hazards : list Hazard.t;
  particles : list Particle.t;
  gameTime : Q;
  lastSpawnTime : Q;
  lastCoinSpawnTime : Q;
  lastPowerupSpawnTime : Q;
  lastHazardSpawnTime : Q;
  burstStreak : Z;
  lastBurstTime : Q;
  roadOffset : Q;
  roadSpeed : Q;
  currentSpeedMultiplier : Q;
  speedIncreaseApplied20s : bool;
  speedIncreaseApplied40s : bool;
  keys : string -> bool
}.

Definition set_gameState (v : GAME_STATE) (g : t) : t :=
  mk v (isGameLoopRunning g) (player g) (npcs g) (coins g) (powerups g)
     (hazards g) (particles g) (gameTime g) (lastSpawnTime g)
     (lastCoinSpawnTime g) (lastPowerupSpawnTime g) (lastHazardSpawnTime g)
     (burstStreak g) (lastBurstTime g) (roadOffset g) (roadSpeed g)
     (currentSpeedMultiplier g) (speedIncreaseApplied20s g)
     (speedIncreaseApplied40s g) (keys g).
Definition set_isGameLoopRunning (v : bool) (g : t) : t :=
  mk (gameState g) v (player g) (npcs g) (coins g) (powerups g) (hazards g)
     (particles g) (gameTime g) (lastSpawnTime g) (lastCoinSpawnTime g)
     (lastPowerupSpawnTime g) (lastHazardSpawnTime g) (burstStreak g)
     (lastBurstTime g) (roadOffset g) (roadSpeed g) (currentSpeedMultiplier g)
     (speedIncreaseApplied20s g) (speedIncreaseApplied40s g) (keys g).
Definition set_player (v : Player.t) (g : t) : t :=
  mk (gameState g) (isGameLoopRunning g) v (npcs g) (coins g) (powerups g)
     (hazards g) (particles g) (gameTime g) (lastSpawnTime g)
     (lastCoinSpawnTime g) (lastPowerupSpawnTime g) (lastHazardSpawnTime g)
     (burstStreak g) (lastBurstTime g) (roadOffset g) (roadSpeed g)
     (currentSpeedMultiplier g) (speedIncreaseApplied20s g)
     (speedIncreaseApplied40s g) (keys g).
Definition set_npcs (v : list NPC.t) (g : t) : t :=
  mk (gameState g) (isGameLoopRunning g) (player g) v (coins g) (powerups g)
     (hazards g) (particles g) (gameTime g) (lastSpawnTime g)
     (lastCoinSpawnTime g) (lastPowerupSpawnTime g) (lastHazardSpawnTime g)
     (burstStreak g) (lastBurstTime g) (roadOffset g) (roadSpeed g)
     (currentSpeedMultiplier g) (speedIncreaseApplied20s g)
     (speedIncreaseApplied40s g) (keys g).
Definition set_coins (v : list Coin.t) (g : t) : t :=
  mk (gameState g) (isGameLoopRunning g) (player g) (npcs g) v (powerups g)
     (hazards g) (particles g) (gameTime g) (lastSpawnTime g)
     (lastCoinSpawnTime g) (lastPowerupSpawnTime g) (lastHazardSpawnTime g)
     (burstStreak g) (lastBurstTime g) (roadOffset g) (roadSpeed g)
     (currentSpeedMultiplier g) (speedIncreaseApplied20s g)
     (speedIncreaseApplied40s g) (keys g).
Definition set_powerups (v : list Powerup.t) (g : t) : t :=
  mk (gameState g) (isGameLoopRunning g) (player g) (npcs g) (coins g) v
     (hazards g) (particles g) (gameTime g) (lastSpawnTime g)
     (lastCoinSpawnTime g) (lastPowerupSpawnTime g) (lastHazardSpawnTime g)
     (burstStreak g) (lastBurstTime g) (roadOffset g) (roadSpeed g)
     (currentSpeedMultiplier g) (speedIncreaseApplied20s g)
     (speedIncreaseApplied40s g) (keys g).
Definition set_hazards (v : list Hazard.t) (g : t) : t :=
  mk (gameState g) (isGameLoopRunning g) (player g) (npcs g) (coins g)
     (powerups g) v (particles g) (gameTime g) (lastSpawnTime g)
     (lastCoinSpawnTime g) (lastPowerupSpawnTime g) (lastHazardSpawnTime g)
     (burstStreak g) (lastBurstTime g) (roadOffset g) (roadSpeed g)
     (currentSpeedMultiplier g) (speedIncreaseApplied20s g)
     (speedIncreaseApplied40s g) (keys g).
Definition set_particles (v : list Particle.t) (g : t) : t :=
  mk (gameState g) (isGameLoopRunning g) (player g) (npcs g) (coins g)
     (powerups g) (hazards g) v (gameTime g) (lastSpawnTime g)
     (lastCoinSpawnTime g) (lastPowerupSpawnTime g) (lastHazardSpawnTime g)
     (burstStreak g) (lastBurstTime g) (roadOffset g) (roadSpeed g)
     (currentSpeedMultiplier g) (speedIncreaseApplied20s g)
     (speedIncreaseApplied40s g) (keys g).
Definition set_gameTime (v : Q) (g : t) : t :=
  mk (gameState g) (isGameLoopRunning g) (player g) (npcs g) (coins g)
     (powerups g) (hazards g) (particles g) v (lastSpawnTime g)
     (lastCoinSpawnTime g) (lastPowerupSpawnTime g) (lastHazardSpawnTime g)
     (burstStreak g) (lastBurstTime g) (roadOffset g) (roadSpeed g)
     (currentSpeedMultiplier g) (speedIncreaseApplied20s g)
     (speedIncreaseApplied40s g) (keys g).
Definition set_lastSpawnTime (v : Q) (g : t) : t :=
  mk (gameState g) (isGameLoopRunning g) (player g) (npcs g) (coins g)
     (powerups g) (hazards g) (particles g) (gameTime g) v (lastCoinSpawnTime g)
     (lastPowerupSpawnTime g) (lastHazardSpawnTime g) (burstStreak g)
     (lastBurstTime g) (roadOffset g) (roadSpeed g) (currentSpeedMultiplier g)
     (speedIncreaseApplied20s g) (speedIncreaseApplied40s g) (keys g).
Definition set_lastCoinSpawnTime (v : Q) (g : t) : t :=
  mk (gameState g) (isGameLoopRunning g) (player g) (npcs g) (coins g)
     (powerups g) (hazards g) (particles g) (gameTime g) (lastSpawnTime g) v
     (lastPowerupSpawnTime g) (lastHazardSpawnTime g) (burstStreak g)
     (lastBurstTime g) (roadOffset g) (roadSpeed g) (currentSpeedMultiplier g)
     (speedIncreaseApplied20s g) (speedIncreaseApplied40s g) (keys g).
Definition set_lastPowerupSpawnTime (v : Q) (g : t) : t :=
  mk (gameState g) (isGameLoopRunning g) (player g) (npcs g) (coins g)
     (powerups g) (hazards g) (particles g) (gameTime g) (lastSpawnTime g)
     (lastCoinSpawnTime g) v (lastHazardSpawnTime g) (burstStreak g)
     (lastBurstTime g) (roadOffset g) (roadSpeed g) (currentSpeedMultiplier g)
     (speedIncreaseApplied20s g) (speedIncreaseApplied40s g) (keys g).
Definition set_lastHazardSpawnTime (v : Q) (g : t) : t :=
  mk (gameState g) (isGameLoopRunning g) (player g) (npcs g) (coins g)
     (powerups g) (hazards g) (particles g) (gameTime g) (lastSpawnTime g)
     (lastCoinSpawnTime g) (lastPowerupSpawnTime g) v (burstStreak g)
     (lastBurstTime g) (roadOffset g) (roadSpeed g) (currentSpeedMultiplier g)
     (speedIncreaseApplied20s g) (speedIncreaseApplied40s g) (keys g).
Definition set_burstStreak (v : Z) (g : t) : t :=
  mk (gameState g) (isGameLoopRunning g) (player g) (npcs g) (coins g)
     (powerups g) (hazards g) (particles g) (gameTime g) (lastSpawnTime g)
     (lastCoinSpawnTime g) (lastPowerupSpawnTime g) (lastHazardSpawnTime g) v
     (lastBurstTime g) (roadOffset g) (roadSpeed g) (currentSpeedMultiplier g)
     (speedIncreaseApplied20s g) (speedIncreaseApplied40s g) (keys g).
Definition set_lastBurstTime (v : Q) (g : t) : t :=
  mk (gameState g) (isGameLoopRunning g) (player g) (npcs g) (coins g)
     (powerups g) (hazards g) (particles g) (gameTime g) (lastSpawnTime g)
     (lastCoinSpawnTime g) (lastPowerupSpawnTime g) (lastHazardSpawnTime g)
     (burstStreak g) v (roadOffset g) (roadSpeed g) (currentSpeedMultiplier g)
     (speedIncreaseApplied20s g) (speedIncreaseApplied40s g) (keys g).
Definition set_roadOffset (v : Q) (g : t) : t :=
  mk (gameState g) (isGameLoopRunning g) (player g) (npcs g) (coins g)
     (powerups g) (hazards g) (particles g) (gameTime g) (lastSpawnTime g)
     (lastCoinSpawnTime g) (lastPowerupSpawnTime g) (lastHazardSpawnTime g)
     (burstStreak g) (lastBurstTime g) v (roadSpeed g) (currentSpeedMultiplier g)
     (speedIncreaseApplied20s g) (speedIncreaseApplied40s g) (keys g).
Definition set_currentSpeedMultiplier (v : Q) (g : t) : t :=
  mk (gameState g) (isGameLoopRunning g) (player g) (npcs g) (coins g)
     (powerups g) (hazards g) (particles g) (gameTime g) (lastSpawnTime g)
     (lastCoinSpawnTime g) (lastPowerupSpawnTime g) (lastHazardSpawnTime g)
     (burstStreak g) (lastBurstTime g) (roadOffset g) (roadSpeed g) v
     (speedIncreaseApplied20s g) (speedIncreaseApplied40s g) (keys g).
Definition set_speedIncreaseApplied20s (v : bool) (g : t) : t :=
  mk (gameState g) (isGameLoopRunning g) (player g) (npcs g) (coins g)
     (powerups g) (hazards g) (particles g) (gameTime g) (lastSpawnTime g)
     (lastCoinSpawnTime g) (lastPowerupSpawnTime g) (lastHazardSpawnTime g)
     (burstStreak g) (lastBurstTime g) (roadOffset g) (roadSpeed g)
     (currentSpeedMultiplier g) v (speedIncreaseApplied40s g) (keys g).
Definition set_speedIncreaseApplied40s (v : bool) (g : t) : t :=
  mk (gameState g) (isGameLoopRunning g) (player g) (npcs g) (coins g)
     (powerups g) (hazards g) (particles g) (gameTime g) (lastSpawnTime g)
     (lastCoinSpawnTime g) (lastPowerupSpawnTime g) (lastHazardSpawnTime g)
     (burstStreak g) (lastBurstTime g) (roadOffset g) (roadSpeed g)
     (currentSpeedMultiplier g) (speedIncreaseApplied20s g) v (keys g).
Definition set_keys (v : string -> bool) (g : t) : t :=
  mk (gameState g) (isGameLoopRunning g) (player g) (npcs g) (coins g)
     (powerups g) (hazards g) (particles g) (gameTime g) (lastSpawnTime g)
     (lastCoinSpawnTime g) (lastPowerupSpawnTime g) (lastHazardSpawnTime g)
     (burstStreak g) (lastBurstTime g) (roadOffset g) (roadSpeed g)
     (currentSpeedMultiplier g) (speedIncreaseApplied20s g)
     (speedIncreaseApplied40s g) v.

(** The simulation fields set by [constructor()]. *)
Definition new : M t :=
  p <- Player.new ;;
  ret (mk SPLASH false p [] [] [] [] [] GAME_CONFIG.GAME_DURATION
          0 0 0 0 0 0 0 8 1 false false (fun _ => false)).

(** [resetGame()] *)
Definition resetGame (g : t) : M t :=
  p <- Player.new ;;
  let g := set_player p g in
  let g := set_npcs [] g in
  let g := set_coins [] g in
  let g := set_powerups [] g in
  let g := set_hazards [] g in
  let g := set_particles [] g in
  let g := set_gameTime GAME_CONFIG.GAME_DURATION g in
  let g := set_lastSpawnTime 0 g in
  let g := set_lastCoinSpawnTime 0 g in
  let g := set_lastPowerupSpawnTime 0 g in
  let g := set_lastHazardSpawnTime 0 g in
  let g := set_burstStreak 0 g in
  let g := set_lastBurstTime 0 g in
  let g := set_roadOffset 0 g in
  let g := set_currentSpeedMultiplier 1 g in
  let g := set_speedIncreaseApplied20s false g in
  ret (set_speedIncreaseApplied40s false g).

(** [startGameLoop()]; the loop itself is [gameLoop] below. *)
Definition startGameLoop (g : t) : t :=
  if isGameLoopRunning g then g else set_isGameLoopRunning true g.

(** [stopGameLoop()] *)
Definition stopGameLoop (g : t) : t := set_isGameLoopRunning false g.

(** [startGame()], up to the [setTimeout]. *)
Definition startGame (g : t) : M t :=
  emit (ConsoleLog "GameManager: Starting game...") ;;;
  let g := set_gameState LOADING g in
  emit ShowLoadingScreen ;;;
  ret g.

(** The callback [startGame()] hands to [setTimeout]. *)
Definition startGame_timeout (g : t) : M t :=
  emit (ConsoleLog "GameManager: Loading complete, starting game loop...") ;;;
  let g := set_gameState PLAYING g in
  emit HideAllScreens ;;;
  emit HideFloatingScore ;;;
  emit ShowFloatingScore ;;;
  g <- resetGame g ;;
  ret (startGameLoop g).

(** [endGame()] *)
Definition endGame (g : t) : M t :=
  let g := set_gameState GAME_OVER g in
  let g := stopGameLoop g in
  emit HideFloatingScore ;;;
  emit (ShowGameOverScreen (Player.score (player g))) ;;;
  emit HideFloatingScore ;;;
  ret g.

(** [updateSpeedProgression()] *)
Definition updateSpeedProgression (g : t) : M t :=
  let timeElapsed := (GAME_CONFIG.GAME_DURATION - gameTime g) / 1000 in
  g <- (if JS.ge timeElapsed 20 && negb (speedIncreaseApplied20s g) then
          let g := set_currentSpeedMultiplier GAME_CONFIG.SPEED_INCREASE_20S g in
          let g := set_speedIncreaseApplied20s true g in
          emit (ConsoleLog "Speed increased by 10% at 20 seconds") ;;;
          ret g
        else ret g) ;;
  if JS.ge timeElapsed 40 && negb (speedIncreaseApplied40s g) then
    let g := set_currentSpeedMultiplier GAME_CONFIG.SPEED_INCREASE_40S g in
    let g := set_speedIncreaseApplied40s true g in
    emit (ConsoleLog "Speed increased by 20% at 40 seconds") ;;;
    ret g
  else ret g.

(** [handleInput()] *)
Definition handleInput (g : t) : t :=
  let g := if keys g "ArrowLeft"%string || keys g "KeyA"%string
           then set_player (Player.changeLane (-1) (player g)) g
           else g in
  if keys g "ArrowRight"%string || keys g "KeyD"%string
  then set_player (Player.changeLane 1 (player g)) g
  else g.

(** The [for (const existingNpc of this.npcs)] loop of [spawnObjects]:
    the final [hasSpace] and [npcsInLane]. *)
Fixpoint scanNpcs (proposedLane : Z) (l : list NPC.t) (npcsInLane : nat)
  : bool * nat :=
  match l with
  | [] => (true, npcsInLane)
  | existingNpc :: l' =>
      let minDistance := 200 in
      let proposedY := -100 in
      let distance := JS.Math_abs (GameObject.y (NPC.obj existingNpc) - proposedY) in
      if JS.lt distance minDistance then (false, npcsInLane)
      else
        let npcsInLane :=
          if JS.lt (JS.Math_abs (GameObject.x (NPC.obj existingNpc)
                                 - GAME_CONFIG.lane proposedLane)) 50
          then S npcsInLane else npcsInLane in
        scanNpcs proposedLane l' npcsInLane
  end.

(** [Math.floor(Math.random() * GAME_CONFIG.LANES.length)] *)
Definition randomLane : M Z :=
  r <- Math_random ;;
  ret (JS.Math_floor (r * inject_Z (Z.of_nat (List.length GAME_CONFIG.LANES)))).

(** The NPC block of [spawnObjects]. *)
Definition spawnNpc (currentTime : Q) (g : t) : M t :=
  if JS.gt (currentTime - lastSpawnTime g) GAME_CONFIG.NPC_SPAWN_INTERVAL
     && (List.length (npcs g) <? GAME_CONFIG.MAX_NPCS)%nat then
    proposedLane <- randomLane ;;
    let (hasSpace, npcsInLane) := scanNpcs proposedLane (npcs g) 0 in
    if hasSpace && (npcsInLane <? 2)%nat then
      npc <- NPC.new proposedLane ;;
      let npc := NPC.set_obj
                   (GameObject.set_velocityY
                      (GameObject.velocityY (NPC.obj npc) * currentSpeedMultiplier g)
                      (NPC.obj npc)) npc in
      let g := set_npcs (npcs g ++ [npc]) g in
      ret (set_lastSpawnTime currentTime g)
    else ret g
  else ret g.

(** The coin block of [spawnObjects]; [Math.random()] is only called when
    the two tests before it in the [&&] chain pass. *)
Definition spawnCoin (currentTime : Q) (g : t) : M t :=
  if JS.gt (currentTime - lastCoinSpawnTime g) GAME_CONFIG.COIN_SPAWN_INTERVAL
     && (List.length (coins g) <? GAME_CONFIG.MAX_COINS)%nat then
    r <- Math_random ;;
    if JS.lt r GAME_CONFIG.COIN_SPAWN_CHANCE then
      lane <- randomLane ;;
      coin <- Coin.new lane ;;
      let coin := Coin.set_obj
                    (GameObject.set_velocityY
                       (GameObject.velocityY (Coin.obj coin) * currentSpeedMultiplier g)
                       (Coin.obj coin)) coin in
      let g := set_coins (coins g ++ [coin]) g in
      ret (set_lastCoinSpawnTime currentTime g)
    else ret g
  else ret g.

(** The powerup block of [spawnObjects]. *)
Definition spawnPowerup (currentTime : Q) (g : t) : M t :=
  if JS.gt (currentTime - lastPowerupSpawnTime g) 1000
     && (List.length (powerups g) <? GAME_CONFIG.MAX_POWERUPS)%nat then
    r <- Math_random ;;
    if JS.lt r GAME_CONFIG.POWERUP_SPAWN_CHANCE then
      lane <- randomLane ;;
      let powerup := Powerup.new lane in
      let powerup := Powerup.set_obj
                       (GameObject.set_velocityY
                          (GameObject.velocityY (Powerup.obj powerup)
                           * currentSpeedMultiplier g)
                          (Powerup.obj powerup)) powerup in
      let g := set_powerups (powerups g ++ [powerup]) g in
      ret (set_lastPowerupSpawnTime currentTime g)
    else ret g
  else ret g.

Definition hazardTypes : list Hazard.HazardType :=
  [Hazard.hazard_light; Hazard.road_work; Hazard.camel_crossing].

(** The hazard block of [spawnObjects]. *)
Definition spawnHazard (currentTime : Q) (g : t) : M t :=
  if JS.gt (currentTime - lastHazardSpawnTime g) 1500
     && (List.length (hazards g) <? GAME_CONFIG.MAX_HAZARDS)%nat then
    r <- Math_random ;;
    if JS.lt r GAME_CONFIG.HAZARD_SPAWN_CHANCE then
      lane <- randomLane ;;
      r <- Math_random ;;
      let type :=
        nth (Z.to_nat (JS.Math_floor
                         (r * inject_Z (Z.of_nat (List.length hazardTypes)))))
            hazardTypes Hazard.hazard_light in
      let hazard := Hazard.new lane type in
      let hazard := Hazard.set_obj
                      (GameObject.set_velocityY
                         (GameObject.velocityY (Hazard.obj hazard)
                          * currentSpeedMultiplier g)
                         (Hazard.obj hazard)) hazard in
      let g := set_hazards (hazards g ++ [hazard]) g in
      ret (set_lastHazardSpawnTime currentTime g)
    else ret g
  else ret g.

(** [spawnObjects(dt)] *)
Definition spawnObjects (dt : Q) (g : t) : M t :=
  currentTime <- Date_now ;;
  g <- spawnNpc currentTime g ;;
  g <- spawnCoin currentTime g ;;
  g <- spawnPowerup currentTime g ;;
  spawnHazard currentTime g.

(** [updateObjects(dt)] *)
Definition updateObjects (dt : Q) (g : t) : M t :=
  ns <- mapM (NPC.update dt (Some (player g))) (npcs g) ;;
  let g := set_npcs (filter (fun npc => GameObject.active (NPC.obj npc)) ns) g in
  cs <- mapM (Coin.update dt) (coins g) ;;
  let g := set_coins (filter (fun coin => GameObject.active (Coin.obj coin)) cs) g in
  ps <- mapM (Powerup.update dt) (powerups g) ;;
  let g := set_powerups
             (filter (fun powerup => GameObject.active (Powerup.obj powerup)) ps) g in
  hs <- mapM (Hazard.update dt) (hazards g) ;;
  ret (set_hazards (filter (fun hazard => GameObject.active (Hazard.obj hazard)) hs) g).

Definition coinBurstColors : list string :=
  ["#0066cc"; "#4ecdc4"; "#ffffff"; "#ffd700"; "#ff6b35"]%string.

(** One round of the loop of [createCoinBurst]. *)
Definition coinBurstParticle (x y : Q) (i : nat) : M Particle.t :=
  let angle := JS.Math_PI * 2 * inject_Z (Z.of_nat i)
               / inject_Z (Z.of_nat GAME_CONFIG.COIN_BURST_PARTICLES) in
  r <- Math_random ;;
  let speed := 12 + r * 8 in
  c <- Math_cos angle ;;
  let velocityX := c * speed in
  s <- Math_sin angle ;;
  let velocityY := s * speed - 5 in
  r <- Math_random ;;
  let color :=
    nth (Z.to_nat (JS.Math_floor
                     (r * inject_Z (Z.of_nat (List.length coinBurstColors)))))
        coinBurstColors ""%string in
  r <- Math_random ;;
  let size := r * 4 + 2 in
  ret (Particle.new x y velocityX velocityY 1200 color size).

(** [createCoinBurst(x, y)] *)
Definition createCoinBurst (x y : Q) (g : t) : M t :=
  ps <- mapM (coinBurstParticle x y) (seq 0 GAME_CONFIG.COIN_BURST_PARTICLES) ;;
  ret (set_particles (particles g ++ ps) g).

Definition explosionColors : list string :=
  ["#ff6b35"; "#ffd700"; "#ffffff"; "#ff4757"]%string.

(** One round of the loop of [createExplosion]. *)
Definition explosionParticle (x y : Q) (i : nat) : M Particle.t :=
  r <- Math_random ;;
  let angle := r * JS.Math_PI * 2 in
  r <- Math_random ;;
  let speed := 8 + r * 12 in
  c <- Math_cos angle ;;
  let velocityX := c * speed in
  s <- Math_sin angle ;;
  let velocityY := s * speed in
  r <- Math_random ;;
  let color :=
    nth (Z.to_nat (JS.Math_floor
                     (r * inject_Z (Z.of_nat (List.length explosionColors)))))
        explosionColors ""%string in
  r <- Math_random ;;
  let size := r * 6 + 3 in
  ret (Particle.new x y velocityX velocityY 800 color size).

(** [createExplosion(x, y)] *)
Definition createExplosion (x y : Q) (g : t) : M t :=
  ps <- mapM (explosionParticle x y) (seq 0 15) ;;
  ret (set_particles (particles g ++ ps) g).

(** The body of [this.coins.forEach] in [checkCollisions]. *)
Definition coinCollision (coin : Coin.t) (g : t) : M (Coin.t * t) :=
  if GameObject.collidesWith (Player.obj (player g)) (Coin.obj coin) then
    let (collected, coin) := Coin.collect coin in
    if collected then
      g <- createCoinBurst (GameObject.x (Coin.obj coin))
                           (GameObject.y (Coin.obj coin)) g ;;
      let g := set_player
                 (Player.set_score (Player.score (player g) + 10)%Z (player g)) g in
      emit (PlaySound 800 0.1) ;;;
      emit (ShowPointsSnackbar 10) ;;;
      now <- Date_now ;;
      let g := if JS.lt (now - lastBurstTime g) 500
               then set_burstStreak (burstStreak g + 1)%Z g
               else set_burstStreak 1 g in
      ret (coin, set_lastBurstTime now g)
    else ret (coin, g)
  else ret (coin, g).

(** The body of [this.powerups.forEach] in [checkCollisions]. *)
Definition powerupCollision (powerup : Powerup.t) (g : t) : M (Powerup.t * t) :=
  if GameObject.collidesWith (Player.obj (player g)) (Powerup.obj powerup) then
    g <- match Powerup.type powerup with
         | Powerup.shield =>
             p <- Player.activateShield (player g) ;;
             ret (set_player p g)
         end ;;
    g <- createExplosion (GameObject.x (Powerup.obj powerup))
                         (GameObject.y (Powerup.obj powerup)) g ;;
    emit (PlaySound 600 0.2) ;;;
    emit (ShowPointsSnackbar 25) ;;;
    ret (Powerup.set_obj (GameObject.set_active false (Powerup.obj powerup)) powerup,
         g)
  else ret (powerup, g).

(** The body of [this.npcs.forEach] in [checkCollisions]. *)
Definition npcCollision (npc : NPC.t) (g : t) : M (NPC.t * t) :=
  if GameObject.collidesWith (Player.obj (player g)) (NPC.obj npc) then
    let g := set_player (Player.takeDamage 10 (player g)) g in
    g <- createExplosion (GameObject.x (NPC.obj npc))
                         (GameObject.y (NPC.obj npc)) g ;;
    emit (PlaySound 200 0.3) ;;;
    emit ShowNarrowEscapeSnackbar ;;;
    let npc := NPC.set_avoidanceOffset
                 (NPC.avoidanceOffset npc + NPC.avoidanceDirection npc * 30) npc in
    let npc := NPC.set_avoidanceOffset
                 (JS.Math_max (-80) (JS.Math_min 80 (NPC.avoidanceOffset npc))) npc in
    if JS.le (Player.power (player g)) 0 then
      g <- endGame g ;;
      ret (npc, g)
    else ret (npc, g)
  else ret (npc, g).

(** The body of [this.hazards.forEach] in [checkCollisions]. *)
Definition hazardCollision (hazard : Hazard.t) (g : t) : M (Hazard.t * t) :=
  if GameObject.collidesWith (Player.obj (player g)) (Hazard.obj hazard) then
    let g := set_player (Player.takeDamage 15 (player g)) g in
    g <- createExplosion (GameObject.x (Hazard.obj hazard))
                         (GameObject.y (Hazard.obj hazard)) g ;;
    emit (PlaySound 150 0.4) ;;;
    emit ShowNarrowEscapeSnackbar ;;;
    let hazard := Hazard.set_obj
                    (GameObject.set_active false (Hazard.obj hazard)) hazard in
    if JS.le (Player.power (player g)) 0 then
      g <- endGame g ;;
      ret (hazard, g)
    else ret (hazard, g)
  else ret (hazard, g).

(** [checkCollisions()] *)
Definition checkCollisions (g : t) : M t :=
  '(cs, g) <- forEach coinCollision (coins g) g ;;
  let g := set_coins cs g in
  '(ps, g) <- forEach powerupCollision (powerups g) g ;;
  let g := set_powerups ps g in
  '(ns, g) <- forEach npcCollision (npcs g) g ;;
  let g := set_npcs ns g in
  '(hs, g) <- forEach hazardCollision (hazards g) g ;;
  ret (set_hazards hs g).

(** [updateParticles(dt)] *)
Definition updateParticles (dt : Q) (g : t) : t :=
  let ps := map (Particle.update dt) (particles g) in
  set_particles (filter Particle.active ps) g.

(** [update(dt)] *)
Definition update (dt : Q) (g : t) : M t :=
  if negb (GAME_STATE_eqb (gameState g) PLAYING) then ret g
  else
    let g := set_gameTime (gameTime g - dt) g in
    if JS.le (gameTime g) 0 then endGame g
    else
      g <- updateSpeedProgression g ;;
      let g := set_roadOffset (roadOffset g - roadSpeed g * (dt / 16.67)) g in
      let g := if JS.lt (roadOffset g) 0 then set_roadOffset 40 g else g in
      let g := handleInput g in
      p <- Player.update dt (player g) ;;
      let g := set_player p g in
      g <- spawnObjects dt g ;;
      g <- updateObjects dt g ;;
      g <- checkCollisions g ;;
      ret (updateParticles dt g).

(** One call of the [gameLoop] closure of [startGameLoop], [dt] being
    [currentTime - lastTime]; rendering is not part of the model. *)
Definition gameLoop (dt : Q) (g : t) : M t :=
  if negb (isGameLoopRunning g) then ret g else update dt g.

(** The [keydown] and [keyup] listeners. *)
Definition keydown (code : string) (g : t) : t :=
  set_keys (fun c => if String.eqb c code then true else keys g c) g.

Definition keyup (code : string) (g : t) : t :=
  set_keys (fun c => if String.eqb c code then false else keys g c) g.

(** The closest-lane loop of the pointer listeners; [None] is the initial
    [Infinity] of [minDistance]. *)
Fixpoint closestLane (targetX : Q) (lanePositions : list Q) (i : Z)
  (minDistance : option Q) (targetLane : Z) : Z :=
  match lanePositions with
  | [] => targetLane
  | position :: rest =>
      let distance := JS.Math_abs (targetX - position) in
      let closer := match minDistance with
                    | None => true
                    | Some m => JS.lt distance m
                    end in
      if closer then closestLane targetX rest (i + 1)%Z (Some distance) i
      else closestLane targetX rest (i + 1)%Z minDistance targetLane
  end.

(** What the [touchend], [touchmove] and [mousemove] listeners do once
    they have the position [targetX] the pointer asks for. *)
Definition pointerTo (targetX : Q) (g : t) : t :=
  if GAME_STATE_eqb (gameState g) PLAYING then
    let targetLane :=
      closestLane targetX GAME_CONFIG.LANES 0 None (Player.currentLane (player g)) in
    if negb (targetLane =? Player.targetLane (player g))%Z then
      set_player
        (Player.changeLane (targetLane - Player.targetLane (player g)) (player g)) g
    else g
  else g.

End GameManager.

(** ** The engine as a transition system *)

(** What can happen to a [GameManager] once constructed. *)
Inductive Event : Type :=
| Frame (dt : Q)
| KeyDown (code : string)
| KeyUp (code : string)
| PointerTo (targetX : Q)
| StartGame
| LoadingDone.

Definition handle (e : Event) (g : GameManager.t) : M GameManager.t :=
  match e with
  | Frame dt => GameManager.gameLoop dt g
  | KeyDown code => ret (GameManager.keydown code g)
  | KeyUp code => ret (GameManager.keyup code g)
  | PointerTo targetX => ret (GameManager.pointerTo targetX g)
  | StartGame => GameManager.startGame g
  | LoadingDone => GameManager.startGame_timeout g
  end.

Fixpoint run (es : list Event) (g : GameManager.t) : M GameManager.t :=
  match es with
  | [] => ret g
  | e :: es' => g' <- handle e g ;; run es' g'
  end.

(** The states (with the browser they are in) the engine can be in. *)
Inductive reachable : GameManager.t -> World -> Prop :=
| reach_new : forall w,
    reachable (fst (GameManager.new w)) (snd (GameManager.new w))
| reach_event : forall g w e,
    reachable g w ->
    reachable (fst (handle e g w)) (snd (handle e g w)).

(** [Player.update] called once per frame over the frame times [dts]. *)
Fixpoint updates (dts : list Q) (p : Player.t) : M Player.t :=
  match dts with
  | [] => ret p
  | dt :: rest => p' <- Player.update dt p ;; updates rest p'
  end.

(** The time a sequence of frames covers. *)
Definition total (dts : list Q) : Q := fold_right Qplus 0 dts.

(** ** The drag listeners

    The fields [isDragging], [dragStartX], [dragStartY] and [dragOffsetX]
    of the game manager, which only the pointer listeners read and write,
    and the listeners [mousedown], [mousemove] and [mouseup]; [touchstart]
    and [touchmove] do the same with the first touch of the event. *)
Module Pointer.

Record t : Type := mk {
  isDragging : bool;
  dragStartX : Q;
  dragStartY : Q;
  dragOffsetX : Q
}.


(** The drag fields as the constructor of [GameManager] sets them. *)
Definition new : t := mk false 0 0 0.



(** [mouseup]. *)
Definition mouseup (d : t) : t :=
  mk false (dragStartX d) (dragStartY d) 0.

End Pointer.

(** ** The numbers of the engine: binary64

    A number of the engine is a binary64 floating-point number, and every
    arithmetic operation yields the binary64 number nearest to the exact
    result, the one with an even last digit of two equally near.  The
    numbers are kept as the rationals they are; infinities and [NaN], which
    the computations below do not reach, are not represented. *)
Module Binary64.

(** The exponent [k] with [2^k <= x < 2^(k+1)], for [x] above 0. *)
Definition exponent (x : Q) : Z :=
  let k := (Z.log2 (Qnum x) - Z.log2 (Zpos (Qden x)))%Z in
  if Qle_bool (2 ^ k) x then k else (k - 1)%Z.

(** The exponent of the unit in the last place of [x]: 52 binary digits
    below its leading one, and no less than that of the subnormal numbers. *)
Definition ulp_exponent (x : Q) : Z := Z.max (-1074) (exponent x - 52).

(** The integer nearest to [q], the even one of two equally near. *)
Definition nearest_even (q : Q) : Z :=
  let f := Qfloor q in
  match Qcompare (q - inject_Z f) (1 # 2) with
  | Lt => f
  | Gt => (f + 1)%Z
  | Eq => if Z.even f then f else (f + 1)%Z
  end.

(** The binary64 number nearest to [x] above 0, ties to even. *)
Definition round_magnitude (x : Q) : Q :=
  let e := ulp_exponent x in
  inject_Z (nearest_even (x / 2 ^ e)) * 2 ^ e.

(** The binary64 number nearest to [x], ties to even. *)
Definition round (x : Q) : Q :=
  match Qcompare x 0 with
  | Eq => 0
  | Gt => round_magnitude x
  | Lt => - round_magnitude (- x)
  end.

Definition add (a b : Q) : Q := round (a + b).
Definition sub (a b : Q) : Q := round (a - b).
Definition mul (a b : Q) : Q := round (a * b).
Definition div (a b : Q) : Q := round (a / b).

End Binary64.

(** ** The computations in which rounding decides

    The classes above compute in exact rationals.  Where a comparison or an
    equality of the engine depends on the rounding of its arithmetic, the
    computation is embedded a second time here, with every operation
    rounded as the engine performs it. *)
Module Rounded.

(** The power after [Player.update(dt)]:
    [Math.max(0, this.power - (GAME_CONFIG.POWER_DECAY_RATE * dt / 1000))]. *)
Definition decay (dt power : Q) : Q :=
  JS.Math_max 0
    (Binary64.sub power
       (Binary64.div (Binary64.mul GAME_CONFIG.POWER_DECAY_RATE dt) 1000)).

(** The power after [Player.update] called once per frame over [dts]. *)
Fixpoint decays (dts : list Q) (power : Q) : Q :=
  match dts with
  | [] => power
  | dt :: rest => decays rest (decay dt power)
  end.

(** The lane changing animation of [Player.update(dt)]. *)
Definition animateLaneChange (dt : Q) (p : Player.t) : Player.t :=
  if JS.lt (Player.laneChangeProgress p) 1 then
    let p := Player.set_laneChangeProgress
               (Binary64.add (Player.laneChangeProgress p)
                             (Binary64.div dt GAME_CONFIG.LANE_CHANGE_DURATION)) p in
    if JS.ge (Player.laneChangeProgress p) 1 then
      let p := Player.set_laneChangeProgress 1 p in
      Player.set_currentLane (Player.targetLane p) p
    else p
  else p.

(** The animation over the frames [dts]. *)
Fixpoint animations (dts : list Q) (p : Player.t) : Player.t :=
  match dts with
  | [] => p
  | dt :: rest => animations rest (animateLaneChange dt p)
  end.

(** The speed the constructor gives an NPC and a coin, [r] being the
    [Math.random()] it draws:
    [GAME_CONFIG.NPC_SPEED + (Math.random() - 0.5) * 50], and [* 30]. *)
Definition npcSpeed (r : Q) : Q :=
  Binary64.add GAME_CONFIG.NPC_SPEED (Binary64.mul (Binary64.sub r 0.5) 50).

Definition coinSpeed (r : Q) : Q :=
  Binary64.add GAME_CONFIG.NPC_SPEED (Binary64.mul (Binary64.sub r 0.5) 30).

End Rounded.

(** ** The session clock

    The fields of the game manager that tell whether the session goes on,
    its timer and its speed progression, with what [update(dt)] does to
    them.  The rest of [update] writes none of them, except that the
    collision pass can end the game: [crash] tells whether it does in the
    frame. *)
Module Clock.

Record t : Type := mk {
  gameState : GAME_STATE;
  isGameLoopRunning : bool;
  gameTime : Q;
  currentSpeedMultiplier : Q;
  speedIncreaseApplied20s : bool;
  speedIncreaseApplied40s : bool
}.

Definition set_gameState (v : GAME_STATE) (c : t) : t :=
  mk v (isGameLoopRunning c) (gameTime c) (currentSpeedMultiplier c)
     (speedIncreaseApplied20s c) (speedIncreaseApplied40s c).
Definition set_isGameLoopRunning (v : bool) (c : t) : t :=
  mk (gameState c) v (gameTime c) (currentSpeedMultiplier c)
     (speedIncreaseApplied20s c) (speedIncreaseApplied40s c).
Definition set_gameTime (v : Q) (c : t) : t :=
  mk (gameState c) (isGameLoopRunning c) v (currentSpeedMultiplier c)
     (speedIncreaseApplied20s c) (speedIncreaseApplied40s c).
Definition set_currentSpeedMultiplier (v : Q) (c : t) : t :=
  mk (gameState c) (isGameLoopRunning c) (gameTime c) v
     (speedIncreaseApplied20s c) (speedIncreaseApplied40s c).
Definition set_speedIncreaseApplied20s (v : bool) (c : t) : t :=
  mk (gameState c) (isGameLoopRunning c) (gameTime c) (currentSpeedMultiplier c)
     v (speedIncreaseApplied40s c).
Definition set_speedIncreaseApplied40s (v : bool) (c : t) : t :=
  mk (gameState c) (isGameLoopRunning c) (gameTime c) (currentSpeedMultiplier c)
     (speedIncreaseApplied20s c) v.


(** [endGame()] *)
Definition endGame (c : t) : t :=
  set_isGameLoopRunning false (set_gameState GAME_OVER c).

(** [(GAME_CONFIG.GAME_DURATION - this.gameTime) / 1000] *)
Definition timeElapsed (c : t) : Q :=
  Binary64.div (Binary64.sub GAME_CONFIG.GAME_DURATION (gameTime c)) 1000.

(** [updateSpeedProgression()]; the multipliers are the binary64 numbers
    that [1.1] and [1.2] denote. *)
Definition updateSpeedProgression (c : t) : t :=
  let timeElapsed := timeElapsed c in
  let c :=
    if JS.ge timeElapsed 20 && negb (speedIncreaseApplied20s c) then
      let c := set_currentSpeedMultiplier
                 (Binary64.round GAME_CONFIG.SPEED_INCREASE_20S) c in
      set_speedIncreaseApplied20s true c
    else c in
  if JS.ge timeElapsed 40 && negb (speedIncreaseApplied40s c) then
    let c := set_currentSpeedMultiplier
               (Binary64.round GAME_CONFIG.SPEED_INCREASE_40S) c in
    set_speedIncreaseApplied40s true c
  else c.

(** [update(dt)] *)
Definition update (dt : Q) (crash : bool) (c : t) : t :=
  if negb (GAME_STATE_eqb (gameState c) PLAYING) then c
  else
    let c := set_gameTime (Binary64.sub (gameTime c) dt) c in
    if JS.le (gameTime c) 0 then endGame c
    else
      let c := updateSpeedProgression c in
      if crash then endGame c else c.

(** One call of the [gameLoop] closure. *)
Definition gameLoop (dt : Q) (crash : bool) (c : t) : t :=
  if negb (isGameLoopRunning c) then c else update dt crash c.

(** The frames [fs], each a frame time and whether the game is lost in
    the frame. *)
Fixpoint frames (fs : list (Q * bool)) (c : t) : t :=
  match fs with
  | [] => c
  | (dt, crash) :: rest => frames rest (gameLoop dt crash c)
  end.

End Clock.

(** ** The window

    [resizeCanvas()], the listener of the window's [resize] that
    [setupCanvas] registers, [containerHeight] being the height the window
    reports: [GAME_CONFIG.CANVAS_HEIGHT = containerHeight].  The size and
    the style of the canvas element are not embedded. *)
Definition resizeCanvas (containerHeight : Q) : M unit :=
  fun w =>
    (tt, mkWorld containerHeight (sin_impl w) (cos_impl w) (random_stream w)
                 (clock_stream w) (random_calls w) (clock_calls w) (effects w)).

(** What can happen to the page of a [GameManager] once constructed: an
    event of the engine or a resize of the window. *)
Inductive Input : Type :=
| Engine (e : Event)
| Resize (containerHeight : Q).

Definition handle_input (i : Input) (g : GameManager.t) : M GameManager.t :=
  match i with
  | Engine e => handle e g
  | Resize containerHeight => resizeCanvas containerHeight ;;; ret g
  end.

Fixpoint session (inputs : list Input) (g : GameManager.t) : M GameManager.t :=
  match inputs with
  | [] => ret g
  | i :: rest => g' <- handle_input i g ;; session rest g'
  end.

(** No frame of [inputs] goes back in time. *)
Definition input_times_nonneg (inputs : list Input) : Prop :=
  Forall (fun i => match i with Engine (Frame dt) => 0 <= dt | _ => True end) inputs.

(** ** Vocabulary of the properties *)

(** The fields of a game manager after [endGame()]. *)
Definition ended (g : GameManager.t) : GameManager.t :=
  GameManager.stopGameLoop (GameManager.set_gameState GAME_OVER g).

(** A hazard after [hazard.active = false]. *)
Definition deactivated (h : Hazard.t) : Hazard.t :=
  Hazard.set_obj (GameObject.set_active false (Hazard.obj h)) h.

(** Does the player's box overlap the hazard's? *)
Definition hits (p : Player.t) (h : Hazard.t) : bool :=
  GameObject.collidesWith (Player.obj p) (Hazard.obj h).

(** The fields no step of the collision pass writes: [s] has them as
    [g] has. *)
Definition keeps (g s : GameManager.t) : Prop :=
  GameManager.npcs s = GameManager.npcs g /\
  GameManager.coins s = GameManager.coins g /\
  GameManager.powerups s = GameManager.powerups g /\
  GameManager.hazards s = GameManager.hazards g /\
  GameManager.gameTime s = GameManager.gameTime g /\
  GameManager.lastSpawnTime s = GameManager.lastSpawnTime g /\
  GameManager.lastCoinSpawnTime s = GameManager.lastCoinSpawnTime g /\
  GameManager.lastPowerupSpawnTime s = GameManager.lastPowerupSpawnTime g /\
  GameManager.lastHazardSpawnTime s = GameManager.lastHazardSpawnTime g /\
  GameManager.currentSpeedMultiplier s = GameManager.currentSpeedMultiplier g /\
  GameManager.speedIncreaseApplied20s s = GameManager.speedIncreaseApplied20s g /\
  GameManager.speedIncreaseApplied40s s = GameManager.speedIncreaseApplied40s g /\
  Player.obj (GameManager.player s) = Player.obj (GameManager.player g).

(** The fields that tell whether the session goes on. *)
Definition goes_on_as (g s : GameManager.t) : Prop :=
  GameManager.gameState s = GameManager.gameState g /\
  GameManager.isGameLoopRunning s = GameManager.isGameLoopRunning g /\
  Player.power (GameManager.player s) = Player.power (GameManager.player g).

(** An NPC after the nudge of the collision pass. *)
Definition nudged (n : NPC.t) : NPC.t :=
  NPC.set_avoidanceOffset
    (JS.Math_max (-80)
       (JS.Math_min 80 (NPC.avoidanceOffset n + NPC.avoidanceDirection n * 30)))
    (NPC.set_avoidanceOffset
       (NPC.avoidanceOffset n + NPC.avoidanceDirection n * 30) n).

(** Does the player's box overlap the NPC's? *)
Definition bumps (p : Player.t) (n : NPC.t) : bool :=
  GameObject.collidesWith (Player.obj p) (NPC.obj n).

(** A collectible after the collision pass: as it was, or inactive. *)
Definition kept_or_inactive {A} (obj : A -> GameObject.t) (a a' : A) : Prop :=
  a' = a \/ GameObject.active (obj a') = false.

(** The timer, the spawn timers and the speed progression of [s] are
    those of [g]. *)
Definition same_schedule (g s : GameManager.t) : Prop :=
  GameManager.gameTime s = GameManager.gameTime g /\
  GameManager.lastSpawnTime s = GameManager.lastSpawnTime g /\
  GameManager.lastCoinSpawnTime s = GameManager.lastCoinSpawnTime g /\
  GameManager.lastPowerupSpawnTime s = GameManager.lastPowerupSpawnTime g /\
  GameManager.lastHazardSpawnTime s = GameManager.lastHazardSpawnTime g /\
  GameManager.currentSpeedMultiplier s = GameManager.currentSpeedMultiplier g /\
  GameManager.speedIncreaseApplied20s s = GameManager.speedIncreaseApplied20s g /\
  GameManager.speedIncreaseApplied40s s = GameManager.speedIncreaseApplied40s g.

(** The avoidance offset is within [bound] of the lane. *)
Definition offset_within (bound : Q) (n : NPC.t) : Prop :=
  - bound <= NPC.avoidanceOffset n <= bound.

(** What the avoidance block of [NPC.update] reads of the car. *)
Definition same_avoidance (n n' : NPC.t) : Prop :=
  NPC.obj n' = NPC.obj n /\
  NPC.avoidanceOffset n' = NPC.avoidanceOffset n /\
  NPC.avoidanceDistance n' = NPC.avoidanceDistance n /\
  NPC.maxAvoidanceSpeed n' = NPC.maxAvoidanceSpeed n.

(** The car as the avoidance test of [NPC.update] sees it in a frame of
    [dt] milliseconds: moved by [super.update(dt)]. *)
Definition moved (dt : Q) (n : NPC.t) : NPC.t :=
  NPC.set_obj (GameObject.update dt (NPC.obj n)) n.

(** The seconds of the session spent so far, as [updateSpeedProgression]
    computes them. *)
Definition timeElapsed (g : GameManager.t) : Q :=
  (GAME_CONFIG.GAME_DURATION - GameManager.gameTime g) / 1000.

(** The fields of a game manager after [updateSpeedProgression()]. *)
Definition progressed (g : GameManager.t) : GameManager.t :=
  let g1 :=
    if JS.ge (timeElapsed g) 20 && negb (GameManager.speedIncreaseApplied20s g)
    then GameManager.set_speedIncreaseApplied20s true
           (GameManager.set_currentSpeedMultiplier GAME_CONFIG.SPEED_INCREASE_20S g)
    else g in
  if JS.ge (timeElapsed g) 40 && negb (GameManager.speedIncreaseApplied40s g1)
  then GameManager.set_speedIncreaseApplied40s true
         (GameManager.set_currentSpeedMultiplier GAME_CONFIG.SPEED_INCREASE_40S g1)
  else g1.

(** The part of [update(dt)] between the test of the timer and the
    collision pass. *)
Definition beforeCollisions (dt : Q) (g : GameManager.t) : M GameManager.t :=
  let g := GameManager.set_gameTime (GameManager.gameTime g - dt) g in
  g <- GameManager.updateSpeedProgression g ;;
  let g := GameManager.set_roadOffset
             (GameManager.roadOffset g - GameManager.roadSpeed g * (dt / 16.67)) g in
  let g := if JS.lt (GameManager.roadOffset g) 0
           then GameManager.set_roadOffset 40 g else g in
  let g := GameManager.handleInput g in
  p <- Player.update dt (GameManager.player g) ;;
  let g := GameManager.set_player p g in
  g <- GameManager.spawnObjects dt g ;;
  GameManager.updateObjects dt g.

(** A frame in which the simulation runs: the game is on and the timer
    does not run out. *)
Definition live (dt : Q) (g : GameManager.t) : bool :=
  GAME_STATE_eqb (GameManager.gameState g) PLAYING &&
  negb (JS.le (GameManager.gameTime g - dt) 0).

(** An NPC as [spawnObjects] adds it under the speed multiplier [m]. *)
Definition fresh_npc (m : Q) (n : NPC.t) : Prop :=
  exists lane w,
    n = NPC.set_obj
          (GameObject.set_velocityY
             (GameObject.velocityY (NPC.obj (fst (NPC.new lane w))) * m)
             (NPC.obj (fst (NPC.new lane w))))
          (fst (NPC.new lane w)).

(** A coin, a powerup and a hazard as [spawnObjects] adds them under
    the speed multiplier [m]: active, at their speed times [m]. *)
Definition fresh_coin (m : Q) (c : Coin.t) : Prop :=
  GameObject.active (Coin.obj c) = true /\
  exists r, GameObject.velocityY (Coin.obj c)
            = (GAME_CONFIG.NPC_SPEED + (r - 0.5) * 30) * m.

Definition fresh_powerup (m : Q) (p : Powerup.t) : Prop :=
  GameObject.active (Powerup.obj p) = true /\
  GameObject.velocityY (Powerup.obj p) = GAME_CONFIG.NPC_SPEED * m.

Definition fresh_hazard (m : Q) (h : Hazard.t) : Prop :=
  GameObject.active (Hazard.obj h) = true /\
  GameObject.velocityY (Hazard.obj h) = GAME_CONFIG.NPC_SPEED * m.

(** The state, the loop flag, the timer, the player, the speed
    progression and the particles of [s] are those of [g]. *)
Definition same_core (g s : GameManager.t) : Prop :=
  GameManager.gameState s = GameManager.gameState g /\
  GameManager.isGameLoopRunning s = GameManager.isGameLoopRunning g /\
  GameManager.gameTime s = GameManager.gameTime g /\
  GameManager.player s = GameManager.player g /\
  GameManager.currentSpeedMultiplier s = GameManager.currentSpeedMultiplier g /\
  GameManager.speedIncreaseApplied20s s = GameManager.speedIncreaseApplied20s g /\
  GameManager.speedIncreaseApplied40s s = GameManager.speedIncreaseApplied40s g /\
  GameManager.particles s = GameManager.particles g.

(** [l'] is [l], possibly with one more element that satisfies [P]. *)
Definition grown {A} (P : A -> Prop) (l l' : list A) : Prop :=
  l' = l \/ exists a, P a /\ l' = l ++ [a].

(** [b] is what the method [f] makes of [a] in some browser. *)
Definition result_of {A B} (f : A -> M B) (a : A) (b : B) : Prop :=
  exists w, b = fst (f a w).

(** From [g] to [s] the game went on as it was, or ended. *)
Definition continues_or_ends (g s : GameManager.t) : Prop :=
  (GameManager.gameState s = GameManager.gameState g /\
   GameManager.isGameLoopRunning s = GameManager.isGameLoopRunning g) \/
  (GameManager.gameState s = GAME_OVER /\
   GameManager.isGameLoopRunning s = false).

(** The part of [update(dt)] between the test of the timer and
    [spawnObjects]: the state the spawn check of a live frame runs on. *)
Definition beforeSpawn (dt : Q) (g : GameManager.t) : M GameManager.t :=
  let g := GameManager.set_gameTime (GameManager.gameTime g - dt) g in
  g <- GameManager.updateSpeedProgression g ;;
  let g := GameManager.set_roadOffset
             (GameManager.roadOffset g - GameManager.roadSpeed g * (dt / 16.67)) g in
  let g := if JS.lt (GameManager.roadOffset g) 0
           then GameManager.set_roadOffset 40 g else g in
  let g := GameManager.handleInput g in
  p <- Player.update dt (GameManager.player g) ;;
  ret (GameManager.set_player p g).

(** The four collections of [s] are those of [g]. *)
Definition same_collections (g s : GameManager.t) : Prop :=
  GameManager.npcs s = GameManager.npcs g /\
  GameManager.coins s = GameManager.coins g /\
  GameManager.powerups s = GameManager.powerups g /\
  GameManager.hazards s = GameManager.hazards g.

(** No collection of [g] holds an inactive entity. *)
Definition all_active (g : GameManager.t) : Prop :=
  Forall (fun n => GameObject.active (NPC.obj n) = true) (GameManager.npcs g) /\
  Forall (fun c => GameObject.active (Coin.obj c) = true) (GameManager.coins g) /\
  Forall (fun p => GameObject.active (Powerup.obj p) = true) (GameManager.powerups g) /\
  Forall (fun h => GameObject.active (Hazard.obj h) = true) (GameManager.hazards g).

(** The browser [w'] is the browser [w] later on: the same viewport and
    the same [Math.sin], [Math.cos], [Math.random] and [Date.now]; only
    the number of calls made and the effects recorded may differ. *)
Definition same_browser (w w' : World) : Prop :=
  CANVAS_HEIGHT w' = CANVAS_HEIGHT w /\
  sin_impl w' = sin_impl w /\
  cos_impl w' = cos_impl w /\
  random_stream w' = random_stream w /\
  clock_stream w' = clock_stream w.

(** A computation after which the browser is the same browser. *)
Definition stable {A} (m : M A) : Prop :=
  forall w, same_browser w (snd (m w)).

(** No frame of [es] goes back in time. *)
Definition frame_times_nonneg (es : list Event) : Prop :=
  Forall (fun e => match e with Frame dt => 0 <= dt | _ => True end) es.

(** The player [p'] is the player [p] after collisions: in the same
    place and lanes, with no more power (if there was none below zero,
    and then none below zero) and no lower score. *)
Definition collided (p p' : Player.t) : Prop :=
  Player.obj p' = Player.obj p /\
  Player.targetLane p' = Player.targetLane p /\
  Player.currentLane p' = Player.currentLane p /\
  Player.laneChangeProgress p' = Player.laneChangeProgress p /\
  Player.maxPower p' = Player.maxPower p /\
  (0 <= Player.power p -> 0 <= Player.power p' <= Player.power p) /\
  (Player.score p <= Player.score p')%Z.

(** The player after the calls [changeLane(d)] for the [d] of [ds]. *)
Definition lane_changes (ds : list Z) (p : Player.t) : Player.t :=
  fold_left (fun p d => Player.changeLane d p) ds p.

(** The player is on the road of a canvas of height [H]: its lanes are
    lanes of the game, its lane change is between 0 and 1 and over only
    with the player in the target lane, and its box is the player's box,
    100 above the bottom, at the point of the lane change. *)
Definition on_the_road (H : Q) (p : Player.t) : Prop :=
  (0 <= Player.targetLane p <= 2)%Z /\
  (0 <= Player.currentLane p <= 2)%Z /\
  0 <= Player.laneChangeProgress p <= 1 /\
  (1 <= Player.laneChangeProgress p -> Player.currentLane p = Player.targetLane p) /\
  GameObject.x (Player.obj p) ==
  GAME_CONFIG.lane (Player.currentLane p)
  + (GAME_CONFIG.lane (Player.targetLane p) - GAME_CONFIG.lane (Player.currentLane p))
    * Player.laneChangeProgress p /\
  GameObject.y (Player.obj p) = H - 100 /\
  GameObject.width (Player.obj p) = 80 /\
  GameObject.height (Player.obj p) = 120.

(** Does the collision pass collect the coin: the player overlaps it and
    it has not been collected? *)
Definition collects (p : Player.t) (c : Coin.t) : bool :=
  GameObject.collidesWith (Player.obj p) (Coin.obj c) && negb (Coin.collected c).

(** Does the player's box overlap the powerup's? *)
Definition takes (p : Player.t) (u : Powerup.t) : bool :=
  GameObject.collidesWith (Player.obj p) (Powerup.obj u).

(** The number of elements of [l] that pass the test [f], as an integer. *)
Definition count {A} (f : A -> bool) (l : list A) : Z :=
  Z.of_nat (List.length (filter f l)).

(** A particle as a burst at [(x, y)] makes it, with [life] to live. *)
Definition fresh_particle (life x y : Q) (p : Particle.t) : Prop :=
  Particle.life p = life /\ Particle.maxLife p = life /\
  Particle.active p = true /\ Particle.x p = x /\ Particle.y p = y.

(** No collection of [g] holds more entities than its cap. *)
Definition within_caps (g : GameManager.t) : Prop :=
  (List.length (GameManager.npcs g) <= GAME_CONFIG.MAX_NPCS)%nat /\
  (List.length (GameManager.coins g) <= GAME_CONFIG.MAX_COINS)%nat /\
  (List.length (GameManager.powerups g) <= GAME_CONFIG.MAX_POWERUPS)%nat /\
  (List.length (GameManager.hazards g) <= GAME_CONFIG.MAX_HAZARDS)%nat.

(** The particle is shown: active, with some of its life left and no
    more than it started with. *)
Definition alive (p : Particle.t) : Prop :=
  Particle.active p = true /\ 0 < Particle.life p <= Particle.maxLife p.

(** The method [f] called once per frame over the frame times [dts]. *)
Fixpoint frames {A} (f : Q -> A -> M A) (dts : list Q) (a : A) : M A :=
  match dts with
  | [] => ret a
  | dt :: rest => a' <- f dt a ;; frames f rest a'
  end.

(** The box [o'] is the box [o] after a frame of [dt] ms on a canvas of
    height [H]: moved down by its speed, of the same size and speed, and
    switched off once more than 100 below the canvas. *)
Definition fallen (H dt : Q) (o o' : GameObject.t) : Prop :=
  GameObject.y o' = GameObject.y o + GameObject.velocityY o * (dt / 1000) /\
  GameObject.velocityY o' = GameObject.velocityY o /\
  GameObject.width o' = GameObject.width o /\
  GameObject.height o' = GameObject.height o /\
  GameObject.active o' =
  (if JS.gt (GameObject.y o') (H + 100) then false else GameObject.active o).



(** [Math.random()] of the browser yields values in [0, 1). *)
Definition random_in_range (w : World) : Prop :=
  forall n, 0 <= random_stream w n < 1.

(** The car type, the size and the colour of the NPC, as an entry of the
    table of [carTypes]. *)
Definition car_of (n : NPC.t) : NPC.CarSpec :=
  NPC.mkCar (NPC.carType n) (NPC.carWidth n) (NPC.carHeight n) (NPC.carColor n).

(** The NPC is in a lane of the game and on its way to one, and its
    [originalX] is the position of its lane. *)
Definition npc_in_lane (n : NPC.t) : Prop :=
  (0 <= NPC.lane n <= 2)%Z /\
  (0 <= NPC.targetLane n <= 2)%Z /\
  NPC.originalX n = GAME_CONFIG.lane (NPC.lane n).

(** No entity of [g] is more than 100 below a canvas of height [H]. *)
Definition in_play (H : Q) (g : GameManager.t) : Prop :=
  Forall (fun n => GameObject.y (NPC.obj n) <= H + 100) (GameManager.npcs g) /\
  Forall (fun c => GameObject.y (Coin.obj c) <= H + 100) (GameManager.coins g) /\
  Forall (fun p => GameObject.y (Powerup.obj p) <= H + 100) (GameManager.powerups g) /\
  Forall (fun h => GameObject.y (Hazard.obj h) <= H + 100) (GameManager.hazards g).


(** The box falls at a speed from 175 to 270. *)
Definition falling (o : GameObject.t) : Prop :=
  175 <= GameObject.velocityY o <= 270.

(** An NPC as a session keeps it: in a lane of the game, falling, and of
    the size of its car, which is a car of the table. *)
Definition npc_sound (n : NPC.t) : Prop :=
  npc_in_lane n /\
  falling (NPC.obj n) /\
  In (car_of n) NPC.carTypes /\
  GameObject.width (NPC.obj n) = NPC.carWidth n /\
  GameObject.height (NPC.obj n) = NPC.carHeight n.

(** A coin as a session keeps it: 25 by 25, falling, around the position
    of its lane, a lane of the game. *)
Definition coin_sound (c : Coin.t) : Prop :=
  (0 <= Coin.lane c <= 2)%Z /\
  Coin.originalX c = GAME_CONFIG.lane (Coin.lane c) /\
  falling (Coin.obj c) /\
  GameObject.width (Coin.obj c) = 25 /\
  GameObject.height (Coin.obj c) = 25.

(** A box of the given size that falls straight down the lane [lane], a
    lane of the game. *)
Definition down_the_lane (lane : Z) (width height : Q) (o : GameObject.t) : Prop :=
  (0 <= lane <= 2)%Z /\
  GameObject.x o == GAME_CONFIG.lane lane /\
  GameObject.velocityX o = 0 /\
  falling o /\
  GameObject.width o = width /\
  GameObject.height o = height.

(** A powerup and a hazard as a session keeps them. *)
Definition powerup_sound (p : Powerup.t) : Prop :=
  down_the_lane (Powerup.lane p) 30 30 (Powerup.obj p).

Definition hazard_sound (h : Hazard.t) : Prop :=
  down_the_lane (Hazard.lane h) 30 24 (Hazard.obj h).

(** The speed multiplier of [g] is between 1 and 1.2 and its entities are
    as a session keeps them. *)
Definition sound (g : GameManager.t) : Prop :=
  1 <= GameManager.currentSpeedMultiplier g <= 1.2 /\
  Forall npc_sound (GameManager.npcs g) /\
  Forall coin_sound (GameManager.coins g) /\
  Forall powerup_sound (GameManager.powerups g) /\
  Forall hazard_sound (GameManager.hazards g).





(** Is the session of the clock going on? *)
Definition ticking (c : Clock.t) : bool :=
  Clock.isGameLoopRunning c && GAME_STATE_eqb (Clock.gameState c) PLAYING.

(** While the session goes on, the timer of [c] is within [2^-37] per
    frame of what [elapsedMs] leaves of the duration, [frames] being the
    number of frames so far. *)
Definition on_time (elapsedMs : Q) (frames : nat) (c : Clock.t) : Prop :=
  ticking c = true ->
  0 < Clock.gameTime c <= GAME_CONFIG.GAME_DURATION /\
  Qabs (Clock.gameTime c - (GAME_CONFIG.GAME_DURATION - elapsedMs))
  <= inject_Z (Z.of_nat frames) * 2 ^ (-37).

(** The clock of a session as [resetGame] and [startGameLoop] leave it. *)
Definition fresh_clock : Clock.t :=
  Clock.mk PLAYING true GAME_CONFIG.GAME_DURATION 1 false false.

(** The frame times of the frames [fs]. *)
Definition times (fs : list (Q * bool)) : list Q := map fst fs.








(** The largest binary64 number below 1, [1 - 2^-53]. *)
Definition largest_below_1 : Q := 9007199254740991 # 9007199254740992.

(** ** Concrete situations

    States and browsers to run the engine on. *)

Module Scenario.

(** A 600-pixel viewport in which every [Math.random()] is 0.5 and the
    clock advances one millisecond per [Date.now()], given the host's
    [Math.sin] and [Math.cos]. *)
Definition world (sin cos : Q -> Q) : World :=
  mkWorld 600 sin cos (fun _ => 0.5)
          (fun n => 1700000000000 + inject_Z (Z.of_nat n)) 0 0 [].

(** The first reading of the clock of [world]. *)
Definition now : Q := 1700000000000.

(** The same browser with every [Math.random()] at 0.05. *)
Definition lucky (sin cos : Q -> Q) : World :=
  mkWorld 600 sin cos (fun _ => 0.05)
          (fun n => 1700000000000 + inject_Z (Z.of_nat n)) 0 0 [].

(** A stand-in for [Math.sin] and [Math.cos] where neither is called. *)
Definition unused : Q -> Q := fun _ => 0.

(** The player at rest in the middle lane. *)
Definition settled : Player.t :=
  Player.mk (GameObject.mk 200 500 80 120 0 0 true) 1 1 1 100 120 false 0 0.

(** The player half way from the middle lane to the right lane. *)
Definition changing : Player.t :=
  Player.mk (GameObject.mk 250 500 80 120 0 0 true) 2 1 0.5 100 120 false 0 0.

(** The player at rest in the leftmost lane. *)
Definition leftmost : Player.t :=
  Player.mk (GameObject.mk 100 500 80 120 0 0 true) 0 0 1 100 120 false 0 0.

(** The same player with a hundredth of a point of power left. *)
Definition exhausted : Player.t :=
  Player.mk (GameObject.mk 200 500 80 120 0 0 true) 1 1 1 0.01 120 false 0 0.

(** The same player under a shield that lasts five more seconds. *)
Definition shielded : Player.t :=
  Player.mk (GameObject.mk 200 500 80 120 0 0 true) 1 1 1 100 120
            true 1700000005000 0.

(** A road-work hazard in the middle lane, level with the player. *)
Definition hazardAhead : Hazard.t :=
  Hazard.mk (GameObject.mk 200 480 30 24 0 200 true) 1 Hazard.road_work 0.

(** A session half way through, with the given player, NPCs and hazards
    and nothing else on the road; the spawn timers were set 100 ms before
    the clock of [world] starts. *)
Definition playing (p : Player.t) (npcs : list NPC.t) (hazards : list Hazard.t)
  : GameManager.t :=
  GameManager.mk PLAYING true p npcs [] [] hazards [] 30000
                 1699999999900 1699999999900 1699999999900 1699999999900
                 0 0 0 8 1 false false (fun _ => false).

(** A sports car in the middle lane, level with the player and pushed
    to the right as far as [NPC.update] pushes. *)
Definition carAlongside : NPC.t :=
  NPC.mk (GameObject.mk 262 500 80 120 0 200 true) 1 0 0.02 200
         NPC.sports "#f39c12" 80 120 false 15 1 0 1500 0 8000 1 1 0.002
         1 100 100 150 true 60.

(** A road-work hazard in the left lane at height [y]. *)
Definition hazardAt (y : Q) : Hazard.t :=
  Hazard.mk (GameObject.mk 100 y 30 24 0 200 true) 0 Hazard.road_work 0.

(** Eight hazards on the road, one of them level with the player. *)
Definition crowded : GameManager.t :=
  playing settled []
          (hazardAhead :: map hazardAt [600; 500; 400; 300; 200; 100; 0]).

(** The car [new NPC(1)] builds where every [Math.random()] is 0.5. *)
Definition oncoming : NPC.t :=
  Eval vm_compute in fst (NPC.new 1 (world unused unused)).

(** The session as [startGame()] leaves it once loading is over. *)
Definition opening : GameManager.t :=
  GameManager.mk PLAYING true
    (Player.mk (GameObject.mk (400 / 2) (600 - 100) 80 120 0 0 true)
               1 1 0 100 120 false 0 0)
    [] [] [] [] [] 60000 0 0 0 0 0 0 0 8 1 false false (fun _ => false).

End Scenario.

(** * Properties *)

(** ** Arithmetic and comparisons *)

(** Rational arithmetic stays symbolic under [cbn] and [simpl]. *)
#[local] Arguments Qplus : simpl never.
#[local] Arguments Qminus : simpl never.
#[local] Arguments Qmult : simpl never.
#[local] Arguments Qdiv : simpl never.
#[local] Arguments Qopp : simpl never.
#[local] Arguments Qinv : simpl never.
#[local] Arguments Qle_bool : simpl never.
#[local] Arguments Qmax : simpl never.
#[local] Arguments Qmin : simpl never.
#[local] Arguments Qabs : simpl never.
#[local] Arguments Qfloor : simpl never.
#[local] Arguments inject_Z : simpl never.
#[local] Arguments JS.lt : simpl never.
#[local] Arguments JS.gt : simpl never.
#[local] Arguments JS.le : simpl never.
#[local] Arguments JS.ge : simpl never.
#[local] Arguments JS.Math_max : simpl never.
#[local] Arguments JS.Math_min : simpl never.
#[local] Arguments JS.Math_abs : simpl never.
#[local] Arguments JS.Math_floor : simpl never.
#[local] Arguments GameObject.collidesWith : simpl never.

(** [lra] does not read a division: a quotient by a constant is turned
    into the product with its inverse first. *)
Ltac qinv_consts :=
  unfold Qdiv in *;
  repeat match goal with
  | |- context [Qinv (Qmake ?n ?d)] =>
      let c := eval cbv in (Qinv (Qmake n d)) in
      change (Qinv (Qmake n d)) with c
  | H : context [Qinv (Qmake ?n ?d)] |- _ =>
      let c := eval cbv in (Qinv (Qmake n d)) in
      change (Qinv (Qmake n d)) with c in H
  end.

Ltac lraq := qinv_consts; lra.

Lemma lt_true (a b : Q) : JS.lt a b = true <-> a < b.
Proof.
  unfold JS.lt. rewrite negb_true_iff.
  split; intro H.
  - apply Qnot_le_lt. intro L. apply Qle_bool_iff in L. congruence.
  - destruct (Qle_bool b a) eqn:L; [|reflexivity].
    apply Qle_bool_iff in L. exfalso. exact (Qlt_not_le _ _ H L).
Qed.

Lemma lt_false (a b : Q) : JS.lt a b = false <-> b <= a.
Proof.
  unfold JS.lt. rewrite negb_false_iff. apply Qle_bool_iff.
Qed.

Lemma le_true (a b : Q) : JS.le a b = true <-> a <= b.
Proof. apply Qle_bool_iff. Qed.

Lemma le_false (a b : Q) : JS.le a b = false <-> b < a.
Proof.
  unfold JS.le. split; intro H.
  - apply Qnot_le_lt. intro L. apply Qle_bool_iff in L. congruence.
  - destruct (Qle_bool a b) eqn:L; [|reflexivity].
    apply Qle_bool_iff in L. exfalso. exact (Qlt_not_le _ _ H L).
Qed.


Lemma ge_false (a b : Q) : JS.ge a b = false <-> a < b.
Proof. apply le_false. Qed.

Lemma gt_true (a b : Q) : JS.gt a b = true <-> b < a.
Proof. apply lt_true. Qed.

Lemma gt_false (a b : Q) : JS.gt a b = false <-> a <= b.
Proof. apply lt_false. Qed.

(** [Math.max(lo, Math.min(hi, v))] lands in [lo, hi]. *)
Lemma clamp_bounds (lo hi v : Q) :
  lo <= hi ->
  lo <= JS.Math_max lo (JS.Math_min hi v) <= hi.
Proof.
  intro H. unfold JS.Math_max, JS.Math_min. split.
  - apply Q.le_max_l.
  - apply Q.max_lub; [exact H | apply Q.le_min_l].
Qed.

(** ** Player.changeLane *)

Lemma changeLane_in_transition (direction : Z) (p : Player.t) :
  Player.laneChangeProgress p < 1 -> Player.changeLane direction p = p.
Proof.
  intro H. unfold Player.changeLane.
  apply lt_true in H. rewrite H. reflexivity.
Qed.

Lemma changeLane_settled (direction : Z) (p : Player.t) :
  1 <= Player.laneChangeProgress p ->
  Player.changeLane direction p =
  let newLane := Z.max 0 (Z.min 2 (Player.targetLane p + direction)) in
  if (newLane =? Player.targetLane p)%Z then p
  else Player.set_laneChangeProgress 0 (Player.set_targetLane newLane p).
Proof.
  intro H. unfold Player.changeLane.
  apply lt_false in H. rewrite H. cbv zeta.
  destruct (_ =? _)%Z; reflexivity.
Qed.

(** C7.  [changeLane(direction)] does nothing while a lane change is in
    progress ([laneChangeProgress < 1]).  On a settled player
    ([laneChangeProgress == 1]) the new target lane is the old one plus
    [direction], clamped to 0..2; the other fields keep their values,
    except that [laneChangeProgress] goes back to 0 when the target lane
    changed. *)
Theorem changeLane_spec (direction : Z) (p : Player.t) :
  let newLane := Z.max 0 (Z.min 2 (Player.targetLane p + direction)) in
  let p' := Player.changeLane direction p in
  (Player.laneChangeProgress p < 1 -> p' = p) /\
  (Player.laneChangeProgress p == 1 ->
   Player.targetLane p' = newLane /\
   (0 <= Player.targetLane p' <= 2)%Z /\
   (newLane <> Player.targetLane p -> Player.laneChangeProgress p' = 0) /\
   (newLane = Player.targetLane p -> p' = p) /\
   p' = Player.set_laneChangeProgress (Player.laneChangeProgress p')
          (Player.set_targetLane newLane p)).
Proof.
  cbv zeta. split.
  - apply changeLane_in_transition.
  - intro H.
    assert (H1 : 1 <= Player.laneChangeProgress p) by (rewrite H; apply Qle_refl).
    rewrite (changeLane_settled direction p H1). cbv zeta.
    destruct (Z.eqb_spec (Z.max 0 (Z.min 2 (Player.targetLane p + direction)))
                         (Player.targetLane p)) as [e|n].
    + repeat split; try lia; try congruence.
      rewrite e. destruct p; reflexivity.
    + cbn. repeat split; try reflexivity; try lia; try congruence.
Qed.

(** C10.  On a settled player already in the outermost lane of the
    requested direction, [changeLane] changes no field: in particular
    [laneChangeProgress] stays 1 and no new transition starts. *)
Theorem changeLane_at_boundary (direction : Z) (p : Player.t) :
  Player.laneChangeProgress p == 1 ->
  (Player.targetLane p = 0 /\ direction = -1)%Z \/
  (Player.targetLane p = 2 /\ direction = 1)%Z ->
  Player.changeLane direction p = p.
Proof.
  intros H B.
  assert (H1 : 1 <= Player.laneChangeProgress p) by (rewrite H; apply Qle_refl).
  rewrite (changeLane_settled direction p H1). cbv zeta.
  replace (Z.max 0 (Z.min 2 (Player.targetLane p + direction)))
    with (Player.targetLane p) by lia.
  rewrite Z.eqb_refl. reflexivity.
Qed.

Lemma changeLane_spec_witness :
  Player.changeLane 1 Scenario.changing = Scenario.changing /\
  Player.targetLane (Player.changeLane 1 Scenario.settled) = 2%Z /\
  Player.laneChangeProgress (Player.changeLane 1 Scenario.settled) = 0.
Proof.
  destruct (changeLane_spec 1 Scenario.changing) as [A _].
  destruct (changeLane_spec 1 Scenario.settled) as [_ B].
  split.
  - apply A. reflexivity.
  - destruct B as (B1 & _ & B3 & _); [reflexivity|].
    split; [exact B1 | apply B3; discriminate].
Defined.

Lemma changeLane_at_boundary_witness :
  Player.changeLane (-1) Scenario.leftmost = Scenario.leftmost.
Proof.
  apply changeLane_at_boundary.
  - reflexivity.
  - left. split; reflexivity.
Defined.

(** ** Player.update and the decay of power *)

Lemma animateLaneChange_power (dt : Q) (p : Player.t) :
  Player.power (Player.animateLaneChange dt p) = Player.power p /\
  Player.shieldActive (Player.animateLaneChange dt p) = Player.shieldActive p.
Proof.
  unfold Player.animateLaneChange.
  destruct (JS.lt _ _); [|split; reflexivity].
  cbn. destruct (JS.ge _ _); split; reflexivity.
Qed.

(** One frame takes [POWER_DECAY_RATE * dt / 1000] off the power and
    stops at zero. *)
Lemma update_power (dt : Q) (p : Player.t) (w : World) :
  Player.power (fst (Player.update dt p w)) =
  JS.Math_max 0 (Player.power p - GAME_CONFIG.POWER_DECAY_RATE * dt / 1000).
Proof.
  unfold Player.update, bind, canvasHeight, ret, Date_now. cbn.
  destruct (animateLaneChange_power dt (Player.set_obj (GameObject.update dt (Player.obj p)) p))
    as [Hp Hs].
  rewrite Hs. cbn.
  destruct (Player.shieldActive p); cbn.
  - destruct (JS.gt _ _); cbn; rewrite Hp; reflexivity.
  - rewrite Hp. reflexivity.
Qed.

Lemma total_nonneg (dts : list Q) :
  Forall (fun dt => 0 < dt) dts -> 0 <= total dts.
Proof.
  induction 1 as [|d ds Hd _ IH]; unfold total in *; cbn; lraq.
Qed.

Lemma max0_step (p a b : Q) :
  0 <= a -> 0 <= b ->
  Qmax 0 (Qmax 0 (p - a) - b) == Qmax 0 (p - (a + b)).
Proof.
  intros Ha Hb.
  destruct (Q.max_spec 0 (p - a)) as [[H1 E1]|[H1 E1]];
  destruct (Q.max_spec 0 (Qmax 0 (p - a) - b)) as [[H2 E2]|[H2 E2]];
  destruct (Q.max_spec 0 (p - (a + b))) as [[H3 E3]|[H3 E3]];
  rewrite E2, E3; lraq.
Qed.

(** ** The monad and the loops *)

Lemma mapM_Forall2 {A B} (f : A -> M B) (R : A -> B -> Prop) :
  (forall a w, R a (fst (f a w))) ->
  forall l w, Forall2 R l (fst (mapM f l w)).
Proof.
  intros Hf. induction l as [|a l IH]; intro w; cbn [mapM].
  - constructor.
  - unfold bind. pose proof (Hf a w) as Ha.
    destruct (f a w) as [b w1]. pose proof (IH w1) as Hl.
    destruct (mapM f l w1) as [bs w2]. cbn in *. constructor; assumption.
Qed.

Lemma forEach_spec {A S} (f : A -> S -> M (A * S))
  (I : S -> Prop) (R : A -> A -> Prop) :
  (forall a s w, I s ->
     I (snd (fst (f a s w))) /\ R a (fst (fst (f a s w)))) ->
  forall l s w, I s ->
    I (snd (fst (forEach f l s w))) /\
    Forall2 R l (fst (fst (forEach f l s w))).
Proof.
  intros Hf. induction l as [|a l IH]; intros s w Hs; cbn [forEach].
  - split; [exact Hs | constructor].
  - unfold bind. destruct (Hf a s w Hs) as [H1 H2].
    destruct (f a s w) as [[a' s1] w1]. cbn [fst snd] in H1, H2.
    destruct (IH s1 w1 H1) as [H3 H4].
    destruct (forEach f l s1 w1) as [[l' s2] w2]. cbn [fst snd] in *.
    split; [exact H3 | constructor; assumption].
Qed.

Lemma Forall2_length_eq {A B} (R : A -> B -> Prop) (l : list A) (l' : list B) :
  Forall2 R l l' -> List.length l' = List.length l.
Proof. induction 1; cbn; congruence. Qed.

Lemma Forall2_Forall_r {A B} (R : A -> B -> Prop) (P : B -> Prop)
  (l : list A) (l' : list B) :
  (forall a b, R a b -> P b) -> Forall2 R l l' -> Forall P l'.
Proof. intros H. induction 1; constructor; eauto. Qed.

Lemma Forall2_map_eq {A B} (h : A -> B) (l : list A) (l' : list B) :
  Forall2 (fun a b => b = h a) l l' -> l' = map h l.
Proof. induction 1; cbn; congruence. Qed.

(** ** What the helpers of the collision pass change *)

Lemma createExplosion_eq (x y : Q) (g : GameManager.t) (w : World) :
  exists ps w',
    GameManager.createExplosion x y g w =
    (GameManager.set_particles (GameManager.particles g ++ ps) g, w').
Proof.
  unfold GameManager.createExplosion, bind, ret.
  destruct (mapM _ _ w) as [ps w']. eauto.
Qed.

Lemma createCoinBurst_eq (x y : Q) (g : GameManager.t) (w : World) :
  exists ps w',
    GameManager.createCoinBurst x y g w =
    (GameManager.set_particles (GameManager.particles g ++ ps) g, w').
Proof.
  unfold GameManager.createCoinBurst, bind, ret.
  destruct (mapM _ _ w) as [ps w']. eauto.
Qed.

Lemma endGame_eq (g : GameManager.t) (w : World) :
  exists w', GameManager.endGame g w = (ended g, w').
Proof.
  unfold GameManager.endGame, bind, ret, emit, ended. cbn. eauto.
Qed.

(** The hazard branch of the collision pass, on a hazard the player
    overlaps and on one it does not. *)
Lemma hazardCollision_hit (h : Hazard.t) (g : GameManager.t) (w : World) :
  hits (GameManager.player g) h = true ->
  exists ps w',
    let g1 := GameManager.set_particles (GameManager.particles g ++ ps)
                (GameManager.set_player
                   (Player.takeDamage 15 (GameManager.player g)) g) in
    GameManager.hazardCollision h g w =
    ((deactivated h,
      if JS.le (Player.power (GameManager.player g1)) 0 then ended g1 else g1),
     w').
Proof.
  unfold hits. intro H. unfold GameManager.hazardCollision. rewrite H.
  unfold bind.
  destruct (createExplosion_eq (GameObject.x (Hazard.obj h)) (GameObject.y (Hazard.obj h))
              (GameManager.set_player (Player.takeDamage 15 (GameManager.player g)) g) w)
    as (ps & w1 & E).
  rewrite E. exists ps. unfold emit. cbn.
  destruct (JS.le _ _); eexists; reflexivity.
Qed.

Lemma hazardCollision_miss (h : Hazard.t) (g : GameManager.t) (w : World) :
  hits (GameManager.player g) h = false ->
  GameManager.hazardCollision h g w = ((h, g), w).
Proof.
  unfold hits. intro H. unfold GameManager.hazardCollision. rewrite H. reflexivity.
Qed.

Lemma keeps_refl (g : GameManager.t) : keeps g g.
Proof. unfold keeps. repeat split. Qed.

Lemma keeps_trans (g s t : GameManager.t) : keeps g s -> keeps s t -> keeps g t.
Proof.
  unfold keeps. intros H1 H2.
  decompose [and] H1. decompose [and] H2. repeat split; congruence.
Qed.

Lemma goes_on_as_refl (g : GameManager.t) : goes_on_as g g.
Proof. unfold goes_on_as. repeat split. Qed.

Lemma goes_on_as_trans (g s t : GameManager.t) :
  goes_on_as g s -> goes_on_as s t -> goes_on_as g t.
Proof.
  unfold goes_on_as. intros H1 H2.
  decompose [and] H1. decompose [and] H2. repeat split; congruence.
Qed.

Lemma takeDamage_obj (amount : Q) (p : Player.t) :
  Player.obj (Player.takeDamage amount p) = Player.obj p.
Proof. unfold Player.takeDamage. destruct (negb _); reflexivity. Qed.

(** [takeDamage] takes the amount off the power, down to zero, unless
    the shield is up. *)
Lemma takeDamage_power (amount : Q) (p : Player.t) :
  Player.power (Player.takeDamage amount p) =
  if Player.shieldActive p then Player.power p
  else JS.Math_max 0 (Player.power p - amount).
Proof. unfold Player.takeDamage. destruct (Player.shieldActive p); reflexivity. Qed.

(** A coin: the pass leaves the session going, and does not bring an
    inactive coin back. *)
Lemma coinCollision_spec (c : Coin.t) (g : GameManager.t) (w : World) :
  keeps g (snd (fst (GameManager.coinCollision c g w))) /\
  goes_on_as g (snd (fst (GameManager.coinCollision c g w))) /\
  Player.shieldActive (GameManager.player (snd (fst (GameManager.coinCollision c g w))))
  = Player.shieldActive (GameManager.player g) /\
  (fst (fst (GameManager.coinCollision c g w)) = c \/
   GameObject.active (Coin.obj (fst (fst (GameManager.coinCollision c g w)))) = false).
Proof.
  unfold GameManager.coinCollision.
  destruct (GameObject.collidesWith _ _);
    [|cbn; auto using keeps_refl, goes_on_as_refl].
  unfold Coin.collect. destruct (negb (Coin.collected c));
    [|cbn; auto using keeps_refl, goes_on_as_refl].
  unfold bind.
  match goal with |- context [GameManager.createCoinBurst ?x ?y ?a ?b] =>
    destruct (createCoinBurst_eq x y a b) as (ps & w1 & E); rewrite E end.
  unfold emit, Date_now. cbn.
  destruct (JS.lt _ _); cbn; unfold keeps, goes_on_as; cbn; repeat split;
    right; reflexivity.
Qed.

(** A powerup: the pass may raise the shield, and leaves the session
    going. *)
Lemma powerupCollision_spec (p : Powerup.t) (g : GameManager.t) (w : World) :
  keeps g (snd (fst (GameManager.powerupCollision p g w))) /\
  goes_on_as g (snd (fst (GameManager.powerupCollision p g w))) /\
  (fst (fst (GameManager.powerupCollision p g w)) = p \/
   GameObject.active (Powerup.obj (fst (fst (GameManager.powerupCollision p g w)))) = false).
Proof.
  unfold GameManager.powerupCollision.
  destruct (GameObject.collidesWith _ _);
    [|cbn; auto using keeps_refl, goes_on_as_refl].
  unfold bind. destruct (Powerup.type p).
  unfold Player.activateShield, bind, Date_now, ret.
  match goal with |- context [GameManager.createExplosion ?x ?y ?a ?b] =>
    destruct (createExplosion_eq x y a b) as (ps & w1 & E); rewrite E end.
  unfold emit. cbn. unfold keeps, goes_on_as; cbn; repeat split.
  right; reflexivity.
Qed.

(** An NPC: it is nudged when the player overlaps it and untouched
    otherwise; nothing else of it changes. *)
Lemma npcCollision_spec (n : NPC.t) (g : GameManager.t) (w : World) :
  keeps g (snd (fst (GameManager.npcCollision n g w))) /\
  fst (fst (GameManager.npcCollision n g w)) =
  (if GameObject.collidesWith (Player.obj (GameManager.player g)) (NPC.obj n)
   then nudged n else n) /\
  (GameObject.collidesWith (Player.obj (GameManager.player g)) (NPC.obj n) = false ->
   snd (fst (GameManager.npcCollision n g w)) = g).
Proof.
  unfold GameManager.npcCollision.
  destruct (GameObject.collidesWith _ _);
    [|cbn; auto using keeps_refl].
  unfold bind.
  match goal with |- context [GameManager.createExplosion ?x ?y ?a ?b] =>
    destruct (createExplosion_eq x y a b) as (ps & w1 & E); rewrite E end.
  unfold emit. cbn.
  destruct (JS.le _ _); cbn; unfold keeps; cbn; repeat split;
    first [apply takeDamage_obj | intros [=]].
Qed.

(** A hazard: it is deactivated when the player overlaps it and
    untouched otherwise. *)
Lemma hazardCollision_spec (h : Hazard.t) (g : GameManager.t) (w : World) :
  keeps g (snd (fst (GameManager.hazardCollision h g w))) /\
  fst (fst (GameManager.hazardCollision h g w)) =
  (if hits (GameManager.player g) h then deactivated h else h) /\
  (hits (GameManager.player g) h = false ->
   snd (fst (GameManager.hazardCollision h g w)) = g).
Proof.
  destruct (hits (GameManager.player g) h) eqn:H.
  - destruct (hazardCollision_hit h g w H) as (ps & w' & E).
    cbv zeta in E. rewrite E. cbn [fst snd].
    destruct (JS.le _ _); unfold keeps; cbn; repeat split;
      first [apply takeDamage_obj | intros [=]].
  - rewrite (hazardCollision_miss h g w H). cbn. auto using keeps_refl.
Qed.

(** [forEach] over elements that satisfy [P]. *)
Lemma forEach_spec_on {A S} (f : A -> S -> M (A * S))
  (P : A -> Prop) (I : S -> Prop) (R : A -> A -> Prop) :
  (forall a s w, P a -> I s ->
     I (snd (fst (f a s w))) /\ R a (fst (fst (f a s w)))) ->
  forall l s w, Forall P l -> I s ->
    I (snd (fst (forEach f l s w))) /\
    Forall2 R l (fst (fst (forEach f l s w))).
Proof.
  intros Hf. induction l as [|a l IH]; intros s w Hl Hs; cbn [forEach].
  - split; [exact Hs | constructor].
  - inversion Hl as [|? ? Pa Pl]; subst. unfold bind.
    destruct (Hf a s w Pa Hs) as [H1 H2].
    destruct (f a s w) as [[a' s1] w1]. cbn [fst snd] in H1, H2.
    destruct (IH s1 w1 Pl H1) as [H3 H4].
    destruct (forEach f l s1 w1) as [[l' s2] w2]. cbn [fst snd] in *.
    split; [exact H3 | constructor; assumption].
Qed.

Lemma keeps_obj (g s : GameManager.t) :
  keeps g s ->
  Player.obj (GameManager.player s) = Player.obj (GameManager.player g).
Proof. unfold keeps. intro H. decompose [and] H. assumption. Qed.

(** The four passes of [checkCollisions], each from any state over any
    list. *)
Lemma coin_pass (l : list Coin.t) (g : GameManager.t) (w : World) :
  keeps g (snd (fst (forEach GameManager.coinCollision l g w))) /\
  goes_on_as g (snd (fst (forEach GameManager.coinCollision l g w))) /\
  Player.shieldActive
    (GameManager.player (snd (fst (forEach GameManager.coinCollision l g w))))
  = Player.shieldActive (GameManager.player g) /\
  Forall2 (kept_or_inactive Coin.obj) l
          (fst (fst (forEach GameManager.coinCollision l g w))).
Proof.
  destruct (forEach_spec GameManager.coinCollision
              (fun s => keeps g s /\ goes_on_as g s /\
                        Player.shieldActive (GameManager.player s)
                        = Player.shieldActive (GameManager.player g))
              (kept_or_inactive Coin.obj)) with (l := l) (s := g) (w := w)
    as [(K & G & Sh) F].
  - intros c s w0 (K & G & Sh).
    destruct (coinCollision_spec c s w0) as (K' & G' & Sh' & R).
    split; [split; [|split]|];
      [eapply keeps_trans; eassumption
      |eapply goes_on_as_trans; eassumption
      |congruence
      |exact R].
  - auto using keeps_refl, goes_on_as_refl.
  - auto.
Qed.

Lemma powerup_pass (l : list Powerup.t) (g : GameManager.t) (w : World) :
  keeps g (snd (fst (forEach GameManager.powerupCollision l g w))) /\
  goes_on_as g (snd (fst (forEach GameManager.powerupCollision l g w))) /\
  Forall2 (kept_or_inactive Powerup.obj) l
          (fst (fst (forEach GameManager.powerupCollision l g w))).
Proof.
  destruct (forEach_spec GameManager.powerupCollision
              (fun s => keeps g s /\ goes_on_as g s)
              (kept_or_inactive Powerup.obj)) with (l := l) (s := g) (w := w)
    as [(K & G) F].
  - intros c s w0 (K & G).
    destruct (powerupCollision_spec c s w0) as (K' & G' & R).
    split; [split|];
      [eapply keeps_trans; eassumption
      |eapply goes_on_as_trans; eassumption
      |exact R].
  - auto using keeps_refl, goes_on_as_refl.
  - auto.
Qed.

Lemma npc_pass (l : list NPC.t) (g : GameManager.t) (w : World) :
  keeps g (snd (fst (forEach GameManager.npcCollision l g w))) /\
  fst (fst (forEach GameManager.npcCollision l g w)) =
  map (fun n => if bumps (GameManager.player g) n then nudged n else n) l.
Proof.
  destruct (forEach_spec GameManager.npcCollision
              (fun s => keeps g s)
              (fun n n' => n' = if bumps (GameManager.player g) n
                                then nudged n else n))
    with (l := l) (s := g) (w := w) as [K F].
  - intros n s w0 K.
    destruct (npcCollision_spec n s w0) as (K' & E & _).
    split; [eauto using keeps_trans|].
    rewrite E. unfold bumps. rewrite (keeps_obj g s K). reflexivity.
  - apply keeps_refl.
  - split; [exact K | apply Forall2_map_eq; exact F].
Qed.

Lemma hazard_pass (l : list Hazard.t) (g : GameManager.t) (w : World) :
  keeps g (snd (fst (forEach GameManager.hazardCollision l g w))) /\
  fst (fst (forEach GameManager.hazardCollision l g w)) =
  map (fun h => if hits (GameManager.player g) h then deactivated h else h) l.
Proof.
  destruct (forEach_spec GameManager.hazardCollision
              (fun s => keeps g s)
              (fun h h' => h' = if hits (GameManager.player g) h
                                then deactivated h else h))
    with (l := l) (s := g) (w := w) as [K F].
  - intros h s w0 K.
    destruct (hazardCollision_spec h s w0) as (K' & E & _).
    split; [eauto using keeps_trans|].
    rewrite E. unfold hits. rewrite (keeps_obj g s K). reflexivity.
  - apply keeps_refl.
  - split; [exact K | apply Forall2_map_eq; exact F].
Qed.

(** Without a hit, the NPC pass and the hazard pass change nothing. *)
Lemma npc_pass_no_hit (l : list NPC.t) (g : GameManager.t) (w : World) :
  Forall (fun n => bumps (GameManager.player g) n = false) l ->
  snd (fst (forEach GameManager.npcCollision l g w)) = g.
Proof.
  intro H.
  destruct (forEach_spec_on GameManager.npcCollision
              (fun n => bumps (GameManager.player g) n = false)
              (fun s => s = g) (fun _ _ => True))
    with (l := l) (s := g) (w := w) as [K _]; auto.
  intros n s w0 Hn ->. split; [|exact I].
  apply (npcCollision_spec n g w0). exact Hn.
Qed.

Lemma hazard_pass_no_hit (l : list Hazard.t) (g : GameManager.t) (w : World) :
  Forall (fun h => hits (GameManager.player g) h = false) l ->
  snd (fst (forEach GameManager.hazardCollision l g w)) = g.
Proof.
  intro H.
  destruct (forEach_spec_on GameManager.hazardCollision
              (fun h => hits (GameManager.player g) h = false)
              (fun s => s = g) (fun _ _ => True))
    with (l := l) (s := g) (w := w) as [K _]; auto.
  intros h s w0 Hh ->. split; [|exact I].
  apply (hazardCollision_spec h g w0). exact Hh.
Qed.

(** ** The collision pass as a whole *)

Ltac open_keeps :=
  repeat match goal with
  | H : keeps _ _ |- _ => unfold keeps in H; decompose [and] H; clear H
  | H : goes_on_as _ _ |- _ => unfold goes_on_as in H; decompose [and] H; clear H
  end.

(** [checkCollisions()]: coins and powerups stay or go inactive, every
    NPC the player overlaps is nudged, every hazard the player overlaps
    is deactivated, and none of the four collections loses or gains an
    element; the schedule and the place of the player are untouched. *)
Lemma checkCollisions_spec (g : GameManager.t) (w : World) :
  Forall2 (kept_or_inactive Coin.obj) (GameManager.coins g)
          (GameManager.coins (fst (GameManager.checkCollisions g w))) /\
  Forall2 (kept_or_inactive Powerup.obj) (GameManager.powerups g)
          (GameManager.powerups (fst (GameManager.checkCollisions g w))) /\
  GameManager.npcs (fst (GameManager.checkCollisions g w)) =
  map (fun n => if bumps (GameManager.player g) n then nudged n else n)
      (GameManager.npcs g) /\
  GameManager.hazards (fst (GameManager.checkCollisions g w)) =
  map (fun h => if hits (GameManager.player g) h then deactivated h else h)
      (GameManager.hazards g) /\
  same_schedule g (fst (GameManager.checkCollisions g w)) /\
  Player.obj (GameManager.player (fst (GameManager.checkCollisions g w)))
  = Player.obj (GameManager.player g).
Proof.
  unfold GameManager.checkCollisions, bind.
  pose proof (coin_pass (GameManager.coins g) g w) as (K1 & _ & _ & F1).
  destruct (forEach GameManager.coinCollision _ g w) as [[cs s1] w1].
  cbn [fst snd] in K1, F1.
  pose proof (powerup_pass (GameManager.powerups (GameManager.set_coins cs s1))
                (GameManager.set_coins cs s1) w1) as (K2 & _ & F2).
  destruct (forEach GameManager.powerupCollision _ _ w1) as [[ps s2] w2].
  cbn [fst snd] in K2, F2.
  pose proof (npc_pass (GameManager.npcs (GameManager.set_powerups ps s2))
                (GameManager.set_powerups ps s2) w2) as (K3 & F3).
  destruct (forEach GameManager.npcCollision _ _ w2) as [[ns s3] w3].
  cbn [fst snd] in K3, F3.
  pose proof (hazard_pass (GameManager.hazards (GameManager.set_npcs ns s3))
                (GameManager.set_npcs ns s3) w3) as (K4 & F4).
  destruct (forEach GameManager.hazardCollision _ _ w3) as [[hs s4] w4].
  cbn [fst snd] in K4, F4.
  unfold ret, same_schedule. open_keeps. cbn in *.
  assert (Po : Player.obj (GameManager.player s2) = Player.obj (GameManager.player g))
    by congruence.
  assert (Po3 : Player.obj (GameManager.player s3) = Player.obj (GameManager.player g))
    by congruence.
  repeat split; try congruence.
  - replace (GameManager.npcs s4) with ns by congruence.
    rewrite F3. unfold bumps. rewrite Po.
    replace (GameManager.npcs s2) with (GameManager.npcs g) by congruence.
    reflexivity.
  - rewrite F4. unfold hits. rewrite Po3.
    replace (GameManager.hazards s3) with (GameManager.hazards g) by congruence.
    reflexivity.
Qed.

(** The collision pass ends the game only from the branch of an NPC or a
    hazard the player overlaps: without such an overlap the state, the
    loop flag and the power stay. *)
Lemma checkCollisions_no_hit (g : GameManager.t) (w : World) :
  Forall (fun n => bumps (GameManager.player g) n = false) (GameManager.npcs g) ->
  Forall (fun h => hits (GameManager.player g) h = false) (GameManager.hazards g) ->
  goes_on_as g (fst (GameManager.checkCollisions g w)).
Proof.
  intros Hn Hh.
  unfold GameManager.checkCollisions, bind.
  pose proof (coin_pass (GameManager.coins g) g w) as (K1 & G1 & _ & _).
  destruct (forEach GameManager.coinCollision _ g w) as [[cs s1] w1].
  cbn [fst snd] in K1, G1.
  pose proof (powerup_pass (GameManager.powerups (GameManager.set_coins cs s1))
                (GameManager.set_coins cs s1) w1) as (K2 & G2 & _).
  destruct (forEach GameManager.powerupCollision _ _ w1) as [[ps s2] w2].
  cbn [fst snd] in K2, G2.
  assert (Po : Player.obj (GameManager.player s2) = Player.obj (GameManager.player g)).
  { apply keeps_obj in K1, K2. cbn in K2. congruence. }
  assert (N2 : GameManager.npcs s2 = GameManager.npcs g).
  { open_keeps. cbn in *. congruence. }
  assert (H2 : GameManager.hazards s2 = GameManager.hazards g).
  { open_keeps. cbn in *. congruence. }
  pose proof (npc_pass_no_hit (GameManager.npcs (GameManager.set_powerups ps s2))
                (GameManager.set_powerups ps s2) w2) as E3.
  destruct (forEach GameManager.npcCollision _ _ w2) as [[ns s3] w3].
  cbn [fst snd] in E3.
  rewrite E3 by (cbn; rewrite N2; unfold bumps in *; rewrite Po; exact Hn).
  pose proof (hazard_pass_no_hit
                (GameManager.hazards
                   (GameManager.set_npcs ns (GameManager.set_powerups ps s2)))
                (GameManager.set_npcs ns (GameManager.set_powerups ps s2)) w3) as E4.
  destruct (forEach GameManager.hazardCollision _ _ w3) as [[hs s4] w4].
  cbn [fst snd] in E4.
  rewrite E4 by (cbn; rewrite H2; unfold hits in *; rewrite Po; exact Hh).
  unfold ret. open_keeps. unfold goes_on_as. cbn in *.
  repeat split; congruence.
Qed.

(** ** Hazards and the shield *)

(** C1, as the code has it.  In the collision pass every hazard the
    player overlaps is deactivated.  Its damage of 15 goes through
    [takeDamage], like that of an NPC: it is taken off the power (down to
    zero) when the shield is down, and with the shield up the power stays
    as it is. *)
Theorem hazard_collision_damage (h : Hazard.t) (g : GameManager.t) (w : World) :
  hits (GameManager.player g) h = true ->
  GameObject.active
    (Hazard.obj (fst (fst (GameManager.hazardCollision h g w)))) = false /\
  Player.power (GameManager.player (snd (fst (GameManager.hazardCollision h g w)))) =
  (if Player.shieldActive (GameManager.player g)
   then Player.power (GameManager.player g)
   else JS.Math_max 0 (Player.power (GameManager.player g) - 15)) /\
  GameManager.hazards (fst (GameManager.checkCollisions g w)) =
  map (fun h => if hits (GameManager.player g) h then deactivated h else h)
      (GameManager.hazards g).
Proof.
  intro H. split; [|split].
  - destruct (hazardCollision_spec h g w) as (_ & E & _).
    rewrite E, H. reflexivity.
  - destruct (hazardCollision_hit h g w H) as (ps & w' & E).
    cbv zeta in E. rewrite E. cbn [fst snd].
    destruct (JS.le _ _); cbn; apply takeDamage_power.
  - apply checkCollisions_spec.
Qed.

Lemma hazard_collision_damage_witness :
  GameObject.active
    (Hazard.obj
       (fst (fst (GameManager.hazardCollision Scenario.hazardAhead
                    (Scenario.playing Scenario.settled [] [Scenario.hazardAhead])
                    (Scenario.world Scenario.unused Scenario.unused))))) = false /\
  Player.power
    (GameManager.player
       (snd (fst (GameManager.hazardCollision Scenario.hazardAhead
                    (Scenario.playing Scenario.settled [] [Scenario.hazardAhead])
                    (Scenario.world Scenario.unused Scenario.unused))))) =
  JS.Math_max 0 (100 - 15).
Proof.
  destruct (hazard_collision_damage Scenario.hazardAhead
              (Scenario.playing Scenario.settled [] [Scenario.hazardAhead])
              (Scenario.world Scenario.unused Scenario.unused))
    as (A & B & _).
  - vm_compute. reflexivity.
  - split; [exact A | exact B].
Defined.

(** C1 as stated fails: with the shield up, a hazard the player overlaps
    is deactivated and leaves the power at 100, not at 85, whatever the
    host's sine and cosine. *)
Lemma hazard_under_shield_counterexample :
  Player.shieldActive Scenario.shielded = true /\
  hits Scenario.shielded Scenario.hazardAhead = true /\
  forall sin cos : Q -> Q,
    let g := Scenario.playing Scenario.shielded [] [Scenario.hazardAhead] in
    let g' := fst (GameManager.checkCollisions g (Scenario.world sin cos)) in
    GameManager.gameState g = PLAYING /\
    Player.power (GameManager.player g) == 100 /\
    Player.power (GameManager.player g') == 100 /\
    ~ Player.power (GameManager.player g') == 100 - 15 /\
    map (fun h => GameObject.active (Hazard.obj h)) (GameManager.hazards g') = [false].
Proof.
  split; [reflexivity|]. split; [vm_compute; reflexivity|].
  intros sin cos. vm_compute. repeat split; try reflexivity.
  intro H. discriminate H.
Qed.

(** ** NPC.update and the avoidance offset *)

(** Case analysis on the test of a conditional of the goal. *)
Ltac break_if :=
  match goal with
  | |- context [if ?c then _ else _] => destruct c eqn:?
  end.

Lemma updateForwardMovement_avoidance (dt : Q) (n : NPC.t) (w : World) :
  same_avoidance n (fst (NPC.updateForwardMovement dt n w)).
Proof.
  unfold NPC.updateForwardMovement, same_avoidance.
  destruct (NPC.forwardMovement n); [|cbn; auto].
  cbn. destruct (JS.gt _ _); cbn; auto.
Qed.

Lemma updateLaneChanging_avoidance (dt : Q) (n : NPC.t) (w : World) :
  same_avoidance n (fst (NPC.updateLaneChanging dt n w)).
Proof.
  unfold NPC.updateLaneChanging, same_avoidance, bind, Math_random, ret.
  repeat break_if; repeat split; reflexivity.
Qed.

Lemma avoid_same_avoidance (dt : Q) (p : Player.t) (n n' : NPC.t) :
  same_avoidance n n' ->
  NPC.avoidanceTriggered n' p = NPC.avoidanceTriggered n p /\
  NPC.avoidanceOffset (NPC.avoid dt p n') = NPC.avoidanceOffset (NPC.avoid dt p n).
Proof.
  intros (Ho & Hf & Hd & Hm).
  assert (T : NPC.avoidanceTriggered n' p = NPC.avoidanceTriggered n p).
  { unfold NPC.avoidanceTriggered. rewrite Ho, Hd. reflexivity. }
  split; [exact T|].
  unfold NPC.avoid. rewrite T.
  destruct (NPC.avoidanceTriggered n p); cbn.
  - rewrite Ho. destruct (JS.lt _ _); cbn; rewrite ?Ho, ?Hd, ?Hm, ?Hf; reflexivity.
  - rewrite Hf. reflexivity.
Qed.

(** The avoidance block alone: a clamp to 60 when triggered, a decay by
    0.9 otherwise. *)
Lemma avoid_offset (dt : Q) (p : Player.t) (n : NPC.t) :
  (NPC.avoidanceTriggered n p = true ->
   offset_within 60 (NPC.avoid dt p n)) /\
  (NPC.avoidanceTriggered n p = false ->
   NPC.avoidanceOffset (NPC.avoid dt p n) = NPC.avoidanceOffset n * 0.9).
Proof.
  unfold NPC.avoid, offset_within. split; intro T; rewrite T; cbn.
  - destruct (JS.lt _ _); cbn; apply clamp_bounds; lra.
  - reflexivity.
Qed.

(** The offset [update] leaves is the one its avoidance block computes
    on the moved car. *)
Lemma update_avoidanceOffset (dt : Q) (p : Player.t) (n : NPC.t) (w : World) :
  NPC.avoidanceOffset (fst (NPC.update dt (Some p) n w)) =
  NPC.avoidanceOffset (NPC.avoid dt p (moved dt n)).
Proof.
  unfold NPC.update, bind.
  pose proof (updateForwardMovement_avoidance dt (moved dt n) w) as A1.
  fold (moved dt n).
  destruct (NPC.updateForwardMovement dt (moved dt n) w) as [n1 w1]. cbn [fst] in A1.
  pose proof (updateLaneChanging_avoidance dt n1 w1) as A2.
  destruct (NPC.updateLaneChanging dt n1 w1) as [n2 w2]. cbn [fst] in A2.
  assert (A : same_avoidance (moved dt n) n2).
  { unfold same_avoidance in *. decompose [and] A1. decompose [and] A2.
    repeat split; congruence. }
  destruct (avoid_same_avoidance dt p _ _ A) as [_ E]. rewrite <- E.
  unfold Math_sin, canvasHeight, ret. cbn.
  destruct (JS.gt _ _); reflexivity.
Qed.

(** [update] keeps an offset within 80 within 80. *)
Lemma update_offset_within (dt : Q) (p : Player.t) (n : NPC.t) (w : World) :
  offset_within 80 n ->
  offset_within 80 (fst (NPC.update dt (Some p) n w)).
Proof.
  intro B. unfold offset_within in *.
  rewrite update_avoidanceOffset.
  destruct (avoid_offset dt p (moved dt n)) as [T F].
  destruct (NPC.avoidanceTriggered (moved dt n) p).
  - specialize (T eq_refl). unfold offset_within in T. lra.
  - rewrite (F eq_refl). cbn. lra.
Qed.

(** The nudge of the collision pass lands within 80. *)
Lemma nudged_within (n : NPC.t) : offset_within 80 (nudged n).
Proof. unfold nudged, offset_within. cbn. apply clamp_bounds. lra. Qed.

(** ** Spawning *)

(** [Scenario.opening] is where a game starts: the constructor, then
    [startGame()] and its timeout. *)
Lemma opening_reached (sin cos : Q -> Q) :
  fst (run [StartGame; LoadingDone]
           (fst (GameManager.new (Scenario.world sin cos)))
           (snd (GameManager.new (Scenario.world sin cos))))
  = Scenario.opening.
Proof. vm_compute. reflexivity. Qed.

(** C4, as the code has it.  For coins, powerups and hazards whose
    cooldown has elapsed and whose population is below the cap, the
    cooldown timer is set to the current time exactly when the random draw
    passes, that is when an entity is spawned; when the draw fails timer
    and collection are left as they are.  For NPCs whose cooldown has
    elapsed and whose population is below the cap, the timer is set to the
    current time when the spacing and lane-density checks pass and an NPC
    is spawned, and nothing changes otherwise. *)
Theorem spawn_cooldown_reset (t : Q) (g : GameManager.t) (w : World) :
  let r := random_stream w (random_calls w) in
  (GAME_CONFIG.COIN_SPAWN_INTERVAL < t - GameManager.lastCoinSpawnTime g ->
   (List.length (GameManager.coins g) < GAME_CONFIG.MAX_COINS)%nat ->
   let g' := fst (GameManager.spawnCoin t g w) in
   (r < GAME_CONFIG.COIN_SPAWN_CHANCE ->
    GameManager.lastCoinSpawnTime g' = t /\
    List.length (GameManager.coins g') = S (List.length (GameManager.coins g))) /\
   (GAME_CONFIG.COIN_SPAWN_CHANCE <= r ->
    GameManager.lastCoinSpawnTime g' = GameManager.lastCoinSpawnTime g /\
    GameManager.coins g' = GameManager.coins g)) /\
  (1000 < t - GameManager.lastPowerupSpawnTime g ->
   (List.length (GameManager.powerups g) < GAME_CONFIG.MAX_POWERUPS)%nat ->
   let g' := fst (GameManager.spawnPowerup t g w) in
   (r < GAME_CONFIG.POWERUP_SPAWN_CHANCE ->
    GameManager.lastPowerupSpawnTime g' = t /\
    List.length (GameManager.powerups g') = S (List.length (GameManager.powerups g))) /\
   (GAME_CONFIG.POWERUP_SPAWN_CHANCE <= r ->
    GameManager.lastPowerupSpawnTime g' = GameManager.lastPowerupSpawnTime g /\
    GameManager.powerups g' = GameManager.powerups g)) /\
  (1500 < t - GameManager.lastHazardSpawnTime g ->
   (List.length (GameManager.hazards g) < GAME_CONFIG.MAX_HAZARDS)%nat ->
   let g' := fst (GameManager.spawnHazard t g w) in
   (r < GAME_CONFIG.HAZARD_SPAWN_CHANCE ->
    GameManager.lastHazardSpawnTime g' = t /\
    List.length (GameManager.hazards g') = S (List.length (GameManager.hazards g))) /\
   (GAME_CONFIG.HAZARD_SPAWN_CHANCE <= r ->
    GameManager.lastHazardSpawnTime g' = GameManager.lastHazardSpawnTime g /\
    GameManager.hazards g' = GameManager.hazards g)) /\
  (GAME_CONFIG.NPC_SPAWN_INTERVAL < t - GameManager.lastSpawnTime g ->
   (List.length (GameManager.npcs g) < GAME_CONFIG.MAX_NPCS)%nat ->
   let g' := fst (GameManager.spawnNpc t g w) in
   let proposedLane := JS.Math_floor (r * 3) in
   let hasSpace := fst (GameManager.scanNpcs proposedLane (GameManager.npcs g) 0) in
   let npcsInLane := snd (GameManager.scanNpcs proposedLane (GameManager.npcs g) 0) in
   (hasSpace = true -> (npcsInLane < 2)%nat ->
    GameManager.lastSpawnTime g' = t /\
    List.length (GameManager.npcs g') = S (List.length (GameManager.npcs g))) /\
   (hasSpace = false \/ (2 <= npcsInLane)%nat ->
    GameManager.lastSpawnTime g' = GameManager.lastSpawnTime g /\
    GameManager.npcs g' = GameManager.npcs g)).
Proof.
  cbv zeta. split; [|split; [|split]].
  - intros Hc Hp. apply gt_true in Hc. apply Nat.ltb_lt in Hp.
    unfold GameManager.spawnCoin. rewrite Hc, Hp. cbn [andb]. unfold bind.
    destruct (Math_random w) as [r w1] eqn:E. inversion E; subst r.
    split; intro Hr.
    + apply lt_true in Hr. rewrite Hr.
      destruct (GameManager.randomLane w1) as [lane w2].
      destruct (Coin.new lane w2) as [coin w3]. cbn.
      split; [reflexivity|]. rewrite length_app. cbn. lia.
    + apply lt_false in Hr. rewrite Hr. split; reflexivity.
  - intros Hc Hp. apply gt_true in Hc. apply Nat.ltb_lt in Hp.
    unfold GameManager.spawnPowerup. rewrite Hc, Hp. cbn [andb]. unfold bind.
    destruct (Math_random w) as [r w1] eqn:E. inversion E; subst r.
    split; intro Hr.
    + apply lt_true in Hr. rewrite Hr.
      destruct (GameManager.randomLane w1) as [lane w2]. cbn.
      split; [reflexivity|]. rewrite length_app. cbn. lia.
    + apply lt_false in Hr. rewrite Hr. split; reflexivity.
  - intros Hc Hp. apply gt_true in Hc. apply Nat.ltb_lt in Hp.
    unfold GameManager.spawnHazard. rewrite Hc, Hp. cbn [andb]. unfold bind.
    destruct (Math_random w) as [r w1] eqn:E. inversion E; subst r.
    split; intro Hr.
    + apply lt_true in Hr. rewrite Hr.
      destruct (GameManager.randomLane w1) as [lane w2].
      destruct (Math_random w2) as [r2 w3]. cbn.
      split; [reflexivity|]. rewrite length_app. cbn. lia.
    + apply lt_false in Hr. rewrite Hr. split; reflexivity.
  - intros Hc Hp. apply gt_true in Hc. apply Nat.ltb_lt in Hp.
    unfold GameManager.spawnNpc. rewrite Hc, Hp. cbn [andb].
    unfold GameManager.randomLane, bind.
    destruct (Math_random w) as [r w1] eqn:E. inversion E; subst r.
    unfold ret. change (inject_Z (Z.of_nat (List.length GAME_CONFIG.LANES))) with (3 : Q).
    destruct (GameManager.scanNpcs _ (GameManager.npcs g) 0) as [hasSpace k].
    cbn [fst snd]. cbv beta iota. split.
    + intros -> Hk. apply Nat.ltb_lt in Hk. rewrite Hk. cbn [andb].
      match goal with |- context [NPC.new ?l ?v] =>
        destruct (NPC.new l v) as [npc w2] end.
      cbn. split; [reflexivity|]. rewrite length_app. cbn. lia.
    + intros [-> | Hk].
      * cbn [andb]. split; reflexivity.
      * apply Nat.ltb_ge in Hk. rewrite Hk, andb_false_r. split; reflexivity.
Qed.

Lemma spawn_cooldown_reset_witness :
  GameManager.lastCoinSpawnTime
    (fst (GameManager.spawnCoin Scenario.now Scenario.opening
            (Scenario.world Scenario.unused Scenario.unused)))
  = GameManager.lastCoinSpawnTime Scenario.opening /\
  GameManager.lastCoinSpawnTime
    (fst (GameManager.spawnCoin Scenario.now Scenario.opening
            (Scenario.lucky Scenario.unused Scenario.unused)))
  = Scenario.now /\
  GameManager.lastPowerupSpawnTime
    (fst (GameManager.spawnPowerup Scenario.now Scenario.opening
            (Scenario.lucky Scenario.unused Scenario.unused)))
  = Scenario.now /\
  GameManager.lastHazardSpawnTime
    (fst (GameManager.spawnHazard Scenario.now Scenario.opening
            (Scenario.lucky Scenario.unused Scenario.unused)))
  = Scenario.now /\
  GameManager.lastSpawnTime
    (fst (GameManager.spawnNpc Scenario.now Scenario.opening
            (Scenario.world Scenario.unused Scenario.unused)))
  = Scenario.now.
Proof.
  destruct (spawn_cooldown_reset Scenario.now Scenario.opening
              (Scenario.world Scenario.unused Scenario.unused))
    as (C & _ & _ & N).
  destruct (spawn_cooldown_reset Scenario.now Scenario.opening
              (Scenario.lucky Scenario.unused Scenario.unused))
    as (C' & P' & H' & _).
  split; [|split; [|split; [|split]]].
  - apply C; [reflexivity | cbn; unfold GAME_CONFIG.MAX_COINS; lia | discriminate].
  - apply C'; [reflexivity | cbn; unfold GAME_CONFIG.MAX_COINS; lia | reflexivity].
  - apply P'; [reflexivity | cbn; unfold GAME_CONFIG.MAX_POWERUPS; lia | reflexivity].
  - apply H'; [reflexivity | cbn; unfold GAME_CONFIG.MAX_HAZARDS; lia | reflexivity].
  - apply N; [reflexivity | cbn; unfold GAME_CONFIG.MAX_NPCS; lia
              | reflexivity | cbn; lia].
Defined.

(** C4 as stated fails for the coins (and likewise for powerups and
    hazards): in the first frame of a game the coin cooldown has elapsed
    and no coin is on the road, the draw of 0.5 does not pass the chance
    of 0.35, and the coin timer stays at 0, while the NPC timer shows the
    current time. *)
Lemma coin_timer_counterexample :
  GAME_CONFIG.COIN_SPAWN_INTERVAL
  < Scenario.now - GameManager.lastCoinSpawnTime Scenario.opening /\
  (List.length (GameManager.coins Scenario.opening) < GAME_CONFIG.MAX_COINS)%nat /\
  forall sin cos : Q -> Q,
    let g' := fst (GameManager.spawnObjects 16 Scenario.opening
                     (Scenario.world sin cos)) in
    GameManager.lastSpawnTime g' = Scenario.now /\
    GameManager.coins g' = [] /\
    GameManager.lastCoinSpawnTime g' = 0 /\
    ~ GameManager.lastCoinSpawnTime g' == Scenario.now.
Proof.
  split; [reflexivity|]. split; [cbn; unfold GAME_CONFIG.MAX_COINS; lia|].
  intros sin cos. vm_compute. repeat split; try reflexivity.
  intro H. discriminate H.
Qed.

(** ** The stages of a frame *)

(** Splitting the result of each monadic call of the goal. *)
Ltac split_binds :=
  unfold bind;
  repeat match goal with
  | |- context [let (_, _) := ?m in _] => destruct m as [? ?] eqn:?
  end.

Lemma same_core_refl (g : GameManager.t) : same_core g g.
Proof. unfold same_core. repeat split. Qed.

Lemma same_core_trans (g s t : GameManager.t) :
  same_core g s -> same_core s t -> same_core g t.
Proof.
  unfold same_core. intros H1 H2.
  decompose [and] H1. decompose [and] H2. repeat split; congruence.
Qed.

Lemma updateSpeedProgression_eq (g : GameManager.t) (w : World) :
  fst (GameManager.updateSpeedProgression g w) = progressed g.
Proof.
  unfold GameManager.updateSpeedProgression, progressed, timeElapsed, bind, emit, ret.
  destruct (JS.ge _ 20 && negb (GameManager.speedIncreaseApplied20s g));
    cbv beta iota zeta;
    match goal with |- context [JS.ge ?a 40 && ?b] => destruct (JS.ge a 40 && b) end;
    reflexivity.
Qed.

(** A live frame is the stages before the collision pass, the
    collision pass and the particles. *)
Lemma update_live (dt : Q) (g : GameManager.t) (w : World) :
  live dt g = true ->
  GameManager.update dt g w =
  (g1 <- beforeCollisions dt g ;;
   g2 <- GameManager.checkCollisions g1 ;;
   ret (GameManager.updateParticles dt g2)) w.
Proof.
  unfold live. intro L. apply andb_true_iff in L. destruct L as [L1 L2].
  unfold GameManager.update, beforeCollisions.
  rewrite L1. cbn [negb]. cbn [GameManager.gameTime GameManager.set_gameTime].
  apply negb_true_iff in L2. rewrite L2.
  split_binds. reflexivity.
Qed.

(** A frame that is not live: nothing happens, or the timer has run out
    and the game ends. *)
Lemma update_not_live (dt : Q) (g : GameManager.t) (w : World) :
  live dt g = false ->
  fst (GameManager.update dt g w) =
  if GAME_STATE_eqb (GameManager.gameState g) PLAYING
  then ended (GameManager.set_gameTime (GameManager.gameTime g - dt) g)
  else g.
Proof.
  unfold live, GameManager.update. intro L.
  destruct (GAME_STATE_eqb (GameManager.gameState g) PLAYING); cbn [negb andb] in *.
  - apply negb_false_iff in L.
    cbn [GameManager.gameTime GameManager.set_gameTime]. rewrite L.
    destruct (endGame_eq (GameManager.set_gameTime (GameManager.gameTime g - dt) g) w)
      as (w' & E).
    rewrite E. reflexivity.
  - reflexivity.
Qed.

(** A fresh NPC is active and has no avoidance offset yet. *)
Lemma fresh_npc_spec (m : Q) (n : NPC.t) :
  fresh_npc m n ->
  NPC.avoidanceOffset n = 0 /\ GameObject.active (NPC.obj n) = true.
Proof.
  intros (lane & w & ->). split; reflexivity.
Qed.

(** The four blocks of [spawnObjects]: each leaves the game manager as
    it is or adds one entity and sets its timer. *)
Lemma spawnNpc_cases (t : Q) (g : GameManager.t) (w : World) :
  fst (GameManager.spawnNpc t g w) = g \/
  exists n,
    fresh_npc (GameManager.currentSpeedMultiplier g) n /\
    fst (GameManager.spawnNpc t g w) =
    GameManager.set_lastSpawnTime t
      (GameManager.set_npcs (GameManager.npcs g ++ [n]) g).
Proof.
  unfold GameManager.spawnNpc.
  destruct (_ && _); [|left; reflexivity].
  unfold bind. destruct (GameManager.randomLane w) as [lane w1].
  destruct (GameManager.scanNpcs lane (GameManager.npcs g) 0) as [hasSpace k].
  destruct (hasSpace && (k <? 2)%nat); [|left; reflexivity].
  destruct (NPC.new lane w1) as [npc w2] eqn:E.
  right. eexists. split; [exists lane, w1; rewrite E; reflexivity | reflexivity].
Qed.

Lemma spawnCoin_cases (t : Q) (g : GameManager.t) (w : World) :
  fst (GameManager.spawnCoin t g w) = g \/
  exists c,
    fresh_coin (GameManager.currentSpeedMultiplier g) c /\
    fst (GameManager.spawnCoin t g w) =
    GameManager.set_lastCoinSpawnTime t
      (GameManager.set_coins (GameManager.coins g ++ [c]) g).
Proof.
  unfold GameManager.spawnCoin.
  destruct (_ && _); [|left; reflexivity].
  unfold bind. destruct (Math_random w) as [r w1].
  destruct (JS.lt r _); [|left; reflexivity].
  destruct (GameManager.randomLane w1) as [lane w2].
  right. unfold Coin.new, bind, Math_random, ret.
  eexists. split; [|reflexivity]. split; [reflexivity|].
  eexists. reflexivity.
Qed.

Lemma spawnPowerup_cases (t : Q) (g : GameManager.t) (w : World) :
  fst (GameManager.spawnPowerup t g w) = g \/
  exists p,
    fresh_powerup (GameManager.currentSpeedMultiplier g) p /\
    fst (GameManager.spawnPowerup t g w) =
    GameManager.set_lastPowerupSpawnTime t
      (GameManager.set_powerups (GameManager.powerups g ++ [p]) g).
Proof.
  unfold GameManager.spawnPowerup.
  destruct (_ && _); [|left; reflexivity].
  unfold bind. destruct (Math_random w) as [r w1].
  destruct (JS.lt r _); [|left; reflexivity].
  destruct (GameManager.randomLane w1) as [lane w2].
  right. eexists. split; [|reflexivity]. split; reflexivity.
Qed.

Lemma spawnHazard_cases (t : Q) (g : GameManager.t) (w : World) :
  fst (GameManager.spawnHazard t g w) = g \/
  exists h,
    fresh_hazard (GameManager.currentSpeedMultiplier g) h /\
    fst (GameManager.spawnHazard t g w) =
    GameManager.set_lastHazardSpawnTime t
      (GameManager.set_hazards (GameManager.hazards g ++ [h]) g).
Proof.
  unfold GameManager.spawnHazard.
  destruct (_ && _); [|left; reflexivity].
  unfold bind. destruct (Math_random w) as [r w1].
  destruct (JS.lt r _); [|left; reflexivity].
  destruct (GameManager.randomLane w1) as [lane w2].
  destruct (Math_random w2) as [r2 w3].
  right. eexists. split; [|reflexivity]. split; reflexivity.
Qed.

Lemma grown_refl {A} (P : A -> Prop) (l : list A) : grown P l l.
Proof. left. reflexivity. Qed.

Lemma grown_Forall {A} (P Q : A -> Prop) (l l' : list A) :
  (forall a, P a -> Q a) -> grown P l l' -> Forall Q l -> Forall Q l'.
Proof.
  intros H [-> | (a & Pa & ->)] F; [exact F|].
  apply Forall_app. split; [exact F | constructor; auto].
Qed.

(** [spawnObjects(dt)] adds at most one entity to each collection, a
    fresh one, and leaves the rest of the game alone. *)
Lemma spawnObjects_spec (dt : Q) (g : GameManager.t) (w : World) :
  same_core g (fst (GameManager.spawnObjects dt g w)) /\
  grown (fresh_npc (GameManager.currentSpeedMultiplier g))
        (GameManager.npcs g)
        (GameManager.npcs (fst (GameManager.spawnObjects dt g w))) /\
  grown (fresh_coin (GameManager.currentSpeedMultiplier g))
        (GameManager.coins g)
        (GameManager.coins (fst (GameManager.spawnObjects dt g w))) /\
  grown (fresh_powerup (GameManager.currentSpeedMultiplier g))
        (GameManager.powerups g)
        (GameManager.powerups (fst (GameManager.spawnObjects dt g w))) /\
  grown (fresh_hazard (GameManager.currentSpeedMultiplier g))
        (GameManager.hazards g)
        (GameManager.hazards (fst (GameManager.spawnObjects dt g w))).
Proof.
  unfold GameManager.spawnObjects, bind.
  destruct (Date_now w) as [t w0].
  pose proof (spawnNpc_cases t g w0) as H1.
  destruct (GameManager.spawnNpc t g w0) as [g1 w1]. cbn [fst] in H1.
  pose proof (spawnCoin_cases t g1 w1) as H2.
  destruct (GameManager.spawnCoin t g1 w1) as [g2 w2]. cbn [fst] in H2.
  pose proof (spawnPowerup_cases t g2 w2) as H3.
  destruct (GameManager.spawnPowerup t g2 w2) as [g3 w3]. cbn [fst] in H3.
  pose proof (spawnHazard_cases t g3 w3) as H4.
  destruct (GameManager.spawnHazard t g3 w3) as [g4 w4]. cbn [fst] in *.
  unfold grown, same_core.
  destruct H1 as [-> | (n & Fn & ->)];
  destruct H2 as [-> | (c & Fc & ->)];
  destruct H3 as [-> | (p & Fp & ->)];
  destruct H4 as [-> | (h & Fh & ->)];
  cbn; repeat split; eauto.
Qed.

Lemma mapM_result_of {A B} (f : A -> M B) (l : list A) (w : World) :
  Forall2 (result_of f) l (fst (mapM f l w)).
Proof.
  apply mapM_Forall2. intros a w0. exists w0. reflexivity.
Qed.

Lemma Forall_filter {A} (f : A -> bool) (l : list A) :
  Forall (fun a => f a = true) (filter f l).
Proof.
  apply Forall_forall. intros a H. apply filter_In in H. tauto.
Qed.

Lemma Forall_filter_keeps {A} (P : A -> Prop) (f : A -> bool) (l : list A) :
  Forall P l -> Forall P (filter f l).
Proof.
  rewrite !Forall_forall. intros H a Ha. apply filter_In in Ha. apply H. tauto.
Qed.

(** [updateObjects(dt)] updates every entity and keeps the active ones;
    the rest of the game is left alone. *)
Lemma updateObjects_spec (dt : Q) (g : GameManager.t) (w : World) :
  same_core g (fst (GameManager.updateObjects dt g w)) /\
  (exists ns,
     Forall2 (result_of (NPC.update dt (Some (GameManager.player g))))
             (GameManager.npcs g) ns /\
     GameManager.npcs (fst (GameManager.updateObjects dt g w)) =
     filter (fun n => GameObject.active (NPC.obj n)) ns) /\
  (exists cs,
     Forall2 (result_of (Coin.update dt)) (GameManager.coins g) cs /\
     GameManager.coins (fst (GameManager.updateObjects dt g w)) =
     filter (fun c => GameObject.active (Coin.obj c)) cs) /\
  (exists ps,
     Forall2 (result_of (Powerup.update dt)) (GameManager.powerups g) ps /\
     GameManager.powerups (fst (GameManager.updateObjects dt g w)) =
     filter (fun p => GameObject.active (Powerup.obj p)) ps) /\
  (exists hs,
     Forall2 (result_of (Hazard.update dt)) (GameManager.hazards g) hs /\
     GameManager.hazards (fst (GameManager.updateObjects dt g w)) =
     filter (fun h => GameObject.active (Hazard.obj h)) hs).
Proof.
  unfold GameManager.updateObjects, bind.
  pose proof (mapM_result_of (NPC.update dt (Some (GameManager.player g)))
                (GameManager.npcs g) w) as H1.
  destruct (mapM _ (GameManager.npcs g) w) as [ns w1]. cbn [fst] in H1.
  cbn [GameManager.coins GameManager.powerups GameManager.hazards
       GameManager.set_npcs GameManager.set_coins GameManager.set_powerups].
  pose proof (mapM_result_of (Coin.update dt) (GameManager.coins g) w1) as H2.
  destruct (mapM _ (GameManager.coins g) w1) as [cs w2]. cbn [fst] in H2.
  cbn [GameManager.coins GameManager.powerups GameManager.hazards
       GameManager.set_npcs GameManager.set_coins GameManager.set_powerups].
  pose proof (mapM_result_of (Powerup.update dt) (GameManager.powerups g) w2) as H3.
  destruct (mapM _ (GameManager.powerups g) w2) as [ps w3]. cbn [fst] in H3.
  cbn [GameManager.coins GameManager.powerups GameManager.hazards
       GameManager.set_npcs GameManager.set_coins GameManager.set_powerups].
  pose proof (mapM_result_of (Hazard.update dt) (GameManager.hazards g) w3) as H4.
  destruct (mapM _ (GameManager.hazards g) w3) as [hs w4]. cbn [fst] in H4.
  unfold ret, same_core. cbn.
  repeat split; eauto.
Qed.

Lemma changeLane_power (direction : Z) (p : Player.t) :
  Player.power (Player.changeLane direction p) = Player.power p.
Proof.
  unfold Player.changeLane. destruct (JS.lt _ _); [reflexivity|].
  cbv zeta. destruct (negb _); reflexivity.
Qed.

(** [handleInput()] only steers the player. *)
Lemma handleInput_spec (g : GameManager.t) :
  same_schedule g (GameManager.handleInput g) /\
  GameManager.gameState (GameManager.handleInput g) = GameManager.gameState g /\
  GameManager.isGameLoopRunning (GameManager.handleInput g)
  = GameManager.isGameLoopRunning g /\
  GameManager.particles (GameManager.handleInput g) = GameManager.particles g /\
  GameManager.npcs (GameManager.handleInput g) = GameManager.npcs g /\
  GameManager.coins (GameManager.handleInput g) = GameManager.coins g /\
  GameManager.powerups (GameManager.handleInput g) = GameManager.powerups g /\
  GameManager.hazards (GameManager.handleInput g) = GameManager.hazards g /\
  Player.power (GameManager.player (GameManager.handleInput g))
  = Player.power (GameManager.player g).
Proof.
  unfold GameManager.handleInput, same_schedule.
  destruct (GameManager.keys g "ArrowLeft" || GameManager.keys g "KeyA");
    cbn [GameManager.keys GameManager.set_player];
    destruct (GameManager.keys g "ArrowRight" || GameManager.keys g "KeyD");
    cbn; rewrite ?changeLane_power; repeat split; reflexivity.
Qed.

(** [updateSpeedProgression()] only writes the multiplier and its two
    latches. *)
Lemma progressed_spec (g : GameManager.t) :
  GameManager.gameState (progressed g) = GameManager.gameState g /\
  GameManager.isGameLoopRunning (progressed g) = GameManager.isGameLoopRunning g /\
  GameManager.gameTime (progressed g) = GameManager.gameTime g /\
  GameManager.particles (progressed g) = GameManager.particles g /\
  GameManager.npcs (progressed g) = GameManager.npcs g /\
  GameManager.coins (progressed g) = GameManager.coins g /\
  GameManager.powerups (progressed g) = GameManager.powerups g /\
  GameManager.hazards (progressed g) = GameManager.hazards g /\
  GameManager.player (progressed g) = GameManager.player g.
Proof.
  unfold progressed. cbv zeta.
  destruct (JS.ge _ 20 && _);
    match goal with |- context [JS.ge ?a 40 && ?b] => destruct (JS.ge a 40 && b) end;
    repeat split; reflexivity.
Qed.

(** The road animation of [update] only writes [roadOffset]. *)
Lemma road_spec (b : bool) (x : Q) (g : GameManager.t) :
  let s := if b then GameManager.set_roadOffset 40 (GameManager.set_roadOffset x g)
           else GameManager.set_roadOffset x g in
  same_core g s /\
  GameManager.npcs s = GameManager.npcs g /\
  GameManager.coins s = GameManager.coins g /\
  GameManager.powerups s = GameManager.powerups g /\
  GameManager.hazards s = GameManager.hazards g /\
  GameManager.keys s = GameManager.keys g.
Proof.
  unfold same_core. destruct b; repeat split; reflexivity.
Qed.

(** The stages of a live frame before the collision pass: the timer
    goes down by [dt], the speed progression is applied, the power decays,
    every collection ends up without an inactive element, and NPC offsets
    within 80 stay within 80. *)
Lemma beforeCollisions_spec (dt : Q) (g : GameManager.t) (w : World) :
  let g0 := progressed (GameManager.set_gameTime (GameManager.gameTime g - dt) g) in
  let g1 := fst (beforeCollisions dt g w) in
  GameManager.gameState g1 = GameManager.gameState g /\
  GameManager.isGameLoopRunning g1 = GameManager.isGameLoopRunning g /\
  GameManager.gameTime g1 = GameManager.gameTime g - dt /\
  GameManager.currentSpeedMultiplier g1 = GameManager.currentSpeedMultiplier g0 /\
  GameManager.speedIncreaseApplied20s g1 = GameManager.speedIncreaseApplied20s g0 /\
  GameManager.speedIncreaseApplied40s g1 = GameManager.speedIncreaseApplied40s g0 /\
  GameManager.particles g1 = GameManager.particles g /\
  Player.power (GameManager.player g1) =
  JS.Math_max 0 (Player.power (GameManager.player g)
                 - GAME_CONFIG.POWER_DECAY_RATE * dt / 1000) /\
  Forall (fun n => GameObject.active (NPC.obj n) = true) (GameManager.npcs g1) /\
  Forall (fun c => GameObject.active (Coin.obj c) = true) (GameManager.coins g1) /\
  Forall (fun p => GameObject.active (Powerup.obj p) = true)
         (GameManager.powerups g1) /\
  Forall (fun h => GameObject.active (Hazard.obj h) = true) (GameManager.hazards g1) /\
  (Forall (offset_within 80) (GameManager.npcs g) ->
   Forall (offset_within 80) (GameManager.npcs g1)).
Proof.
  cbv zeta. unfold beforeCollisions, bind.
  pose proof (updateSpeedProgression_eq
                (GameManager.set_gameTime (GameManager.gameTime g - dt) g) w) as E1.
  destruct (GameManager.updateSpeedProgression _ w) as [s1 w1]. cbn [fst] in E1.
  pose proof (progressed_spec
                (GameManager.set_gameTime (GameManager.gameTime g - dt) g)) as F0.
  rewrite <- E1 in *. clear E1. cbn in F0.
  match goal with |- context [GameManager.handleInput ?a] =>
    remember a as s1' eqn:Es1' end.
  assert (F1 : same_core s1 s1' /\ GameManager.npcs s1' = GameManager.npcs s1).
  { subst s1'. match goal with |- context [if ?b then _ else _] =>
      destruct (road_spec b
                  (GameManager.roadOffset s1
                   - GameManager.roadSpeed s1 * (dt / 16.67)) s1) as (A & B & _) end.
    split; assumption. }
  clear Es1'.
  pose proof (handleInput_spec s1') as Hi.
  remember (GameManager.handleInput s1') as s2 eqn:Es2. clear Es2.
  pose proof (update_power dt (GameManager.player s2) w1) as Hp.
  destruct (Player.update dt (GameManager.player s2) w1) as [p w2]. cbn [fst] in Hp.
  pose proof (spawnObjects_spec dt (GameManager.set_player p s2) w2)
    as (C4 & N4 & _).
  destruct (GameManager.spawnObjects dt _ w2) as [s4 w3]. cbn [fst] in *.
  pose proof (updateObjects_spec dt s4 w3)
    as (C5 & (ns & Fn & En) & (cs & _ & Ec) & (ps & _ & Ep) & (hs & _ & Eh)).
  destruct (GameManager.updateObjects dt s4 w3) as [s5 w4]. cbn [fst] in *.
  destruct F1 as [F1 F1n].
  unfold same_core, same_schedule in *.
  decompose [and] F0. decompose [and] F1. decompose [and] Hi.
  decompose [and] C4. decompose [and] C5.
  clear F0 F1 Hi C4 C5. cbn in *.
  repeat match goal with |- _ /\ _ => split end; try congruence.
  - rewrite En. apply Forall_filter.
  - rewrite Ec. apply Forall_filter.
  - rewrite Ep. apply Forall_filter.
  - rewrite Eh. apply Forall_filter.
  - intro B. rewrite En. apply Forall_filter_keeps.
    assert (B4 : Forall (offset_within 80) (GameManager.npcs s4)).
    { eapply grown_Forall; [|exact N4|].
      - intros n Fr. apply fresh_npc_spec in Fr. destruct Fr as [O _].
        unfold offset_within. rewrite O. lra.
      - cbn. congruence. }
    clear - B4 Fn. induction Fn as [|n n' l l' (w0 & ->) _ IH]; [constructor|].
    inversion B4; subst. constructor; [|auto].
    apply update_offset_within. assumption.
Qed.

(** ** A frame and the course of the game *)

Lemma continues_refl (g : GameManager.t) : continues_or_ends g g.
Proof. left. split; reflexivity. Qed.

Lemma continues_trans (g s t : GameManager.t) :
  continues_or_ends g s -> continues_or_ends s t -> continues_or_ends g t.
Proof.
  unfold continues_or_ends. intros [[A B]|[A B]] [[C D]|[C D]]; [left|right..];
    split; congruence.
Qed.

Lemma goes_on_continues (g s : GameManager.t) :
  goes_on_as g s -> continues_or_ends g s.
Proof. intros (A & B & _). left. split; assumption. Qed.

Lemma npcCollision_control (n : NPC.t) (g : GameManager.t) (w : World) :
  continues_or_ends g (snd (fst (GameManager.npcCollision n g w))).
Proof.
  unfold GameManager.npcCollision.
  destruct (GameObject.collidesWith _ _); [|apply continues_refl].
  unfold bind.
  match goal with |- context [GameManager.createExplosion ?x ?y ?a ?b] =>
    destruct (createExplosion_eq x y a b) as (ps & w1 & E); rewrite E end.
  unfold emit. cbv beta iota zeta.
  match goal with |- context [if ?c then _ else _] => destruct c end.
  - match goal with |- context [GameManager.endGame ?a ?b] =>
      destruct (endGame_eq a b) as (w2 & E2); rewrite E2 end.
    right. split; reflexivity.
  - left. split; reflexivity.
Qed.

Lemma hazardCollision_control (h : Hazard.t) (g : GameManager.t) (w : World) :
  continues_or_ends g (snd (fst (GameManager.hazardCollision h g w))).
Proof.
  destruct (hits (GameManager.player g) h) eqn:H.
  - destruct (hazardCollision_hit h g w H) as (ps & w' & E).
    cbv zeta in E. rewrite E. cbn [fst snd].
    destruct (JS.le _ _); [right | left]; split; reflexivity.
  - rewrite (hazardCollision_miss h g w H). apply continues_refl.
Qed.

(** The collision pass leaves the game going as it was, or ends it. *)
Lemma checkCollisions_control (g : GameManager.t) (w : World) :
  continues_or_ends g (fst (GameManager.checkCollisions g w)).
Proof.
  unfold GameManager.checkCollisions, bind.
  pose proof (coin_pass (GameManager.coins g) g w) as (_ & G1 & _).
  destruct (forEach GameManager.coinCollision _ g w) as [[cs s1] w1].
  cbn [fst snd] in G1. apply goes_on_continues in G1.
  pose proof (powerup_pass (GameManager.powerups (GameManager.set_coins cs s1))
                (GameManager.set_coins cs s1) w1) as (_ & G2 & _).
  destruct (forEach GameManager.powerupCollision _ _ w1) as [[ps s2] w2].
  cbn [fst snd] in G2. apply goes_on_continues in G2.
  destruct (forEach_spec GameManager.npcCollision
              (continues_or_ends (GameManager.set_powerups ps s2)) (fun _ _ => True))
    with (l := GameManager.npcs (GameManager.set_powerups ps s2))
         (s := GameManager.set_powerups ps s2) (w := w2) as [G3 _].
  { intros n s w0 Hs. split; [|exact I].
    eapply continues_trans; [exact Hs | apply npcCollision_control]. }
  { apply continues_refl. }
  destruct (forEach GameManager.npcCollision _ _ w2) as [[ns s3] w3].
  cbn [fst snd] in G3.
  destruct (forEach_spec GameManager.hazardCollision
              (continues_or_ends (GameManager.set_npcs ns s3)) (fun _ _ => True))
    with (l := GameManager.hazards (GameManager.set_npcs ns s3))
         (s := GameManager.set_npcs ns s3) (w := w3) as [G4 _].
  { intros h s w0 Hs. split; [|exact I].
    eapply continues_trans; [exact Hs | apply hazardCollision_control]. }
  { apply continues_refl. }
  destruct (forEach GameManager.hazardCollision _ _ w3) as [[hs s4] w4].
  cbn [fst snd] in G4. unfold ret. cbn [fst].
  unfold continues_or_ends in *. cbn in *.
  destruct G1 as [[? ?]|[? ?]]; destruct G2 as [[? ?]|[? ?]];
    destruct G3 as [[? ?]|[? ?]]; destruct G4 as [[? ?]|[? ?]];
    first [left; split; congruence | right; split; congruence].
Qed.

(** A live frame as a whole. *)
Lemma update_live_spec (dt : Q) (g : GameManager.t) (w : World) :
  live dt g = true ->
  let g0 := progressed (GameManager.set_gameTime (GameManager.gameTime g - dt) g) in
  let g' := fst (GameManager.update dt g w) in
  continues_or_ends g g' /\
  GameManager.gameTime g' = GameManager.gameTime g - dt /\
  GameManager.currentSpeedMultiplier g' = GameManager.currentSpeedMultiplier g0 /\
  GameManager.speedIncreaseApplied20s g' = GameManager.speedIncreaseApplied20s g0 /\
  GameManager.speedIncreaseApplied40s g' = GameManager.speedIncreaseApplied40s g0 /\
  (Forall (offset_within 80) (GameManager.npcs g) ->
   Forall (offset_within 80) (GameManager.npcs g')) /\
  Forall (fun n => GameObject.active (NPC.obj n) = true) (GameManager.npcs g') /\
  Forall (fun p => Particle.active p = true) (GameManager.particles g').
Proof.
  intro L. cbv zeta. rewrite (update_live dt g w L). unfold bind.
  pose proof (beforeCollisions_spec dt g w) as B. cbv zeta in B.
  destruct (beforeCollisions dt g w) as [g1 w1]. cbn [fst] in B.
  destruct B as (B1 & B2 & B3 & B4 & B5 & B6 & _ & _ & B9 & _ & _ & _ & B13).
  pose proof (checkCollisions_spec g1 w1) as (_ & _ & Cn & _ & Cs & _).
  pose proof (checkCollisions_control g1 w1) as Cc.
  destruct (GameManager.checkCollisions g1 w1) as [g2 w2]. cbn [fst] in *.
  unfold ret, GameManager.updateParticles, same_schedule in *. cbn.
  decompose [and] Cs. clear Cs.
  assert (Nudge : forall P : NPC.t -> Prop,
             (forall n, P n -> P (nudged n)) ->
             Forall P (GameManager.npcs g1) -> Forall P (GameManager.npcs g2)).
  { intros P HP F. rewrite Cn. apply Forall_map.
    eapply Forall_impl; [|exact F]. cbn. intros n Pn.
    destruct (bumps _ n); auto. }
  repeat match goal with |- _ /\ _ => split end; try congruence.
  - unfold continues_or_ends in *. rewrite B1, B2 in Cc. exact Cc.
  - intro F. apply Nudge; [intros; apply nudged_within | auto].
  - apply Nudge; [intros n Hn; exact Hn | exact B9].
  - apply Forall_filter.
Qed.

(** ** The avoidance offset over the whole game *)

Lemma update_npcs_within (dt : Q) (g : GameManager.t) (w : World) :
  Forall (offset_within 80) (GameManager.npcs g) ->
  Forall (offset_within 80) (GameManager.npcs (fst (GameManager.update dt g w))).
Proof.
  intro F. destruct (live dt g) eqn:L.
  - apply (update_live_spec dt g w L). exact F.
  - rewrite (update_not_live dt g w L).
    destruct (GAME_STATE_eqb _ _); exact F.
Qed.

Lemma startGameLoop_npcs (g : GameManager.t) :
  GameManager.npcs (GameManager.startGameLoop g) = GameManager.npcs g.
Proof.
  unfold GameManager.startGameLoop.
  destruct (GameManager.isGameLoopRunning g); reflexivity.
Qed.

Lemma resetGame_npcs (g : GameManager.t) (w : World) :
  GameManager.npcs (fst (GameManager.resetGame g w)) = [].
Proof. reflexivity. Qed.

Lemma startGame_timeout_npcs (g : GameManager.t) (w : World) :
  GameManager.npcs (fst (GameManager.startGame_timeout g w)) = [].
Proof.
  unfold GameManager.startGame_timeout, bind, emit. cbv beta iota.
  match goal with |- context [GameManager.resetGame ?a ?b] =>
    pose proof (resetGame_npcs a b) as E;
    destruct (GameManager.resetGame a b) as [g1 w1] end.
  unfold ret. cbn [fst] in *. rewrite startGameLoop_npcs. exact E.
Qed.

Lemma handle_npcs_within (e : Event) (g : GameManager.t) (w : World) :
  Forall (offset_within 80) (GameManager.npcs g) ->
  Forall (offset_within 80) (GameManager.npcs (fst (handle e g w))).
Proof.
  intro F. destruct e as [dt|code|code|targetX| |]; cbn [handle].
  - unfold GameManager.gameLoop. destruct (negb _); [exact F|].
    apply update_npcs_within. exact F.
  - exact F.
  - exact F.
  - unfold ret, GameManager.pointerTo. cbn [fst].
    destruct (GAME_STATE_eqb _ _); [|exact F].
    destruct (negb _); exact F.
  - exact F.
  - rewrite startGame_timeout_npcs. constructor.
Qed.

Lemma reachable_run (es : list Event) :
  forall g w, reachable g w ->
    reachable (fst (run es g w)) (snd (run es g w)).
Proof.
  induction es as [|e es IH]; intros g w R; cbn [run].
  - exact R.
  - unfold bind. pose proof (reach_event g w e R) as R1.
    destruct (handle e g w) as [g1 w1]. cbn [fst snd] in R1.
    apply IH. exact R1.
Qed.

(** C6, as the code has it.  In every reachable state every NPC's
    [avoidanceOffset] lies within [-80, +80].  [NPC.update] clamps it to
    [-60, +60] in a frame where the avoidance condition holds and
    multiplies it by 0.9 in a frame where it does not; the collision pass
    then moves the offset of an NPC the player overlaps by 30 in the
    avoidance direction and clamps it to [-80, +80]. *)
Theorem avoidance_offset_bounds :
  (forall g w, reachable g w ->
     Forall (offset_within 80) (GameManager.npcs g)) /\
  (forall dt p n w,
     let n' := fst (NPC.update dt (Some p) n w) in
     (NPC.avoidanceTriggered (moved dt n) p = true -> offset_within 60 n') /\
     (NPC.avoidanceTriggered (moved dt n) p = false ->
      NPC.avoidanceOffset n' = NPC.avoidanceOffset n * 0.9)) /\
  (forall g w,
     GameManager.npcs (fst (GameManager.checkCollisions g w)) =
     map (fun n => if bumps (GameManager.player g) n then nudged n else n)
         (GameManager.npcs g)) /\
  (forall n,
     NPC.avoidanceOffset (nudged n) =
     JS.Math_max (-80)
       (JS.Math_min 80 (NPC.avoidanceOffset n + NPC.avoidanceDirection n * 30))).
Proof.
  split; [|split; [|split]].
  - induction 1 as [w | g w e _ IH].
    + constructor.
    + apply handle_npcs_within. exact IH.
  - intros dt p n w. cbv zeta.
    unfold offset_within. rewrite update_avoidanceOffset.
    destruct (avoid_offset dt p (moved dt n)) as [T F]. split.
    + intro H. apply T. exact H.
    + intro H. rewrite (F H). reflexivity.
  - intros g w. apply checkCollisions_spec.
  - intro n. reflexivity.
Qed.

Lemma avoidance_offset_bounds_witness :
  Forall (offset_within 80)
    (GameManager.npcs
       (fst (run [StartGame; LoadingDone; Frame 3000]
               (fst (GameManager.new (Scenario.world Scenario.unused Scenario.unused)))
               (snd (GameManager.new (Scenario.world Scenario.unused Scenario.unused)))))) /\
  NPC.avoidanceOffset
    (fst (NPC.update 16 (Some Scenario.leftmost) Scenario.carAlongside
            (Scenario.world Scenario.unused Scenario.unused)))
  = NPC.avoidanceOffset Scenario.carAlongside * 0.9 /\
  offset_within 60
    (fst (NPC.update 16 (Some Scenario.settled) Scenario.carAlongside
            (Scenario.world Scenario.unused Scenario.unused))).
Proof.
  destruct avoidance_offset_bounds as (R & U & _).
  split; [|split].
  - eapply R. apply reachable_run. apply reach_new.
  - apply (U 16 Scenario.leftmost Scenario.carAlongside
             (Scenario.world Scenario.unused Scenario.unused)).
    vm_compute. reflexivity.
  - apply (U 16 Scenario.settled Scenario.carAlongside
             (Scenario.world Scenario.unused Scenario.unused)).
    vm_compute. reflexivity.
Defined.

(** ** The speed progression over a session *)


(** The update methods leave the speed of an entity as it is. *)
Lemma avoid_obj (dt : Q) (p : Player.t) (n : NPC.t) :
  NPC.obj (NPC.avoid dt p n) = NPC.obj n.
Proof.
  unfold NPC.avoid. destruct (NPC.avoidanceTriggered n p); [|reflexivity].
  cbv zeta. destruct (JS.lt _ _); reflexivity.
Qed.





(** ** Inactive objects *)

(** A live frame, stage by stage. *)
Lemma update_stages (dt : Q) (g : GameManager.t) (w : World) :
  live dt g = true ->
  GameManager.update dt g w =
  (g1 <- beforeSpawn dt g ;;
   g2 <- GameManager.spawnObjects dt g1 ;;
   g3 <- GameManager.updateObjects dt g2 ;;
   g4 <- GameManager.checkCollisions g3 ;;
   ret (GameManager.updateParticles dt g4)) w.
Proof.
  unfold live. intro L. apply andb_true_iff in L. destruct L as [L1 L2].
  unfold GameManager.update, beforeSpawn.
  rewrite L1. cbn [negb]. cbn [GameManager.gameTime GameManager.set_gameTime].
  apply negb_true_iff in L2. rewrite L2.
  unfold bind, ret.
  repeat match goal with
  | |- context [let (_, _) := ?m in _] =>
      lazymatch m with
      | (_, _) => fail
      | _ => destruct m as [? ?]
      end
  end.
  reflexivity.
Qed.

Lemma beforeCollisions_stages (dt : Q) (g : GameManager.t) (w : World) :
  beforeCollisions dt g w =
  (g1 <- beforeSpawn dt g ;;
   g2 <- GameManager.spawnObjects dt g1 ;;
   GameManager.updateObjects dt g2) w.
Proof.
  unfold beforeCollisions, beforeSpawn, bind, ret.
  repeat match goal with
  | |- context [let (_, _) := ?m in _] =>
      lazymatch m with
      | (_, _) => fail
      | _ => destruct m as [? ?]
      end
  end.
  reflexivity.
Qed.

(** The spawn check of a frame finds the collections as the frame
    before left them. *)
Lemma beforeSpawn_collections (dt : Q) (g : GameManager.t) (w : World) :
  same_collections g (fst (beforeSpawn dt g w)).
Proof.
  unfold beforeSpawn, bind, same_collections.
  pose proof (updateSpeedProgression_eq
                (GameManager.set_gameTime (GameManager.gameTime g - dt) g) w) as E1.
  destruct (GameManager.updateSpeedProgression _ w) as [s1 w1]. cbn [fst] in E1.
  pose proof (progressed_spec
                (GameManager.set_gameTime (GameManager.gameTime g - dt) g)) as F0.
  rewrite <- E1 in F0. clear E1. cbn in F0.
  match goal with |- context [GameManager.handleInput ?a] =>
    remember a as s1' eqn:Es1' end.
  assert (F1 : GameManager.npcs s1' = GameManager.npcs s1 /\
               GameManager.coins s1' = GameManager.coins s1 /\
               GameManager.powerups s1' = GameManager.powerups s1 /\
               GameManager.hazards s1' = GameManager.hazards s1).
  { subst s1'. match goal with |- context [if ?b then _ else _] =>
      destruct (road_spec b
                  (GameManager.roadOffset s1
                   - GameManager.roadSpeed s1 * (dt / 16.67)) s1)
        as (_ & A & B & C & D & _) end.
    repeat split; assumption. }
  clear Es1'.
  pose proof (handleInput_spec s1') as Hi.
  destruct (Player.update dt _ w1) as [p w2].
  unfold ret. cbn.
  decompose [and] F0. decompose [and] F1. decompose [and] Hi.
  repeat split; congruence.
Qed.

(** A collection at its cap admits no spawn, whatever its entities. *)
Lemma spawn_at_cap (t : Q) (g : GameManager.t) (w : World) :
  (List.length (GameManager.npcs g) = GAME_CONFIG.MAX_NPCS ->
   fst (GameManager.spawnNpc t g w) = g) /\
  (List.length (GameManager.coins g) = GAME_CONFIG.MAX_COINS ->
   fst (GameManager.spawnCoin t g w) = g) /\
  (List.length (GameManager.powerups g) = GAME_CONFIG.MAX_POWERUPS ->
   fst (GameManager.spawnPowerup t g w) = g) /\
  (List.length (GameManager.hazards g) = GAME_CONFIG.MAX_HAZARDS ->
   fst (GameManager.spawnHazard t g w) = g).
Proof.
  repeat split; intro H.
  - unfold GameManager.spawnNpc. rewrite H, Nat.ltb_irrefl, andb_false_r. reflexivity.
  - unfold GameManager.spawnCoin. rewrite H, Nat.ltb_irrefl, andb_false_r. reflexivity.
  - unfold GameManager.spawnPowerup. rewrite H, Nat.ltb_irrefl, andb_false_r.
    reflexivity.
  - unfold GameManager.spawnHazard. rewrite H, Nat.ltb_irrefl, andb_false_r.
    reflexivity.
Qed.

(** C5, as the code has it.  [updateObjects] removes every entity whose
    update made it inactive, and [updateParticles] every particle, within
    the same call.  The collision pass, which runs after [updateObjects],
    removes nothing: the coins, powerups and hazards it deactivates stay in
    their collections until [updateObjects] of the next frame.  That
    frame's spawn check comes first, finds the collections as the frame
    before left them and compares their lengths with the caps, so it
    counts those entities; the collision pass of a live frame runs on
    collections without an inactive entity, so it does not test them
    again. *)
Theorem inactive_objects (dt : Q) (g : GameManager.t) (w : World) :
  all_active (fst (GameManager.updateObjects dt g w)) /\
  Forall (fun p => Particle.active p = true)
         (GameManager.particles (GameManager.updateParticles dt g)) /\
  (let g' := fst (GameManager.checkCollisions g w) in
   List.length (GameManager.npcs g') = List.length (GameManager.npcs g) /\
   List.length (GameManager.coins g') = List.length (GameManager.coins g) /\
   List.length (GameManager.powerups g') = List.length (GameManager.powerups g) /\
   GameManager.hazards g' =
   map (fun h => if hits (GameManager.player g) h then deactivated h else h)
       (GameManager.hazards g)) /\
  (live dt g = true ->
   GameManager.update dt g w =
   (g1 <- beforeSpawn dt g ;;
    g2 <- GameManager.spawnObjects dt g1 ;;
    g3 <- GameManager.updateObjects dt g2 ;;
    g4 <- GameManager.checkCollisions g3 ;;
    ret (GameManager.updateParticles dt g4)) w) /\
  same_collections g (fst (beforeSpawn dt g w)) /\
  (forall t,
     List.length (GameManager.hazards g) = GAME_CONFIG.MAX_HAZARDS ->
     fst (GameManager.spawnHazard t g w) = g) /\
  all_active (fst (beforeCollisions dt g w)).
Proof.
  split; [|split; [|split; [|split; [|split; [|split]]]]].
  - destruct (updateObjects_spec dt g w)
      as (_ & (ns & _ & En) & (cs & _ & Ec) & (ps & _ & Ep) & (hs & _ & Eh)).
    unfold all_active. rewrite En, Ec, Ep, Eh.
    repeat split; apply Forall_filter.
  - unfold GameManager.updateParticles. cbn [GameManager.particles
      GameManager.set_particles]. apply Forall_filter.
  - cbv zeta. destruct (checkCollisions_spec g w) as (C & P & N & H & _).
    split; [|split; [|split]].
    + rewrite N. apply length_map.
    + exact (Forall2_length_eq _ _ _ C).
    + exact (Forall2_length_eq _ _ _ P).
    + exact H.
  - apply update_stages.
  - apply beforeSpawn_collections.
  - intro t. apply spawn_at_cap.
  - pose proof (beforeCollisions_spec dt g w) as B. cbv zeta in B.
    decompose [and] B. unfold all_active. repeat split; assumption.
Qed.

Lemma inactive_objects_witness :
  GameManager.update 16 Scenario.crowded
    (Scenario.world Scenario.unused Scenario.unused) =
  (g1 <- beforeSpawn 16 Scenario.crowded ;;
   g2 <- GameManager.spawnObjects 16 g1 ;;
   g3 <- GameManager.updateObjects 16 g2 ;;
   g4 <- GameManager.checkCollisions g3 ;;
   ret (GameManager.updateParticles 16 g4))
    (Scenario.world Scenario.unused Scenario.unused) /\
  fst (GameManager.spawnHazard Scenario.now Scenario.crowded
         (Scenario.world Scenario.unused Scenario.unused)) = Scenario.crowded.
Proof.
  destruct (inactive_objects 16 Scenario.crowded
              (Scenario.world Scenario.unused Scenario.unused))
    as (_ & _ & _ & S & _ & C & _).
  split.
  - apply S. vm_compute. reflexivity.
  - apply C. reflexivity.
Defined.

(** C5 as stated fails: a hazard the player overlaps in one frame is
    inactive and still in its collection when that frame ends and when
    the spawn check of the next frame runs, which so reads a population
    of one although no hazard is active; [updateObjects] of that next
    frame then removes it. *)
Lemma purge_counterexample :
  GameManager.gameState (Scenario.playing Scenario.settled [] [Scenario.hazardAhead])
  = PLAYING /\
  forall sin cos : Q -> Q,
    let g := Scenario.playing Scenario.settled [] [Scenario.hazardAhead] in
    let frame1 := handle (Frame 16) g (Scenario.world sin cos) in
    let spawnCheck2 := beforeSpawn 16 (fst frame1) (snd frame1) in
    let frame2 := handle (Frame 16) (fst frame1) (snd frame1) in
    GameManager.gameState (fst frame1) = PLAYING /\
    map (fun h => GameObject.active (Hazard.obj h)) (GameManager.hazards (fst frame1))
    = [false] /\
    map (fun h => GameObject.active (Hazard.obj h))
        (GameManager.hazards (fst spawnCheck2))
    = [false] /\
    List.length (GameManager.hazards (fst spawnCheck2)) = 1%nat /\
    GameManager.hazards (fst frame2) = [].
Proof.
  split; [reflexivity|].
  intros sin cos. vm_compute. repeat split; reflexivity.
Qed.

(** ** How a session ends *)

(** A frame leaves the game going as it was, or ends it. *)
Lemma update_control (dt : Q) (g : GameManager.t) (w : World) :
  continues_or_ends g (fst (GameManager.update dt g w)).
Proof.
  destruct (live dt g) eqn:L.
  - apply (update_live_spec dt g w L).
  - rewrite (update_not_live dt g w L).
    destruct (GAME_STATE_eqb _ _); [right; split; reflexivity | apply continues_refl].
Qed.

Lemma handle_not_lead_form (e : Event) (g : GameManager.t) (w : World) :
  GameManager.gameState g <> LEAD_FORM ->
  GameManager.gameState (fst (handle e g w)) <> LEAD_FORM.
Proof.
  intro N. destruct e as [dt|code|code|targetX| |]; cbn [handle].
  - unfold GameManager.gameLoop. destruct (negb _); [exact N|].
    destruct (update_control dt g w) as [[E _]|[E _]]; rewrite E;
      [exact N | discriminate].
  - exact N.
  - exact N.
  - unfold ret, GameManager.pointerTo. cbn [fst].
    destruct (GAME_STATE_eqb _ _); [|exact N].
    destruct (negb _); exact N.
  - discriminate.
  - unfold GameManager.startGame_timeout, bind, emit. cbv beta iota.
    match goal with |- context [GameManager.resetGame ?a ?b] =>
      assert (E : GameManager.gameState (fst (GameManager.resetGame a b)) = PLAYING)
        by reflexivity;
      destruct (GameManager.resetGame a b) as [g1 w1] end.
    unfold ret, GameManager.startGameLoop. cbn [fst] in *.
    destruct (GameManager.isGameLoopRunning g1); cbn; rewrite E; discriminate.
Qed.

(** C2 on the code.  When the timer of a playing session runs out,
    [update] calls [endGame()]: the state becomes [GAME_OVER] and the
    loop stops, whatever power the player has left.  No reachable state is
    [LEAD_FORM]: nothing assigns it. *)
Theorem timer_expiry_is_game_over :
  (forall dt g w,
     GameManager.gameState g = PLAYING ->
     GameManager.gameTime g - dt <= 0 ->
     GameManager.gameState (fst (GameManager.update dt g w)) = GAME_OVER /\
     GameManager.isGameLoopRunning (fst (GameManager.update dt g w)) = false /\
     GameManager.player (fst (GameManager.update dt g w)) = GameManager.player g) /\
  (forall g w, reachable g w -> GameManager.gameState g <> LEAD_FORM).
Proof.
  split.
  - intros dt g w P T.
    assert (L : live dt g = false).
    { unfold live. rewrite P. cbn. apply le_true in T. rewrite T. reflexivity. }
    rewrite (update_not_live dt g w L), P. cbn. repeat split.
  - induction 1 as [w | g w e _ IH].
    + discriminate.
    + apply handle_not_lead_form. exact IH.
Qed.

Lemma timer_expiry_is_game_over_witness :
  0 < Player.power
        (GameManager.player (Scenario.playing Scenario.settled [] [])) /\
  GameManager.gameState
    (fst (GameManager.update 30000 (Scenario.playing Scenario.settled [] [])
            (Scenario.world Scenario.unused Scenario.unused))) = GAME_OVER /\
  GameManager.gameState
    (fst (run [StartGame; LoadingDone; Frame 60000]
            (fst (GameManager.new (Scenario.world Scenario.unused Scenario.unused)))
            (snd (GameManager.new (Scenario.world Scenario.unused Scenario.unused)))))
  <> LEAD_FORM.
Proof.
  destruct timer_expiry_is_game_over as [T R].
  split; [reflexivity|]. split.
  - apply T; [reflexivity | vm_compute; discriminate].
  - eapply R. apply reachable_run. apply reach_new.
Defined.

(** C3 on the code.  In a live frame the decay of [Player.update] can
    take the power to zero; when no NPC and no hazard overlaps the player
    in the collision pass of that frame, nothing calls [endGame()]: the
    frame ends with the game still on and the power at zero. *)
Theorem decay_to_zero_goes_on (dt : Q) (g : GameManager.t) (w : World) :
  live dt g = true ->
  Player.power (GameManager.player g) <= GAME_CONFIG.POWER_DECAY_RATE * dt / 1000 ->
  Forall (fun n => bumps (GameManager.player (fst (beforeCollisions dt g w))) n = false)
         (GameManager.npcs (fst (beforeCollisions dt g w))) ->
  Forall (fun h => hits (GameManager.player (fst (beforeCollisions dt g w))) h = false)
         (GameManager.hazards (fst (beforeCollisions dt g w))) ->
  GameManager.gameState (fst (GameManager.update dt g w)) = PLAYING /\
  GameManager.isGameLoopRunning (fst (GameManager.update dt g w))
  = GameManager.isGameLoopRunning g /\
  Player.power (GameManager.player (fst (GameManager.update dt g w))) == 0.
Proof.
  intros L D Hn Hh.
  assert (P : GameManager.gameState g = PLAYING).
  { unfold live in L. apply andb_true_iff in L. destruct L as [L _].
    destruct (GameManager.gameState g); try discriminate L. reflexivity. }
  rewrite (update_live dt g w L). unfold bind.
  pose proof (beforeCollisions_spec dt g w) as B. cbv zeta in B.
  destruct (beforeCollisions dt g w) as [g1 w1]. cbn [fst] in *.
  destruct B as (B1 & B2 & _ & _ & _ & _ & _ & B8 & _).
  pose proof (checkCollisions_no_hit g1 w1 Hn Hh) as (C1 & C2 & C3).
  destruct (GameManager.checkCollisions g1 w1) as [g2 w2]. cbn [fst] in *.
  unfold ret, GameManager.updateParticles. cbn.
  split; [congruence|]. split; [congruence|].
  rewrite C3, B8. unfold JS.Math_max.
  destruct (Q.max_spec 0 (Player.power (GameManager.player g)
                          - GAME_CONFIG.POWER_DECAY_RATE * dt / 1000))
    as [[H E]|[H E]]; rewrite E; [|reflexivity].
  lra.
Qed.

Lemma decay_to_zero_goes_on_witness :
  GameManager.gameState
    (fst (GameManager.update 16 (Scenario.playing Scenario.exhausted [] [])
            (Scenario.world Scenario.unused Scenario.unused))) = PLAYING /\
  GameManager.isGameLoopRunning
    (fst (GameManager.update 16 (Scenario.playing Scenario.exhausted [] [])
            (Scenario.world Scenario.unused Scenario.unused))) = true /\
  Player.power
    (GameManager.player
       (fst (GameManager.update 16 (Scenario.playing Scenario.exhausted [] [])
               (Scenario.world Scenario.unused Scenario.unused)))) == 0.
Proof.
  apply (decay_to_zero_goes_on 16 (Scenario.playing Scenario.exhausted [] [])
           (Scenario.world Scenario.unused Scenario.unused)).
  - vm_compute. reflexivity.
  - vm_compute. discriminate.
  - vm_compute. constructor.
  - vm_compute. constructor.
Defined.

(** ** The wobble *)

Lemma updateForwardMovement_sin (dt : Q) (n : NPC.t) (w : World) :
  sin_impl (snd (NPC.updateForwardMovement dt n w)) = sin_impl w.
Proof.
  unfold NPC.updateForwardMovement, bind, Math_random, ret.
  repeat break_if; reflexivity.
Qed.

Lemma updateLaneChanging_sin (dt : Q) (n : NPC.t) (w : World) :
  sin_impl (snd (NPC.updateLaneChanging dt n w)) = sin_impl w.
Proof.
  unfold NPC.updateLaneChanging, bind, Math_random, ret.
  repeat break_if; reflexivity.
Qed.

(** After [update] the car stands at its lane position plus three times
    a sine, its avoidance offset and its lane change offset. *)
Lemma NPC_update_x (dt : Q) (p : option Player.t) (n : NPC.t) (w : World) :
  exists a,
    GameObject.x (NPC.obj (fst (NPC.update dt p n w))) =
    NPC.originalX (fst (NPC.update dt p n w)) + sin_impl w a * 3
    + NPC.avoidanceOffset (fst (NPC.update dt p n w))
    + NPC.getLaneChangeOffset (fst (NPC.update dt p n w)).
Proof.
  unfold NPC.update, bind.
  pose proof (updateForwardMovement_sin dt (moved dt n) w) as S1.
  fold (moved dt n).
  destruct (NPC.updateForwardMovement dt (moved dt n) w) as [n1 w1]. cbn [snd] in S1.
  pose proof (updateLaneChanging_sin dt n1 w1) as S2.
  destruct (NPC.updateLaneChanging dt n1 w1) as [n2 w2]. cbn [snd] in S2.
  set (n3 := match p with Some p0 => NPC.avoid dt p0 n2 | None => n2 end).
  exists (NPC.wobbleOffset n3).
  unfold Math_sin, canvasHeight, ret. cbv beta iota zeta.
  rewrite <- S1, <- S2.
  match goal with |- context [if ?c then _ else _] => destruct c end; reflexivity.
Qed.

(** ** The first frame of a session *)

Lemma run_app (es1 es2 : list Event) (g : GameManager.t) (w : World) :
  run (es1 ++ es2) g w =
  run es2 (fst (run es1 g w)) (snd (run es1 g w)).
Proof.
  revert g w. induction es1 as [|e es1 IH]; intros g w; cbn [app run].
  - reflexivity.
  - unfold bind. destruct (handle e g w) as [g1 w1]. apply IH.
Qed.

Lemma run_one (e : Event) (g : GameManager.t) (w : World) :
  run [e] g w = handle e g w.
Proof. cbn [run]. unfold bind, ret. destruct (handle e g w). reflexivity. Qed.

Lemma bind_proj {A B} (m : M A) (k : A -> M B) (w : World) :
  bind m k w = k (fst (m w)) (snd (m w)).
Proof. unfold bind. destruct (m w). reflexivity. Qed.

Lemma mapM_one {A B} (f : A -> M B) (a : A) (w : World) :
  fst (mapM f [a] w) = [fst (f a w)].
Proof. cbn [mapM]. rewrite !bind_proj. reflexivity. Qed.

Lemma updateObjects_npcs (dt : Q) (g : GameManager.t) (w : World) :
  GameManager.npcs (fst (GameManager.updateObjects dt g w)) =
  filter (fun n => GameObject.active (NPC.obj n))
         (fst (mapM (NPC.update dt (Some (GameManager.player g)))
                    (GameManager.npcs g) w)).
Proof.
  unfold GameManager.updateObjects. rewrite !bind_proj. reflexivity.
Qed.

Lemma updateObjects_player (dt : Q) (g : GameManager.t) (w : World) :
  GameManager.player (fst (GameManager.updateObjects dt g w)) = GameManager.player g.
Proof.
  destruct (updateObjects_spec dt g w) as ((_ & _ & _ & P & _) & _). exact P.
Qed.

Lemma updateParticles_npcs (dt : Q) (g : GameManager.t) :
  GameManager.npcs (GameManager.updateParticles dt g) = GameManager.npcs g.
Proof. reflexivity. Qed.

Lemma collidesWith_true (o other : GameObject.t) :
  GameObject.x o - GameObject.width o / 2
  < GameObject.x other + GameObject.width other / 2 ->
  GameObject.x other - GameObject.width other / 2
  < GameObject.x o + GameObject.width o / 2 ->
  GameObject.y o - GameObject.height o / 2
  < GameObject.y other + GameObject.height other / 2 ->
  GameObject.y other - GameObject.height other / 2
  < GameObject.y o + GameObject.height o / 2 ->
  GameObject.collidesWith o other = true.
Proof.
  intros H1 H2 H3 H4. unfold GameObject.collidesWith, GameObject.getBounds.
  cbn [GameObject.left GameObject.right GameObject.top GameObject.bottom].
  apply lt_true in H1, H3. apply gt_true in H2, H4.
  rewrite H1, H2, H3, H4. reflexivity.
Qed.

(** The NPCs a frame of the running simulation leaves: those of the
    stages before the collision pass, nudged where the player overlaps
    them. *)
Lemma frame_npcs (dt : Q) (g : GameManager.t) (w : World) :
  GameManager.isGameLoopRunning g = true ->
  live dt g = true ->
  GameManager.npcs (fst (handle (Frame dt) g w)) =
  map (fun n => if bumps (GameManager.player (fst (beforeCollisions dt g w))) n
                then nudged n else n)
      (GameManager.npcs (fst (beforeCollisions dt g w))).
Proof.
  intros R L. cbn [handle]. unfold GameManager.gameLoop. rewrite R. cbn [negb].
  rewrite update_stages by exact L.
  rewrite beforeCollisions_stages.
  repeat (rewrite bind_proj; cbv beta).
  unfold ret. cbn [fst].
  rewrite updateParticles_npcs.
  match goal with |- context [GameManager.checkCollisions ?a ?b] =>
    destruct (checkCollisions_spec a b) as (_ & _ & E & _) end.
  exact E.
Qed.

(** A frame of 3000 ms brings [Scenario.oncoming] from its spawn point
    level with a player in the middle lane: [NPC.update] moves its offset
    to -60, the boxes overlap wherever the wobble puts the car, and the
    collision pass leaves the offset at -80. *)
Lemma oncoming_caught (p : Player.t) (w : World) :
  Player.obj p = Player.obj Scenario.settled ->
  CANVAS_HEIGHT w = 600 ->
  (forall a, -1 <= sin_impl w a <= 1) ->
  map NPC.avoidanceOffset
    (map (fun n => if bumps p n then nudged n else n)
       (filter (fun n => GameObject.active (NPC.obj n))
          (fst (mapM (NPC.update 3000 (Some p)) [Scenario.oncoming] w))))
  = [-80].
Proof.
  intros Hp Hh B.
  destruct p as [o tl cl lp pw mp sa se sc]. cbn [Player.obj] in Hp. subst o.
  destruct w as [h s c r k rc cc e].
  cbn [CANVAS_HEIGHT] in Hh. cbn [sin_impl] in B. subst h.
  rewrite mapM_one.
  match goal with |- context [NPC.update ?d ?q ?n ?w] =>
    destruct (NPC_update_x d q n w) as [a X];
    set (n1 := fst (NPC.update d q n w)) in *
  end.
  cbn [sin_impl] in X.
  assert (A1 : GameObject.active (NPC.obj n1) = true) by (vm_compute; reflexivity).
  assert (E1 : NPC.originalX n1 = 200) by (vm_compute; reflexivity).
  assert (E2 : NPC.avoidanceOffset n1 = -60) by (vm_compute; reflexivity).
  assert (E3 : NPC.getLaneChangeOffset n1 == 0) by (vm_compute; reflexivity).
  assert (E4 : GameObject.y (NPC.obj n1) == 500) by (vm_compute; reflexivity).
  assert (E5 : GameObject.width (NPC.obj n1) = 80) by (vm_compute; reflexivity).
  assert (E6 : GameObject.height (NPC.obj n1) = 120) by (vm_compute; reflexivity).
  assert (E7 : NPC.avoidanceDirection n1 = -1) by (vm_compute; reflexivity).
  rewrite E1, E2 in X. clearbody n1.
  cbn [filter]. rewrite A1. cbn [map].
  assert (Bm : forall q, Player.obj q = Player.obj Scenario.settled ->
                         bumps q n1 = true).
  { intros q Hq. unfold bumps. rewrite Hq. apply collidesWith_true;
      cbn [GameObject.x GameObject.y GameObject.width GameObject.height
           Player.obj Scenario.settled];
      rewrite ?X, ?E5, ?E6, ?E4; specialize (B a); rewrite ?E3; lraq. }
  rewrite Bm by reflexivity.
  unfold nudged. cbn [NPC.avoidanceOffset NPC.set_avoidanceOffset].
  rewrite E2, E7. vm_compute. reflexivity.
Qed.

(** Where every [Math.random()] is 0.5 and the sine has its values in
    [-1, 1], a first frame of 3000 ms leaves one car, at the offset
    -80. *)
Lemma first_frame_nudge (sin cos : Q -> Q) :
  (forall a, -1 <= sin a <= 1) ->
  map NPC.avoidanceOffset
    (GameManager.npcs
       (fst (run [StartGame; LoadingDone; Frame 3000]
               (fst (GameManager.new (Scenario.world sin cos)))
               (snd (GameManager.new (Scenario.world sin cos))))))
  = [-80].
Proof.
  intro B.
  rewrite (run_app [StartGame; LoadingDone] [Frame 3000]).
  rewrite opening_reached, run_one.
  rewrite frame_npcs by (vm_compute; reflexivity).
  rewrite beforeCollisions_stages.
  repeat (rewrite bind_proj; cbv beta).
  rewrite updateObjects_npcs, updateObjects_player.
  match goal with |- context [GameManager.npcs (fst ?s)] =>
    assert (N : GameManager.npcs (fst s) = [Scenario.oncoming])
      by (vm_compute; reflexivity);
    rewrite N; clear N
  end.
  apply oncoming_caught.
  - vm_compute. reflexivity.
  - vm_compute. reflexivity.
  - intro a.
    match goal with |- context [sin_impl ?w] =>
      replace (sin_impl w) with sin by (vm_compute; reflexivity) end.
    apply B.
Qed.

(** C6 as stated fails.  An NPC at the offset of 60 that [NPC.update]
    allows, overlapped by the player, leaves the collision pass with an
    offset of 80.  And such a state is reached: where every
    [Math.random()] is 0.5, whatever the values of [Math.sin] in [-1, 1],
    a first frame of 3000 ms spawns a car in the player's lane, brings it
    level with the player and leaves it at the offset -80. *)
Lemma avoidance_offset_counterexample :
  (offset_within 60 Scenario.carAlongside /\
   bumps Scenario.settled Scenario.carAlongside = true /\
   forall sin cos : Q -> Q,
     let g := Scenario.playing Scenario.settled [Scenario.carAlongside] [] in
     let g' := fst (GameManager.checkCollisions g (Scenario.world sin cos)) in
     map NPC.avoidanceOffset (GameManager.npcs g) = [60] /\
     Forall (fun n => NPC.avoidanceOffset n == 80) (GameManager.npcs g') /\
     ~ Forall (offset_within 60) (GameManager.npcs g')) /\
  forall sin cos : Q -> Q,
    (forall a, -1 <= sin a <= 1) ->
    let w := Scenario.world sin cos in
    let s := run [StartGame; LoadingDone; Frame 3000]
                 (fst (GameManager.new w)) (snd (GameManager.new w)) in
    reachable (fst s) (snd s) /\
    map NPC.avoidanceOffset (GameManager.npcs (fst s)) = [-80] /\
    ~ Forall (offset_within 60) (GameManager.npcs (fst s)).
Proof.
  split; [split; [|split]|].
  - unfold offset_within. cbn. lra.
  - vm_compute. reflexivity.
  - intros sin cos. cbv zeta.
    destruct (checkCollisions_spec
                (Scenario.playing Scenario.settled [Scenario.carAlongside] [])
                (Scenario.world sin cos)) as (_ & _ & E & _).
    rewrite E. clear E. split; [reflexivity|]. split.
    + constructor; [|constructor]. vm_compute. reflexivity.
    + intro F. inversion F as [|? ? [_ H] _]; subst.
      vm_compute in H. apply H. reflexivity.
  - intros sin cos B. cbv zeta.
    pose proof (first_frame_nudge sin cos B) as N.
    split; [|split].
    + apply reachable_run. apply reach_new.
    + exact N.
    + intro F.
      destruct (GameManager.npcs _) as [|n l]; [discriminate N|].
      cbn [map] in N. injection N as N _.
      inversion F as [|? ? [H _] _]; subst.
      rewrite N in H. vm_compute in H. apply H. reflexivity.
Qed.

(** * Further properties of the engine *)

(** ** Overlap of boxes *)




(** ** The pointer: the closest lane *)

(** The invariant of the closest-lane loop: [pre] are the positions
    already seen, [m] and [t] the best distance and its index so far. *)
Lemma closestLane_loop (x : Q) (l pre : list Q) (m : option Q) (t : Z) :
  (m = None -> pre = []) ->
  (forall d, m = Some d ->
     (0 <= t < Z.of_nat (List.length pre))%Z /\
     d = Qabs (x - nth (Z.to_nat t) pre 0) /\
     forall j, (j < List.length pre)%nat ->
       d <= Qabs (x - nth j pre 0) /\
       ((Z.of_nat j < t)%Z -> d < Qabs (x - nth j pre 0))) ->
  pre ++ l <> [] ->
  let r := GameManager.closestLane x l (Z.of_nat (List.length pre)) m t in
  (0 <= r < Z.of_nat (List.length (pre ++ l)))%Z /\
  forall j, (j < List.length (pre ++ l))%nat ->
    Qabs (x - nth (Z.to_nat r) (pre ++ l) 0) <= Qabs (x - nth j (pre ++ l) 0) /\
    ((Z.of_nat j < r)%Z ->
     Qabs (x - nth (Z.to_nat r) (pre ++ l) 0) < Qabs (x - nth j (pre ++ l) 0)).
Proof.
  revert pre m t. induction l as [|p rest IH]; intros pre m t Hn Hs Hne; cbv zeta.
  - cbn [GameManager.closestLane]. rewrite app_nil_r in *.
    destruct m as [d|]; [|exfalso; apply Hne, Hn; reflexivity].
    destruct (Hs d eq_refl) as (Ht & -> & Hj). split; [exact Ht|exact Hj].
  - cbn [GameManager.closestLane].
    assert (A : pre ++ p :: rest = (pre ++ [p]) ++ rest)
      by (rewrite <- app_assoc; reflexivity).
    assert (L : (Z.of_nat (List.length pre) + 1)%Z
                = Z.of_nat (List.length (pre ++ [p])))
      by (rewrite length_app; cbn [List.length]; lia).
    assert (N : nth (List.length pre) (pre ++ [p]) 0 = p)
      by (rewrite app_nth2 by lia; rewrite Nat.sub_diag; reflexivity).
    rewrite A, L.
    assert (Hne' : (pre ++ [p]) ++ rest <> []) by (destruct pre; discriminate).
    destruct m as [d|].
    + destruct (Hs d eq_refl) as (Ht & Hd & Hj).
      destruct (JS.lt (JS.Math_abs (x - p)) d) eqn:C.
      * apply lt_true in C. unfold JS.Math_abs in *.
        apply IH; [discriminate| |exact Hne'].
        intros d' [= <-]. rewrite Nat2Z.id, N.
        split; [rewrite length_app; cbn [List.length]; lia|].
        split; [reflexivity|].
        intros j J. rewrite length_app in J. cbn [List.length] in J.
        destruct (Nat.eq_dec j (List.length pre)) as [->|Nj].
        -- rewrite N. split; [lra|lia].
        -- rewrite app_nth1 by lia.
           destruct (Hj j ltac:(lia)) as [Hle _]. split; [lra|intros _; lra].
      * apply lt_false in C. unfold JS.Math_abs in *.
        apply IH; [discriminate| |exact Hne'].
        intros d' [= <-].
        split; [rewrite length_app; cbn [List.length]; lia|].
        split; [rewrite app_nth1 by lia; exact Hd|].
        intros j J. rewrite length_app in J. cbn [List.length] in J.
        destruct (Nat.eq_dec j (List.length pre)) as [->|Nj].
        -- rewrite N. split; [exact C|lia].
        -- rewrite app_nth1 by lia. apply Hj. lia.
    + rewrite (Hn eq_refl) in *. cbn [List.length app] in *.
      apply (IH [p]); [discriminate| |exact Hne'].
      unfold JS.Math_abs. intros d' [= <-]. cbn [List.length].
      split; [lia|]. split; [reflexivity|].
      intros j J. assert (j = 0)%nat as -> by lia. cbn. split; [lra|lia].
Qed.

(** X2.  The closest-lane loop of the touch and mouse listeners: over an
    empty list of positions it keeps the lane it was given; otherwise it
    yields the index of a position nearest to [targetX], and among several
    at the same distance the first. *)
Theorem closestLane_nearest (targetX : Q) (lanePositions : list Q) (current : Z) :
  let r := GameManager.closestLane targetX lanePositions 0 None current in
  (lanePositions = [] -> r = current) /\
  (lanePositions <> [] ->
   (0 <= r < Z.of_nat (List.length lanePositions))%Z /\
   forall j, (j < List.length lanePositions)%nat ->
     Qabs (targetX - nth (Z.to_nat r) lanePositions 0)
     <= Qabs (targetX - nth j lanePositions 0) /\
     ((Z.of_nat j < r)%Z ->
      Qabs (targetX - nth (Z.to_nat r) lanePositions 0)
      < Qabs (targetX - nth j lanePositions 0))).
Proof.
  cbv zeta. split.
  - intros ->. reflexivity.
  - intro Hne.
    apply (closestLane_loop targetX lanePositions [] None current).
    + reflexivity.
    + discriminate.
    + exact Hne.
Qed.

Lemma closestLane_nearest_witness :
  GAME_CONFIG.LANES <> [] /\
  (0 <= GameManager.closestLane 240 GAME_CONFIG.LANES 0 None 0
   < Z.of_nat (List.length GAME_CONFIG.LANES))%Z.
Proof.
  split; [discriminate|].
  apply (closestLane_nearest 240 GAME_CONFIG.LANES 0). discriminate.
Defined.

Lemma Qabs_cases (a : Q) :
  (0 <= a /\ Qabs a == a) \/ (a <= 0 /\ Qabs a == - a).
Proof.
  destruct (Qlt_le_dec a 0) as [N|P].
  - right. split; [lra|]. apply Qabs_neg. lra.
  - left. split; [exact P|]. apply Qabs_pos. exact P.
Qed.

(** With the three lanes of the game the loop splits the road at 150
    and at 250. *)
Lemma closestLane_LANES (x : Q) (current : Z) :
  GameManager.closestLane x GAME_CONFIG.LANES 0 None current =
  if JS.le x 150 then 0%Z else if JS.le x 250 then 1%Z else 2%Z.
Proof.
  unfold GAME_CONFIG.LANES. cbn [GameManager.closestLane]. unfold JS.Math_abs.
  destruct (Qabs_cases (x - 100)) as [[S1 A1]|[S1 A1]];
  destruct (Qabs_cases (x - 200)) as [[S2 A2]|[S2 A2]];
  destruct (Qabs_cases (x - 300)) as [[S3 A3]|[S3 A3]];
  destruct (JS.le x 150) eqn:C1;
  try (apply le_true in C1); try (apply le_false in C1);
  try (exfalso; lra);
  destruct (JS.le x 250) eqn:C2;
  try (apply le_true in C2); try (apply le_false in C2);
  try (exfalso; lra);
  repeat match goal with
  | |- context [JS.lt ?a ?b] =>
      let E := fresh "E" in
      destruct (JS.lt a b) eqn:E;
      [apply lt_true in E|apply lt_false in E]; cbv beta iota zeta
  end;
  first [reflexivity | exfalso; lra].
Qed.

(** X3.  A pointer that asks for the position [targetX] while the game is
    on and the player is not changing lanes sends the player straight to
    the lane closest to it -- the left lane up to 150, the middle lane up
    to 250, the right lane beyond -- even two lanes away; during a lane
    change, or when the game is not on, it changes nothing. *)
Theorem pointerTo_jumps (targetX : Q) (g : GameManager.t) :
  let p := GameManager.player g in
  let lane := if JS.le targetX 150 then 0%Z
              else if JS.le targetX 250 then 1%Z else 2%Z in
  GameManager.pointerTo targetX g =
  if GAME_STATE_eqb (GameManager.gameState g) PLAYING
     && JS.ge (Player.laneChangeProgress p) 1
     && negb (lane =? Player.targetLane p)%Z
  then GameManager.set_player
         (Player.set_laneChangeProgress 0 (Player.set_targetLane lane p)) g
  else g.
Proof.
  cbv zeta. unfold GameManager.pointerTo. rewrite closestLane_LANES.
  set (lane := if JS.le targetX 150 then 0%Z
               else if JS.le targetX 250 then 1%Z else 2%Z).
  assert (R : (0 <= lane <= 2)%Z)
    by (unfold lane; destruct (JS.le targetX 150), (JS.le targetX 250); lia).
  destruct (GAME_STATE_eqb (GameManager.gameState g) PLAYING); [|reflexivity].
  cbn [andb].
  destruct (lane =? Player.targetLane (GameManager.player g))%Z eqn:E;
    cbn [negb]; [rewrite andb_false_r; reflexivity|].
  rewrite andb_true_r. unfold Player.changeLane, JS.lt, JS.ge.
  destruct (Qle_bool 1 (Player.laneChangeProgress (GameManager.player g)));
    cbn [negb].
  - replace (Player.targetLane (GameManager.player g)
             + (lane - Player.targetLane (GameManager.player g)))%Z
      with lane by lia.
    replace (Z.max 0 (Z.min 2 lane)) with lane by lia.
    rewrite E. reflexivity.
  - destruct g. reflexivity.
Qed.

(** ** The keyboard *)

(** X4.  [handleInput] on a player at rest in a lane 0..2: the left key
    alone moves the target one lane to the left unless the player is in
    the leftmost lane, the right key alone one lane to the right unless
    the player is in the rightmost lane; with both held the left key
    wins, the right key counting only in the leftmost lane.  During a
    lane change the keys change nothing. *)
Theorem handleInput_keys (g : GameManager.t) :
  let p := GameManager.player g in
  let left := GameManager.keys g "ArrowLeft"%string
              || GameManager.keys g "KeyA"%string in
  let right := GameManager.keys g "ArrowRight"%string
               || GameManager.keys g "KeyD"%string in
  let t := Player.targetLane p in
  (0 <= t <= 2)%Z ->
  (JS.lt (Player.laneChangeProgress p) 1 = true ->
   GameManager.player (GameManager.handleInput g) = p) /\
  (JS.lt (Player.laneChangeProgress p) 1 = false ->
   Player.targetLane (GameManager.player (GameManager.handleInput g)) =
   if left && negb (t =? 0)%Z then (t - 1)%Z
   else if right && negb (t =? 2)%Z then (t + 1)%Z
   else t).
Proof.
  cbv zeta. intro R. unfold GameManager.handleInput.
  destruct g as [gs lr p ns cs ps hs pa gt l1 l2 l3 l4 bs lb ro rs cm s2 s4 k].
  cbn [GameManager.player GameManager.keys GameManager.set_player] in *.
  destruct p as [o t c lp pw mp sa se sc].
  cbn [Player.targetLane Player.laneChangeProgress] in *.
  set (left := k "ArrowLeft"%string || k "KeyA"%string).
  set (right := k "ArrowRight"%string || k "KeyD"%string).
  split; intro S.
  - destruct left;
      cbn [GameManager.player GameManager.keys GameManager.set_player];
      fold right; destruct right;
      cbn [GameManager.player GameManager.keys GameManager.set_player];
      unfold Player.changeLane; cbn [Player.laneChangeProgress];
      rewrite ?S; cbn [Player.laneChangeProgress]; rewrite ?S; reflexivity.
  - destruct left;
      cbn [GameManager.player GameManager.keys GameManager.set_player andb];
      fold right; destruct right;
      cbn [GameManager.player GameManager.keys GameManager.set_player andb];
      unfold Player.changeLane;
      cbn [Player.laneChangeProgress Player.targetLane];
      rewrite ?S;
      repeat match goal with
      | |- context [(?a =? ?b)%Z] =>
          let E := fresh "E" in
          destruct (a =? b)%Z eqn:E;
          [apply Z.eqb_eq in E|apply Z.eqb_neq in E];
          cbn [negb Player.set_targetLane Player.set_laneChangeProgress
               Player.laneChangeProgress Player.targetLane]
      | |- context [JS.lt 0 1] => change (JS.lt 0 1) with true; cbv iota
      end;
      rewrite ?S;
      cbn [Player.targetLane Player.set_targetLane Player.set_laneChangeProgress];
      try lia.
Qed.

Lemma handleInput_keys_witness :
  (0 <= Player.targetLane
          (GameManager.player
             (GameManager.keydown "ArrowLeft"
                (GameManager.keydown "KeyD"
                   (Scenario.playing Scenario.settled [] [])))) <= 2)%Z /\
  Player.targetLane
    (GameManager.player
       (GameManager.handleInput
          (GameManager.keydown "ArrowLeft"
             (GameManager.keydown "KeyD"
                (Scenario.playing Scenario.settled [] []))))) = 0%Z.
Proof.
  split; [vm_compute; split; discriminate|].
  apply (handleInput_keys
           (GameManager.keydown "ArrowLeft"
              (GameManager.keydown "KeyD"
                 (Scenario.playing Scenario.settled [] [])))).
  - vm_compute. split; discriminate.
  - vm_compute. reflexivity.
Defined.

(** ** The player's lane change *)

(** What [Player.update] leaves of the lanes and of the box of the
    player. *)
Lemma Player_update_lanes (dt : Q) (p : Player.t) (w : World) :
  let a := Player.animateLaneChange dt p in
  let q := fst (Player.update dt p w) in
  Player.targetLane q = Player.targetLane a /\
  Player.currentLane q = Player.currentLane a /\
  Player.laneChangeProgress q = Player.laneChangeProgress a /\
  GameObject.x (Player.obj q) =
  GAME_CONFIG.lane (Player.currentLane a)
  + (GAME_CONFIG.lane (Player.targetLane a) - GAME_CONFIG.lane (Player.currentLane a))
    * Player.laneChangeProgress a /\
  GameObject.y (Player.obj q) = CANVAS_HEIGHT w - 100 /\
  GameObject.width (Player.obj q) = GameObject.width (Player.obj p) /\
  GameObject.height (Player.obj q) = GameObject.height (Player.obj p).
Proof.
  cbv zeta. unfold Player.update, bind, canvasHeight, ret, Date_now.
  assert (A : forall p0,
    Player.targetLane (Player.animateLaneChange dt (Player.set_obj (GameObject.update dt (Player.obj p0)) p0))
    = Player.targetLane (Player.animateLaneChange dt p0) /\
    Player.currentLane (Player.animateLaneChange dt (Player.set_obj (GameObject.update dt (Player.obj p0)) p0))
    = Player.currentLane (Player.animateLaneChange dt p0) /\
    Player.laneChangeProgress (Player.animateLaneChange dt (Player.set_obj (GameObject.update dt (Player.obj p0)) p0))
    = Player.laneChangeProgress (Player.animateLaneChange dt p0) /\
    GameObject.width (Player.obj (Player.animateLaneChange dt (Player.set_obj (GameObject.update dt (Player.obj p0)) p0)))
    = GameObject.width (Player.obj p0) /\
    GameObject.height (Player.obj (Player.animateLaneChange dt (Player.set_obj (GameObject.update dt (Player.obj p0)) p0)))
    = GameObject.height (Player.obj p0)).
  { intro p0. unfold Player.animateLaneChange. destruct p0 as [o t c lp pw mp sa se sc].
    cbn [Player.laneChangeProgress Player.set_obj Player.obj].
    destruct (JS.lt lp 1); [|repeat split; reflexivity].
    cbn [Player.laneChangeProgress Player.set_laneChangeProgress].
    destruct (JS.ge _ 1); repeat split; reflexivity. }
  destruct (A p) as (A1 & A2 & A3 & A4 & A5).
  set (a := Player.animateLaneChange dt
              (Player.set_obj (GameObject.update dt (Player.obj p)) p)) in *.
  rewrite <- A1, <- A2, <- A3, <- A4, <- A5. clearbody a. clear.
  destruct a as [o t c lp pw mp sa se sc].
  cbn [Player.shieldActive Player.set_power Player.set_obj Player.obj
       Player.targetLane Player.currentLane Player.laneChangeProgress
       Player.power Player.shieldEndTime].
  destruct sa; [destruct (JS.gt _ _)|]; repeat split; reflexivity.
Qed.

(** The animation on a player in transition. *)
Lemma animateLaneChange_in_transition (dt : Q) (p : Player.t) :
  JS.lt (Player.laneChangeProgress p) 1 = true ->
  let a := Player.animateLaneChange dt p in
  Player.targetLane a = Player.targetLane p /\
  (JS.ge (Player.laneChangeProgress p + dt / 150) 1 = true ->
   Player.laneChangeProgress a = 1 /\ Player.currentLane a = Player.targetLane p) /\
  (JS.ge (Player.laneChangeProgress p + dt / 150) 1 = false ->
   Player.laneChangeProgress a = Player.laneChangeProgress p + dt / 150 /\
   Player.currentLane a = Player.currentLane p).
Proof.
  intro T. cbv zeta. unfold Player.animateLaneChange. rewrite T.
  destruct p as [o t c lp pw mp sa se sc].
  cbn [Player.laneChangeProgress Player.set_laneChangeProgress].
  change GAME_CONFIG.LANE_CHANGE_DURATION with 150.
  destruct (JS.ge (lp + dt / 150) 1); repeat split; intros; try reflexivity;
    try discriminate.
Qed.

(** The animation on a player at rest. *)
Lemma animateLaneChange_settled (dt : Q) (p : Player.t) :
  JS.lt (Player.laneChangeProgress p) 1 = false ->
  Player.animateLaneChange dt p = p.
Proof. intro T. unfold Player.animateLaneChange. rewrite T. reflexivity. Qed.

(** ** The browser stays the same browser *)

Lemma same_browser_refl (w : World) : same_browser w w.
Proof. unfold same_browser. repeat split. Qed.

Lemma same_browser_trans (w1 w2 w3 : World) :
  same_browser w1 w2 -> same_browser w2 w3 -> same_browser w1 w3.
Proof.
  unfold same_browser. intros (A1 & A2 & A3 & A4 & A5) (B1 & B2 & B3 & B4 & B5).
  repeat split; congruence.
Qed.

Lemma stable_ret {A} (a : A) : stable (ret a).
Proof. intro w. apply same_browser_refl. Qed.

Lemma stable_bind {A B} (m : M A) (k : A -> M B) :
  stable m -> (forall a, stable (k a)) -> stable (bind m k).
Proof.
  intros Hm Hk w. unfold bind. specialize (Hm w).
  destruct (m w) as [a w1]. cbn [snd] in Hm.
  eapply same_browser_trans; [exact Hm|apply Hk].
Qed.

Lemma stable_mapM {A B} (f : A -> M B) (l : list A) :
  (forall a, stable (f a)) -> stable (mapM f l).
Proof.
  intro Hf. induction l as [|a l IH]; cbn [mapM].
  - apply stable_ret.
  - apply stable_bind; [apply Hf|]. intro b.
    apply stable_bind; [exact IH|]. intro bs. apply stable_ret.
Qed.

Lemma stable_forEach {A S} (f : A -> S -> M (A * S)) (l : list A) (s : S) :
  (forall a s, stable (f a s)) -> stable (forEach f l s).
Proof.
  intro Hf. revert s. induction l as [|a l IH]; intro s; cbn [forEach].
  - apply stable_ret.
  - apply stable_bind; [apply Hf|]. intros [a' s'].
    apply stable_bind; [apply IH|]. intros [l' s'']. apply stable_ret.
Qed.

Lemma stable_Math_random : stable Math_random.
Proof. intro w. unfold same_browser. repeat split. Qed.

Lemma stable_Date_now : stable Date_now.
Proof. intro w. unfold same_browser. repeat split. Qed.

Lemma stable_Math_sin (a : Q) : stable (Math_sin a).
Proof. intro w. apply same_browser_refl. Qed.

Lemma stable_Math_cos (a : Q) : stable (Math_cos a).
Proof. intro w. apply same_browser_refl. Qed.

Lemma stable_canvasHeight : stable canvasHeight.
Proof. intro w. apply same_browser_refl. Qed.

Lemma stable_emit (e : Effect) : stable (emit e).
Proof. intro w. unfold same_browser. repeat split. Qed.

Create HintDb stable discriminated.
#[local] Hint Resolve stable_ret stable_Math_random stable_Date_now stable_Math_sin
  stable_Math_cos stable_canvasHeight stable_emit : stable.

(** Stability, by the structure of the computation. *)
Ltac stable_tac :=
  repeat first
    [ solve [auto with stable]
    | apply stable_bind; [|intro]
    | apply stable_mapM; intro
    | apply stable_forEach; intros
    | match goal with
      | |- stable (if ?c then _ else _) => destruct c
      | |- stable (let (_, _) := ?x in _) => destruct x
      end
    | progress cbv zeta ].

Lemma stable_Player_new : stable Player.new.
Proof. unfold Player.new. stable_tac. Qed.

Lemma stable_Player_update (dt : Q) (p : Player.t) : stable (Player.update dt p).
Proof. unfold Player.update. stable_tac. Qed.

Lemma stable_activateShield (p : Player.t) : stable (Player.activateShield p).
Proof. unfold Player.activateShield. stable_tac. Qed.

Lemma stable_NPC_new (lane : Z) : stable (NPC.new lane).
Proof. unfold NPC.new. stable_tac. Qed.

Lemma stable_updateForwardMovement (dt : Q) (n : NPC.t) :
  stable (NPC.updateForwardMovement dt n).
Proof. unfold NPC.updateForwardMovement. stable_tac. Qed.

Lemma stable_updateLaneChanging (dt : Q) (n : NPC.t) :
  stable (NPC.updateLaneChanging dt n).
Proof. unfold NPC.updateLaneChanging. stable_tac. Qed.

#[local] Hint Resolve stable_Player_new stable_Player_update stable_activateShield
  stable_NPC_new stable_updateForwardMovement stable_updateLaneChanging : stable.

Lemma stable_NPC_update (dt : Q) (p : option Player.t) (n : NPC.t) :
  stable (NPC.update dt p n).
Proof. unfold NPC.update. stable_tac. Qed.

Lemma stable_Coin_new (lane : Z) : stable (Coin.new lane).
Proof. unfold Coin.new. stable_tac. Qed.

Lemma stable_Coin_update (dt : Q) (c : Coin.t) : stable (Coin.update dt c).
Proof. unfold Coin.update. stable_tac. Qed.

Lemma stable_Powerup_update (dt : Q) (p : Powerup.t) : stable (Powerup.update dt p).
Proof. unfold Powerup.update. stable_tac. Qed.

Lemma stable_Hazard_update (dt : Q) (h : Hazard.t) : stable (Hazard.update dt h).
Proof.
  unfold Hazard.update. stable_tac; destruct (Hazard.type _); stable_tac.
Qed.

#[local] Hint Resolve stable_NPC_update stable_Coin_new stable_Coin_update
  stable_Powerup_update stable_Hazard_update : stable.

Lemma stable_GameManager_new : stable GameManager.new.
Proof. unfold GameManager.new. stable_tac. Qed.

Lemma stable_resetGame (g : GameManager.t) : stable (GameManager.resetGame g).
Proof. unfold GameManager.resetGame. stable_tac. Qed.

Lemma stable_startGame (g : GameManager.t) : stable (GameManager.startGame g).
Proof. unfold GameManager.startGame. stable_tac. Qed.

#[local] Hint Resolve stable_GameManager_new stable_resetGame stable_startGame : stable.

Lemma stable_startGame_timeout (g : GameManager.t) :
  stable (GameManager.startGame_timeout g).
Proof. unfold GameManager.startGame_timeout. stable_tac. Qed.

Lemma stable_endGame (g : GameManager.t) : stable (GameManager.endGame g).
Proof. unfold GameManager.endGame. stable_tac. Qed.

Lemma stable_updateSpeedProgression (g : GameManager.t) :
  stable (GameManager.updateSpeedProgression g).
Proof. unfold GameManager.updateSpeedProgression. stable_tac. Qed.

Lemma stable_randomLane : stable GameManager.randomLane.
Proof. unfold GameManager.randomLane. stable_tac. Qed.

#[local] Hint Resolve stable_startGame_timeout stable_endGame
  stable_updateSpeedProgression stable_randomLane : stable.

Lemma stable_spawnNpc (t : Q) (g : GameManager.t) : stable (GameManager.spawnNpc t g).
Proof. unfold GameManager.spawnNpc. stable_tac. Qed.

Lemma stable_spawnCoin (t : Q) (g : GameManager.t) : stable (GameManager.spawnCoin t g).
Proof. unfold GameManager.spawnCoin. stable_tac. Qed.

Lemma stable_spawnPowerup (t : Q) (g : GameManager.t) :
  stable (GameManager.spawnPowerup t g).
Proof. unfold GameManager.spawnPowerup. stable_tac. Qed.

Lemma stable_spawnHazard (t : Q) (g : GameManager.t) :
  stable (GameManager.spawnHazard t g).
Proof. unfold GameManager.spawnHazard. stable_tac. Qed.

#[local] Hint Resolve stable_spawnNpc stable_spawnCoin stable_spawnPowerup
  stable_spawnHazard : stable.

Lemma stable_spawnObjects (dt : Q) (g : GameManager.t) :
  stable (GameManager.spawnObjects dt g).
Proof. unfold GameManager.spawnObjects. stable_tac. Qed.

Lemma stable_updateObjects (dt : Q) (g : GameManager.t) :
  stable (GameManager.updateObjects dt g).
Proof. unfold GameManager.updateObjects. stable_tac. Qed.

Lemma stable_coinBurstParticle (x y : Q) (i : nat) :
  stable (GameManager.coinBurstParticle x y i).
Proof. unfold GameManager.coinBurstParticle. stable_tac. Qed.

Lemma stable_explosionParticle (x y : Q) (i : nat) :
  stable (GameManager.explosionParticle x y i).
Proof. unfold GameManager.explosionParticle. stable_tac. Qed.

#[local] Hint Resolve stable_spawnObjects stable_updateObjects
  stable_coinBurstParticle stable_explosionParticle : stable.

Lemma stable_createCoinBurst (x y : Q) (g : GameManager.t) :
  stable (GameManager.createCoinBurst x y g).
Proof. unfold GameManager.createCoinBurst. stable_tac. Qed.

Lemma stable_createExplosion (x y : Q) (g : GameManager.t) :
  stable (GameManager.createExplosion x y g).
Proof. unfold GameManager.createExplosion. stable_tac. Qed.

#[local] Hint Resolve stable_createCoinBurst stable_createExplosion : stable.

Lemma stable_coinCollision (c : Coin.t) (g : GameManager.t) :
  stable (GameManager.coinCollision c g).
Proof. unfold GameManager.coinCollision. stable_tac. Qed.

Lemma stable_powerupCollision (p : Powerup.t) (g : GameManager.t) :
  stable (GameManager.powerupCollision p g).
Proof.
  unfold GameManager.powerupCollision. destruct (Powerup.type p). stable_tac.
Qed.

Lemma stable_npcCollision (n : NPC.t) (g : GameManager.t) :
  stable (GameManager.npcCollision n g).
Proof. unfold GameManager.npcCollision. stable_tac. Qed.

Lemma stable_hazardCollision (h : Hazard.t) (g : GameManager.t) :
  stable (GameManager.hazardCollision h g).
Proof. unfold GameManager.hazardCollision. stable_tac. Qed.

#[local] Hint Resolve stable_coinCollision stable_powerupCollision
  stable_npcCollision stable_hazardCollision : stable.

Lemma stable_checkCollisions (g : GameManager.t) :
  stable (GameManager.checkCollisions g).
Proof. unfold GameManager.checkCollisions. stable_tac. Qed.

#[local] Hint Resolve stable_checkCollisions : stable.

Lemma stable_update (dt : Q) (g : GameManager.t) : stable (GameManager.update dt g).
Proof. unfold GameManager.update. stable_tac. Qed.

#[local] Hint Resolve stable_update : stable.

Lemma stable_handle (e : Event) (g : GameManager.t) : stable (handle e g).
Proof. destruct e; unfold handle, GameManager.gameLoop; stable_tac. Qed.

(** ** What a frame does to the player *)

Lemma collided_refl (p : Player.t) : collided p p.
Proof. unfold collided. repeat split; try lra; try lia; auto. Qed.

Lemma collided_trans (p q r : Player.t) : collided p q -> collided q r -> collided p r.
Proof.
  unfold collided.
  intros (A1 & A2 & A3 & A4 & A5 & A6 & A8) (B1 & B2 & B3 & B4 & B5 & B6 & B8).
  split; [congruence|]. split; [congruence|]. split; [congruence|].
  split; [congruence|]. split; [congruence|]. split; [|lia].
  intro H. destruct (A6 H) as [H1 H2]. destruct (B6 H1). split; lra.
Qed.

Lemma takeDamage_collided (amount : Q) (p : Player.t) :
  0 <= amount -> collided p (Player.takeDamage amount p).
Proof.
  intro A. unfold collided, Player.takeDamage.
  destruct p as [o t c lp pw mp sa se sc]. destruct sa; cbn.
  - repeat split; try lra; try lia; auto.
  - unfold JS.Math_max. repeat split; try lia.
    + apply Q.le_max_l.
    + apply Q.max_lub; lra.
Qed.

Lemma coinCollision_collided (c : Coin.t) (g : GameManager.t) (w : World) :
  collided (GameManager.player g)
           (GameManager.player (snd (fst (GameManager.coinCollision c g w)))).
Proof.
  unfold GameManager.coinCollision.
  destruct (GameObject.collidesWith _ _); [|apply collided_refl].
  destruct (Coin.collect c) as [[|] c']; [|apply collided_refl].
  unfold bind.
  match goal with |- context [GameManager.createCoinBurst ?x ?y ?a ?b] =>
    destruct (createCoinBurst_eq x y a b) as (ps & w1 & E); rewrite E end.
  unfold emit, Date_now, ret. cbn [fst snd].
  destruct (JS.lt _ _); destruct g; cbn; unfold collided; cbn;
    repeat split; try lra; try lia; auto.
Qed.

Lemma powerupCollision_collided (p : Powerup.t) (g : GameManager.t) (w : World) :
  collided (GameManager.player g)
           (GameManager.player (snd (fst (GameManager.powerupCollision p g w)))).
Proof.
  unfold GameManager.powerupCollision.
  destruct (GameObject.collidesWith _ _); [|apply collided_refl].
  unfold bind. destruct (Powerup.type p).
  unfold Player.activateShield, bind, Date_now, ret.
  match goal with |- context [GameManager.createExplosion ?x ?y ?a ?b] =>
    destruct (createExplosion_eq x y a b) as (ps & w1 & E); rewrite E end.
  unfold emit. cbn [fst snd].
  destruct g; cbn; unfold collided; cbn; repeat split; try lra; try lia; auto.
Qed.

Lemma ended_player (g : GameManager.t) :
  GameManager.player (ended g) = GameManager.player g.
Proof. reflexivity. Qed.

Lemma npcCollision_collided (n : NPC.t) (g : GameManager.t) (w : World) :
  collided (GameManager.player g)
           (GameManager.player (snd (fst (GameManager.npcCollision n g w)))).
Proof.
  unfold GameManager.npcCollision.
  destruct (GameObject.collidesWith _ _); [|apply collided_refl].
  unfold bind.
  match goal with |- context [GameManager.createExplosion ?x ?y ?a ?b] =>
    destruct (createExplosion_eq x y a b) as (ps & w1 & E); rewrite E end.
  unfold emit. cbn [fst snd].
  match goal with |- context [if ?c then _ else _] => destruct c end.
  - match goal with |- context [GameManager.endGame ?a ?b] =>
      destruct (endGame_eq a b) as (w2 & E2); rewrite E2 end.
    cbn [fst snd ret]. rewrite ended_player.
    apply (takeDamage_collided 10). lra.
  - cbn [fst snd ret]. apply (takeDamage_collided 10). lra.
Qed.

Lemma hazardCollision_collided (h : Hazard.t) (g : GameManager.t) (w : World) :
  collided (GameManager.player g)
           (GameManager.player (snd (fst (GameManager.hazardCollision h g w)))).
Proof.
  unfold GameManager.hazardCollision.
  destruct (GameObject.collidesWith _ _); [|apply collided_refl].
  unfold bind.
  match goal with |- context [GameManager.createExplosion ?x ?y ?a ?b] =>
    destruct (createExplosion_eq x y a b) as (ps & w1 & E); rewrite E end.
  unfold emit. cbn [fst snd].
  match goal with |- context [if ?c then _ else _] => destruct c end.
  - match goal with |- context [GameManager.endGame ?a ?b] =>
      destruct (endGame_eq a b) as (w2 & E2); rewrite E2 end.
    cbn [fst snd ret]. rewrite ended_player.
    apply (takeDamage_collided 15). lra.
  - cbn [fst snd ret]. apply (takeDamage_collided 15). lra.
Qed.

(** The collision pass leaves the player where it is, with no more power
    and no lower score. *)
Lemma checkCollisions_collided (g : GameManager.t) (w : World) :
  collided (GameManager.player g)
           (GameManager.player (fst (GameManager.checkCollisions g w))).
Proof.
  unfold GameManager.checkCollisions, bind.
  pose proof (forEach_spec GameManager.coinCollision
                (fun s => collided (GameManager.player g) (GameManager.player s))
                (fun _ _ => True)) as F1.
  specialize (F1 (fun a s w0 I0 =>
    conj (collided_trans _ _ _ I0 (coinCollision_collided a s w0)) I)
    (GameManager.coins g) g w (collided_refl _)).
  destruct (forEach GameManager.coinCollision _ g w) as [[cs s1] w1].
  cbn [fst snd] in F1. destruct F1 as [F1 _].
  pose proof (forEach_spec GameManager.powerupCollision
                (fun s => collided (GameManager.player g) (GameManager.player s))
                (fun _ _ => True)) as F2.
  specialize (F2 (fun a s w0 I0 =>
    conj (collided_trans _ _ _ I0 (powerupCollision_collided a s w0)) I)
    (GameManager.powerups (GameManager.set_coins cs s1))
    (GameManager.set_coins cs s1) w1 F1).
  destruct (forEach GameManager.powerupCollision _ _ w1) as [[ps s2] w2].
  cbn [fst snd] in F2. destruct F2 as [F2 _].
  pose proof (forEach_spec GameManager.npcCollision
                (fun s => collided (GameManager.player g) (GameManager.player s))
                (fun _ _ => True)) as F3.
  specialize (F3 (fun a s w0 I0 =>
    conj (collided_trans _ _ _ I0 (npcCollision_collided a s w0)) I)
    (GameManager.npcs (GameManager.set_powerups ps s2))
    (GameManager.set_powerups ps s2) w2 F2).
  destruct (forEach GameManager.npcCollision _ _ w2) as [[ns s3] w3].
  cbn [fst snd] in F3. destruct F3 as [F3 _].
  pose proof (forEach_spec GameManager.hazardCollision
                (fun s => collided (GameManager.player g) (GameManager.player s))
                (fun _ _ => True)) as F4.
  specialize (F4 (fun a s w0 I0 =>
    conj (collided_trans _ _ _ I0 (hazardCollision_collided a s w0)) I)
    (GameManager.hazards (GameManager.set_npcs ns s3))
    (GameManager.set_npcs ns s3) w3 F3).
  destruct (forEach GameManager.hazardCollision _ _ w3) as [[hs s4] w4].
  cbn [fst snd] in F4. destruct F4 as [F4 _].
  exact F4.
Qed.

Lemma handleInput_player (g : GameManager.t) :
  exists ds, GameManager.player (GameManager.handleInput g)
             = lane_changes ds (GameManager.player g).
Proof.
  unfold GameManager.handleInput.
  destruct (GameManager.keys g "ArrowLeft" || GameManager.keys g "KeyA");
    cbn [GameManager.keys GameManager.set_player];
    destruct (GameManager.keys g "ArrowRight" || GameManager.keys g "KeyD");
    cbn [GameManager.player GameManager.set_player].
  - exists [(-1)%Z; 1%Z]. reflexivity.
  - exists [(-1)%Z]. reflexivity.
  - exists [1%Z]. reflexivity.
  - exists []. reflexivity.
Qed.

Lemma updateParticles_player (dt : Q) (g : GameManager.t) :
  GameManager.player (GameManager.updateParticles dt g) = GameManager.player g.
Proof. reflexivity. Qed.

(** The player after a live frame: steered by the keys, updated, and
    then taken through the collision pass. *)
Lemma live_frame_player (dt : Q) (g : GameManager.t) (w : World) :
  live dt g = true ->
  exists ds w',
    same_browser w w' /\
    collided (fst (Player.update dt (lane_changes ds (GameManager.player g)) w'))
             (GameManager.player (fst (GameManager.update dt g w))).
Proof.
  intro L. rewrite (update_stages dt g w L).
  repeat (rewrite bind_proj; cbv beta). unfold ret. cbn [fst].
  rewrite updateParticles_player.
  match goal with |- context [GameManager.checkCollisions ?a ?b] =>
    pose proof (checkCollisions_collided a b) as C;
    set (g4 := fst (GameManager.checkCollisions a b)) in *;
    set (g3 := a) in *
  end.
  assert (P3 : GameManager.player g3
               = GameManager.player (fst (beforeSpawn dt g w))).
  { unfold g3. rewrite updateObjects_player.
    match goal with |- context [GameManager.spawnObjects ?d ?a ?b] =>
      destruct (spawnObjects_spec d a b) as ((_ & _ & _ & P & _) & _) end.
    exact P. }
  rewrite P3 in C. clearbody g4. clear g3 P3.
  unfold beforeSpawn in C. revert C.
  repeat (rewrite bind_proj; cbv beta). unfold ret. cbn [fst].
  cbn [GameManager.player GameManager.set_player].
  match goal with |- context [GameManager.updateSpeedProgression ?a ?b] =>
    pose proof (stable_updateSpeedProgression a b) as S1;
    pose proof (updateSpeedProgression_eq a b) as E1;
    set (w1 := snd (GameManager.updateSpeedProgression a b)) in *;
    set (s1 := fst (GameManager.updateSpeedProgression a b)) in *
  end.
  match goal with |- context [GameManager.handleInput ?a] =>
    destruct (handleInput_player a) as [ds Hds]; rewrite Hds;
    assert (P1 : GameManager.player a = GameManager.player g)
  end.
  { match goal with |- context [if ?b then _ else _] =>
      destruct (road_spec b
                  (GameManager.roadOffset s1
                   - GameManager.roadSpeed s1 * (dt / 16.67)) s1)
        as ((_ & _ & _ & A & _) & _) end.
    cbv zeta in A. rewrite A. rewrite E1.
    destruct (progressed_spec
                (GameManager.set_gameTime (GameManager.gameTime g - dt) g))
      as (_ & _ & _ & _ & _ & _ & _ & _ & B).
    rewrite B. reflexivity. }
  rewrite P1. intro C. exists ds, w1. split; [exact S1|exact C].
Qed.

(** What an event does to the player: nothing but lane changes, a fresh
    player, or a live frame. *)
Lemma handle_player (e : Event) (g : GameManager.t) (w : World) :
  let p' := GameManager.player (fst (handle e g w)) in
  (exists ds, p' = lane_changes ds (GameManager.player g)) \/
  (exists w', e = LoadingDone /\ same_browser w w' /\ p' = fst (Player.new w')) \/
  (exists dt ds w',
     e = Frame dt /\ same_browser w w' /\
     collided (fst (Player.update dt (lane_changes ds (GameManager.player g)) w')) p').
Proof.
  cbv zeta. destruct e as [dt|code|code|targetX| |]; cbn [handle].
  - unfold GameManager.gameLoop.
    destruct (negb (GameManager.isGameLoopRunning g));
      [left; exists []; reflexivity|].
    destruct (live dt g) eqn:L.
    + right. right. destruct (live_frame_player dt g w L) as (ds & w' & S & C).
      exists dt, ds, w'. auto.
    + left. exists []. rewrite (update_not_live dt g w L).
      destruct (GAME_STATE_eqb _ _); reflexivity.
  - left. exists []. reflexivity.
  - left. exists []. reflexivity.
  - left. unfold ret. cbn [fst]. unfold GameManager.pointerTo.
    destruct (GAME_STATE_eqb _ _); [|exists []; reflexivity].
    destruct (negb _); [|exists []; reflexivity].
    eexists [_]. reflexivity.
  - left. exists []. reflexivity.
  - right. left. unfold GameManager.startGame_timeout.
    repeat (rewrite bind_proj; cbv beta). unfold ret. cbn [fst].
    unfold GameManager.resetGame.
    repeat (rewrite bind_proj; cbv beta). unfold ret. cbn [fst].
    match goal with |- context [Player.new ?a] => exists a end.
    split; [reflexivity|]. split.
    + repeat (eapply same_browser_trans; [|apply stable_emit]).
      apply same_browser_refl.
    + unfold GameManager.startGameLoop.
      match goal with |- context [if ?c then _ else _] => destruct c end;
        reflexivity.
Qed.

(** ** The player stays on the road *)

(** An invariant of the events holds after a run. *)
Lemma run_invariant (I : GameManager.t -> World -> Prop) (ok : Event -> Prop) :
  (forall e g w, ok e -> I g w -> I (fst (handle e g w)) (snd (handle e g w))) ->
  forall es g w, Forall ok es -> I g w ->
    I (fst (run es g w)) (snd (run es g w)).
Proof.
  intros Step es. induction es as [|e es IH]; intros g w F H; cbn [run].
  - exact H.
  - inversion F as [|? ? Oe Oes]; subst. rewrite bind_proj. cbv beta.
    apply IH; [exact Oes|]. apply Step; assumption.
Qed.

Lemma lane_values (i : Z) :
  (0 <= i <= 2)%Z ->
  (i = 0%Z /\ GAME_CONFIG.lane i = 100) \/
  (i = 1%Z /\ GAME_CONFIG.lane i = 200) \/
  (i = 2%Z /\ GAME_CONFIG.lane i = 300).
Proof.
  intro R. assert (i = 0 \/ i = 1 \/ i = 2)%Z as [->| [->| ->]] by lia; auto.
Qed.

Lemma on_the_road_new (w : World) :
  on_the_road (CANVAS_HEIGHT w) (fst (Player.new w)).
Proof.
  unfold on_the_road, Player.new, bind, canvasHeight, ret. cbn.
  repeat split; try lia; try lra; try reflexivity.
Qed.

Lemma on_the_road_changeLane (H : Q) (d : Z) (p : Player.t) :
  on_the_road H p -> on_the_road H (Player.changeLane d p).
Proof.
  unfold on_the_road, Player.changeLane.
  intros (T & C & P & S & X & Y & Wd & Ht).
  destruct (JS.lt (Player.laneChangeProgress p) 1) eqn:L;
    [repeat split; tauto|].
  apply lt_false in L.
  destruct (negb _); [|repeat split; tauto].
  destruct p as [o t c lp pw mp sa se sc]. cbn in *.
  rewrite (S L) in X.
  repeat split; try lia; try lra; try assumption.
  rewrite (S L), X. ring.
Qed.

Lemma on_the_road_lane_changes (H : Q) (ds : list Z) (p : Player.t) :
  on_the_road H p -> on_the_road H (lane_changes ds p).
Proof.
  revert p. induction ds as [|d ds IH]; intros p R; [exact R|].
  apply IH, on_the_road_changeLane, R.
Qed.

Lemma on_the_road_collided (H : Q) (p p' : Player.t) :
  collided p p' -> on_the_road H p -> on_the_road H p'.
Proof.
  unfold collided, on_the_road.
  intros (A1 & A2 & A3 & A4 & _). rewrite A1, A2, A3, A4. tauto.
Qed.

Lemma on_the_road_x (H : Q) (p : Player.t) :
  on_the_road H p -> 100 <= GameObject.x (Player.obj p) <= 300.
Proof.
  intros (T & C & P & _ & X & _). rewrite X.
  destruct (lane_values _ T) as [[_ ->]|[[_ ->]|[_ ->]]];
    destruct (lane_values _ C) as [[_ ->]|[[_ ->]|[_ ->]]];
    split; lra.
Qed.

(** ** The player on the road, whatever the window does *)

Lemma on_the_road_frame (H : Q) (dt : Q) (p : Player.t) (w : World) :
  0 <= dt ->
  on_the_road H p ->
  on_the_road (CANVAS_HEIGHT w) (fst (Player.update dt p w)).
Proof.
  intros D (T & C & P & S & X & Y & Wd & Ht).
  pose proof (Player_update_lanes dt p w) as U. cbv zeta in U.
  destruct U as (U1 & U2 & U3 & U4 & U5 & U6 & U7).
  unfold on_the_road. rewrite U1, U2, U3, U4, U5, U6, U7.
  destruct (JS.lt (Player.laneChangeProgress p) 1) eqn:L.
  - destruct (animateLaneChange_in_transition dt p L) as (A1 & A2 & A3).
    cbv zeta in A1. rewrite A1.
    destruct (JS.ge (Player.laneChangeProgress p + dt / 150) 1) eqn:G.
    + destruct (A2 eq_refl) as [-> ->].
      repeat split; try lia; try lra; try assumption.
    + destruct (A3 eq_refl) as [-> ->]. apply ge_false in G.
      repeat split; try lia; try assumption; try reflexivity; try lraq.
  - rewrite (animateLaneChange_settled dt p L).
    repeat split; try lia; try lra; try assumption; try reflexivity.
Qed.

Lemma handle_input_on_the_road (i : Input) (g : GameManager.t) (w : World) :
  match i with Engine (Frame dt) => 0 <= dt | _ => True end ->
  (exists H, on_the_road H (GameManager.player g)) ->
  exists H, on_the_road H (GameManager.player (fst (handle_input i g w))).
Proof.
  intros D [H R]. destruct i as [e|h]; [|exists H; exact R].
  cbn [handle_input].
  destruct (handle_player e g w) as [(ds & ->)|[(w' & _ & _ & ->)|
                                     (dt & ds & w' & -> & _ & Cl)]].
  - exists H. apply on_the_road_lane_changes, R.
  - exists (CANVAS_HEIGHT w'). apply on_the_road_new.
  - exists (CANVAS_HEIGHT w'). eapply on_the_road_collided; [exact Cl|].
    apply (on_the_road_frame H); [exact D|].
    apply on_the_road_lane_changes, R.
Qed.

Lemma session_on_the_road (inputs : list Input) :
  input_times_nonneg inputs ->
  forall g w,
    (exists H, on_the_road H (GameManager.player g)) ->
    exists H, on_the_road H (GameManager.player (fst (session inputs g w))).
Proof.
  induction 1 as [|i rest Hi _ IH]; intros g w R; cbn [session].
  - exact R.
  - rewrite bind_proj. cbv beta. apply IH.
    apply handle_input_on_the_road; assumption.
Qed.

(** X6.  Over a session whose frames do not go back in time, whatever
    the resizes of the window in it, the player stays on the road: its
    lanes are lanes 0..2, the progress of its lane change is between 0 and
    1 and at 1 only with the player in its target lane, at the position of
    that lane; the player is between 100 and 300 and its box stays 80 by
    120. *)
Theorem player_stays_on_the_road (inputs : list Input) (w : World) :
  input_times_nonneg inputs ->
  let p := GameManager.player
             (fst (session inputs (fst (GameManager.new w)) (snd (GameManager.new w)))) in
  (0 <= Player.targetLane p <= 2)%Z /\
  (0 <= Player.currentLane p <= 2)%Z /\
  0 <= Player.laneChangeProgress p <= 1 /\
  (1 <= Player.laneChangeProgress p ->
   Player.currentLane p = Player.targetLane p /\
   GameObject.x (Player.obj p) == GAME_CONFIG.lane (Player.targetLane p)) /\
  100 <= GameObject.x (Player.obj p) <= 300 /\
  GameObject.width (Player.obj p) = 80 /\
  GameObject.height (Player.obj p) = 120.
Proof.
  intro F. cbv zeta.
  destruct (session_on_the_road inputs F (fst (GameManager.new w))
              (snd (GameManager.new w))) as [H R].
  { exists (CANVAS_HEIGHT w). apply on_the_road_new. }
  pose proof (on_the_road_x H _ R) as X.
  destruct R as (T & C & P & S & E & _ & Wd & Ht).
  split; [exact T|]. split; [exact C|]. split; [exact P|].
  split; [|split; [exact X|split; [exact Wd|exact Ht]]].
  intro One. split; [exact (S One)|].
  rewrite E, (S One). ring.
Qed.

Lemma player_stays_on_the_road_witness :
  input_times_nonneg
    [Engine StartGame; Engine LoadingDone; Resize 480;
     Engine (KeyDown "ArrowLeft"); Engine (Frame 200); Engine (Frame 16)] /\
  100 <= GameObject.x
           (Player.obj
              (GameManager.player
                 (fst (session
                         [Engine StartGame; Engine LoadingDone; Resize 480;
                          Engine (KeyDown "ArrowLeft"); Engine (Frame 200);
                          Engine (Frame 16)]
                         (fst (GameManager.new
                                 (Scenario.world Scenario.unused Scenario.unused)))
                         (snd (GameManager.new
                                 (Scenario.world Scenario.unused Scenario.unused)))))))
  <= 300.
Proof.
  assert (F : input_times_nonneg
                [Engine StartGame; Engine LoadingDone; Resize 480;
                 Engine (KeyDown "ArrowLeft"); Engine (Frame 200); Engine (Frame 16)])
    by (repeat constructor; discriminate).
  split; [exact F|].
  apply (player_stays_on_the_road _ (Scenario.world Scenario.unused Scenario.unused) F).
Defined.

(** ** Power only goes down *)

Lemma lane_changes_power (ds : list Z) (p : Player.t) :
  Player.power (lane_changes ds p) = Player.power p.
Proof.
  revert p. induction ds as [|d ds IH]; intro p; [reflexivity|].
  cbn [lane_changes fold_left]. fold (lane_changes ds (Player.changeLane d p)).
  rewrite IH. apply changeLane_power.
Qed.

(** An event other than the end of loading, in a frame that does not go
    back in time, leaves the player with no more power, and none below
    zero. *)
Lemma handle_power (e : Event) (g : GameManager.t) (w : World) :
  match e with Frame dt => 0 <= dt | LoadingDone => False | _ => True end ->
  0 <= Player.power (GameManager.player g) ->
  0 <= Player.power (GameManager.player (fst (handle e g w)))
    <= Player.power (GameManager.player g).
Proof.
  intros D P.
  destruct (handle_player e g w) as [(ds & ->)|[(w' & -> & _)|
                                     (dt & ds & w' & -> & _ & Cl)]].
  - rewrite lane_changes_power. lra.
  - contradiction.
  - destruct Cl as (_ & _ & _ & _ & _ & Pw & _).
    rewrite update_power, lane_changes_power in Pw.
    change GAME_CONFIG.POWER_DECAY_RATE with 1 in Pw.
    unfold JS.Math_max in Pw.
    assert (M : 0 <= Qmax 0 (Player.power (GameManager.player g) - 1 * dt / 1000)
                <= Player.power (GameManager.player g)).
    { split; [apply Q.le_max_l|]. apply Q.max_lub; lraq. }
    destruct (Pw (proj1 M)). lra.
Qed.

(** X7.  Nothing in the game restores power: as long as loading does not
    end anew and no frame goes back in time, the power of the player only
    goes down and stays at or above zero; and over a whole session it is
    between 0 and the 100 a new player has, so that [maxPower], 120, is
    never reached. *)
Theorem power_only_goes_down :
  (forall es g w,
     frame_times_nonneg es -> ~ In LoadingDone es ->
     0 <= Player.power (GameManager.player g) ->
     0 <= Player.power (GameManager.player (fst (run es g w)))
       <= Player.power (GameManager.player g)) /\
  (forall es w,
     frame_times_nonneg es ->
     0 <= Player.power
            (GameManager.player
               (fst (run es (fst (GameManager.new w)) (snd (GameManager.new w)))))
       <= 100).
Proof.
  split.
  - intros es. induction es as [|e es IH]; intros g w F N P; cbn [run].
    + cbn. lra.
    + inversion F as [|? ? Fe Fes]; subst. rewrite bind_proj. cbv beta.
      assert (S : 0 <= Player.power (GameManager.player (fst (handle e g w)))
                  <= Player.power (GameManager.player g)).
      { apply handle_power; [|exact P].
        destruct e; try exact Fe; try exact I. apply N. left. reflexivity. }
      specialize (IH (fst (handle e g w)) (snd (handle e g w)) Fes
                     (fun H => N (or_intror H)) (proj1 S)).
      lra.
  - intros es w F.
    apply (run_invariant
             (fun g _ => 0 <= Player.power (GameManager.player g) <= 100)
             (fun e => match e with Frame dt => 0 <= dt | _ => True end)).
    + intros e g w0 D P.
      destruct e as [dt|code|code|x| |];
        try (match goal with |- context [handle ?e _ _] =>
               pose proof (handle_power e g w0 D (proj1 P)) end; lra).
      destruct (handle_player LoadingDone g w0)
        as [(ds & ->)|[(w' & _ & _ & ->)|(dt & ds & w' & E & _)]].
      * rewrite lane_changes_power. exact P.
      * cbn. lra.
      * discriminate E.
    + exact F.
    + cbn. lra.
Qed.

Lemma power_only_goes_down_witness :
  frame_times_nonneg [Frame 16; KeyDown "KeyA"; Frame 16] /\
  ~ In LoadingDone [Frame 16; KeyDown "KeyA"; Frame 16] /\
  0 <= Player.power (GameManager.player Scenario.opening) /\
  Player.power
    (GameManager.player
       (fst (run [Frame 16; KeyDown "KeyA"; Frame 16] Scenario.opening
               (Scenario.world Scenario.unused Scenario.unused))))
  <= Player.power (GameManager.player Scenario.opening).
Proof.
  assert (F : frame_times_nonneg [Frame 16; KeyDown "KeyA"; Frame 16])
    by (repeat constructor; discriminate).
  assert (N : ~ In LoadingDone [Frame 16; KeyDown "KeyA"; Frame 16])
    by (intros [H|[H|[H|[]]]]; discriminate H).
  assert (P : 0 <= Player.power (GameManager.player Scenario.opening))
    by (cbn; lra).
  split; [exact F|]. split; [exact N|]. split; [exact P|].
  apply (proj1 power_only_goes_down _ Scenario.opening
           (Scenario.world Scenario.unused Scenario.unused) F N P).
Defined.

(** ** The accounts of the collision pass *)

Lemma mapM_length {A B} (f : A -> M B) (l : list A) (w : World) :
  List.length (fst (mapM f l w)) = List.length l.
Proof.
  eapply Forall2_length_eq.
  apply (mapM_Forall2 f (fun _ _ => True)). auto.
Qed.

Lemma mapM_Forall {A B} (f : A -> M B) (P : B -> Prop) (l : list A) (w : World) :
  (forall a w, P (fst (f a w))) -> Forall P (fst (mapM f l w)).
Proof.
  intro H. eapply (Forall2_Forall_r (fun _ b => P b)).
  - auto.
  - apply (mapM_Forall2 f (fun _ b => P b)). exact H.
Qed.

(** An explosion: 15 particles at the place of the collision, with 800
    ms to live. *)
Lemma createExplosion_burst (x y : Q) (g : GameManager.t) (w : World) :
  exists ps w',
    GameManager.createExplosion x y g w =
    (GameManager.set_particles (GameManager.particles g ++ ps) g, w') /\
    List.length ps = 15%nat /\
    Forall (fresh_particle 800 x y) ps.
Proof.
  unfold GameManager.createExplosion. rewrite bind_proj. unfold ret.
  eexists. eexists. split; [reflexivity|]. split.
  - rewrite mapM_length. reflexivity.
  - apply mapM_Forall. intros i w0.
    unfold GameManager.explosionParticle.
    repeat (rewrite bind_proj; cbv beta). unfold ret, fresh_particle. cbn.
    repeat split.
Qed.

(** A coin burst: 20 particles at the place of the coin, with 1200 ms to
    live. *)
Lemma createCoinBurst_burst (x y : Q) (g : GameManager.t) (w : World) :
  exists ps w',
    GameManager.createCoinBurst x y g w =
    (GameManager.set_particles (GameManager.particles g ++ ps) g, w') /\
    List.length ps = 20%nat /\
    Forall (fresh_particle 1200 x y) ps.
Proof.
  unfold GameManager.createCoinBurst. rewrite bind_proj. unfold ret.
  eexists. eexists. split; [reflexivity|]. split.
  - rewrite mapM_length. reflexivity.
  - apply mapM_Forall. intros i w0.
    unfold GameManager.coinBurstParticle.
    repeat (rewrite bind_proj; cbv beta). unfold ret, fresh_particle. cbn.
    repeat split.
Qed.

Lemma count_cons {A} (f : A -> bool) (a : A) (l : list A) :
  count f (a :: l) = ((if f a then 1 else 0) + count f l)%Z.
Proof. unfold count. cbn [filter]. destruct (f a); cbn [List.length]; lia. Qed.

(** A quantity that each round of a pass raises by [k] when the player
    overlaps the element is raised by [k] times the number of elements
    the player overlaps. *)
Lemma forEach_count {A} (f : A -> GameManager.t -> M (A * GameManager.t))
  (hit : Player.t -> A -> bool) (measure : GameManager.t -> Z) (k : Z) :
  (forall p p' a, Player.obj p' = Player.obj p -> hit p' a = hit p a) ->
  (forall a s w,
     Player.obj (GameManager.player (snd (fst (f a s w))))
     = Player.obj (GameManager.player s) /\
     measure (snd (fst (f a s w)))
     = (measure s + if hit (GameManager.player s) a then k else 0)%Z) ->
  forall l s w,
    Player.obj (GameManager.player (snd (fst (forEach f l s w))))
    = Player.obj (GameManager.player s) /\
    measure (snd (fst (forEach f l s w)))
    = (measure s + k * count (hit (GameManager.player s)) l)%Z.
Proof.
  intros Hh Hf l. induction l as [|a l IH]; intros s w; cbn [forEach].
  - unfold ret, count. cbn. split; [reflexivity|lia].
  - unfold bind. destruct (Hf a s w) as [O1 M1].
    destruct (f a s w) as [[a1 s1] w1]. cbn [fst snd] in O1, M1.
    destruct (IH s1 w1) as [O2 M2].
    destruct (forEach f l s1 w1) as [[l2 s2] w2]. cbn [fst snd ret] in *.
    split; [congruence|].
    rewrite M2, M1, count_cons.
    assert (E : count (hit (GameManager.player s1)) l
                = count (hit (GameManager.player s)) l).
    { unfold count. f_equal. f_equal. apply filter_ext. intro x.
      apply Hh, O1. }
    rewrite E. destruct (hit (GameManager.player s) a); lia.
Qed.

Lemma length_app_Z {A} (l l' : list A) (n : nat) :
  List.length l' = n ->
  Z.of_nat (List.length (l ++ l')) = (Z.of_nat (List.length l) + Z.of_nat n)%Z.
Proof. intros <-. rewrite length_app. lia. Qed.

Lemma coinCollision_account (c : Coin.t) (g : GameManager.t) (w : World) :
  let s := snd (fst (GameManager.coinCollision c g w)) in
  Player.obj (GameManager.player s) = Player.obj (GameManager.player g) /\
  Player.score (GameManager.player s)
  = (Player.score (GameManager.player g)
     + if collects (GameManager.player g) c then 10 else 0)%Z /\
  Z.of_nat (List.length (GameManager.particles s))
  = (Z.of_nat (List.length (GameManager.particles g))
     + if collects (GameManager.player g) c then 20 else 0)%Z.
Proof.
  cbv zeta. unfold GameManager.coinCollision, collects.
  destruct (GameObject.collidesWith _ _); cbn [andb];
    [|cbn; repeat split; lia].
  unfold Coin.collect. destruct (negb (Coin.collected c));
    [|cbn; repeat split; lia].
  unfold bind.
  match goal with |- context [GameManager.createCoinBurst ?x ?y ?a ?b] =>
    destruct (createCoinBurst_burst x y a b) as (ps & w1 & E & L & _); rewrite E end.
  unfold emit, Date_now, ret. cbn [fst snd].
  destruct (JS.lt _ _); cbn [fst snd];
    cbn [GameManager.player GameManager.particles GameManager.set_player
         GameManager.set_particles GameManager.set_burstStreak
         GameManager.set_lastBurstTime Player.obj Player.score Player.set_score];
    (split; [reflexivity|]); (split; [reflexivity|]);
    apply (length_app_Z _ _ 20 L).
Qed.

Lemma powerupCollision_account (p : Powerup.t) (g : GameManager.t) (w : World) :
  let s := snd (fst (GameManager.powerupCollision p g w)) in
  Player.obj (GameManager.player s) = Player.obj (GameManager.player g) /\
  Player.score (GameManager.player s)
  = (Player.score (GameManager.player g)
     + if takes (GameManager.player g) p then 0 else 0)%Z /\
  Z.of_nat (List.length (GameManager.particles s))
  = (Z.of_nat (List.length (GameManager.particles g))
     + if takes (GameManager.player g) p then 15 else 0)%Z.
Proof.
  cbv zeta. unfold GameManager.powerupCollision, takes.
  destruct (GameObject.collidesWith _ _); [|cbn; repeat split; lia].
  unfold bind. destruct (Powerup.type p).
  unfold Player.activateShield, bind, Date_now, ret.
  match goal with |- context [GameManager.createExplosion ?x ?y ?a ?b] =>
    destruct (createExplosion_burst x y a b) as (ps & w1 & E & L & _); rewrite E end.
  unfold emit. cbn [fst snd].
  cbn [GameManager.player GameManager.particles GameManager.set_player
       GameManager.set_particles Player.obj Player.score
       Player.set_shieldActive Player.set_shieldEndTime].
  (split; [reflexivity|]); (split; [lia|]).
  apply (length_app_Z _ _ 15 L).
Qed.

Lemma takeDamage_score (amount : Q) (p : Player.t) :
  Player.score (Player.takeDamage amount p) = Player.score p.
Proof. unfold Player.takeDamage. destruct (negb _); reflexivity. Qed.

Lemma npcCollision_account (n : NPC.t) (g : GameManager.t) (w : World) :
  let s := snd (fst (GameManager.npcCollision n g w)) in
  Player.obj (GameManager.player s) = Player.obj (GameManager.player g) /\
  Player.score (GameManager.player s)
  = (Player.score (GameManager.player g)
     + if bumps (GameManager.player g) n then 0 else 0)%Z /\
  Z.of_nat (List.length (GameManager.particles s))
  = (Z.of_nat (List.length (GameManager.particles g))
     + if bumps (GameManager.player g) n then 15 else 0)%Z.
Proof.
  cbv zeta. unfold GameManager.npcCollision, bumps.
  destruct (GameObject.collidesWith _ _); [|cbn; repeat split; lia].
  unfold bind.
  match goal with |- context [GameManager.createExplosion ?x ?y ?a ?b] =>
    destruct (createExplosion_burst x y a b) as (ps & w1 & E & L & _); rewrite E end.
  unfold emit. cbn [fst snd].
  match goal with |- context [if ?c then _ else _] => destruct c end;
    [match goal with |- context [GameManager.endGame ?a ?b] =>
       destruct (endGame_eq a b) as (w2 & E2); rewrite E2 end|];
    cbn [fst snd ret];
    cbn [ended GameManager.stopGameLoop GameManager.set_gameState
         GameManager.set_isGameLoopRunning
         GameManager.player GameManager.particles GameManager.set_player
         GameManager.set_particles];
    rewrite takeDamage_obj, takeDamage_score;
    (split; [reflexivity|]); (split; [lia|]);
    apply (length_app_Z _ _ 15 L).
Qed.

Lemma hazardCollision_account (h : Hazard.t) (g : GameManager.t) (w : World) :
  let s := snd (fst (GameManager.hazardCollision h g w)) in
  Player.obj (GameManager.player s) = Player.obj (GameManager.player g) /\
  Player.score (GameManager.player s)
  = (Player.score (GameManager.player g)
     + if hits (GameManager.player g) h then 0 else 0)%Z /\
  Z.of_nat (List.length (GameManager.particles s))
  = (Z.of_nat (List.length (GameManager.particles g))
     + if hits (GameManager.player g) h then 15 else 0)%Z.
Proof.
  cbv zeta. unfold GameManager.hazardCollision, hits.
  destruct (GameObject.collidesWith _ _); [|cbn; repeat split; lia].
  unfold bind.
  match goal with |- context [GameManager.createExplosion ?x ?y ?a ?b] =>
    destruct (createExplosion_burst x y a b) as (ps & w1 & E & L & _); rewrite E end.
  unfold emit. cbn [fst snd].
  match goal with |- context [if ?c then _ else _] => destruct c end;
    [match goal with |- context [GameManager.endGame ?a ?b] =>
       destruct (endGame_eq a b) as (w2 & E2); rewrite E2 end|];
    cbn [fst snd ret];
    cbn [ended GameManager.stopGameLoop GameManager.set_gameState
         GameManager.set_isGameLoopRunning
         GameManager.player GameManager.particles GameManager.set_player
         GameManager.set_particles];
    rewrite takeDamage_obj, takeDamage_score;
    (split; [reflexivity|]); (split; [lia|]);
    apply (length_app_Z _ _ 15 L).
Qed.

(** A pass that raises the score by [ks] and the number of particles by
    [kp] for each element the player overlaps. *)
Lemma pass_accounts {A} (f : A -> GameManager.t -> M (A * GameManager.t))
  (hit : Player.t -> A -> bool) (ks kp : Z) :
  (forall p p' a, Player.obj p' = Player.obj p -> hit p' a = hit p a) ->
  (forall a s w,
     let s' := snd (fst (f a s w)) in
     Player.obj (GameManager.player s') = Player.obj (GameManager.player s) /\
     Player.score (GameManager.player s')
     = (Player.score (GameManager.player s)
        + if hit (GameManager.player s) a then ks else 0)%Z /\
     Z.of_nat (List.length (GameManager.particles s'))
     = (Z.of_nat (List.length (GameManager.particles s))
        + if hit (GameManager.player s) a then kp else 0)%Z) ->
  forall l s w,
    let s' := snd (fst (forEach f l s w)) in
    Player.obj (GameManager.player s') = Player.obj (GameManager.player s) /\
    Player.score (GameManager.player s')
    = (Player.score (GameManager.player s)
       + ks * count (hit (GameManager.player s)) l)%Z /\
    Z.of_nat (List.length (GameManager.particles s'))
    = (Z.of_nat (List.length (GameManager.particles s))
       + kp * count (hit (GameManager.player s)) l)%Z.
Proof.
  intros Hh Hf l s w. cbv zeta.
  destruct (forEach_count f hit
              (fun s => Player.score (GameManager.player s)) ks Hh
              (fun a s w0 => conj (proj1 (Hf a s w0)) (proj1 (proj2 (Hf a s w0))))
              l s w) as [O S].
  destruct (forEach_count f hit
              (fun s => Z.of_nat (List.length (GameManager.particles s))) kp Hh
              (fun a s w0 => conj (proj1 (Hf a s w0)) (proj2 (proj2 (Hf a s w0))))
              l s w) as [_ P].
  auto.
Qed.

(** The whole pass: the score and the number of particles after it. *)
Lemma checkCollisions_accounts (g : GameManager.t) (w : World) :
  let g' := fst (GameManager.checkCollisions g w) in
  let p := GameManager.player g in
  Player.score (GameManager.player g')
  = (Player.score p + 10 * count (collects p) (GameManager.coins g))%Z /\
  Z.of_nat (List.length (GameManager.particles g'))
  = (Z.of_nat (List.length (GameManager.particles g))
     + 20 * count (collects p) (GameManager.coins g)
     + 15 * (count (takes p) (GameManager.powerups g)
             + count (bumps p) (GameManager.npcs g)
             + count (hits p) (GameManager.hazards g)))%Z.
Proof.
  cbv zeta. unfold GameManager.checkCollisions, bind.
  assert (Hc : forall p p' a, Player.obj p' = Player.obj p ->
                              collects p' a = collects p a)
    by (intros p p' a E; unfold collects; rewrite E; reflexivity).
  assert (Ht : forall p p' a, Player.obj p' = Player.obj p ->
                              takes p' a = takes p a)
    by (intros p p' a E; unfold takes; rewrite E; reflexivity).
  assert (Hb : forall p p' a, Player.obj p' = Player.obj p ->
                              bumps p' a = bumps p a)
    by (intros p p' a E; unfold bumps; rewrite E; reflexivity).
  assert (Hh : forall p p' a, Player.obj p' = Player.obj p ->
                              hits p' a = hits p a)
    by (intros p p' a E; unfold hits; rewrite E; reflexivity).
  assert (Cn : forall A (hit : Player.t -> A -> bool) p p' l,
            (forall p p' a, Player.obj p' = Player.obj p -> hit p' a = hit p a) ->
            Player.obj p' = Player.obj p -> count (hit p') l = count (hit p) l).
  { intros A hit p p' l H E. unfold count. f_equal. f_equal.
    apply filter_ext. intro a. apply H, E. }
  pose proof (coin_pass (GameManager.coins g) g w) as (K1 & _).
  pose proof (pass_accounts GameManager.coinCollision collects 10 20 Hc
                coinCollision_account (GameManager.coins g) g w) as A1.
  destruct (forEach GameManager.coinCollision _ g w) as [[cs s1] w1].
  cbn [fst snd] in K1, A1. destruct A1 as (O1 & S1 & P1).
  set (g1 := GameManager.set_coins cs s1) in *.
  pose proof (powerup_pass (GameManager.powerups g1) g1 w1) as (K2 & _).
  pose proof (pass_accounts GameManager.powerupCollision takes 0 15 Ht
                powerupCollision_account (GameManager.powerups g1) g1 w1) as A2.
  destruct (forEach GameManager.powerupCollision _ g1 w1) as [[ps s2] w2].
  cbn [fst snd] in K2, A2. destruct A2 as (O2 & S2 & P2).
  set (g2 := GameManager.set_powerups ps s2) in *.
  pose proof (npc_pass (GameManager.npcs g2) g2 w2) as (K3 & _).
  pose proof (pass_accounts GameManager.npcCollision bumps 0 15 Hb
                npcCollision_account (GameManager.npcs g2) g2 w2) as A3.
  destruct (forEach GameManager.npcCollision _ g2 w2) as [[ns s3] w3].
  cbn [fst snd] in K3, A3. destruct A3 as (O3 & S3 & P3).
  set (g3 := GameManager.set_npcs ns s3) in *.
  pose proof (hazard_pass (GameManager.hazards g3) g3 w3) as (K4 & _).
  pose proof (pass_accounts GameManager.hazardCollision hits 0 15 Hh
                hazardCollision_account (GameManager.hazards g3) g3 w3) as A4.
  destruct (forEach GameManager.hazardCollision _ g3 w3) as [[hs s4] w4].
  cbn [fst snd] in K4, A4. destruct A4 as (O4 & S4 & P4).
  cbn [fst ret GameManager.player GameManager.particles GameManager.set_hazards].
  change (GameManager.player g3) with (GameManager.player s3) in *.
  change (GameManager.player g2) with (GameManager.player s2) in *.
  change (GameManager.player g1) with (GameManager.player s1) in *.
  change (GameManager.particles g3) with (GameManager.particles s3) in *.
  change (GameManager.particles g2) with (GameManager.particles s2) in *.
  change (GameManager.particles g1) with (GameManager.particles s1) in *.
  assert (L2 : GameManager.powerups g1 = GameManager.powerups g)
    by (unfold keeps in K1; decompose [and] K1; assumption).
  assert (L3 : GameManager.npcs g2 = GameManager.npcs g).
  { change (GameManager.npcs g2) with (GameManager.npcs s2).
    unfold keeps in K1, K2. decompose [and] K1. decompose [and] K2.
    change (GameManager.npcs g1) with (GameManager.npcs s1) in *. congruence. }
  assert (L4 : GameManager.hazards g3 = GameManager.hazards g).
  { change (GameManager.hazards g3) with (GameManager.hazards s3).
    unfold keeps in K1, K2, K3.
    decompose [and] K1. decompose [and] K2. decompose [and] K3.
    change (GameManager.hazards g2) with (GameManager.hazards s2) in *.
    change (GameManager.hazards g1) with (GameManager.hazards s1) in *.
    congruence. }
  rewrite L2 in *. rewrite L3 in *. rewrite L4 in *.
  rewrite (Cn _ takes (GameManager.player g) (GameManager.player s1) _ Ht O1) in *.
  rewrite (Cn _ bumps (GameManager.player g) (GameManager.player s2) _ Hb
              (eq_trans O2 O1)) in *.
  rewrite (Cn _ hits (GameManager.player g) (GameManager.player s3) _ Hh
              (eq_trans O3 (eq_trans O2 O1))) in *.
  split; lia.
Qed.

(** X8.  The score after the collision pass is the score before plus 10
    for each coin the player overlaps that was not collected before;
    nothing else in the pass changes the score -- a powerup, for which the
    snackbar shows 25 points, adds none. *)
Theorem collision_pass_score (g : GameManager.t) (w : World) :
  Player.score (GameManager.player (fst (GameManager.checkCollisions g w)))
  = (Player.score (GameManager.player g)
     + 10 * count (collects (GameManager.player g)) (GameManager.coins g))%Z.
Proof. apply (checkCollisions_accounts g w). Qed.

(** X9.  The collision pass adds 20 particles for each coin it collects
    and 15 for each powerup, NPC and hazard the player overlaps, and takes
    none away: the number of particles is not held to [MAX_PARTICLES]. *)
Theorem collision_pass_particles (g : GameManager.t) (w : World) :
  let p := GameManager.player g in
  Z.of_nat (List.length (GameManager.particles (fst (GameManager.checkCollisions g w))))
  = (Z.of_nat (List.length (GameManager.particles g))
     + 20 * count (collects p) (GameManager.coins g)
     + 15 * (count (takes p) (GameManager.powerups g)
             + count (bumps p) (GameManager.npcs g)
             + count (hits p) (GameManager.hazards g)))%Z.
Proof. apply (checkCollisions_accounts g w). Qed.

(** ** The collections over a session *)

(** What an event does to the collections and the particles: nothing, a
    reset, or a live frame. *)
Lemma handle_collections (e : Event) (g : GameManager.t) (w : World) :
  (same_collections g (fst (handle e g w)) /\
   GameManager.particles (fst (handle e g w)) = GameManager.particles g) \/
  (e = LoadingDone /\
   same_collections (fst (GameManager.new w)) (fst (handle e g w)) /\
   GameManager.particles (fst (handle e g w)) = []) \/
  (exists dt, e = Frame dt /\ live dt g = true /\
              handle e g w = GameManager.update dt g w).
Proof.
  assert (R : same_collections g g /\ GameManager.particles g = GameManager.particles g)
    by (unfold same_collections; repeat split).
  destruct e as [dt|code|code|targetX| |]; cbn [handle].
  - unfold GameManager.gameLoop.
    destruct (negb (GameManager.isGameLoopRunning g)); [left; exact R|].
    destruct (live dt g) eqn:L.
    + right. right. exists dt. auto.
    + left. rewrite (update_not_live dt g w L).
      destruct (GAME_STATE_eqb _ _); [|exact R].
      unfold same_collections. repeat split.
  - left. exact R.
  - left. exact R.
  - left. unfold ret, GameManager.pointerTo. cbn [fst].
    destruct (GAME_STATE_eqb _ _); [|exact R].
    destruct (negb _); [|exact R]. unfold same_collections. repeat split.
  - left. unfold same_collections. repeat split.
  - right. left. split; [reflexivity|].
    unfold GameManager.startGame_timeout.
    repeat (rewrite bind_proj; cbv beta). unfold ret. cbn [fst].
    unfold GameManager.startGameLoop.
    match goal with |- context [if ?c then _ else _] => destruct c end;
      unfold same_collections; repeat split.
Qed.

Lemma filter_length_le {A} (f : A -> bool) (l : list A) :
  (List.length (filter f l) <= List.length l)%nat.
Proof.
  induction l as [|a l IH]; cbn; [lia|]. destruct (f a); cbn; lia.
Qed.

Lemma spawnObjects_within_caps (dt : Q) (g : GameManager.t) (w : World) :
  within_caps g -> within_caps (fst (GameManager.spawnObjects dt g w)).
Proof.
  unfold GameManager.spawnObjects.
  repeat (rewrite bind_proj; cbv beta).
  set (t := fst (Date_now w)). set (w0 := snd (Date_now w)).
  intro C0.
  assert (C1 : within_caps (fst (GameManager.spawnNpc t g w0))).
  { destruct (spawnNpc_cases t g w0) as [->|(n & _ & E)]; [exact C0|].
    destruct (Nat.eq_dec (List.length (GameManager.npcs g)) GAME_CONFIG.MAX_NPCS)
      as [Q|Q].
    - rewrite (proj1 (spawn_at_cap t g w0) Q). exact C0.
    - rewrite E. unfold within_caps in *. cbn. rewrite length_app. cbn.
      destruct C0 as (? & ? & ? & ?). repeat split; try assumption. lia. }
  set (g1 := fst (GameManager.spawnNpc t g w0)) in *.
  set (w1 := snd (GameManager.spawnNpc t g w0)).
  assert (C2 : within_caps (fst (GameManager.spawnCoin t g1 w1))).
  { destruct (spawnCoin_cases t g1 w1) as [->|(n & _ & E)]; [exact C1|].
    destruct (Nat.eq_dec (List.length (GameManager.coins g1)) GAME_CONFIG.MAX_COINS)
      as [Q|Q].
    - rewrite (proj1 (proj2 (spawn_at_cap t g1 w1)) Q). exact C1.
    - rewrite E. unfold within_caps in *. cbn. rewrite length_app. cbn.
      destruct C1 as (? & ? & ? & ?). repeat split; try assumption. lia. }
  set (g2 := fst (GameManager.spawnCoin t g1 w1)) in *.
  set (w2 := snd (GameManager.spawnCoin t g1 w1)).
  assert (C3 : within_caps (fst (GameManager.spawnPowerup t g2 w2))).
  { destruct (spawnPowerup_cases t g2 w2) as [->|(n & _ & E)]; [exact C2|].
    destruct (Nat.eq_dec (List.length (GameManager.powerups g2))
                GAME_CONFIG.MAX_POWERUPS) as [Q|Q].
    - rewrite (proj1 (proj2 (proj2 (spawn_at_cap t g2 w2))) Q). exact C2.
    - rewrite E. unfold within_caps in *. cbn. rewrite length_app. cbn.
      destruct C2 as (? & ? & ? & ?). repeat split; try assumption. lia. }
  set (g3 := fst (GameManager.spawnPowerup t g2 w2)) in *.
  set (w3 := snd (GameManager.spawnPowerup t g2 w2)).
  destruct (spawnHazard_cases t g3 w3) as [->|(n & _ & E)]; [exact C3|].
  destruct (Nat.eq_dec (List.length (GameManager.hazards g3))
              GAME_CONFIG.MAX_HAZARDS) as [Q|Q].
  - rewrite (proj2 (proj2 (proj2 (spawn_at_cap t g3 w3))) Q). exact C3.
  - rewrite E. unfold within_caps in *. cbn. rewrite length_app. cbn.
    destruct C3 as (? & ? & ? & ?). repeat split; try assumption. lia.
Qed.

Lemma updateObjects_within_caps (dt : Q) (g : GameManager.t) (w : World) :
  within_caps g -> within_caps (fst (GameManager.updateObjects dt g w)).
Proof.
  intros (C1 & C2 & C3 & C4).
  destruct (updateObjects_spec dt g w)
    as (_ & (ns & Fn & En) & (cs & Fc & Ec) & (ps & Fp & Ep) & (hs & Fh & Eh)).
  unfold within_caps. rewrite En, Ec, Ep, Eh.
  apply Forall2_length_eq in Fn, Fc, Fp, Fh.
  pose proof (filter_length_le (fun n => GameObject.active (NPC.obj n)) ns).
  pose proof (filter_length_le (fun c => GameObject.active (Coin.obj c)) cs).
  pose proof (filter_length_le (fun p => GameObject.active (Powerup.obj p)) ps).
  pose proof (filter_length_le (fun h => GameObject.active (Hazard.obj h)) hs).
  repeat split; lia.
Qed.

Lemma checkCollisions_within_caps (g : GameManager.t) (w : World) :
  within_caps g -> within_caps (fst (GameManager.checkCollisions g w)).
Proof.
  intros (C1 & C2 & C3 & C4).
  destruct (checkCollisions_spec g w) as (Fc & Fp & En & Eh & _).
  unfold within_caps. rewrite En, Eh, !length_map.
  apply Forall2_length_eq in Fc, Fp. repeat split; lia.
Qed.

Lemma same_collections_within_caps (g s : GameManager.t) :
  same_collections g s -> within_caps g -> within_caps s.
Proof.
  unfold same_collections, within_caps. intros (-> & -> & -> & ->). tauto.
Qed.

Lemma update_within_caps (dt : Q) (g : GameManager.t) (w : World) :
  live dt g = true ->
  within_caps g -> within_caps (fst (GameManager.update dt g w)).
Proof.
  intros L C. rewrite (update_stages dt g w L).
  repeat (rewrite bind_proj; cbv beta). unfold ret. cbn [fst].
  assert (U : forall d s, within_caps s ->
                          within_caps (GameManager.updateParticles d s))
    by (intros d s H; exact H).
  apply U, checkCollisions_within_caps, updateObjects_within_caps,
    spawnObjects_within_caps.
  eapply same_collections_within_caps; [apply beforeSpawn_collections|exact C].
Qed.

(** X10.  In every state the engine can reach there are at most 8 NPCs,
    20 coins, 6 powerups and 8 hazards: the spawn checks add an entity
    only below the cap and nothing else adds one. *)
Theorem population_within_caps (g : GameManager.t) (w : World) :
  reachable g w -> within_caps g.
Proof.
  induction 1 as [w | g w e _ IH].
  - unfold within_caps. cbn. repeat split; apply Nat.le_0_l.
  - destruct (handle_collections e g w) as [[S _]|[(_ & S & _)|(dt & -> & L & E)]].
    + eapply same_collections_within_caps; [exact S|exact IH].
    + eapply same_collections_within_caps; [exact S|].
      unfold within_caps. cbn. repeat split; apply Nat.le_0_l.
    + rewrite E. apply update_within_caps; assumption.
Qed.

Lemma population_within_caps_witness :
  within_caps
    (fst (run [StartGame; LoadingDone; Frame 3000]
            (fst (GameManager.new (Scenario.world Scenario.unused Scenario.unused)))
            (snd (GameManager.new (Scenario.world Scenario.unused Scenario.unused))))).
Proof.
  eapply population_within_caps. apply reachable_run. apply reach_new.
Defined.

(** ** The particles over a session *)

Lemma fresh_particle_alive (life x y : Q) (p : Particle.t) :
  0 < life -> fresh_particle life x y p -> alive p.
Proof.
  intros L (E1 & E2 & E3 & _). unfold alive. rewrite E1, E2, E3.
  repeat split; lra.
Qed.

Lemma Particle_update_alive (dt : Q) (p : Particle.t) :
  0 <= dt -> alive p ->
  Particle.active (Particle.update dt p) = true ->
  alive (Particle.update dt p).
Proof.
  intros D (A & L1 & L2). unfold alive, Particle.update.
  cbn [Particle.active Particle.life Particle.maxLife].
  destruct (JS.le (Particle.life p - dt) 0) eqn:E; [discriminate|].
  apply le_false in E. intros _. repeat split; try assumption; lra.
Qed.

Lemma updateParticles_alive (dt : Q) (g : GameManager.t) :
  0 <= dt ->
  Forall alive (GameManager.particles g) ->
  Forall alive (GameManager.particles (GameManager.updateParticles dt g)).
Proof.
  intros D F. unfold GameManager.updateParticles.
  cbn [GameManager.particles GameManager.set_particles].
  induction F as [|p l Hp _ IH]; [constructor|].
  cbn [map filter].
  destruct (Particle.active (Particle.update dt p)) eqn:A; [|exact IH].
  constructor; [|exact IH]. apply Particle_update_alive; assumption.
Qed.

Lemma burst_alive (life x y : Q) (l ps : list Particle.t) :
  0 < life ->
  Forall alive l -> Forall (fresh_particle life x y) ps -> Forall alive (l ++ ps).
Proof.
  intros L F Fr. apply Forall_app. split; [exact F|].
  eapply Forall_impl; [|exact Fr]. intros p. apply fresh_particle_alive. exact L.
Qed.

Lemma coinCollision_alive (c : Coin.t) (g : GameManager.t) (w : World) :
  Forall alive (GameManager.particles g) ->
  Forall alive (GameManager.particles (snd (fst (GameManager.coinCollision c g w)))).
Proof.
  intro F. unfold GameManager.coinCollision.
  destruct (GameObject.collidesWith _ _); [|exact F].
  unfold Coin.collect. destruct (negb (Coin.collected c)); [|exact F].
  unfold bind.
  match goal with |- context [GameManager.createCoinBurst ?x ?y ?a ?b] =>
    destruct (createCoinBurst_burst x y a b) as (ps & w1 & E & _ & Fr); rewrite E end.
  unfold emit, Date_now, ret. cbn [fst snd].
  destruct (JS.lt _ _); cbn [fst snd];
    cbn [GameManager.player GameManager.particles GameManager.set_player
         GameManager.set_particles GameManager.set_burstStreak
         GameManager.set_lastBurstTime];
    apply (burst_alive 1200 _ _ _ _ ltac:(lra) F Fr).
Qed.

Lemma powerupCollision_alive (p : Powerup.t) (g : GameManager.t) (w : World) :
  Forall alive (GameManager.particles g) ->
  Forall alive
    (GameManager.particles (snd (fst (GameManager.powerupCollision p g w)))).
Proof.
  intro F. unfold GameManager.powerupCollision.
  destruct (GameObject.collidesWith _ _); [|exact F].
  unfold bind. destruct (Powerup.type p).
  unfold Player.activateShield, bind, Date_now, ret.
  match goal with |- context [GameManager.createExplosion ?x ?y ?a ?b] =>
    destruct (createExplosion_burst x y a b) as (ps & w1 & E & _ & Fr); rewrite E end.
  unfold emit. cbn [fst snd].
  cbn [GameManager.player GameManager.particles GameManager.set_player
       GameManager.set_particles].
  apply (burst_alive 800 _ _ _ _ ltac:(lra) F Fr).
Qed.

Lemma npcCollision_alive (n : NPC.t) (g : GameManager.t) (w : World) :
  Forall alive (GameManager.particles g) ->
  Forall alive (GameManager.particles (snd (fst (GameManager.npcCollision n g w)))).
Proof.
  intro F. unfold GameManager.npcCollision.
  destruct (GameObject.collidesWith _ _); [|exact F].
  unfold bind.
  match goal with |- context [GameManager.createExplosion ?x ?y ?a ?b] =>
    destruct (createExplosion_burst x y a b) as (ps & w1 & E & _ & Fr); rewrite E end.
  unfold emit. cbn [fst snd].
  match goal with |- context [if ?c then _ else _] => destruct c end;
    [match goal with |- context [GameManager.endGame ?a ?b] =>
       destruct (endGame_eq a b) as (w2 & E2); rewrite E2 end|];
    cbn [fst snd ret];
    cbn [ended GameManager.stopGameLoop GameManager.set_gameState
         GameManager.set_isGameLoopRunning
         GameManager.player GameManager.particles GameManager.set_player
         GameManager.set_particles];
    apply (burst_alive 800 _ _ _ _ ltac:(lra) F Fr).
Qed.

Lemma hazardCollision_alive (h : Hazard.t) (g : GameManager.t) (w : World) :
  Forall alive (GameManager.particles g) ->
  Forall alive
    (GameManager.particles (snd (fst (GameManager.hazardCollision h g w)))).
Proof.
  intro F. unfold GameManager.hazardCollision.
  destruct (GameObject.collidesWith _ _); [|exact F].
  unfold bind.
  match goal with |- context [GameManager.createExplosion ?x ?y ?a ?b] =>
    destruct (createExplosion_burst x y a b) as (ps & w1 & E & _ & Fr); rewrite E end.
  unfold emit. cbn [fst snd].
  match goal with |- context [if ?c then _ else _] => destruct c end;
    [match goal with |- context [GameManager.endGame ?a ?b] =>
       destruct (endGame_eq a b) as (w2 & E2); rewrite E2 end|];
    cbn [fst snd ret];
    cbn [ended GameManager.stopGameLoop GameManager.set_gameState
         GameManager.set_isGameLoopRunning
         GameManager.player GameManager.particles GameManager.set_player
         GameManager.set_particles];
    apply (burst_alive 800 _ _ _ _ ltac:(lra) F Fr).
Qed.

(** A property of the game manager that every round of the four passes
    keeps holds after the collision pass, if putting back a collection
    does not touch it. *)
Lemma checkCollisions_invariant (I : GameManager.t -> Prop) :
  (forall c s w, I s -> I (snd (fst (GameManager.coinCollision c s w)))) ->
  (forall p s w, I s -> I (snd (fst (GameManager.powerupCollision p s w)))) ->
  (forall n s w, I s -> I (snd (fst (GameManager.npcCollision n s w)))) ->
  (forall h s w, I s -> I (snd (fst (GameManager.hazardCollision h s w)))) ->
  (forall l s, I s -> I (GameManager.set_coins l s)) ->
  (forall l s, I s -> I (GameManager.set_powerups l s)) ->
  (forall l s, I s -> I (GameManager.set_npcs l s)) ->
  (forall l s, I s -> I (GameManager.set_hazards l s)) ->
  forall g w, I g -> I (fst (GameManager.checkCollisions g w)).
Proof.
  intros Hc Hp Hn Hh Sc Sp Sn Sh g w I0.
  unfold GameManager.checkCollisions, bind.
  pose proof (forEach_spec GameManager.coinCollision I (fun _ _ => True)
                (fun a s w0 H => conj (Hc a s w0 H) Logic.I)
                (GameManager.coins g) g w I0) as [I1 _].
  destruct (forEach GameManager.coinCollision _ g w) as [[cs s1] w1].
  cbn [fst snd] in I1. apply (Sc cs) in I1.
  pose proof (forEach_spec GameManager.powerupCollision I (fun _ _ => True)
                (fun a s w0 H => conj (Hp a s w0 H) Logic.I)
                (GameManager.powerups (GameManager.set_coins cs s1))
                (GameManager.set_coins cs s1) w1 I1) as [I2 _].
  destruct (forEach GameManager.powerupCollision _ _ w1) as [[ps s2] w2].
  cbn [fst snd] in I2. apply (Sp ps) in I2.
  pose proof (forEach_spec GameManager.npcCollision I (fun _ _ => True)
                (fun a s w0 H => conj (Hn a s w0 H) Logic.I)
                (GameManager.npcs (GameManager.set_powerups ps s2))
                (GameManager.set_powerups ps s2) w2 I2) as [I3 _].
  destruct (forEach GameManager.npcCollision _ _ w2) as [[ns s3] w3].
  cbn [fst snd] in I3. apply (Sn ns) in I3.
  pose proof (forEach_spec GameManager.hazardCollision I (fun _ _ => True)
                (fun a s w0 H => conj (Hh a s w0 H) Logic.I)
                (GameManager.hazards (GameManager.set_npcs ns s3))
                (GameManager.set_npcs ns s3) w3 I3) as [I4 _].
  destruct (forEach GameManager.hazardCollision _ _ w3) as [[hs s4] w4].
  cbn [fst snd] in I4. apply (Sh hs) in I4. exact I4.
Qed.

Lemma checkCollisions_alive (g : GameManager.t) (w : World) :
  Forall alive (GameManager.particles g) ->
  Forall alive (GameManager.particles (fst (GameManager.checkCollisions g w))).
Proof.
  apply (checkCollisions_invariant
           (fun s => Forall alive (GameManager.particles s))).
  - apply coinCollision_alive.
  - apply powerupCollision_alive.
  - apply npcCollision_alive.
  - apply hazardCollision_alive.
  - intros l s H. exact H.
  - intros l s H. exact H.
  - intros l s H. exact H.
  - intros l s H. exact H.
Qed.

Lemma update_alive (dt : Q) (g : GameManager.t) (w : World) :
  live dt g = true -> 0 <= dt ->
  Forall alive (GameManager.particles g) ->
  Forall alive (GameManager.particles (fst (GameManager.update dt g w))).
Proof.
  intros L D F. rewrite (update_live dt g w L).
  repeat (rewrite bind_proj; cbv beta). unfold ret. cbn [fst].
  apply updateParticles_alive; [exact D|]. apply checkCollisions_alive.
  destruct (beforeCollisions_spec dt g w) as (_ & _ & _ & _ & _ & _ & P & _).
  cbv zeta in P. rewrite P. exact F.
Qed.

Lemma alive_alpha (p : Particle.t) :
  alive p -> 0 < Particle.getAlpha p <= 1.
Proof.
  intros (_ & L1 & L2). unfold Particle.getAlpha.
  assert (M : 0 < Particle.maxLife p) by lra. split.
  - apply Qlt_shift_div_l; [exact M|]. lra.
  - apply Qle_shift_div_r; [exact M|]. lra.
Qed.

(** X11.  Over a session whose frames do not go back in time every
    particle in the list is active with some of its life left and no more
    than it started with, so that the alpha it is drawn with,
    [getAlpha()], is above 0 and at most 1. *)
Theorem particles_alive (es : list Event) (w : World) :
  frame_times_nonneg es ->
  Forall (fun p => alive p /\ 0 < Particle.getAlpha p <= 1)
    (GameManager.particles
       (fst (run es (fst (GameManager.new w)) (snd (GameManager.new w))))).
Proof.
  intro F.
  eapply Forall_impl; [intros p A; split; [exact A|apply alive_alpha, A]|].
  apply (run_invariant
           (fun g _ => Forall alive (GameManager.particles g))
           (fun e => match e with Frame dt => 0 <= dt | _ => True end)).
  - intros e g w0 D I0.
    destruct (handle_collections e g w0)
      as [[_ P]|[(_ & _ & P)|(dt & -> & L & E)]].
    + rewrite P. exact I0.
    + rewrite P. constructor.
    + rewrite E. apply update_alive; assumption.
  - exact F.
  - constructor.
Qed.

Lemma particles_alive_witness :
  frame_times_nonneg [StartGame; LoadingDone; Frame 3000] /\
  Forall (fun p => alive p /\ 0 < Particle.getAlpha p <= 1)
    (GameManager.particles
       (fst (run [StartGame; LoadingDone; Frame 3000]
               (fst (GameManager.new (Scenario.world Scenario.unused Scenario.unused)))
               (snd (GameManager.new (Scenario.world Scenario.unused Scenario.unused)))))).
Proof.
  assert (F : frame_times_nonneg [StartGame; LoadingDone; Frame 3000])
    by (repeat constructor; discriminate).
  split; [exact F|].
  apply (particles_alive _ (Scenario.world Scenario.unused Scenario.unused) F).
Defined.

(** ** The shield *)

(** X12.  A shield lasts 8000 ms of [Date.now()]: [activateShield] raises
    it and sets its end 8000 after the clock reading [t] it takes; the
    [Player.update] that follows takes a reading [t'] and keeps the shield
    exactly when [t'] is at most [t + 8000].  While the shield is down
    [Player.update] does not read the clock and leaves it down. *)
Theorem shield_lasts_8000 (dt : Q) (p : Player.t) (w w' : World) :
  let t := clock_stream w (clock_calls w) in
  let t' := clock_stream w' (clock_calls w') in
  let p1 := fst (Player.activateShield p w) in
  Player.shieldActive p1 = true /\
  Player.shieldEndTime p1 = t + 8000 /\
  Player.shieldActive (fst (Player.update dt p1 w')) = JS.le t' (t + 8000) /\
  (Player.shieldActive p = false ->
   Player.shieldActive (fst (Player.update dt p w')) = false /\
   clock_calls (snd (Player.update dt p w')) = clock_calls w').
Proof.
  cbv zeta.
  assert (A : forall q, Player.shieldActive
                          (Player.animateLaneChange dt
                             (Player.set_obj (GameObject.update dt (Player.obj q)) q))
                        = Player.shieldActive q /\
                        Player.shieldEndTime
                          (Player.animateLaneChange dt
                             (Player.set_obj (GameObject.update dt (Player.obj q)) q))
                        = Player.shieldEndTime q).
  { intro q. unfold Player.animateLaneChange. destruct q as [o t c lp pw mp sa se sc].
    cbn [Player.laneChangeProgress Player.set_obj].
    destruct (JS.lt lp 1); [|split; reflexivity].
    cbn [Player.laneChangeProgress Player.set_laneChangeProgress].
    destruct (JS.ge _ 1); split; reflexivity. }
  assert (U : forall q,
            Player.shieldActive (fst (Player.update dt q w'))
            = (Player.shieldActive q
               && JS.le (clock_stream w' (clock_calls w')) (Player.shieldEndTime q))
            /\ (Player.shieldActive q = false ->
                clock_calls (snd (Player.update dt q w')) = clock_calls w')).
  { intro q. unfold Player.update, bind, canvasHeight, ret, Date_now.
    destruct (A q) as [A1 A2].
    set (a := Player.animateLaneChange dt
                (Player.set_obj (GameObject.update dt (Player.obj q)) q)) in *.
    rewrite <- A1, <- A2. clearbody a. destruct a as [o t c lp pw mp sa se sc].
    cbn [Player.shieldActive Player.set_power Player.set_obj Player.shieldEndTime].
    destruct sa; cbn [andb].
    - unfold JS.gt, JS.lt, JS.le.
      destruct (Qle_bool (clock_stream w' (clock_calls w')) se);
        cbn [negb fst snd]; split; try reflexivity; discriminate.
    - split; reflexivity. }
  unfold Player.activateShield, bind, Date_now, ret. cbn [fst snd].
  split; [reflexivity|]. split; [reflexivity|]. split.
  - rewrite (proj1 (U _)). reflexivity.
  - intro S. split.
    + rewrite (proj1 (U p)), S. reflexivity.
    + apply (proj2 (U p)), S.
Qed.

Lemma shield_lasts_8000_witness :
  Player.shieldActive Scenario.settled = false /\
  Player.shieldActive
    (fst (Player.update 16 Scenario.settled
            (Scenario.world Scenario.unused Scenario.unused))) = false.
Proof.
  split; [reflexivity|].
  apply (shield_lasts_8000 16 Scenario.settled
           (Scenario.world Scenario.unused Scenario.unused)
           (Scenario.world Scenario.unused Scenario.unused)).
  reflexivity.
Defined.

(** ** How the entities fall *)

Lemma NPC_update_fallen (dt : Q) (p : option Player.t) (n : NPC.t) (w : World) :
  fallen (CANVAS_HEIGHT w) dt (NPC.obj n) (NPC.obj (fst (NPC.update dt p n w))).
Proof.
  unfold NPC.update, bind.
  pose proof (updateForwardMovement_avoidance dt (moved dt n) w) as (A1 & _).
  pose proof (stable_updateForwardMovement dt (moved dt n) w) as (H1 & _).
  fold (moved dt n).
  destruct (NPC.updateForwardMovement dt (moved dt n) w) as [n1 w1].
  cbn [fst snd] in A1, H1.
  pose proof (updateLaneChanging_avoidance dt n1 w1) as (A2 & _).
  pose proof (stable_updateLaneChanging dt n1 w1) as (H2 & _).
  destruct (NPC.updateLaneChanging dt n1 w1) as [n2 w2]. cbn [fst snd] in A2, H2.
  assert (A : NPC.obj (match p with Some p0 => NPC.avoid dt p0 n2 | None => n2 end)
              = GameObject.update dt (NPC.obj n)).
  { destruct p; [rewrite avoid_obj|]; rewrite A2, A1; reflexivity. }
  unfold Math_sin, canvasHeight, ret. cbv beta iota zeta.
  cbn [fst snd NPC.obj NPC.set_obj NPC.set_wobbleOffset GameObject.y GameObject.set_x].
  rewrite H2, H1. unfold fallen.
  match goal with |- context [if ?c then _ else _] => destruct c eqn:C end;
    cbn [fst NPC.obj NPC.set_obj NPC.set_wobbleOffset GameObject.velocityY
         GameObject.y GameObject.width GameObject.height GameObject.active
         GameObject.set_x GameObject.set_active];
    rewrite ?C; rewrite A; repeat split; reflexivity.
Qed.

Lemma Coin_update_fallen (dt : Q) (c : Coin.t) (w : World) :
  fallen (CANVAS_HEIGHT w) dt (Coin.obj c) (Coin.obj (fst (Coin.update dt c w))).
Proof.
  unfold Coin.update, bind, Math_sin, canvasHeight, Date_now, ret, fallen.
  destruct c as [[x y wd ht vx vy ac] l col ct bo bs ox]. cbn.
  destruct (JS.gt (y + vy * (dt / 1000)) (CANVAS_HEIGHT w + 100)) eqn:C;
    destruct col; cbn; try destruct (JS.gt _ ct); cbn; rewrite ?C;
    repeat split; reflexivity.
Qed.

Lemma Powerup_update_fallen (dt : Q) (p : Powerup.t) (w : World) :
  fallen (CANVAS_HEIGHT w) dt (Powerup.obj p) (Powerup.obj (fst (Powerup.update dt p w))).
Proof.
  unfold Powerup.update, bind, canvasHeight, ret, fallen.
  destruct p as [[x y wd ht vx vy ac] l ty col]. cbn.
  destruct (JS.gt (y + vy * (dt / 1000)) (CANVAS_HEIGHT w + 100)) eqn:C;
    cbn; rewrite ?C; repeat split; reflexivity.
Qed.

Lemma Hazard_update_fallen (dt : Q) (h : Hazard.t) (w : World) :
  fallen (CANVAS_HEIGHT w) dt (Hazard.obj h) (Hazard.obj (fst (Hazard.update dt h w))).
Proof.
  unfold Hazard.update, bind, canvasHeight, ret, fallen.
  destruct h as [[x y wd ht vx vy ac] l ty bl]. cbn.
  destruct (JS.gt (y + vy * (dt / 1000)) (CANVAS_HEIGHT w + 100)) eqn:C;
    destruct ty; cbn; rewrite ?C; repeat split; reflexivity.
Qed.

Lemma total_cons (dt : Q) (dts : list Q) : total (dt :: dts) = dt + total dts.
Proof. reflexivity. Qed.

(** Frames of a method under which the box falls add up. *)
Lemma frames_fall {A} (obj : A -> GameObject.t) (f : Q -> A -> M A) :
  (forall dt a w, fallen (CANVAS_HEIGHT w) dt (obj a) (obj (fst (f dt a w)))) ->
  forall dts a w,
    GameObject.velocityY (obj (fst (frames f dts a w))) = GameObject.velocityY (obj a) /\
    GameObject.y (obj (fst (frames f dts a w))) ==
    GameObject.y (obj a) + GameObject.velocityY (obj a) * (total dts / 1000).
Proof.
  intros Hf dts. induction dts as [|dt dts IH]; intros a w; cbn [frames].
  - unfold ret, total. cbn. split; [reflexivity|lraq].
  - rewrite bind_proj. cbv beta.
    destruct (Hf dt a w) as (Y & V & _).
    destruct (IH (fst (f dt a w)) (snd (f dt a w))) as [V' Y'].
    split; [congruence|].
    rewrite Y', V, Y, total_cons. unfold Qdiv. ring.
Qed.

(** X13.  Every entity falls at the speed it was given: over any frames
    [dts] an NPC, a coin, a powerup and a hazard keep their [velocityY]
    and end [velocityY * total / 1000] further down, [total] being the time
    the frames cover -- however the time is cut into frames, and, for an
    NPC, whatever its forward-movement fields and the player. *)
Theorem falls_at_constant_speed (dts : list Q) (w : World) :
  (forall (p : option Player.t) (n : NPC.t),
     let n' := fst (frames (fun dt => NPC.update dt p) dts n w) in
     GameObject.velocityY (NPC.obj n') = GameObject.velocityY (NPC.obj n) /\
     GameObject.y (NPC.obj n') ==
     GameObject.y (NPC.obj n) + GameObject.velocityY (NPC.obj n) * (total dts / 1000)) /\
  (forall c : Coin.t,
     let c' := fst (frames Coin.update dts c w) in
     GameObject.velocityY (Coin.obj c') = GameObject.velocityY (Coin.obj c) /\
     GameObject.y (Coin.obj c') ==
     GameObject.y (Coin.obj c) + GameObject.velocityY (Coin.obj c) * (total dts / 1000)) /\
  (forall u : Powerup.t,
     let u' := fst (frames Powerup.update dts u w) in
     GameObject.velocityY (Powerup.obj u') = GameObject.velocityY (Powerup.obj u) /\
     GameObject.y (Powerup.obj u') ==
     GameObject.y (Powerup.obj u)
     + GameObject.velocityY (Powerup.obj u) * (total dts / 1000)) /\
  (forall h : Hazard.t,
     let h' := fst (frames Hazard.update dts h w) in
     GameObject.velocityY (Hazard.obj h') = GameObject.velocityY (Hazard.obj h) /\
     GameObject.y (Hazard.obj h') ==
     GameObject.y (Hazard.obj h)
     + GameObject.velocityY (Hazard.obj h) * (total dts / 1000)).
Proof.
  split; [|split; [|split]].
  - intros p n. apply (frames_fall NPC.obj (fun dt => NPC.update dt p)).
    intros dt a w0. apply NPC_update_fallen.
  - intro c. apply (frames_fall Coin.obj Coin.update).
    intros dt a w0. apply Coin_update_fallen.
  - intro u. apply (frames_fall Powerup.obj Powerup.update).
    intros dt a w0. apply Powerup_update_fallen.
  - intro h. apply (frames_fall Hazard.obj Hazard.update).
    intros dt a w0. apply Hazard_update_fallen.
Qed.

(** ** The hazard lights *)

(** X14.  The light of a hazard blinks by frames, not by time: each
    [update] of a hazard of type [hazard_light] advances [blinkState] by
    one modulo 60, whatever the frame time, so that it stays within 0..59;
    the other types never change it. *)
Theorem blink_counts_frames (dts : list Q) (h : Hazard.t) (w : World) :
  (0 <= Hazard.blinkState h < 60)%Z ->
  let h' := fst (frames Hazard.update dts h w) in
  Hazard.type h' = Hazard.type h /\
  Hazard.blinkState h' =
  match Hazard.type h with
  | Hazard.hazard_light =>
      ((Hazard.blinkState h + Z.of_nat (List.length dts)) mod 60)%Z
  | _ => Hazard.blinkState h
  end.
Proof.
  revert h w. induction dts as [|dt dts IH]; intros h w R; cbv zeta; cbn [frames].
  - unfold ret. cbn [fst List.length]. split; [reflexivity|].
    destruct (Hazard.type h); try reflexivity.
    rewrite Z.add_0_r, Z.mod_small by lia. reflexivity.
  - rewrite bind_proj. cbv beta.
    assert (U : Hazard.type (fst (Hazard.update dt h w)) = Hazard.type h /\
                Hazard.blinkState (fst (Hazard.update dt h w)) =
                match Hazard.type h with
                | Hazard.hazard_light => ((Hazard.blinkState h + 1) mod 60)%Z
                | _ => Hazard.blinkState h
                end).
    { unfold Hazard.update, bind, canvasHeight, ret.
      destruct h as [o l ty bl]. cbn in R |- *.
      destruct (JS.gt _ _); cbn; destruct ty; cbn; split; try reflexivity;
        rewrite Z.rem_mod_nonneg by lia; reflexivity. }
    destruct U as [U1 U2].
    assert (R' : (0 <= Hazard.blinkState (fst (Hazard.update dt h w)) < 60)%Z).
    { rewrite U2. destruct (Hazard.type h); try exact R.
      apply Z.mod_pos_bound. lia. }
    specialize (IH (fst (Hazard.update dt h w)) (snd (Hazard.update dt h w)) R').
    cbv zeta in IH. destruct IH as [I1 I2].
    split; [congruence|]. rewrite I2, U1, U2.
    destruct (Hazard.type h); try reflexivity.
    cbn [List.length]. rewrite Zplus_mod_idemp_l. f_equal. lia.
Qed.

Lemma blink_counts_frames_witness :
  (0 <= Hazard.blinkState (Hazard.new 1 Hazard.hazard_light) < 60)%Z /\
  Hazard.blinkState
    (fst (frames Hazard.update [16; 16; 33]
            (Hazard.new 1 Hazard.hazard_light)
            (Scenario.world Scenario.unused Scenario.unused)))
  = 3%Z.
Proof.
  assert (R : (0 <= Hazard.blinkState (Hazard.new 1 Hazard.hazard_light) < 60)%Z)
    by (cbn; lia).
  split; [exact R|].
  apply (blink_counts_frames [16; 16; 33] (Hazard.new 1 Hazard.hazard_light)
           (Scenario.world Scenario.unused Scenario.unused) R).
Defined.

(** ** When an NPC is spawned *)




(** ** Starting over *)

(** X16.  [startGame()] and the end of loading that follows start the
    session over from any state: the game is on with its loop running, a
    new player, no entity and no particle, the timer at 60000, the spawn
    timers and the streak at 0 and the speed progression back at 1 with
    both latches open.  Of the state before only the keys held and the
    speed of the road remain. *)
Theorem restart_starts_over (g : GameManager.t) (w : World) :
  exists w',
    same_browser w w' /\
    fst (run [StartGame; LoadingDone] g w) =
    GameManager.mk PLAYING true (fst (Player.new w')) [] [] [] [] []
      GAME_CONFIG.GAME_DURATION 0 0 0 0 0 0 0 (GameManager.roadSpeed g) 1
      false false (GameManager.keys g).
Proof.
  cbn [run handle]. unfold GameManager.startGame, GameManager.startGame_timeout.
  repeat (rewrite bind_proj; cbv beta). unfold ret. cbn [fst snd].
  unfold GameManager.resetGame.
  repeat (rewrite bind_proj; cbv beta). unfold ret. cbn [fst snd].
  match goal with |- context [Player.new ?a] => exists a end.
  split.
  - repeat (eapply same_browser_trans; [|apply stable_emit]).
    apply same_browser_refl.
  - unfold GameManager.startGameLoop.
    match goal with |- context [if ?c then _ else _] => destruct c eqn:E end.
    + destruct g. cbn in E. rewrite E. reflexivity.
    + destruct g. reflexivity.
Qed.

(** ** What [Math.random()] picks *)

(** [Math.floor(r * n)] of an [r] in [0, 1) is an index below [n]. *)
Lemma floor_index (r : Q) (n : nat) :
  0 <= r < 1 -> (0 < n)%nat ->
  (0 <= JS.Math_floor (r * inject_Z (Z.of_nat n)) < Z.of_nat n)%Z.
Proof.
  intros [R0 R1] N. unfold JS.Math_floor.
  assert (P : 0 < inject_Z (Z.of_nat n)).
  { change 0 with (inject_Z 0). rewrite <- Zlt_Qlt. lia. }
  split.
  - change 0%Z with (Qfloor 0). apply Qfloor_resp_le.
    apply Qmult_le_0_compat; lra.
  - rewrite Zlt_Qlt.
    eapply Qle_lt_trans; [apply Qfloor_le|].
    setoid_replace (inject_Z (Z.of_nat n)) with (1 * inject_Z (Z.of_nat n)) at 2 by ring.
    apply Qmult_lt_compat_r; assumption.
Qed.

Lemma floor_nth_In {A} (r : Q) (l : list A) (d : A) :
  0 <= r < 1 -> l <> [] ->
  In (nth (Z.to_nat (JS.Math_floor (r * inject_Z (Z.of_nat (List.length l))))) l d) l.
Proof.
  intros R N. apply nth_In.
  assert (0 < List.length l)%nat by (destruct l; [contradiction|cbn; lia]).
  pose proof (floor_index r (List.length l) R H). lia.
Qed.

Lemma randomLane_in_range (w : World) :
  random_in_range w -> (0 <= fst (GameManager.randomLane w) <= 2)%Z.
Proof.
  intro R. unfold GameManager.randomLane. rewrite bind_proj. unfold ret. cbn [fst].
  pose proof (floor_index (random_stream w (random_calls w)) 3 (R _) ltac:(lia)) as F.
  cbn [Math_random fst]. change (List.length GAME_CONFIG.LANES) with 3%nat. lia.
Qed.

(** A new NPC where [Math.random()] is in [0, 1). *)
Lemma NPC_new_in_range (lane : Z) (w : World) :
  random_in_range w ->
  let n := fst (NPC.new lane w) in
  In (car_of n) NPC.carTypes /\
  GameObject.width (NPC.obj n) = NPC.carWidth n /\
  GameObject.height (NPC.obj n) = NPC.carHeight n /\
  GameObject.x (NPC.obj n) = GAME_CONFIG.lane lane /\
  GameObject.y (NPC.obj n) = -100 /\
  175 <= GameObject.velocityY (NPC.obj n) < 225 /\
  NPC.lane n = lane /\ NPC.targetLane n = lane /\
  NPC.originalX n = GAME_CONFIG.lane lane.
Proof.
  intro R. cbv zeta. unfold NPC.new.
  repeat (rewrite bind_proj; cbv beta). unfold ret. cbn [fst].
  unfold car_of.
  cbn [NPC.carType NPC.carWidth NPC.carHeight NPC.carColor NPC.obj NPC.lane
       NPC.targetLane NPC.originalX GameObject.width GameObject.height
       GameObject.x GameObject.y GameObject.velocityY GameObject.new
       GameObject.set_velocityY].
  set (r0 := fst (Math_random w)).
  set (r1 := fst (Math_random (snd (Math_random w)))).
  assert (R0 : 0 <= r0 < 1) by apply R.
  assert (R1 : 0 <= r1 < 1) by apply R.
  split.
  - unfold NPC.selectCar.
    pose proof (floor_nth_In r0 NPC.carTypes (NPC.mkCar NPC.saloon 85 125 "#3498db")
                  R0 ltac:(discriminate)) as I.
    destruct (nth _ NPC.carTypes _) as [ty wd ht col]. exact I.
  - repeat split; try reflexivity;
      change GAME_CONFIG.NPC_SPEED with 200; lra.
Qed.

(** A new coin where [Math.random()] is in [0, 1). *)
Lemma Coin_new_in_range (lane : Z) (w : World) :
  random_in_range w ->
  let c := fst (Coin.new lane w) in
  GameObject.x (Coin.obj c) = GAME_CONFIG.lane lane /\
  GameObject.y (Coin.obj c) = -50 /\
  185 <= GameObject.velocityY (Coin.obj c) < 215.
Proof.
  intro R. cbv zeta. unfold Coin.new.
  repeat (rewrite bind_proj; cbv beta). unfold ret. cbn [fst].
  cbn [Coin.obj GameObject.x GameObject.y GameObject.velocityY GameObject.new
       GameObject.set_velocityY].
  set (r0 := fst (Math_random w)).
  assert (R0 : 0 <= r0 < 1) by apply R.
  repeat split; try reflexivity; change GAME_CONFIG.NPC_SPEED with 200; lra.
Qed.

(** ** The lanes of the NPCs *)

Lemma random_in_range_later (w w' : World) :
  same_browser w w' -> random_in_range w -> random_in_range w'.
Proof. intros (_ & _ & _ & E & _) R n. rewrite E. apply R. Qed.

Lemma availableLanes_In (n : NPC.t) (l : Z) :
  In l (NPC.availableLanes n) -> (0 <= l <= 2)%Z /\ l <> NPC.lane n.
Proof.
  unfold NPC.availableLanes. rewrite filter_In. intros [I N].
  apply negb_true_iff, Z.eqb_neq in N. split; [|exact N].
  cbn in I. lia.
Qed.

Lemma availableLanes_nonempty (n : NPC.t) : NPC.availableLanes n <> [].
Proof.
  unfold NPC.availableLanes. cbn [filter].
  destruct (0 =? NPC.lane n)%Z eqn:E0; cbn [negb]; [|discriminate].
  apply Z.eqb_eq in E0. rewrite <- E0. cbn. discriminate.
Qed.

(** [updateLaneChanging] on an NPC in a lane of the game. *)
Lemma updateLaneChanging_lanes (dt : Q) (n : NPC.t) (w : World) :
  random_in_range w -> npc_in_lane n ->
  let n' := fst (NPC.updateLaneChanging dt n w) in
  npc_in_lane n' /\
  (JS.gt (NPC.laneChangeTimer n + dt) (NPC.laneChangeInterval n) = true ->
   NPC.targetLane n' <> NPC.lane n /\
   NPC.laneChangeTimer n' = 0 /\
   8000 <= NPC.laneChangeInterval n' < 20000) /\
  (JS.gt (NPC.laneChangeTimer n + dt) (NPC.laneChangeInterval n) = false ->
   NPC.targetLane n' = NPC.targetLane n).
Proof.
  intros R (L & T & O). cbv zeta. unfold NPC.updateLaneChanging.
  rewrite bind_proj. cbv beta.
  cbn [NPC.laneChangeTimer NPC.laneChangeInterval NPC.set_laneChangeTimer].
  destruct (JS.gt (NPC.laneChangeTimer n + dt) (NPC.laneChangeInterval n)) eqn:G.
  - pose proof (availableLanes_nonempty (NPC.set_laneChangeTimer (NPC.laneChangeTimer n + dt) n))
      as Ne.
    destruct (0 <? List.length (NPC.availableLanes _))%nat eqn:Z0.
    2:{ apply Nat.ltb_ge in Z0.
        destruct (NPC.availableLanes _); [contradiction|cbn in Z0; lia]. }
    repeat (rewrite bind_proj; cbv beta). unfold ret. cbn [fst snd].
    set (r0 := fst (Math_random w)).
    set (r1 := fst (Math_random (snd (Math_random w)))).
    assert (R0 : 0 <= r0 < 1) by apply R.
    assert (R1 : 0 <= r1 < 1) by apply R.
    pose proof (floor_nth_In r0 _ 0%Z R0 Ne) as I.
    apply availableLanes_In in I.
    cbn [NPC.lane NPC.set_laneChangeTimer] in I.
    set (tl := nth _ (NPC.availableLanes _) 0%Z) in *.
    destruct I as [I1 I2]. clearbody tl r0 r1.
    destruct n as [o l wo ws ox ty col cw ch fm fs fd ft fdu lt li t lp ls ad asp ma adi ia ao].
    cbn in L, T, O, I2 |- *.
    change (JS.lt 0 1) with true. cbv iota.
    destruct (JS.ge (0 + ls * (dt / 16.67)) 1); cbn;
      unfold npc_in_lane; cbn; repeat split; try lia; try assumption;
      try reflexivity; try discriminate; try lra.
  - unfold ret. cbn [fst snd].
    destruct n as [o l wo ws ox ty col cw ch fm fs fd ft fdu lt li t lp ls ad asp ma adi ia ao].
    cbn in L, T, O |- *.
    destruct (JS.lt lp 1); cbn;
      [destruct (JS.ge (lp + ls * (dt / 16.67)) 1); cbn|];
      unfold npc_in_lane; cbn; repeat split; try lia; try assumption;
      try reflexivity; try discriminate; try (intro; discriminate).
Qed.

(** What [NPC.update] does before and after [updateLaneChanging] leaves
    the lane change alone. *)
Lemma updateForwardMovement_lanes (dt : Q) (n : NPC.t) (w : World) :
  let n' := fst (NPC.updateForwardMovement dt n w) in
  NPC.lane n' = NPC.lane n /\ NPC.targetLane n' = NPC.targetLane n /\
  NPC.originalX n' = NPC.originalX n /\
  NPC.laneChangeTimer n' = NPC.laneChangeTimer n /\
  NPC.laneChangeInterval n' = NPC.laneChangeInterval n.
Proof.
  cbv zeta. unfold NPC.updateForwardMovement.
  destruct (NPC.forwardMovement n); [|repeat split].
  cbv zeta. destruct (JS.gt _ _); [|repeat split].
  repeat (rewrite bind_proj; cbv beta). unfold ret. cbn [fst]. repeat split.
Qed.

Lemma avoid_lanes (dt : Q) (p : Player.t) (n : NPC.t) :
  NPC.lane (NPC.avoid dt p n) = NPC.lane n /\
  NPC.targetLane (NPC.avoid dt p n) = NPC.targetLane n /\
  NPC.originalX (NPC.avoid dt p n) = NPC.originalX n.
Proof.
  unfold NPC.avoid. destruct (NPC.avoidanceTriggered n p); [|repeat split].
  cbv zeta. destruct (JS.lt _ _); repeat split.
Qed.

(** [NPC.update] on an NPC in a lane of the game. *)
Lemma NPC_update_lanes
  (dt : Q) (p : option Player.t) (n : NPC.t) (w : World) :
  random_in_range w -> npc_in_lane n ->
  let n' := fst (NPC.update dt p n w) in
  npc_in_lane n' /\
  (JS.gt (NPC.laneChangeTimer n + dt) (NPC.laneChangeInterval n) = true ->
   NPC.targetLane n' <> NPC.lane n) /\
  (JS.gt (NPC.laneChangeTimer n + dt) (NPC.laneChangeInterval n) = false ->
   NPC.targetLane n' = NPC.targetLane n).
Proof.
  intros R I. cbv zeta. unfold NPC.update.
  rewrite bind_proj. cbv beta. fold (moved dt n).
  pose proof (updateForwardMovement_lanes dt (moved dt n) w) as F. cbv zeta in F.
  pose proof (stable_updateForwardMovement dt (moved dt n) w) as S1.
  set (n1 := fst (NPC.updateForwardMovement dt (moved dt n) w)) in *.
  set (w1 := snd (NPC.updateForwardMovement dt (moved dt n) w)) in *.
  clearbody n1 w1. destruct F as (F1 & F2 & F3 & F4 & F5).
  change (NPC.lane (moved dt n)) with (NPC.lane n) in F1.
  change (NPC.targetLane (moved dt n)) with (NPC.targetLane n) in F2.
  change (NPC.originalX (moved dt n)) with (NPC.originalX n) in F3.
  change (NPC.laneChangeTimer (moved dt n)) with (NPC.laneChangeTimer n) in F4.
  change (NPC.laneChangeInterval (moved dt n)) with (NPC.laneChangeInterval n) in F5.
  assert (I1 : npc_in_lane n1).
  { unfold npc_in_lane in *. rewrite F1, F2, F3. exact I. }
  pose proof (updateLaneChanging_lanes dt n1 w1
                (random_in_range_later w w1 S1 R) I1) as U. cbv zeta in U.
  rewrite F1, F2, F4, F5 in U.
  rewrite bind_proj. cbv beta.
  set (n2 := fst (NPC.updateLaneChanging dt n1 w1)) in *.
  set (w2 := snd (NPC.updateLaneChanging dt n1 w1)) in *.
  clearbody n2 w2.
  set (n3 := match p with Some p0 => NPC.avoid dt p0 n2 | None => n2 end).
  assert (A : NPC.lane n3 = NPC.lane n2 /\ NPC.targetLane n3 = NPC.targetLane n2 /\
              NPC.originalX n3 = NPC.originalX n2).
  { unfold n3. destruct p; [apply avoid_lanes|repeat split]. }
  clearbody n3. destruct A as (A1 & A2 & A3).
  repeat (rewrite bind_proj; cbv beta). unfold Math_sin, canvasHeight, ret.
  cbn [fst snd].
  assert (E : forall m : NPC.t,
            NPC.lane m = NPC.lane n3 -> NPC.targetLane m = NPC.targetLane n3 ->
            NPC.originalX m = NPC.originalX n3 ->
            npc_in_lane m /\
            (JS.gt (NPC.laneChangeTimer n + dt) (NPC.laneChangeInterval n) = true ->
             NPC.targetLane m <> NPC.lane n) /\
            (JS.gt (NPC.laneChangeTimer n + dt) (NPC.laneChangeInterval n) = false ->
             NPC.targetLane m = NPC.targetLane n)).
  { intros m M1 M2 M3. destruct U as (U1 & U2 & U3).
    unfold npc_in_lane in *. rewrite M1, M2, M3, A1, A2, A3.
    split; [exact U1|]. split.
    - intro G. apply U2, G.
    - exact U3. }
  match goal with |- context [if ?c then _ else _] => destruct c end;
    apply E; reflexivity.
Qed.

(** X18.  With [Math.random()] in [0, 1), [NPC.update] keeps an NPC in
    the lanes of the game: its lane and its target lane stay lanes 0..2
    and [originalX] the position of its lane; and in the frame in which
    its lane change timer passes the interval the NPC is given a target
    lane other than the lane it is in, while in any other frame its target
    lane stays. *)
Theorem npc_changes_to_another_lane
  (dt : Q) (p : option Player.t) (n : NPC.t) (w : World) :
  random_in_range w -> npc_in_lane n ->
  let n' := fst (NPC.update dt p n w) in
  npc_in_lane n' /\
  (JS.gt (NPC.laneChangeTimer n + dt) (NPC.laneChangeInterval n) = true ->
   NPC.targetLane n' <> NPC.lane n) /\
  (JS.gt (NPC.laneChangeTimer n + dt) (NPC.laneChangeInterval n) = false ->
   NPC.targetLane n' = NPC.targetLane n).
Proof. exact (NPC_update_lanes dt p n w). Qed.

Lemma npc_changes_to_another_lane_witness :
  random_in_range (Scenario.world Scenario.unused Scenario.unused) /\
  npc_in_lane Scenario.oncoming /\
  npc_in_lane
    (fst (NPC.update 16 None Scenario.oncoming
            (Scenario.world Scenario.unused Scenario.unused))).
Proof.
  assert (R : random_in_range (Scenario.world Scenario.unused Scenario.unused))
    by (intro n; cbn; lra).
  assert (I : npc_in_lane Scenario.oncoming)
    by (unfold npc_in_lane; cbn; repeat split; try lia; reflexivity).
  split; [exact R|]. split; [exact I|].
  apply (npc_changes_to_another_lane 16 None Scenario.oncoming _ R I).
Defined.

(** ** The field of play *)

(** [mapM] of a stable method relates each element to its image, in a
    browser that is still the same browser. *)
Lemma mapM_Forall2_stable {A B} (f : A -> M B) (R : World -> A -> B -> Prop) :
  (forall a, stable (f a)) ->
  (forall w w', same_browser w w' -> forall a b, R w' a b -> R w a b) ->
  (forall a w, R w a (fst (f a w))) ->
  forall l w, Forall2 (R w) l (fst (mapM f l w)).
Proof.
  intros Sf Rw Hf l. induction l as [|a l IH]; intro w; cbn [mapM].
  - constructor.
  - repeat (rewrite bind_proj; cbv beta). unfold ret. cbn [fst].
    constructor; [apply Hf|].
    eapply Forall2_impl; [|apply IH]. intros x y. apply Rw, Sf.
Qed.

Lemma fallen_later (w w' : World) (dt : Q) (o o' : GameObject.t) :
  same_browser w w' ->
  fallen (CANVAS_HEIGHT w') dt o o' -> fallen (CANVAS_HEIGHT w) dt o o'.
Proof. intros (-> & _). auto. Qed.

Lemma fallen_kept (H dt : Q) (o o' : GameObject.t) :
  fallen H dt o o' -> GameObject.active o' = true -> GameObject.y o' <= H + 100.
Proof.
  intros (_ & _ & _ & _ & A) T. rewrite T in A.
  destruct (JS.gt (GameObject.y o') (H + 100)) eqn:G; [discriminate|].
  apply gt_false in G. exact G.
Qed.

Lemma filter_fallen {A B} (obj : A -> GameObject.t) (obj' : B -> GameObject.t)
  (H dt : Q) (l : list A) (l' : list B) :
  Forall2 (fun a b => fallen H dt (obj a) (obj' b)) l l' ->
  Forall (fun b => GameObject.y (obj' b) <= H + 100)
         (filter (fun b => GameObject.active (obj' b)) l').
Proof.
  induction 1 as [|a b l l' F _ IH]; cbn [filter]; [constructor|].
  destruct (GameObject.active (obj' b)) eqn:E; [|exact IH].
  constructor; [|exact IH]. eapply fallen_kept; eassumption.
Qed.

(** After [updateObjects] no entity is more than 100 below the canvas. *)
Lemma updateObjects_in_play (dt : Q) (g : GameManager.t) (w : World) :
  in_play (CANVAS_HEIGHT w) (fst (GameManager.updateObjects dt g w)).
Proof.
  unfold GameManager.updateObjects.
  repeat (rewrite bind_proj; cbv beta). unfold ret. cbn [fst].
  unfold in_play.
  cbn [GameManager.npcs GameManager.coins GameManager.powerups GameManager.hazards
       GameManager.set_npcs GameManager.set_coins GameManager.set_powerups
       GameManager.set_hazards].
  set (w1 := snd (mapM (NPC.update dt (Some (GameManager.player g)))
                       (GameManager.npcs g) w)).
  assert (S1 : same_browser w w1) by (apply stable_mapM; intro; apply stable_NPC_update).
  set (w2 := snd (mapM (Coin.update dt) (GameManager.coins g) w1)).
  assert (S2 : same_browser w1 w2) by (apply stable_mapM; intro; apply stable_Coin_update).
  set (w3 := snd (mapM (Powerup.update dt) (GameManager.powerups g) w2)).
  assert (S3 : same_browser w2 w3)
    by (apply stable_mapM; intro; apply stable_Powerup_update).
  destruct S1 as (H1 & _). destruct S2 as (H2 & _). destruct S3 as (H3 & _).
  repeat split.
  - apply (filter_fallen NPC.obj NPC.obj _ dt (GameManager.npcs g)).
    apply (mapM_Forall2_stable _
             (fun w a b => fallen (CANVAS_HEIGHT w) dt (NPC.obj a) (NPC.obj b))).
    + intro. apply stable_NPC_update.
    + intros u u' S a b. apply fallen_later, S.
    + intros a u. apply NPC_update_fallen.
  - replace (CANVAS_HEIGHT w) with (CANVAS_HEIGHT w1) by exact H1.
    apply (filter_fallen Coin.obj Coin.obj _ dt (GameManager.coins g)).
    apply (mapM_Forall2_stable _
             (fun w a b => fallen (CANVAS_HEIGHT w) dt (Coin.obj a) (Coin.obj b))).
    + intro. apply stable_Coin_update.
    + intros u u' S a b. apply fallen_later, S.
    + intros a u. apply Coin_update_fallen.
  - replace (CANVAS_HEIGHT w) with (CANVAS_HEIGHT w2) by congruence.
    apply (filter_fallen Powerup.obj Powerup.obj _ dt (GameManager.powerups g)).
    apply (mapM_Forall2_stable _
             (fun w a b => fallen (CANVAS_HEIGHT w) dt (Powerup.obj a) (Powerup.obj b))).
    + intro. apply stable_Powerup_update.
    + intros u u' S a b. apply fallen_later, S.
    + intros a u. apply Powerup_update_fallen.
  - replace (CANVAS_HEIGHT w) with (CANVAS_HEIGHT w3) by congruence.
    apply (filter_fallen Hazard.obj Hazard.obj _ dt (GameManager.hazards g)).
    apply (mapM_Forall2_stable _
             (fun w a b => fallen (CANVAS_HEIGHT w) dt (Hazard.obj a) (Hazard.obj b))).
    + intro. apply stable_Hazard_update.
    + intros u u' S a b. apply fallen_later, S.
    + intros a u. apply Hazard_update_fallen.
Qed.

Lemma coinCollision_y (c : Coin.t) (g : GameManager.t) (w : World) :
  GameObject.y (Coin.obj (fst (fst (GameManager.coinCollision c g w))))
  = GameObject.y (Coin.obj c).
Proof.
  unfold GameManager.coinCollision.
  destruct (GameObject.collidesWith _ _); [|reflexivity].
  unfold Coin.collect. destruct (negb (Coin.collected c)); [|reflexivity].
  repeat (rewrite bind_proj; cbv beta). unfold ret. reflexivity.
Qed.

Lemma powerupCollision_y (p : Powerup.t) (g : GameManager.t) (w : World) :
  GameObject.y (Powerup.obj (fst (fst (GameManager.powerupCollision p g w))))
  = GameObject.y (Powerup.obj p).
Proof.
  unfold GameManager.powerupCollision.
  destruct (GameObject.collidesWith _ _); [|reflexivity].
  repeat (rewrite bind_proj; cbv beta). unfold ret. reflexivity.
Qed.

Lemma Forall2_Forall_y {A} (obj : A -> GameObject.t) (b : Q) (l l' : list A) :
  Forall2 (fun a a' => GameObject.y (obj a') = GameObject.y (obj a)) l l' ->
  Forall (fun a => GameObject.y (obj a) <= b) l ->
  Forall (fun a => GameObject.y (obj a) <= b) l'.
Proof.
  induction 1 as [|a a' l l' E _ IH]; intro F; [constructor|].
  inversion F; subst. constructor; [rewrite E; assumption|auto].
Qed.

(** The collision pass moves no entity up or down. *)
Lemma checkCollisions_in_play (H : Q) (g : GameManager.t) (w : World) :
  in_play H g -> in_play H (fst (GameManager.checkCollisions g w)).
Proof.
  intros (I1 & I2 & I3 & I4).
  destruct (checkCollisions_spec g w) as (_ & _ & En & Eh & _).
  assert (Yc : Forall2 (fun a a' => GameObject.y (Coin.obj a') = GameObject.y (Coin.obj a))
                 (GameManager.coins g)
                 (GameManager.coins (fst (GameManager.checkCollisions g w))) /\
               Forall2 (fun a a' => GameObject.y (Powerup.obj a')
                                    = GameObject.y (Powerup.obj a))
                 (GameManager.powerups g)
                 (GameManager.powerups (fst (GameManager.checkCollisions g w)))).
  { unfold GameManager.checkCollisions, bind.
    pose proof (coin_pass (GameManager.coins g) g w) as (K1 & _).
    pose proof (forEach_spec GameManager.coinCollision (fun _ => True)
                  (fun a a' => GameObject.y (Coin.obj a') = GameObject.y (Coin.obj a))
                  (fun a s w0 _ => conj I (coinCollision_y a s w0))
                  (GameManager.coins g) g w I) as [_ F1].
    destruct (forEach GameManager.coinCollision _ g w) as [[cs s1] w1].
    cbn [fst snd] in K1, F1.
    pose proof (powerup_pass (GameManager.powerups (GameManager.set_coins cs s1))
                  (GameManager.set_coins cs s1) w1) as (K2 & _).
    pose proof (forEach_spec GameManager.powerupCollision (fun _ => True)
                  (fun a a' => GameObject.y (Powerup.obj a')
                               = GameObject.y (Powerup.obj a))
                  (fun a s w0 _ => conj I (powerupCollision_y a s w0))
                  (GameManager.powerups (GameManager.set_coins cs s1))
                  (GameManager.set_coins cs s1) w1 I) as [_ F2].
    destruct (forEach GameManager.powerupCollision _ _ w1) as [[ps s2] w2].
    cbn [fst snd] in K2, F2.
    pose proof (npc_pass (GameManager.npcs (GameManager.set_powerups ps s2))
                  (GameManager.set_powerups ps s2) w2) as (K3 & _).
    destruct (forEach GameManager.npcCollision _ _ w2) as [[ns s3] w3].
    cbn [fst snd] in K3.
    pose proof (hazard_pass (GameManager.hazards (GameManager.set_npcs ns s3))
                  (GameManager.set_npcs ns s3) w3) as (K4 & _).
    destruct (forEach GameManager.hazardCollision _ _ w3) as [[hs s4] w4].
    cbn [fst snd] in K4. cbn [fst ret].
    unfold keeps in K1, K2, K3, K4.
    destruct K1 as (_ & _ & P1 & _).
    destruct K2 as (_ & C2 & _).
    destruct K3 as (_ & C3 & P3 & _).
    destruct K4 as (_ & C4 & P4 & _).
    cbn in P1, C2, C3, P3, C4, P4, F2 |- *.
    rewrite C4, C3, C2, P4, P3. rewrite P1 in F2. split; assumption. }
  destruct Yc as [Yc Yp]. unfold in_play. rewrite En, Eh. repeat split.
  - apply Forall_map. eapply Forall_impl; [|exact I1].
    intros n Hn. destruct (bumps _ n); exact Hn.
  - eapply Forall2_Forall_y; eassumption.
  - eapply Forall2_Forall_y; eassumption.
  - apply Forall_map. eapply Forall_impl; [|exact I4].
    intros h Hh. destruct (hits _ h); exact Hh.
Qed.

Lemma update_in_play (dt : Q) (g : GameManager.t) (w : World) :
  live dt g = true ->
  in_play (CANVAS_HEIGHT w) (fst (GameManager.update dt g w)).
Proof.
  intro L. rewrite (update_stages dt g w L).
  repeat (rewrite bind_proj; cbv beta). unfold ret. cbn [fst].
  assert (U : forall H d s, in_play H s -> in_play H (GameManager.updateParticles d s))
    by (intros H d s X; exact X).
  apply U, checkCollisions_in_play.
  match goal with |- context [GameManager.updateObjects ?d ?a ?b] =>
    pose proof (updateObjects_in_play d a b) as P;
    assert (E : CANVAS_HEIGHT b = CANVAS_HEIGHT w)
  end.
  { match goal with |- CANVAS_HEIGHT (snd (GameManager.spawnObjects ?d ?a ?b)) = _ =>
      destruct (stable_spawnObjects d a b) as (-> & _) end.
    unfold beforeSpawn.
    match goal with |- CANVAS_HEIGHT (snd (?m w)) = _ =>
      assert (S : stable m) by (unfold beforeSpawn; stable_tac);
      destruct (S w) as (-> & _) end.
    reflexivity. }
  rewrite E in P. exact P.
Qed.

(** X19.  After every frame that the game plays no NPC, coin, powerup or
    hazard is more than 100 below the canvas, whatever the state before the
    frame and whatever the height of the canvas, which a resize of the
    window changes and the frame reads and leaves: [updateObjects] removes
    the entities that pass that line in the frame in which they pass it,
    and nothing after it in the frame moves an entity. *)
Theorem entities_in_play (dt : Q) (g : GameManager.t) (w : World) :
  live dt g = true ->
  CANVAS_HEIGHT (snd (GameManager.update dt g w)) = CANVAS_HEIGHT w /\
  in_play (CANVAS_HEIGHT w) (fst (GameManager.update dt g w)).
Proof.
  intro L. split; [|apply update_in_play, L].
  destruct (stable_update dt g w) as (E & _). exact E.
Qed.

Lemma entities_in_play_witness :
  live 16 Scenario.opening = true /\
  in_play (CANVAS_HEIGHT (snd (resizeCanvas 480 (Scenario.world Scenario.unused Scenario.unused))))
    (fst (GameManager.update 16 Scenario.opening
            (snd (resizeCanvas 480 (Scenario.world Scenario.unused Scenario.unused))))).
Proof.
  assert (L : live 16 Scenario.opening = true) by reflexivity.
  split; [exact L|].
  apply (entities_in_play 16 Scenario.opening _ L).
Defined.

(** ** What a player at rest can reach *)





(** ** Dragging the car *)



(** ** The entities over a session *)

Lemma updateForwardMovement_car (dt : Q) (n : NPC.t) (w : World) :
  car_of (fst (NPC.updateForwardMovement dt n w)) = car_of n.
Proof.
  unfold NPC.updateForwardMovement.
  destruct (NPC.forwardMovement n); [|reflexivity].
  cbv zeta. destruct (JS.gt _ _); [|reflexivity].
  repeat (rewrite bind_proj; cbv beta). unfold ret. reflexivity.
Qed.

Lemma updateLaneChanging_car (dt : Q) (n : NPC.t) (w : World) :
  car_of (fst (NPC.updateLaneChanging dt n w)) = car_of n.
Proof.
  unfold NPC.updateLaneChanging, bind, Math_random, ret.
  cbv beta iota zeta. repeat break_if; reflexivity.
Qed.

Lemma avoid_car (dt : Q) (p : Player.t) (n : NPC.t) :
  car_of (NPC.avoid dt p n) = car_of n.
Proof.
  unfold NPC.avoid. destruct (NPC.avoidanceTriggered n p); [|reflexivity].
  cbv zeta. destruct (JS.lt _ _); reflexivity.
Qed.

Lemma NPC_update_car (dt : Q) (p : option Player.t) (n : NPC.t) (w : World) :
  car_of (fst (NPC.update dt p n w)) = car_of n.
Proof.
  unfold NPC.update, bind. fold (moved dt n).
  pose proof (updateForwardMovement_car dt (moved dt n) w) as A1.
  destruct (NPC.updateForwardMovement dt (moved dt n) w) as [n1 w1]. cbn [fst] in A1.
  pose proof (updateLaneChanging_car dt n1 w1) as A2.
  destruct (NPC.updateLaneChanging dt n1 w1) as [n2 w2]. cbn [fst] in A2.
  assert (A : car_of (match p with Some p0 => NPC.avoid dt p0 n2 | None => n2 end)
              = car_of n).
  { destruct p; [rewrite avoid_car|]; rewrite A2, A1; reflexivity. }
  unfold Math_sin, canvasHeight, ret. cbv beta iota zeta.
  match goal with |- context [if ?c then _ else _] => destruct c end;
    cbn [fst]; exact A.
Qed.

Lemma car_of_fields (n n' : NPC.t) :
  car_of n' = car_of n ->
  NPC.carWidth n' = NPC.carWidth n /\ NPC.carHeight n' = NPC.carHeight n.
Proof. unfold car_of. intro E. injection E. auto. Qed.

Lemma NPC_update_sound (dt : Q) (p : option Player.t) (n : NPC.t) (w : World) :
  random_in_range w -> npc_sound n -> npc_sound (fst (NPC.update dt p n w)).
Proof.
  intros R (L & F & C & Wd & Ht).
  pose proof (NPC_update_fallen dt p n w) as (_ & V & W' & H' & _).
  pose proof (NPC_update_car dt p n w) as K.
  destruct (car_of_fields _ _ K) as [K1 K2].
  unfold npc_sound, falling. rewrite V, W', H', K, K1, K2.
  split; [apply (NPC_update_lanes dt p n w R L)|]. auto.
Qed.

Lemma Coin_update_sound (dt : Q) (c : Coin.t) (w : World) :
  coin_sound c -> coin_sound (fst (Coin.update dt c w)).
Proof.
  intros (L & O & F & Wd & Ht).
  pose proof (Coin_update_fallen dt c w) as (_ & V & W' & H' & _).
  unfold coin_sound, falling. rewrite V, W', H'.
  assert (E : Coin.lane (fst (Coin.update dt c w)) = Coin.lane c /\
              Coin.originalX (fst (Coin.update dt c w)) = Coin.originalX c).
  { unfold Coin.update, bind, Math_sin, canvasHeight, Date_now, ret.
    cbv beta iota zeta. repeat break_if; split; reflexivity. }
  destruct E as [-> ->]. auto.
Qed.

Lemma Powerup_update_sound (dt : Q) (p : Powerup.t) (w : World) :
  powerup_sound p -> powerup_sound (fst (Powerup.update dt p w)).
Proof.
  unfold powerup_sound, down_the_lane, falling.
  destruct p as [[x y wd ht vx vy ac] l ty col].
  unfold Powerup.update, bind, canvasHeight, ret. cbn.
  intros (L & X & -> & F & Wd & Ht).
  destruct (JS.gt _ _); cbn; repeat split; try tauto; rewrite X; ring.
Qed.

Lemma Hazard_update_sound (dt : Q) (h : Hazard.t) (w : World) :
  hazard_sound h -> hazard_sound (fst (Hazard.update dt h w)).
Proof.
  unfold hazard_sound, down_the_lane, falling.
  destruct h as [[x y wd ht vx vy ac] l ty bs].
  unfold Hazard.update, bind, canvasHeight, ret. cbn.
  intros (L & X & -> & F & Wd & Ht).
  destruct (JS.gt _ _); destruct ty; cbn; repeat split; try tauto; rewrite X; ring.
Qed.

(** A speed of a new entity times the speed multiplier. *)
Lemma sped_up_falling (v m : Q) :
  175 <= v <= 225 -> 1 <= m <= 1.2 -> 175 <= v * m <= 270.
Proof. intros V M. split; nra. Qed.

Lemma spawnNpc_sound (t : Q) (g : GameManager.t) (w : World) :
  random_in_range w -> sound g -> sound (fst (GameManager.spawnNpc t g w)).
Proof.
  intros R S. pose proof S as (M & N & C & P & H). unfold GameManager.spawnNpc.
  destruct (_ && _); [|exact S].
  rewrite bind_proj. cbv beta.
  pose proof (randomLane_in_range w R) as L.
  pose proof (stable_randomLane w) as S1.
  set (lane := fst (GameManager.randomLane w)) in *.
  set (w1 := snd (GameManager.randomLane w)) in *. clearbody lane w1.
  destruct (GameManager.scanNpcs lane (GameManager.npcs g) 0) as [hasSpace k].
  destruct (hasSpace && (k <? 2)%nat); [|exact S].
  rewrite bind_proj. cbv beta. unfold ret. cbn [fst].
  pose proof (NPC_new_in_range lane w1 (random_in_range_later _ _ S1 R)) as Nn.
  cbv zeta in Nn.
  set (n := fst (NPC.new lane w1)) in *. clearbody n.
  destruct Nn as (I & Wd & Ht & _ & _ & V & L1 & L2 & O).
  unfold sound.
  cbn [GameManager.currentSpeedMultiplier GameManager.npcs GameManager.coins
       GameManager.powerups GameManager.hazards GameManager.set_npcs
       GameManager.set_lastSpawnTime].
  repeat split; try assumption; try apply M.
  apply Forall_app. split; [exact N|]. constructor; [|constructor].
  unfold npc_sound, npc_in_lane, falling. destruct n as [[]]. cbn in *.
  subst. repeat split; try assumption; try lia; try reflexivity;
    apply sped_up_falling; lra.
Qed.

Lemma spawnCoin_sound (t : Q) (g : GameManager.t) (w : World) :
  random_in_range w -> sound g -> sound (fst (GameManager.spawnCoin t g w)).
Proof.
  intros R S. pose proof S as (M & N & C & P & H). unfold GameManager.spawnCoin.
  destruct (_ && _); [|exact S].
  rewrite bind_proj. cbv beta.
  pose proof (stable_Math_random w) as S0.
  set (r := fst (Math_random w)). set (w0 := snd (Math_random w)) in *.
  clearbody r w0.
  destruct (JS.lt r _); [|exact S].
  rewrite bind_proj. cbv beta.
  assert (R0 : random_in_range w0) by (eapply random_in_range_later; eassumption).
  pose proof (randomLane_in_range w0 R0) as L.
  pose proof (stable_randomLane w0) as S1.
  set (lane := fst (GameManager.randomLane w0)) in *.
  set (w1 := snd (GameManager.randomLane w0)) in *. clearbody lane w1.
  rewrite bind_proj. cbv beta. unfold ret. cbn [fst].
  pose proof (Coin_new_in_range lane w1 (random_in_range_later _ _ S1 R0)) as Nn.
  cbv zeta in Nn. destruct Nn as (_ & _ & V).
  assert (K : Coin.lane (fst (Coin.new lane w1)) = lane /\
              Coin.originalX (fst (Coin.new lane w1)) = GAME_CONFIG.lane lane /\
              GameObject.width (Coin.obj (fst (Coin.new lane w1))) = 25 /\
              GameObject.height (Coin.obj (fst (Coin.new lane w1))) = 25).
  { unfold Coin.new. repeat (rewrite bind_proj; cbv beta). unfold ret.
    repeat split. }
  set (c := fst (Coin.new lane w1)) in *. clearbody c.
  destruct K as (K1 & K2 & K3 & K4).
  unfold sound.
  cbn [GameManager.currentSpeedMultiplier GameManager.npcs GameManager.coins
       GameManager.powerups GameManager.hazards GameManager.set_coins
       GameManager.set_lastCoinSpawnTime].
  repeat split; try assumption; try apply M.
  apply Forall_app. split; [exact C|]. constructor; [|constructor].
  unfold coin_sound, falling. destruct c as [[]]. cbn in *.
  subst. repeat split; try assumption; try lia; try reflexivity;
    apply sped_up_falling; lra.
Qed.

Lemma spawnPowerup_sound (t : Q) (g : GameManager.t) (w : World) :
  random_in_range w -> sound g -> sound (fst (GameManager.spawnPowerup t g w)).
Proof.
  intros R S. pose proof S as (M & N & C & P & H). unfold GameManager.spawnPowerup.
  destruct (_ && _); [|exact S].
  rewrite bind_proj. cbv beta.
  pose proof (stable_Math_random w) as S0.
  set (r := fst (Math_random w)). set (w0 := snd (Math_random w)) in *.
  clearbody r w0.
  destruct (JS.lt r _); [|exact S].
  rewrite bind_proj. cbv beta.
  assert (R0 : random_in_range w0) by (eapply random_in_range_later; eassumption).
  pose proof (randomLane_in_range w0 R0) as L.
  set (lane := fst (GameManager.randomLane w0)) in *. clearbody lane.
  unfold ret. cbn [fst]. unfold sound.
  cbn [GameManager.currentSpeedMultiplier GameManager.npcs GameManager.coins
       GameManager.powerups GameManager.hazards GameManager.set_powerups
       GameManager.set_lastPowerupSpawnTime].
  repeat split; try assumption; try apply M.
  apply Forall_app. split; [exact P|]. constructor; [|constructor].
  unfold powerup_sound, down_the_lane, falling. cbn.
  repeat split; try lia; try reflexivity;
    apply sped_up_falling; try assumption; change GAME_CONFIG.NPC_SPEED with 200; lra.
Qed.

Lemma spawnHazard_sound (t : Q) (g : GameManager.t) (w : World) :
  random_in_range w -> sound g -> sound (fst (GameManager.spawnHazard t g w)).
Proof.
  intros R S. pose proof S as (M & N & C & P & H). unfold GameManager.spawnHazard.
  destruct (_ && _); [|exact S].
  rewrite bind_proj. cbv beta.
  pose proof (stable_Math_random w) as S0.
  set (r := fst (Math_random w)). set (w0 := snd (Math_random w)) in *.
  clearbody r w0.
  destruct (JS.lt r _); [|exact S].
  rewrite bind_proj. cbv beta.
  assert (R0 : random_in_range w0) by (eapply random_in_range_later; eassumption).
  pose proof (randomLane_in_range w0 R0) as L.
  set (lane := fst (GameManager.randomLane w0)) in *. clearbody lane.
  rewrite bind_proj. cbv beta.
  unfold ret. cbn [fst]. unfold sound.
  cbn [GameManager.currentSpeedMultiplier GameManager.npcs GameManager.coins
       GameManager.powerups GameManager.hazards GameManager.set_hazards
       GameManager.set_lastHazardSpawnTime].
  repeat split; try assumption; try apply M.
  apply Forall_app. split; [exact H|]. constructor; [|constructor].
  unfold hazard_sound, down_the_lane, falling. cbn.
  repeat split; try lia; try reflexivity;
    apply sped_up_falling; try assumption; change GAME_CONFIG.NPC_SPEED with 200; lra.
Qed.

Lemma spawnObjects_sound (dt : Q) (g : GameManager.t) (w : World) :
  random_in_range w -> sound g -> sound (fst (GameManager.spawnObjects dt g w)).
Proof.
  intros R S. unfold GameManager.spawnObjects.
  repeat (rewrite bind_proj; cbv beta).
  set (t := fst (Date_now w)).
  pose proof (stable_Date_now w) as S0.
  set (w0 := snd (Date_now w)) in *. clearbody t w0.
  assert (R0 : random_in_range w0) by (eapply random_in_range_later; eassumption).
  pose proof (spawnNpc_sound t g w0 R0 S) as S1.
  pose proof (stable_spawnNpc t g w0) as B1.
  set (g1 := fst (GameManager.spawnNpc t g w0)) in *.
  set (w1 := snd (GameManager.spawnNpc t g w0)) in *. clearbody g1 w1.
  assert (R1 : random_in_range w1) by (eapply random_in_range_later; eassumption).
  pose proof (spawnCoin_sound t g1 w1 R1 S1) as S2.
  pose proof (stable_spawnCoin t g1 w1) as B2.
  set (g2 := fst (GameManager.spawnCoin t g1 w1)) in *.
  set (w2 := snd (GameManager.spawnCoin t g1 w1)) in *. clearbody g2 w2.
  assert (R2 : random_in_range w2) by (eapply random_in_range_later; eassumption).
  pose proof (spawnPowerup_sound t g2 w2 R2 S2) as S3.
  pose proof (stable_spawnPowerup t g2 w2) as B3.
  set (g3 := fst (GameManager.spawnPowerup t g2 w2)) in *.
  set (w3 := snd (GameManager.spawnPowerup t g2 w2)) in *. clearbody g3 w3.
  assert (R3 : random_in_range w3) by (eapply random_in_range_later; eassumption).
  apply spawnHazard_sound; assumption.
Qed.

Lemma sound_same (g s : GameManager.t) :
  same_collections g s ->
  GameManager.currentSpeedMultiplier s = GameManager.currentSpeedMultiplier g ->
  sound g -> sound s.
Proof.
  intros (E1 & E2 & E3 & E4) E. unfold sound. rewrite E, E1, E2, E3, E4. auto.
Qed.

Lemma Forall2_Forall_impl {A B} (R : A -> B -> Prop) (P : A -> Prop) (Q : B -> Prop)
  (l : list A) (l' : list B) :
  (forall a b, R a b -> P a -> Q b) ->
  Forall2 R l l' -> Forall P l -> Forall Q l'.
Proof.
  intros H F. induction F as [|a b l l' Rab _ IH]; intro Fl; [constructor|].
  inversion Fl; subst. constructor; eauto.
Qed.

Lemma updateObjects_sound (dt : Q) (g : GameManager.t) (w : World) :
  random_in_range w -> sound g -> sound (fst (GameManager.updateObjects dt g w)).
Proof.
  intros R (M & N & C & P & H). unfold GameManager.updateObjects.
  repeat (rewrite bind_proj; cbv beta). unfold ret. cbn [fst].
  unfold sound.
  cbn [GameManager.currentSpeedMultiplier GameManager.npcs GameManager.coins
       GameManager.powerups GameManager.hazards GameManager.set_npcs
       GameManager.set_coins GameManager.set_powerups GameManager.set_hazards].
  split; [exact M|]. repeat split; apply Forall_filter_keeps.
  - eapply (Forall2_Forall_impl
              (fun a b => random_in_range w -> npc_sound a -> npc_sound b));
      [| |exact N].
    + intros a b Rab Pa. apply Rab; assumption.
    + apply (mapM_Forall2_stable _
               (fun w a b => random_in_range w -> npc_sound a -> npc_sound b)).
      * intro. apply stable_NPC_update.
      * intros u u' S a b K Ru. apply K. eapply random_in_range_later; eassumption.
      * intros a u. apply NPC_update_sound.
  - eapply (Forall2_Forall_impl (fun a b => coin_sound a -> coin_sound b));
      [| |exact C].
    + auto.
    + apply (mapM_Forall2 _ (fun a b => coin_sound a -> coin_sound b)).
      intros a u. apply Coin_update_sound.
  - eapply (Forall2_Forall_impl (fun a b => powerup_sound a -> powerup_sound b));
      [| |exact P].
    + auto.
    + apply (mapM_Forall2 _ (fun a b => powerup_sound a -> powerup_sound b)).
      intros a u. apply Powerup_update_sound.
  - eapply (Forall2_Forall_impl (fun a b => hazard_sound a -> hazard_sound b));
      [| |exact H].
    + auto.
    + apply (mapM_Forall2 _ (fun a b => hazard_sound a -> hazard_sound b)).
      intros a u. apply Hazard_update_sound.
Qed.

Lemma coinCollision_sound (c : Coin.t) (g : GameManager.t) (w : World) :
  coin_sound c -> coin_sound (fst (fst (GameManager.coinCollision c g w))).
Proof.
  intro S. unfold GameManager.coinCollision.
  destruct (GameObject.collidesWith _ _); [|exact S].
  unfold Coin.collect. destruct (negb (Coin.collected c)); [|exact S].
  repeat (rewrite bind_proj; cbv beta). unfold ret. exact S.
Qed.

Lemma powerupCollision_sound (p : Powerup.t) (g : GameManager.t) (w : World) :
  powerup_sound p -> powerup_sound (fst (fst (GameManager.powerupCollision p g w))).
Proof.
  intro S. unfold GameManager.powerupCollision.
  destruct (GameObject.collidesWith _ _); [|exact S].
  repeat (rewrite bind_proj; cbv beta). unfold ret. exact S.
Qed.

(** The collision pass changes no lane, size or speed of an entity. *)
Lemma checkCollisions_sound (g : GameManager.t) (w : World) :
  sound g -> sound (fst (GameManager.checkCollisions g w)).
Proof.
  intros (M & I1 & I2 & I3 & I4).
  destruct (checkCollisions_spec g w) as (_ & _ & En & Eh & Sc & _).
  assert (Yc : Forall2 (fun a a' => coin_sound a -> coin_sound a')
                 (GameManager.coins g)
                 (GameManager.coins (fst (GameManager.checkCollisions g w))) /\
               Forall2 (fun a a' => powerup_sound a -> powerup_sound a')
                 (GameManager.powerups g)
                 (GameManager.powerups (fst (GameManager.checkCollisions g w)))).
  { unfold GameManager.checkCollisions, bind.
    pose proof (coin_pass (GameManager.coins g) g w) as (K1 & _).
    pose proof (forEach_spec GameManager.coinCollision (fun _ => True)
                  (fun a a' => coin_sound a -> coin_sound a')
                  (fun a s w0 _ => conj I (coinCollision_sound a s w0))
                  (GameManager.coins g) g w I) as [_ F1].
    destruct (forEach GameManager.coinCollision _ g w) as [[cs s1] w1].
    cbn [fst snd] in K1, F1.
    pose proof (powerup_pass (GameManager.powerups (GameManager.set_coins cs s1))
                  (GameManager.set_coins cs s1) w1) as (K2 & _).
    pose proof (forEach_spec GameManager.powerupCollision (fun _ => True)
                  (fun a a' => powerup_sound a -> powerup_sound a')
                  (fun a s w0 _ => conj I (powerupCollision_sound a s w0))
                  (GameManager.powerups (GameManager.set_coins cs s1))
                  (GameManager.set_coins cs s1) w1 I) as [_ F2].
    destruct (forEach GameManager.powerupCollision _ _ w1) as [[ps s2] w2].
    cbn [fst snd] in K2, F2.
    pose proof (npc_pass (GameManager.npcs (GameManager.set_powerups ps s2))
                  (GameManager.set_powerups ps s2) w2) as (K3 & _).
    destruct (forEach GameManager.npcCollision _ _ w2) as [[ns s3] w3].
    cbn [fst snd] in K3.
    pose proof (hazard_pass (GameManager.hazards (GameManager.set_npcs ns s3))
                  (GameManager.set_npcs ns s3) w3) as (K4 & _).
    destruct (forEach GameManager.hazardCollision _ _ w3) as [[hs s4] w4].
    cbn [fst snd] in K4. cbn [fst ret].
    unfold keeps in K1, K2, K3, K4.
    destruct K1 as (_ & _ & P1 & _).
    destruct K2 as (_ & C2 & _).
    destruct K3 as (_ & C3 & P3 & _).
    destruct K4 as (_ & C4 & P4 & _).
    cbn in P1, C2, C3, P3, C4, P4, F2 |- *.
    rewrite C4, C3, C2, P4, P3. rewrite P1 in F2. split; assumption. }
  destruct Yc as [Yc Yp].
  destruct Sc as (_ & _ & _ & _ & _ & Em & _).
  unfold sound. rewrite Em, En, Eh. split; [exact M|]. repeat split.
  - apply Forall_map. eapply Forall_impl; [|exact I1].
    intros n Hn. destruct (bumps _ n); exact Hn.
  - eapply Forall2_Forall_impl; [|exact Yc|exact I2]. auto.
  - eapply Forall2_Forall_impl; [|exact Yp|exact I3]. auto.
  - apply Forall_map. eapply Forall_impl; [|exact I4].
    intros h Hh. destruct (hits _ h); exact Hh.
Qed.

(** The speed progression keeps the multiplier between 1 and 1.2. *)
Lemma beforeSpawn_sound (dt : Q) (g : GameManager.t) (w : World) :
  sound g -> sound (fst (beforeSpawn dt g w)).
Proof.
  intro S.
  assert (S0 : sound (GameManager.set_gameTime (GameManager.gameTime g - dt) g))
    by exact S.
  assert (S1 : sound (progressed
                        (GameManager.set_gameTime (GameManager.gameTime g - dt) g))).
  { revert S0. generalize (GameManager.set_gameTime (GameManager.gameTime g - dt) g).
    intros s (M & K). unfold progressed. cbv zeta.
    destruct (JS.ge _ 20 && _);
      match goal with |- context [JS.ge ?a 40 && ?b] => destruct (JS.ge a 40 && b) end;
      (split; [|exact K]); cbn; try exact M;
      unfold GAME_CONFIG.SPEED_INCREASE_20S, GAME_CONFIG.SPEED_INCREASE_40S; lra. }
  apply (sound_same (progressed
                       (GameManager.set_gameTime (GameManager.gameTime g - dt) g))).
  - unfold beforeSpawn. repeat (rewrite bind_proj; cbv beta). unfold ret. cbn [fst].
    rewrite updateSpeedProgression_eq.
    match goal with |- context [GameManager.handleInput ?a] =>
      pose proof (handleInput_spec a) as (_ & _ & _ & _ & H1 & H2 & H3 & H4 & _);
      assert (F : same_collections
                    (progressed
                       (GameManager.set_gameTime (GameManager.gameTime g - dt) g)) a)
    end.
    { match goal with |- context [if ?b then _ else _] =>
        destruct b; unfold same_collections; repeat split end. }
    destruct F as (F1 & F2 & F3 & F4).
    unfold same_collections.
    cbn [GameManager.npcs GameManager.coins GameManager.powerups GameManager.hazards
         GameManager.set_player].
    rewrite H1, H2, H3, H4. repeat split; assumption.
  - unfold beforeSpawn. repeat (rewrite bind_proj; cbv beta). unfold ret. cbn [fst].
    rewrite updateSpeedProgression_eq.
    match goal with |- context [GameManager.handleInput ?a] =>
      pose proof (handleInput_spec a) as ((_ & _ & _ & _ & _ & H1 & _) & _);
      assert (F : GameManager.currentSpeedMultiplier a =
                  GameManager.currentSpeedMultiplier
                    (progressed
                       (GameManager.set_gameTime (GameManager.gameTime g - dt) g)))
    end.
    { match goal with |- context [if ?b then _ else _] =>
        destruct b; reflexivity end. }
    cbn [GameManager.currentSpeedMultiplier GameManager.set_player].
    rewrite H1. exact F.
  - exact S1.
Qed.

Lemma update_sound (dt : Q) (g : GameManager.t) (w : World) :
  live dt g = true ->
  random_in_range w -> sound g -> sound (fst (GameManager.update dt g w)).
Proof.
  intros L R S. rewrite (update_stages dt g w L).
  repeat (rewrite bind_proj; cbv beta). unfold ret. cbn [fst].
  assert (U : forall d s, sound s -> sound (GameManager.updateParticles d s))
    by (intros d s X; exact X).
  apply U, checkCollisions_sound.
  assert (B : stable (beforeSpawn dt g)) by (unfold beforeSpawn; stable_tac).
  pose proof (beforeSpawn_sound dt g w S) as S1.
  specialize (B w).
  set (g1 := fst (beforeSpawn dt g w)) in *.
  set (w1 := snd (beforeSpawn dt g w)) in *. clearbody g1 w1.
  assert (R1 : random_in_range w1) by (eapply random_in_range_later; eassumption).
  pose proof (spawnObjects_sound dt g1 w1 R1 S1) as S2.
  pose proof (stable_spawnObjects dt g1 w1) as B2.
  set (g2 := fst (GameManager.spawnObjects dt g1 w1)) in *.
  set (w2 := snd (GameManager.spawnObjects dt g1 w1)) in *. clearbody g2 w2.
  assert (R2 : random_in_range w2) by (eapply random_in_range_later; eassumption).
  apply updateObjects_sound; assumption.
Qed.

(** Every event keeps the entities as a session keeps them. *)
Lemma handle_sound (e : Event) (g : GameManager.t) (w : World) :
  random_in_range w -> sound g ->
  random_in_range (snd (handle e g w)) /\ sound (fst (handle e g w)).
Proof.
  intros R S. split.
  { eapply random_in_range_later; [apply stable_handle|exact R]. }
  destruct e as [dt|code|code|targetX| |]; cbn [handle].
  - unfold GameManager.gameLoop.
    destruct (negb (GameManager.isGameLoopRunning g)); [exact S|].
    destruct (live dt g) eqn:L.
    + apply update_sound; assumption.
    + rewrite (update_not_live dt g w L).
      destruct (GAME_STATE_eqb _ _); exact S.
  - exact S.
  - exact S.
  - unfold ret, GameManager.pointerTo. cbn [fst].
    destruct (GAME_STATE_eqb _ _); [|exact S].
    destruct (negb _); exact S.
  - exact S.
  - unfold GameManager.startGame_timeout.
    repeat (rewrite bind_proj; cbv beta). unfold ret. cbn [fst].
    unfold GameManager.startGameLoop.
    match goal with |- context [if ?c then _ else _] => destruct c end;
      unfold sound; cbn; repeat split; try constructor; lra.
Qed.

(** After any run of a new engine the entities are as a session keeps
    them. *)
Lemma run_sound (es : list Event) (w : World) :
  random_in_range w ->
  sound (fst (run es (fst (GameManager.new w)) (snd (GameManager.new w)))).
Proof.
  intro R.
  apply (run_invariant (fun g w => random_in_range w /\ sound g) (fun _ => True)).
  - intros e g0 w0 _ [R0 S0]. apply handle_sound; assumption.
  - apply Forall_forall. auto.
  - split.
    + eapply random_in_range_later; [apply stable_GameManager_new|exact R].
    + unfold GameManager.new. rewrite bind_proj. unfold ret, sound. cbn.
      repeat split; try constructor; lra.
Qed.

(** X23.  With [Math.random()] in [0, 1), over any session every NPC,
    coin, powerup and hazard on the road moves down it at a speed from 175
    to 270, and the speed multiplier stays between 1 and 1.2: nothing
    stands still or moves up, whatever is spawned, updated or hit. *)
Theorem entities_keep_falling (es : list Event) (w : World) :
  random_in_range w ->
  let g := fst (run es (fst (GameManager.new w)) (snd (GameManager.new w))) in
  1 <= GameManager.currentSpeedMultiplier g <= 1.2 /\
  Forall (fun n => falling (NPC.obj n)) (GameManager.npcs g) /\
  Forall (fun c => falling (Coin.obj c)) (GameManager.coins g) /\
  Forall (fun p => falling (Powerup.obj p)) (GameManager.powerups g) /\
  Forall (fun h => falling (Hazard.obj h)) (GameManager.hazards g).
Proof.
  intro R. cbv zeta. destruct (run_sound es w R) as (M & N & C & P & H).
  split; [exact M|]. repeat split.
  - eapply Forall_impl; [|exact N]. intros n Hn. apply Hn.
  - eapply Forall_impl; [|exact C]. intros c Hc. apply Hc.
  - eapply Forall_impl; [|exact P]. intros p Hp. apply Hp.
  - eapply Forall_impl; [|exact H]. intros h Hh. apply Hh.
Qed.

Lemma entities_keep_falling_witness :
  random_in_range (Scenario.world Scenario.unused Scenario.unused) /\
  Forall (fun n => falling (NPC.obj n))
    (GameManager.npcs
       (fst (run [StartGame; LoadingDone; Frame 3000]
               (fst (GameManager.new (Scenario.world Scenario.unused Scenario.unused)))
               (snd (GameManager.new (Scenario.world Scenario.unused Scenario.unused)))))).
Proof.
  assert (R : random_in_range (Scenario.world Scenario.unused Scenario.unused))
    by (intro n; cbn; lra).
  split; [exact R|].
  apply (entities_keep_falling [StartGame; LoadingDone; Frame 3000] _ R).
Defined.

(** X24.  With [Math.random()] in [0, 1), over any session every entity
    keeps to the lanes and keeps its size: an NPC is in a lane 0..2 on its
    way to a lane 0..2, around the position of its lane, and has the size
    of its car, a car of the table; a coin is 25 by 25 around the position
    of its lane; a powerup is 30 by 30 and a hazard 30 by 24, each exactly
    at the position of its lane. *)
Theorem entities_keep_their_lanes (es : list Event) (w : World) :
  random_in_range w ->
  let g := fst (run es (fst (GameManager.new w)) (snd (GameManager.new w))) in
  Forall (fun n => npc_in_lane n /\
                   In (car_of n) NPC.carTypes /\
                   GameObject.width (NPC.obj n) = NPC.carWidth n /\
                   GameObject.height (NPC.obj n) = NPC.carHeight n)
         (GameManager.npcs g) /\
  Forall (fun c => (0 <= Coin.lane c <= 2)%Z /\
                   Coin.originalX c = GAME_CONFIG.lane (Coin.lane c) /\
                   GameObject.width (Coin.obj c) = 25 /\
                   GameObject.height (Coin.obj c) = 25)
         (GameManager.coins g) /\
  Forall (fun p => (0 <= Powerup.lane p <= 2)%Z /\
                   GameObject.x (Powerup.obj p) == GAME_CONFIG.lane (Powerup.lane p) /\
                   GameObject.width (Powerup.obj p) = 30 /\
                   GameObject.height (Powerup.obj p) = 30)
         (GameManager.powerups g) /\
  Forall (fun h => (0 <= Hazard.lane h <= 2)%Z /\
                   GameObject.x (Hazard.obj h) == GAME_CONFIG.lane (Hazard.lane h) /\
                   GameObject.width (Hazard.obj h) = 30 /\
                   GameObject.height (Hazard.obj h) = 24)
         (GameManager.hazards g).
Proof.
  intro R. cbv zeta. destruct (run_sound es w R) as (_ & N & C & P & H).
  repeat split.
  - eapply Forall_impl; [|exact N]. intros n (A & _ & B). auto.
  - eapply Forall_impl; [|exact C]. intros c (A & B & _ & D). auto.
  - eapply Forall_impl; [|exact P]. intros p (A & B & _ & _ & D). auto.
  - eapply Forall_impl; [|exact H]. intros h (A & B & _ & _ & D). auto.
Qed.

Lemma entities_keep_their_lanes_witness :
  random_in_range (Scenario.world Scenario.unused Scenario.unused) /\
  Forall (fun c => (0 <= Coin.lane c <= 2)%Z /\
                   Coin.originalX c = GAME_CONFIG.lane (Coin.lane c) /\
                   GameObject.width (Coin.obj c) = 25 /\
                   GameObject.height (Coin.obj c) = 25)
    (GameManager.coins
       (fst (run [StartGame; LoadingDone; Frame 3000]
               (fst (GameManager.new (Scenario.world Scenario.unused Scenario.unused)))
               (snd (GameManager.new (Scenario.world Scenario.unused Scenario.unused)))))).
Proof.
  assert (R : random_in_range (Scenario.world Scenario.unused Scenario.unused))
    by (intro n; cbn; lra).
  split; [exact R|].
  apply (entities_keep_their_lanes [StartGame; LoadingDone; Frame 3000] _ R).
Defined.

(** * The arithmetic of the engine *)

(** ** Rounding to binary64 *)

#[local] Arguments Qpower : simpl never.

Lemma pow2_pos (e : Z) : 0 < 2 ^ e.
Proof. apply Qpower_0_lt. reflexivity. Qed.

Lemma pow2_plus (a b : Z) : 2 ^ (a + b) == 2 ^ a * 2 ^ b.
Proof. apply Qpower_plus. discriminate. Qed.

Lemma pow2_le (a b : Z) : (a <= b)%Z -> 2 ^ a <= 2 ^ b.
Proof. intro H. apply Qpower_le_compat_l; [exact H|discriminate]. Qed.

Lemma pow2_lt (a b : Z) : (a < b)%Z -> 2 ^ a < 2 ^ b.
Proof. intro H. apply Qpower_lt_compat_l; [exact H|reflexivity]. Qed.

Lemma pow2_lt_inv (a b : Z) : 2 ^ a < 2 ^ b -> (a < b)%Z.
Proof. intro H. apply (Qpower_lt_compat_l_inv 2); [exact H|reflexivity]. Qed.

Lemma pow2_inject (k : Z) : (0 <= k)%Z -> 2 ^ k == inject_Z (2 ^ k).
Proof. intro H. rewrite (Zpower_Qpower 2 k H). reflexivity. Qed.

Lemma pow2_succ (a : Z) : 2 ^ (a + 1) == 2 * 2 ^ a.
Proof. rewrite pow2_plus. change (2 ^ 1) with 2. ring. Qed.

(** A quotient of powers of two is an integer when the exponent above is
    the larger. *)
Lemma pow2_quotient (a b : Z) :
  (b <= a)%Z -> 2 ^ a / 2 ^ b == inject_Z (2 ^ (a - b)).
Proof.
  intro H. rewrite <- pow2_inject by lia.
  replace a with ((a - b) + b)%Z at 1 by lia. rewrite pow2_plus.
  field. pose proof (pow2_pos b). lra.
Qed.

(** ** The exponent *)

Lemma exponent_spec (x : Q) :
  0 < x -> 2 ^ Binary64.exponent x <= x < 2 ^ (Binary64.exponent x + 1).
Proof.
  intro P. unfold Binary64.exponent.
  destruct x as [n d]. cbn [Qnum Qden].
  assert (N : (0 < n)%Z) by (unfold Qlt in P; cbn in P; lia).
  destruct (Z.log2_spec n N) as [A1 A2].
  destruct (Z.log2_spec (Zpos d) (Pos2Z.is_pos d)) as [B1 B2].
  pose proof (Z.log2_nonneg n) as An. pose proof (Z.log2_nonneg (Zpos d)) as Bn.
  set (a := Z.log2 n) in *. set (b := Z.log2 (Zpos d)) in *.
  assert (Xn : n # d == inject_Z n / inject_Z (Zpos d)) by apply Qmake_Qdiv.
  assert (Dp : 0 < inject_Z (Zpos d)) by (unfold Qlt, inject_Z; cbn; lia).
  assert (QA1 : 2 ^ a <= inject_Z n)
    by (rewrite pow2_inject by lia; rewrite <- Zle_Qle; exact A1).
  assert (QA2 : inject_Z n < 2 ^ (a + 1))
    by (rewrite pow2_inject by lia; rewrite <- Zlt_Qlt; replace (a + 1)%Z with (Z.succ a) by lia; exact A2).
  assert (QB1 : 2 ^ b <= inject_Z (Zpos d))
    by (rewrite pow2_inject by lia; rewrite <- Zle_Qle; exact B1).
  assert (QB2 : inject_Z (Zpos d) < 2 ^ (b + 1))
    by (rewrite pow2_inject by lia; rewrite <- Zlt_Qlt; replace (b + 1)%Z with (Z.succ b) by lia; exact B2).
  assert (U : n # d < 2 ^ (a - b + 1)).
  { rewrite Xn. apply Qlt_shift_div_r; [exact Dp|].
    eapply Qlt_le_trans; [exact QA2|].
    replace (a + 1)%Z with ((a - b + 1) + b)%Z by lia. rewrite pow2_plus.
    apply Qmult_le_l; [apply pow2_pos|exact QB1]. }
  assert (L : 2 ^ (a - b - 1) <= n # d).
  { rewrite Xn. apply Qle_shift_div_l; [exact Dp|].
    eapply Qle_trans; [|exact QA1].
    replace a with ((a - b - 1) + (b + 1))%Z at 2 by lia. rewrite pow2_plus.
    apply Qmult_le_l; [apply pow2_pos|apply Qlt_le_weak; exact QB2]. }
  destruct (Qle_bool (2 ^ (a - b)) (n # d)) eqn:T.
  - apply Qle_bool_iff in T. split; assumption.
  - split; [exact L|].
    replace (a - b - 1 + 1)%Z with (a - b)%Z by lia.
    apply Qnot_le_lt. intro C. apply Qle_bool_iff in C. congruence.
Qed.

Lemma exponent_unique (x : Q) (k : Z) :
  2 ^ k <= x < 2 ^ (k + 1) -> Binary64.exponent x = k.
Proof.
  intros [L U].
  assert (P : 0 < x) by (eapply Qlt_le_trans; [apply (pow2_pos k)|exact L]).
  destruct (exponent_spec x P) as [L' U'].
  assert (k < Binary64.exponent x + 1)%Z
    by (apply pow2_lt_inv; eapply Qle_lt_trans; eassumption).
  assert (Binary64.exponent x < k + 1)%Z
    by (apply pow2_lt_inv; eapply Qle_lt_trans; eassumption).
  lia.
Qed.

Lemma exponent_comp (x y : Q) :
  0 < x -> x == y -> Binary64.exponent x = Binary64.exponent y.
Proof.
  intros P E. symmetry. apply exponent_unique. rewrite <- E. apply exponent_spec, P.
Qed.

Lemma exponent_le (x y : Q) :
  0 < x -> x <= y -> (Binary64.exponent x <= Binary64.exponent y)%Z.
Proof.
  intros P L.
  destruct (exponent_spec x P) as [L1 _].
  destruct (exponent_spec y (Qlt_le_trans _ _ _ P L)) as [_ U2].
  assert (Binary64.exponent x < Binary64.exponent y + 1)%Z; [|lia].
  apply pow2_lt_inv. eapply Qle_lt_trans; [exact L1|].
  eapply Qle_lt_trans; eassumption.
Qed.

(** Below [2^k] the exponent is below [k]. *)
Lemma exponent_lt (x : Q) (k : Z) :
  0 < x -> x < 2 ^ k -> (Binary64.exponent x < k)%Z.
Proof.
  intros P L. destruct (exponent_spec x P) as [L1 _].
  apply pow2_lt_inv. eapply Qle_lt_trans; eassumption.
Qed.

Lemma exponent_le_bound (x : Q) (k : Z) :
  0 < x -> x <= 2 ^ k -> (Binary64.exponent x <= k)%Z.
Proof.
  intros P L.
  assert (Binary64.exponent x < k + 1)%Z; [|lia].
  apply exponent_lt; [exact P|]. eapply Qle_lt_trans; [exact L|].
  apply pow2_lt. lia.
Qed.

Lemma Qeq_le (x y : Q) : x == y -> x <= y.
Proof. intro E. rewrite E. apply Qle_refl. Qed.

(** ** The nearest integer *)

Lemma Qcompare_cases (p q : Q) :
  (Qcompare p q = Eq /\ p == q) \/ (Qcompare p q = Lt /\ p < q) \/
  (Qcompare p q = Gt /\ q < p).
Proof.
  destruct (Qcompare p q) eqn:C.
  - left. split; [reflexivity|apply Qeq_alt, C].
  - right. left. split; [reflexivity|apply Qlt_alt, C].
  - right. right. split; [reflexivity|apply Qgt_alt, C].
Qed.

Lemma nearest_even_cases (q : Q) :
  let f := Qfloor q in
  (Binary64.nearest_even q = f /\ q - inject_Z f <= 1 # 2) \/
  (Binary64.nearest_even q = (f + 1)%Z /\ 1 # 2 <= q - inject_Z f).
Proof.
  cbv zeta. unfold Binary64.nearest_even.
  destruct (Qcompare (q - inject_Z (Qfloor q)) (1 # 2)) eqn:C.
  - apply Qeq_alt in C. destruct (Z.even (Qfloor q)); [left|right]; split;
      try reflexivity; rewrite C; apply Qle_refl.
  - apply Qlt_alt in C. left. split; [reflexivity|apply Qlt_le_weak, C].
  - apply Qgt_alt in C. right. split; [reflexivity|apply Qlt_le_weak, C].
Qed.

Lemma nearest_even_error (q : Q) :
  Qabs (inject_Z (Binary64.nearest_even q) - q) <= 1 # 2.
Proof.
  pose proof (Qfloor_le q) as L. pose proof (Qlt_floor q) as U.
  rewrite inject_Z_plus in U. change (inject_Z 1) with 1 in U.
  apply Qabs_Qle_condition.
  destruct (nearest_even_cases q) as [[-> H]|[-> H]];
    rewrite ?inject_Z_plus; change (inject_Z 1) with 1; split; lra.
Qed.

Lemma nearest_even_comp (q q' : Q) :
  q == q' -> Binary64.nearest_even q = Binary64.nearest_even q'.
Proof.
  intro E. unfold Binary64.nearest_even.
  rewrite (Qfloor_comp _ _ E).
  assert (E' : q - inject_Z (Qfloor q') == q' - inject_Z (Qfloor q'))
    by (rewrite E; reflexivity).
  rewrite (Qcompare_comp _ _ E' (1 # 2) (1 # 2) (Qeq_refl _)). reflexivity.
Qed.

Lemma nearest_even_Z (z : Z) : Binary64.nearest_even (inject_Z z) = z.
Proof.
  unfold Binary64.nearest_even. rewrite Qfloor_Z.
  assert (C : Qcompare (inject_Z z - inject_Z z) (1 # 2) = Lt).
  { apply (proj1 (Qlt_alt _ _)). setoid_replace (inject_Z z - inject_Z z) with 0 by ring. reflexivity. }
  rewrite C. reflexivity.
Qed.

Lemma nearest_even_le (q q' : Q) :
  q <= q' -> (Binary64.nearest_even q <= Binary64.nearest_even q')%Z.
Proof.
  intro L. pose proof (Qfloor_resp_le _ _ L) as F.
  destruct (Z.eq_dec (Qfloor q) (Qfloor q')) as [E|N].
  - unfold Binary64.nearest_even. rewrite <- E.
    destruct (Qcompare_cases (q - inject_Z (Qfloor q)) (1 # 2))
      as [[-> C]|[[-> C]|[-> C]]];
    destruct (Qcompare_cases (q' - inject_Z (Qfloor q)) (1 # 2))
      as [[-> C']|[[-> C']|[-> C']]];
    try (destruct (Z.even (Qfloor q))); try lia; exfalso; lra.
  - destruct (nearest_even_cases q) as [[-> _]|[-> _]];
    destruct (nearest_even_cases q') as [[-> _]|[-> _]]; lia.
Qed.

(** ** Rounding *)

Lemma round_magnitude_nonneg (x : Q) : 0 <= x -> 0 <= Binary64.round_magnitude x.
Proof.
  intro P. unfold Binary64.round_magnitude.
  apply Qmult_le_0_compat; [|apply Qlt_le_weak, pow2_pos].
  change 0 with (inject_Z 0). rewrite <- Zle_Qle.
  rewrite <- (nearest_even_Z 0). apply nearest_even_le.
  apply Qle_shift_div_l; [apply pow2_pos|]. change (inject_Z 0) with 0. lra.
Qed.

Lemma ulp_exponent_le (x y : Q) :
  0 < x -> x <= y -> (Binary64.ulp_exponent x <= Binary64.ulp_exponent y)%Z.
Proof.
  intros P L. unfold Binary64.ulp_exponent.
  pose proof (exponent_le x y P L). lia.
Qed.

Lemma round_magnitude_le (x y : Q) :
  0 < x -> x <= y -> Binary64.round_magnitude x <= Binary64.round_magnitude y.
Proof.
  intros P L. pose proof (ulp_exponent_le x y P L) as E.
  assert (Py : 0 < y) by lra.
  destruct (Z.eq_dec (Binary64.ulp_exponent x) (Binary64.ulp_exponent y)) as [Q|N].
  - unfold Binary64.round_magnitude. rewrite Q.
    apply Qmult_le_compat_r; [|apply Qlt_le_weak, pow2_pos].
    rewrite <- Zle_Qle. apply nearest_even_le.
    apply Qmult_le_compat_r; [exact L|].
    apply Qlt_le_weak, Qinv_lt_0_compat, pow2_pos.
  - assert (S : (Binary64.ulp_exponent x < Binary64.ulp_exponent y)%Z) by lia.
    clear E N. unfold Binary64.ulp_exponent in S.
    set (ly := Binary64.exponent y) in *. set (lx := Binary64.exponent x) in *.
    assert (Ey : Binary64.ulp_exponent y = (ly - 52)%Z)
      by (unfold Binary64.ulp_exponent; fold ly; lia).
    assert (Lt : (lx < ly)%Z) by lia.
    destruct (exponent_spec x P) as [_ Ux]. fold lx in Ux.
    destruct (exponent_spec y Py) as [Ly _]. fold ly in Ly.
    assert (Ex : (Binary64.ulp_exponent x <= ly)%Z)
      by (unfold Binary64.ulp_exponent; fold lx; lia).
    apply (Qle_trans _ (2 ^ ly)).
    + unfold Binary64.round_magnitude.
      set (e := Binary64.ulp_exponent x) in *.
      apply (Qle_trans _ (inject_Z (2 ^ (ly - e)) * 2 ^ e)).
      * apply Qmult_le_compat_r; [|apply Qlt_le_weak, pow2_pos].
        rewrite <- Zle_Qle.
        rewrite <- (nearest_even_Z (2 ^ (ly - e))). apply nearest_even_le.
        rewrite <- pow2_quotient by exact Ex.
        apply Qmult_le_compat_r;
          [|apply Qlt_le_weak, Qinv_lt_0_compat, pow2_pos].
        apply Qlt_le_weak. eapply Qlt_le_trans; [exact Ux|]. apply pow2_le. lia.
      * rewrite <- pow2_quotient by exact Ex. apply Qeq_le.
        field. pose proof (pow2_pos e). lra.
    + unfold Binary64.round_magnitude. rewrite Ey.
      apply (Qle_trans _ (inject_Z (2 ^ 52) * 2 ^ (ly - 52))).
      * rewrite <- (pow2_inject 52) by lia. rewrite <- pow2_plus.
        apply pow2_le. lia.
      * apply Qmult_le_compat_r; [|apply Qlt_le_weak, pow2_pos].
        rewrite <- Zle_Qle.
        rewrite <- (nearest_even_Z (2 ^ 52)) at 1. apply nearest_even_le.
        apply Qle_shift_div_l; [apply pow2_pos|].
        rewrite <- (pow2_inject 52) by lia. rewrite <- pow2_plus.
        replace (52 + (ly - 52))%Z with ly by lia. exact Ly.
Qed.

Lemma round_nonneg (x : Q) : 0 <= x -> 0 <= Binary64.round x.
Proof.
  intro P. unfold Binary64.round.
  destruct (Qcompare x 0) eqn:C.
  - apply Qle_refl.
  - apply Qlt_alt in C. exfalso. lra.
  - apply round_magnitude_nonneg, P.
Qed.

Lemma round_nonpos (x : Q) : x <= 0 -> Binary64.round x <= 0.
Proof.
  intro P. unfold Binary64.round.
  destruct (Qcompare x 0) eqn:C.
  - apply Qle_refl.
  - pose proof (round_magnitude_nonneg (- x)). lra.
  - apply Qgt_alt in C. exfalso. lra.
Qed.

(** Rounding keeps the order. *)
Lemma round_le (x y : Q) : x <= y -> Binary64.round x <= Binary64.round y.
Proof.
  intro L.
  destruct (Qlt_le_dec 0 x) as [Px|Nx].
  - unfold Binary64.round.
    assert (Cx : Qcompare x 0 = Gt) by (apply (proj1 (Qgt_alt x 0)); exact Px).
    assert (Cy : Qcompare y 0 = Gt) by (apply (proj1 (Qgt_alt y 0)); lra).
    rewrite Cx, Cy. apply round_magnitude_le; assumption.
  - destruct (Qlt_le_dec y 0) as [Ny|Py].
    + unfold Binary64.round.
      assert (Cx : Qcompare x 0 = Lt) by (apply (proj1 (Qlt_alt x 0)); lra).
      assert (Cy : Qcompare y 0 = Lt) by (apply (proj1 (Qlt_alt y 0)); exact Ny).
      rewrite Cx, Cy. apply Qopp_le_compat.
      apply round_magnitude_le; lra.
    + pose proof (round_nonpos x Nx). pose proof (round_nonneg y Py). lra.
Qed.

Lemma round_magnitude_comp (x y : Q) :
  0 < x -> x == y -> Binary64.round_magnitude x == Binary64.round_magnitude y.
Proof.
  intros P E. unfold Binary64.round_magnitude, Binary64.ulp_exponent.
  rewrite (exponent_comp x y P E).
  set (e := Z.max (-1074) (Binary64.exponent y - 52)).
  assert (E' : x / 2 ^ e == y / 2 ^ e) by (rewrite E; reflexivity).
  rewrite (nearest_even_comp _ _ E'). reflexivity.
Qed.

Lemma round_comp (x y : Q) : x == y -> Binary64.round x == Binary64.round y.
Proof.
  intro E. unfold Binary64.round.
  rewrite (Qcompare_comp _ _ E 0 0 (Qeq_refl 0)).
  destruct (Qcompare y 0) eqn:C.
  - reflexivity.
  - apply Qlt_alt in C. apply Qopp_comp.
    apply round_magnitude_comp; [lra|rewrite E; reflexivity].
  - apply Qgt_alt in C. apply round_magnitude_comp; [lra|exact E].
Qed.

#[export] Instance round_morphism : Proper (Qeq ==> Qeq) Binary64.round.
Proof. intros x y E. apply round_comp, E. Qed.

(** The rounding error is at most half a unit in the last place. *)
Lemma round_magnitude_error (x : Q) :
  Qabs (Binary64.round_magnitude x - x) <= (1 # 2) * 2 ^ Binary64.ulp_exponent x.
Proof.
  unfold Binary64.round_magnitude.
  set (e := Binary64.ulp_exponent x).
  pose proof (pow2_pos e) as P.
  pose proof (nearest_even_error (x / 2 ^ e)) as N.
  apply Qabs_Qle_condition in N. apply Qabs_Qle_condition.
  set (m := inject_Z (Binary64.nearest_even (x / 2 ^ e))) in *.
  assert (X : x == (x / 2 ^ e) * 2 ^ e) by (field; lra).
  set (q := x / 2 ^ e) in *. set (p := 2 ^ e) in *. clearbody q m p.
  destruct N as [N1 N2]. split; nra.
Qed.

(** A number of magnitude at most [2^k] is rounded by at most [2^(k-53)]. *)
Lemma round_error (k : Z) (x : Q) :
  (-1022 <= k)%Z -> Qabs x <= 2 ^ k ->
  Qabs (Binary64.round x - x) <= 2 ^ (k - 53).
Proof.
  intros K B.
  assert (H : forall y, 0 < y -> y <= 2 ^ k ->
              Qabs (Binary64.round_magnitude y - y) <= 2 ^ (k - 53)).
  { intros y P L. eapply Qle_trans; [apply round_magnitude_error|].
    pose proof (exponent_le_bound y k P L) as E.
    apply (Qle_trans _ ((1 # 2) * 2 ^ (k - 52))).
    - apply Qmult_le_l; [reflexivity|]. apply pow2_le.
      unfold Binary64.ulp_exponent. lia.
    - replace (k - 52)%Z with ((k - 53) + 1)%Z by lia. rewrite pow2_succ.
      apply Qeq_le. ring. }
  unfold Binary64.round. destruct (Qcompare x 0) eqn:C.
  - apply Qeq_alt in C. rewrite C. apply Qlt_le_weak.
    change (Qabs (0 - 0)) with 0. apply pow2_pos.
  - apply Qlt_alt in C. rewrite Qabs_neg in B by lra.
    specialize (H (- x) ltac:(lra) B).
    setoid_replace (- Binary64.round_magnitude (- x) - x)
      with (- (Binary64.round_magnitude (- x) - - x)) by ring.
    rewrite Qabs_opp. exact H.
  - apply Qgt_alt in C. rewrite Qabs_pos in B by lra. apply H; assumption.
Qed.

(** ** Rounding in the decay of power *)

(** The powers of two with a constant exponent, as the fractions they
    are. *)
Ltac pow2_consts :=
  repeat match goal with
  | |- context [Qpower 2 ?e] =>
      let v := eval vm_compute in (Qpower 2 e) in
      change (Qpower 2 e) with v
  | H : context [Qpower 2 ?e] |- _ =>
      let v := eval vm_compute in (Qpower 2 e) in
      change (Qpower 2 e) with v in H
  end.

(** What [round] does to a number between two binary64 numbers. *)
Lemma round_between (lo hi x : Q) :
  Binary64.round lo == lo -> Binary64.round hi == hi ->
  lo <= x <= hi -> lo <= Binary64.round x <= hi.
Proof.
  intros L H [A B]. split.
  - rewrite <- L. apply round_le, A.
  - rewrite <- H. apply round_le, B.
Qed.

Lemma round_error_between (k : Z) (x : Q) :
  (-1022 <= k)%Z -> - 2 ^ k <= x <= 2 ^ k ->
  - 2 ^ (k - 53) <= Binary64.round x - x <= 2 ^ (k - 53).
Proof.
  intros K B. apply Qabs_Qle_condition. apply round_error; [exact K|].
  apply Qabs_Qle_condition. exact B.
Qed.

Lemma Qmax0_close (a b e : Q) :
  - e <= a - b <= e -> - e <= Qmax 0 a - Qmax 0 b <= e.
Proof.
  intros [L U].
  destruct (Q.max_spec 0 a) as [[H1 E1]|[H1 E1]];
  destruct (Q.max_spec 0 b) as [[H2 E2]|[H2 E2]];
  rewrite E1, E2; split; lra.
Qed.

(** One frame: the power stays between 0 and 128, within [2^-43] of the
    exact decay. *)
Lemma decay_error (dt p : Q) :
  0 <= dt -> 0 <= p <= 128 ->
  0 <= Rounded.decay dt p <= 128 /\
  - 2 ^ (-43) <= Rounded.decay dt p - Qmax 0 (p - dt / 1000) <= 2 ^ (-43).
Proof.
  intros D [P0 P1]. unfold Rounded.decay, JS.Math_max, Binary64.sub, Binary64.div,
    Binary64.mul, GAME_CONFIG.POWER_DECAY_RATE.
  assert (M : Binary64.round (1 * dt) == Binary64.round dt)
    by (apply round_comp; ring).
  set (m := Binary64.round (1 * dt)) in *.
  set (q := Binary64.round (m / 1000)).
  set (s := Binary64.round (p - q)).
  assert (M0 : 0 <= m) by (rewrite M; apply round_nonneg, D).
  destruct (Qlt_le_dec 131072 dt) as [Big|Small].
  - assert (M1 : 131072 <= m).
    { rewrite M. apply (Qle_trans _ (Binary64.round 131072)).
      - apply Qeq_le. vm_compute. reflexivity.
      - apply round_le. lra. }
    assert (Q1 : 131 <= q).
    { apply (Qle_trans _ (Binary64.round 131)).
      - apply Qeq_le. vm_compute. reflexivity.
      - apply round_le. lraq. }
    assert (S0 : s <= 0) by (apply round_nonpos; lra).
    assert (E1 : Qmax 0 s == 0) by (apply Q.max_l; exact S0).
    assert (E2 : Qmax 0 (p - dt / 1000) == 0) by (apply Q.max_l; lraq).
    rewrite E1, E2. pow2_consts. repeat split; lra.
  - assert (Me : - 2 ^ (17 - 53) <= m - dt <= 2 ^ (17 - 53)).
    { rewrite M. apply round_error_between; [lia|]. pow2_consts. lra. }
    assert (M1 : m <= 131072).
    { rewrite M. apply (round_between 0 131072); [reflexivity|reflexivity|lra]. }
    assert (Qb : 0 <= q <= 132).
    { apply (round_between 0 132); [reflexivity|reflexivity|]. lraq. }
    assert (Qe : - 2 ^ (8 - 53) <= q - m / 1000 <= 2 ^ (8 - 53)).
    { apply round_error_between; [lia|]. pow2_consts. lraq. }
    assert (Sb : -132 <= s <= 128).
    { apply (round_between (-132) 128); [reflexivity|reflexivity|]. lra. }
    assert (Se : - 2 ^ (8 - 53) <= s - (p - q) <= 2 ^ (8 - 53)).
    { apply round_error_between; [lia|]. pow2_consts. lra. }
    split.
    + destruct (Q.max_spec 0 s) as [[H E]|[H E]]; rewrite E; lra.
    + apply Qmax0_close. pow2_consts. lraq.
Qed.

(** The frames [dts]: the rounded power is within [2^-43] per frame of
    what the total time leaves of [p], and as far again as it started from
    [p]. *)
Lemma decays_error (dts : list Q) :
  Forall (fun dt => 0 < dt) dts ->
  forall p' p : Q,
    0 <= p' <= 128 -> 0 <= p ->
    Qabs (Rounded.decays dts p' - Qmax 0 (p - total dts / 1000))
    <= Qabs (p' - p) + inject_Z (Z.of_nat (List.length dts)) * 2 ^ (-43).
Proof.
  induction 1 as [|d ds Hd Hds IH]; intros p' p B P.
  - cbn [Rounded.decays List.length total fold_right].
    assert (E : Qmax 0 (p - 0 / 1000) == p)
      by (rewrite Q.max_r by lraq; lraq).
    rewrite E. change (inject_Z (Z.of_nat 0)) with 0. lra.
  - cbn [Rounded.decays List.length total fold_right]. fold (total ds).
    destruct (decay_error d p' (Qlt_le_weak _ _ Hd) B) as [B' E'].
    pose proof (total_nonneg ds Hds) as T.
    assert (X : Qmax 0 (p - (d + total ds) / 1000)
                == Qmax 0 (Qmax 0 (p - d / 1000) - total ds / 1000)).
    { rewrite max0_step by lraq. apply Q.max_compat; [reflexivity|lraq]. }
    rewrite X.
    eapply Qle_trans; [apply (IH _ (Qmax 0 (p - d / 1000)) B')|].
    + apply Q.le_max_l.
    + rewrite Nat2Z.inj_succ. unfold Z.succ. rewrite inject_Z_plus.
      change (inject_Z 1) with 1.
      assert (C : Qabs (Rounded.decay d p' - Qmax 0 (p - d / 1000))
                  <= Qabs (p' - p) + 2 ^ (-43)).
      { assert (N : - Qabs (p' - p) <= Qmax 0 (p' - d / 1000) - Qmax 0 (p - d / 1000)
                    <= Qabs (p' - p)).
        { apply Qmax0_close. apply Qabs_Qle_condition.
          setoid_replace (p' - d / 1000 - (p - d / 1000)) with (p' - p) by ring.
          apply Qle_refl. }
        apply Qabs_Qle_condition. pose proof (Qabs_nonneg (p' - p)).
        split; lra. }
      set (n := inject_Z (Z.of_nat (List.length ds))) in *.
      set (e := 2 ^ (-43)) in *. lra.
Qed.

(** C9.  The decay of power depends on the total time only up to the
    rounding of the engine's arithmetic: over positive frame times, from a
    power between 0 and 128, the power [Player.update] computes frame by
    frame in binary64 is within [2^-43] per frame of
    [max(0, power - total / 1000)], its stop at zero included; so two
    sequences of frames with the same sum leave powers that differ by at
    most [2^-43] per frame of the two, and need not leave the same. *)
Theorem power_decay_up_to_rounding (dts1 dts2 : list Q) (power : Q) :
  Forall (fun dt => 0 < dt) dts1 ->
  Forall (fun dt => 0 < dt) dts2 ->
  total dts1 == total dts2 ->
  0 <= power <= 128 ->
  Qabs (Rounded.decays dts1 power - JS.Math_max 0 (power - total dts1 / 1000))
  <= inject_Z (Z.of_nat (List.length dts1)) * 2 ^ (-43) /\
  Qabs (Rounded.decays dts1 power - Rounded.decays dts2 power)
  <= inject_Z (Z.of_nat (List.length dts1 + List.length dts2)) * 2 ^ (-43).
Proof.
  intros F1 F2 T P.
  pose proof (decays_error dts1 F1 power power P (proj1 P)) as E1.
  pose proof (decays_error dts2 F2 power power P (proj1 P)) as E2.
  assert (Z0 : Qabs (power - power) == 0).
  { setoid_replace (power - power) with 0 by ring. reflexivity. }
  rewrite Z0 in E1, E2.
  assert (X : Qmax 0 (power - total dts2 / 1000) == Qmax 0 (power - total dts1 / 1000)).
  { apply Q.max_compat; [reflexivity|]. rewrite T. reflexivity. }
  rewrite X in E2. unfold JS.Math_max.
  set (a := Rounded.decays dts1 power) in *.
  set (b := Rounded.decays dts2 power) in *.
  set (c := Qmax 0 (power - total dts1 / 1000)) in *.
  rewrite Nat2Z.inj_add, inject_Z_plus.
  set (n1 := inject_Z (Z.of_nat (List.length dts1))) in *.
  set (n2 := inject_Z (Z.of_nat (List.length dts2))) in *.
  set (e := 2 ^ (-43)) in *.
  split; [lra|].
  apply Qabs_Qle_condition in E1. apply Qabs_Qle_condition in E2.
  apply Qabs_Qle_condition. split; lra.
Qed.

Lemma power_decay_up_to_rounding_witness :
  Forall (fun dt => 0 < dt) [16; 16; 16] /\
  Forall (fun dt => 0 < dt) [48] /\
  total [16; 16; 16] == total [48] /\
  Qabs (Rounded.decays [16; 16; 16] 100 - Rounded.decays [48] 100)
  <= inject_Z (Z.of_nat (List.length [16; 16; 16] + List.length [48])) * 2 ^ (-43).
Proof.
  assert (F1 : Forall (fun dt => 0 < dt) [16; 16; 16]) by (repeat constructor).
  assert (F2 : Forall (fun dt => 0 < dt) [48]) by (repeat constructor).
  assert (T : total [16; 16; 16] == total [48]) by reflexivity.
  split; [exact F1|]. split; [exact F2|]. split; [exact T|].
  apply (power_decay_up_to_rounding [16; 16; 16] [48] 100 F1 F2 T).
  split; [discriminate|discriminate].
Defined.

(** Three frames of 16 ms leave 99.95199999999998 of a power of 100 and
    one frame of 48 ms leaves 99.952; one frame of 10 ms leaves nothing of
    the binary64 number 0.01 and frames of 1 ms and 9 ms leave
    1.7e-18. *)
Lemma power_decay_counterexample :
  Forall (fun dt => 0 < dt) [16; 16; 16] /\
  Forall (fun dt => 0 < dt) [48] /\
  total [16; 16; 16] == total [48] /\
  Rounded.decays [16; 16; 16] 100 == 7033496718045871 # 70368744177664 /\
  Rounded.decays [48] 100 == 439593544877867 # 4398046511104 /\
  ~ Rounded.decays [16; 16; 16] 100 == Rounded.decays [48] 100 /\
  total [10] == total [1; 9] /\
  Rounded.decays [10] (Binary64.round 0.01) == 0 /\
  Rounded.decays [1; 9] (Binary64.round 0.01) == 1 # 576460752303423488.
Proof.
  split; [repeat constructor|]. split; [repeat constructor|].
  split; [reflexivity|].
  split; [vm_compute; reflexivity|]. split; [vm_compute; reflexivity|].
  split; [vm_compute; discriminate|].
  split; [reflexivity|].
  split; vm_compute; reflexivity.
Qed.

(** ** The session clock in binary64 *)

Lemma gameLoop_idle (dt : Q) (crash : bool) (c : Clock.t) :
  ticking c = false -> Clock.gameLoop dt crash c = c.
Proof.
  unfold ticking, Clock.gameLoop, Clock.update.
  destruct (Clock.isGameLoopRunning c); cbn [negb andb]; [|reflexivity].
  intros ->. reflexivity.
Qed.


(** A frame on a session that goes on: the timer runs out, or the speed
    progression is run and the game is lost or goes on. *)
Lemma gameLoop_ticking (dt : Q) (crash : bool) (c : Clock.t) :
  ticking c = true ->
  let c1 := Clock.set_gameTime (Binary64.sub (Clock.gameTime c) dt) c in
  Clock.gameLoop dt crash c =
  if JS.le (Binary64.sub (Clock.gameTime c) dt) 0 then Clock.endGame c1
  else if crash then Clock.endGame (Clock.updateSpeedProgression c1)
       else Clock.updateSpeedProgression c1.
Proof.
  unfold ticking, Clock.gameLoop, Clock.update. intro T.
  apply andb_true_iff in T. destruct T as [-> ->]. reflexivity.
Qed.

Lemma updateSpeedProgression_ticking (c : Clock.t) :
  ticking (Clock.updateSpeedProgression c) = ticking c /\
  Clock.gameTime (Clock.updateSpeedProgression c) = Clock.gameTime c.
Proof.
  unfold Clock.updateSpeedProgression. cbv zeta.
  destruct (JS.ge (Clock.timeElapsed c) 20 && _);
    match goal with |- context [JS.ge ?a 40 && ?b] => destruct (JS.ge a 40 && b) end;
    split; reflexivity.
Qed.

(** A frame after which the session goes on ran the speed progression on
    a timer above 0. *)
Lemma ticking_after (dt : Q) (crash : bool) (c : Clock.t) :
  ticking (Clock.gameLoop dt crash c) = true ->
  ticking c = true /\
  JS.le (Binary64.sub (Clock.gameTime c) dt) 0 = false /\
  Clock.gameTime (Clock.gameLoop dt crash c) = Binary64.sub (Clock.gameTime c) dt.
Proof.
  intro T. destruct (ticking c) eqn:Tc.
  2:{ rewrite (gameLoop_idle dt crash c Tc) in T. congruence. }
  rewrite (gameLoop_ticking dt crash c Tc) in T |- *. cbv zeta in *.
  destruct (JS.le _ 0); [discriminate T|].
  destruct crash.
  - exfalso. unfold ticking, Clock.endGame in T. cbn in T. discriminate T.
  - destruct (updateSpeedProgression_ticking
                (Clock.set_gameTime (Binary64.sub (Clock.gameTime c) dt) c))
      as [_ G].
    rewrite G. repeat split.
Qed.



(** *** The timer and the time that has passed *)

Lemma of_nat_succ (k : nat) :
  inject_Z (Z.of_nat (S k)) == inject_Z (Z.of_nat k) + 1.
Proof.
  rewrite Nat2Z.inj_succ. unfold Z.succ. rewrite inject_Z_plus. reflexivity.
Qed.


(** A frame that leaves the session going on leaves its timer on time. *)
Lemma on_time_frame (dt : Q) (crash : bool) (c : Clock.t) (s : Q) (k : nat) :
  0 <= dt -> on_time s k c ->
  on_time (s + dt) (S k) (Clock.gameLoop dt crash c).
Proof.
  intros D H T. destruct (ticking_after dt crash c T) as (Tc & Le & ->).
  destruct (H Tc) as ([T0 T1] & E).
  apply Qabs_Qle_condition in E. apply le_false in Le.
  unfold Binary64.sub in *. unfold GAME_CONFIG.GAME_DURATION in *.
  set (t := Clock.gameTime c) in *.
  assert (P : 0 < t - dt).
  { destruct (Qlt_le_dec 0 (t - dt)) as [P|N]; [exact P|].
    pose proof (round_nonpos _ N). lra. }
  assert (B : 0 <= Binary64.round (t - dt) <= 60000).
  { apply (round_between 0 60000); [reflexivity|reflexivity|lra]. }
  assert (R : - 2 ^ (16 - 53) <= Binary64.round (t - dt) - (t - dt) <= 2 ^ (16 - 53)).
  { apply round_error_between; [lia|]. pow2_consts. lra. }
  split; [lra|]. apply Qabs_Qle_condition. rewrite of_nat_succ.
  set (n := inject_Z (Z.of_nat k)) in *. pow2_consts. split; lra.
Qed.









(** *** The speed of a new entity *)









(** ** The lane change in binary64 *)






(** The 75 ms that are left of a lane change half way do not complete it
    in three frames of 25 ms: the progress stops at 0.9999999999999999,
    with the player in the lane it leaves. *)
Lemma lane_change_short_of_rounding :
  (1 - Player.laneChangeProgress Scenario.changing) * 150 <= total [25; 25; 25] /\
  Player.laneChangeProgress (Rounded.animations [25; 25; 25] Scenario.changing)
  == 9007199254740991 # 9007199254740992 /\
  Player.currentLane (Rounded.animations [25; 25; 25] Scenario.changing) = 1%Z /\
  Player.targetLane (Rounded.animations [25; 25; 25] Scenario.changing) = 2%Z.
Proof.
  split; [vm_compute; discriminate|].
  split; [vm_compute; reflexivity|]. split; vm_compute; reflexivity.
Qed.

(** ** The end of the session on the clock *)

Lemma on_time_frames (fs : list (Q * bool)) :
  Forall (fun dt => 0 <= dt) (times fs) ->
  forall (c : Clock.t) (s : Q) (k : nat),
    on_time s k c ->
    on_time (s + total (times fs)) (k + List.length fs) (Clock.frames fs c).
Proof.
  induction fs as [|[dt crash] fs IH]; intros F c s k H.
  - cbn [Clock.frames List.length]. rewrite Nat.add_0_r.
    intro T. destruct (H T) as [B E]. split; [exact B|].
    unfold times, total. cbn [map fold_right].
    setoid_replace (s + 0) with s by ring. exact E.
  - unfold times in *. cbn [map fst List.length Clock.frames] in *.
    inversion F as [|? ? D F']; subst.
    replace (k + S (List.length fs))%nat with (S k + List.length fs)%nat by lia.
    pose proof (IH F' _ _ _ (on_time_frame dt crash c s k D H)) as G.
    intro T. destruct (G T) as [B E]. split; [exact B|].
    rewrite total_cons.
    setoid_replace (s + (dt + total (map fst fs))) with (s + dt + total (map fst fs))
      by ring.
    exact E.
Qed.

Lemma frames_idle (fs : list (Q * bool)) (c : Clock.t) :
  ticking c = false -> Clock.frames fs c = c.
Proof.
  intro T. induction fs as [|[dt crash] fs IH]; [reflexivity|].
  cbn [Clock.frames]. rewrite gameLoop_idle by exact T. exact IH.
Qed.

(** A session that no longer goes on after frames has been ended by one
    of them. *)
Lemma frames_ended (fs : list (Q * bool)) :
  forall c : Clock.t,
    ticking c = true -> ticking (Clock.frames fs c) = false ->
    Clock.gameState (Clock.frames fs c) = GAME_OVER /\
    Clock.isGameLoopRunning (Clock.frames fs c) = false.
Proof.
  induction fs as [|[dt crash] fs IH]; intros c T E.
  - cbn [Clock.frames] in E. congruence.
  - cbn [Clock.frames] in *.
    destruct (ticking (Clock.gameLoop dt crash c)) eqn:T1; [apply IH; assumption|].
    rewrite frames_idle by exact T1.
    pose proof (gameLoop_ticking dt crash c T) as G. cbv zeta in G.
    destruct (JS.le (Binary64.sub (Clock.gameTime c) dt) 0);
      [rewrite G; split; reflexivity|].
    destruct crash; [rewrite G; split; reflexivity|].
    rewrite G in T1.
    destruct (updateSpeedProgression_ticking
                (Clock.set_gameTime (Binary64.sub (Clock.gameTime c) dt) c)) as [U _].
    rewrite U in T1. unfold ticking in T, T1. cbn in T1. congruence.
Qed.

(** X20.  The timer ends the session, up to the rounding of the engine's
    arithmetic: in binary64, frames of non-negative length that together
    last the time left on the timer and [2^-37] ms more per frame leave a
    session that was going on over, with the loop stopped -- whether or not
    the game is lost in one of them, and however the time is cut into
    frames. *)
Theorem session_ends_when_time_is_up (fs : list (Q * bool)) (c : Clock.t) :
  Forall (fun dt => 0 <= dt) (times fs) ->
  ticking c = true ->
  0 < Clock.gameTime c <= GAME_CONFIG.GAME_DURATION ->
  Clock.gameTime c + inject_Z (Z.of_nat (List.length fs)) * 2 ^ (-37)
  <= total (times fs) ->
  Clock.gameState (Clock.frames fs c) = GAME_OVER /\
  Clock.isGameLoopRunning (Clock.frames fs c) = false.
Proof.
  intros F T B D. apply frames_ended; [exact T|].
  destruct (ticking (Clock.frames fs c)) eqn:T'; [exfalso|reflexivity].
  assert (H : on_time (GAME_CONFIG.GAME_DURATION - Clock.gameTime c) 0 c).
  { intros _. split; [exact B|].
    apply Qabs_Qle_condition. change (inject_Z (Z.of_nat 0)) with 0. split; lra. }
  destruct (on_time_frames fs F c _ 0%nat H T') as [[P _] E].
  apply Qabs_Qle_condition in E. cbn [Nat.add] in E.
  unfold GAME_CONFIG.GAME_DURATION in *.
  set (t := Clock.gameTime c) in *.
  set (t' := Clock.gameTime (Clock.frames fs c)) in *.
  set (n := inject_Z (Z.of_nat (List.length fs))) in *.
  set (e := 2 ^ (-37)) in *. lra.
Qed.

Lemma session_ends_when_time_is_up_witness :
  Forall (fun dt => 0 <= dt) (times [(30000, false); (20000, false); (10001, false)]) /\
  ticking fresh_clock = true /\
  Clock.gameState
    (Clock.frames [(30000, false); (20000, false); (10001, false)] fresh_clock)
  = GAME_OVER.
Proof.
  assert (F : Forall (fun dt => 0 <= dt)
                (times [(30000, false); (20000, false); (10001, false)]))
    by (repeat constructor; discriminate).
  split; [exact F|]. split; [reflexivity|].
  apply (session_ends_when_time_is_up _ fresh_clock F eq_refl).
  - split; [reflexivity|discriminate].
  - vm_compute. discriminate.
Defined.

(** Ten frames of the binary64 number 0.1 last more than the 1 ms left on
    a timer and leave the session going on, with 1.4e-16 ms on the
    timer. *)
Lemma timer_short_of_rounding :
  let c := Clock.mk PLAYING true 1 1 false false in
  let fs := repeat (Binary64.round 0.1, false) 10 in
  Clock.gameTime c <= total (times fs) /\
  ticking (Clock.frames fs c) = true /\
  Clock.gameTime (Clock.frames fs c) == 5 # 36028797018963968.
Proof.
  cbv zeta. split; [vm_compute; discriminate|].
  split; vm_compute; reflexivity.
Qed.

(** ** Rounding in the speeds of the constructors *)

Lemma npcSpeed_in_range (r : Q) :
  0 <= r < 1 -> 175 <= Rounded.npcSpeed r <= 225.
Proof.
  intro R. unfold Rounded.npcSpeed, Binary64.add, Binary64.mul, Binary64.sub,
    GAME_CONFIG.NPC_SPEED.
  assert (A : - (1 # 2) <= Binary64.round (r - 0.5) <= 1 # 2).
  { apply round_between; [reflexivity|reflexivity|lra]. }
  set (a := Binary64.round (r - 0.5)) in *.
  assert (B : -25 <= Binary64.round (a * 50) <= 25).
  { apply round_between; [reflexivity|reflexivity|lra]. }
  set (b := Binary64.round (a * 50)) in *.
  apply round_between; [reflexivity|reflexivity|lra].
Qed.

Lemma coinSpeed_in_range (r : Q) :
  0 <= r < 1 -> 185 <= Rounded.coinSpeed r <= 215.
Proof.
  intro R. unfold Rounded.coinSpeed, Binary64.add, Binary64.mul, Binary64.sub,
    GAME_CONFIG.NPC_SPEED.
  assert (A : - (1 # 2) <= Binary64.round (r - 0.5) <= 1 # 2).
  { apply round_between; [reflexivity|reflexivity|lra]. }
  set (a := Binary64.round (r - 0.5)) in *.
  assert (B : -15 <= Binary64.round (a * 30) <= 15).
  { apply round_between; [reflexivity|reflexivity|lra]. }
  set (b := Binary64.round (a * 30)) in *.
  apply round_between; [reflexivity|reflexivity|lra].
Qed.

(** X17.  With [Math.random()] in [0, 1) every random pick is in range:
    the lane drawn for a spawn is a lane 0..2; the car of a new NPC is an
    entry of the table of car types, whose size the NPC has, so that the
    table is never indexed out of range; the NPC starts in its lane, at
    -100, at a speed from 175 to 225, and a new coin at a speed from 185 to
    215.  The speeds the constructors compute in binary64 are in the same
    ranges, whose upper ends they reach: with the largest number below 1
    for [Math.random()] the rounding gives 225 and 215. *)
Theorem random_picks_in_range (w : World) :
  random_in_range w ->
  (0 <= fst (GameManager.randomLane w) <= 2)%Z /\
  (forall lane,
     let n := fst (NPC.new lane w) in
     In (car_of n) NPC.carTypes /\
     GameObject.width (NPC.obj n) = NPC.carWidth n /\
     GameObject.height (NPC.obj n) = NPC.carHeight n /\
     GameObject.x (NPC.obj n) = GAME_CONFIG.lane lane /\
     GameObject.y (NPC.obj n) = -100 /\
     175 <= GameObject.velocityY (NPC.obj n) <= 225 /\
     NPC.lane n = lane /\ NPC.targetLane n = lane /\
     NPC.originalX n = GAME_CONFIG.lane lane) /\
  (forall lane,
     let c := fst (Coin.new lane w) in
     GameObject.x (Coin.obj c) = GAME_CONFIG.lane lane /\
     GameObject.y (Coin.obj c) = -50 /\
     185 <= GameObject.velocityY (Coin.obj c) <= 215) /\
  (forall r, 0 <= r < 1 ->
     175 <= Rounded.npcSpeed r <= 225 /\ 185 <= Rounded.coinSpeed r <= 215) /\
  Rounded.npcSpeed largest_below_1 == 225 /\
  Rounded.coinSpeed largest_below_1 == 215.
Proof.
  intro R. split; [apply randomLane_in_range, R|].
  split; [|split; [|split; [|split]]].
  - intro lane. cbv zeta.
    pose proof (NPC_new_in_range lane w R) as N. cbv zeta in N.
    destruct N as (N1 & N2 & N3 & N4 & N5 & [N6 N7] & N8).
    repeat split; try tauto; lra.
  - intro lane. cbv zeta.
    pose proof (Coin_new_in_range lane w R) as N. cbv zeta in N.
    destruct N as (N1 & N2 & [N3 N4]).
    repeat split; try assumption; lra.
  - intros r Rr. split; [apply npcSpeed_in_range|apply coinSpeed_in_range]; exact Rr.
  - vm_compute. reflexivity.
  - vm_compute. reflexivity.
Qed.

Lemma random_picks_in_range_witness :
  random_in_range (Scenario.world Scenario.unused Scenario.unused) /\
  (0 <= fst (GameManager.randomLane
               (Scenario.world Scenario.unused Scenario.unused)) <= 2)%Z.
Proof.
  assert (R : random_in_range (Scenario.world Scenario.unused Scenario.unused))
    by (intro n; cbn; lra).
  split; [exact R|].
  apply (random_picks_in_range _ R).
Defined.

